(* ===== verification/_CoqProject ===== *)
-Q . S2P
Prelude.v
Float64.v
PrimeField.v
Curve.v
ModelCurve.v
Cofactor.v
Polynomial.v
Dleq.v
Reconstruct.v
Dkg.v
Resharing.v
DkgProtocol.v
ConcreteCurves.v
Schnorr.v
Encryption.v
NodeSelection.v
Serialization.v
ZkMask.v
Request.v
Messages.v
Election.v
ElectionProofs.v
DkgEngine.v
DkgEngineProofs.v
EngineRun.v
ReshareRun.v
AppState.v
AppStateProofs.v
AppStateSafety.v
Gossip.v
Rpc.v
System.v
Keygen.v
Signer.v
SignerProofs.v
SystemExamples.v
Handover.v
Ingester.v
IngesterApi.v
IngesterProofs.v
IngesterPoints.v
IngesterRun.v
Kafka.v
TaskProofs.v
Sdk.v
SdkProofs.v
Cli.v
CliProofs.v
Supervision.v
SupervisionProofs.v
Startup.v
Registry.v
Observer.v
ObserverProofs.v
