(* ===== verification/Prelude.v ===== *)
(** * Human Network: a verification development

    The Human Network is a quorum of nodes that jointly hold secret keys on two curves
    and multiply points by them on request (an oblivious pseudo-random function,
    threshold decryption, and a PRF of a web token).  All sources named below are under
    src/network/crates unless they start with src/.

    ** The program and its model

    - The cryptography crate is a library of pure functions over the traits
      [ScalarTrait], [PointTrait] and [Curve].
    - The election engine (an actor on every node, in charge on the relay) chooses a
      quorum from the registered provers and synchronises the rounds of the key
      generation and of the resharing: it gossips the start of a round once every member
      reported the previous one.
    - The DKG engine (an actor on every node) keeps four key pairs, two on each curve,
      and takes them through the rounds as the gossiped messages arrive.
    - The application state (an actor on every node) keeps what the engines produce
      (quorum, shares, group keys) in memory and in a database.  On the relay it takes
      requests, forwards them to provers, and collects, checks and combines their proofs;
      on a prover it answers requests; background tasks watch a key generation or
      resharing and save its result or roll it back.
    - The gossip engine owns the peer-to-peer swarm and routes messages between the
      network and the actors.  The RPC server exposes the actors to clients and
      operators, and the signer service stands between clients and the relay's RPC.
    - The relay batches the proofs of served requests and submits them as a task; the
      verifier service checks a batch, and the contract's events about accepted tasks reach
      the ingester.  The ingester also takes the relay's Kafka messages; it keeps a database
      of requests, quorums, reachability and operator points and reports it over HTTP.
    - The SDK is the client library of the network; the command-line tool sends requests and
      administers nodes; the registry tool enters a node into the registry contract.
    - The node binary starts the four actors under supervisors and spawns them again when
      they fail; it takes its configuration from the environment and the provers from a
      registry contract.
    - The observer checks Clean Hands proofs, stores them with the signed access contract
      under which the network decrypts them, and has attestations issued.
    - A request to the network is signed, accounted against the signer's credits, sent
      to the nodes that the request number selects, answered with DLEQ proofs, and the
      answers are combined by Lagrange interpolation.

    The files, in order, with the sources they translate:

    - [Prelude]: outcomes (Rust's [Result] with panics), machine integers, byte strings,
      hash-map iteration order, shared list and arithmetic lemmas, tactics and the hint
      databases.
    - [Float64]: IEEE 754 doubles on the Standard Library's [SpecFloat], with the casts of
      Rust, and when integers and their sums are exact.
    - [PrimeField]: the contract of [ff::PrimeField], polynomials and Lagrange
      interpolation over it.
    - [Curve]: cryptography/src/curve.rs, the traits as the class [Curve]; what the
      protocols need of the group is the class [CurveLaws]; the enum [Error] and the hash
      functions of lib.rs.  [ModelCurve]: a small concrete instance of every class, at
      which the theorems are exercised.  [Cofactor]: points outside the prime-order
      subgroup, which [from_encoded] gives on BabyJubJub: the class [CofactorLaws] with the
      projection [clear] to the subgroup, and a small curve with cofactor 2.
    - [Polynomial]: polynomial.rs.  [Dleq]: lib.rs (DLEQ proofs, OPRF).  [Reconstruct]:
      reconstruct.rs.  [Dkg], [Resharing]: dkg.rs, resharing.rs.  [DkgProtocol]: the
      rounds composed over a whole network of nodes.
    - [ConcreteCurves]: the two implementations in curve.rs and twisted_conversion.rs,
      modules [Secp256k1] and [BabyJubJub].
    - [Schnorr], [Encryption], [NodeSelection], [Serialization], [ZkMask]:
      schnorrsig.rs, encryption.rs, node_selection.rs, serialization.rs, zkinjmask.rs.
    - [Request]: messages/src/network_utils.rs and jwt.rs.  [Messages]: message.rs,
      drand.rs, utils.rs and the types of lib.rs.
    - [Election], [ElectionProofs]: actors/src/election_actor.rs and election_context.rs.
      The state is [World]: the actor's [ElectionEngineState] with the process-wide
      exclusion list, the parameters of node_selection.rs and the database.  One
      definition per message; [handle] is the actor's [handle].
    - [DkgEngine], [DkgEngineProofs], [EngineRun], [ReshareRun]:
      actors/src/dkg_engine_actor.rs and quorum_context.rs.  The state is the optional
      [DKGEngineState]; [handle_dkg] is the actor's [handle].  The last two files run the
      engines of a whole quorum through a key generation and a resharing.
    - [AppState], [AppStateProofs], [AppStateSafety]: actors/src/app_state_actor.rs.  The
      state is [AppWorld] (the optional [NodeState] of a relay, prover or verifier, and
      the database); [app_handle] is the actor's [handle] and [app_run] its mailbox;
      [monitor_quorum_formation] and [timer_event] are the background tasks.
    - [Gossip]: actors/src/gossip_engine_actor.rs.  The state is [Listener];
      [on_swarm_event] and [on_input] are the two sources of its event loop,
      [process_message] the dispatch to the actors.
    - [Rpc]: rpc/src/lib.rs, one definition per method, on the states of the actors; the
      method that hands out key shares also as interleaving steps ([ks_step]).
    - [System]: the relay's and the provers' application states, listeners and the RPC
      server composed.  [Keygen]: the outputs of the DKG engines handed over to them.
    - [Signer], [SignerProofs]: signer/src/main.rs.  The relay's RPC is the class
      [HumanRpc] with the law [PollsAreFinal], which the modelled RPC server satisfies.
    - [SystemExamples]: a small network at which the theorems of the last eight files are
      applied.  [Handover]: the outputs of a resharing handed over to the application states.
    - [Ingester]: ingester/src/task_monitor.rs, message_ingester.rs, models.rs,
      daily_points_updater.rs and the loop of main.rs, messages/src/kafka.rs.  The state is
      [Db], the tables with their keys and sequences; a statement is an [Sql] action that
      can fail and a transaction restores the tables.  [IngesterApi]:
      ingester/src/handlers.rs and api_models.rs, one definition per endpoint.
      [IngesterProofs], [IngesterPoints], [IngesterRun]: the ingestion as a refinement of a
      log of events, the sums of points, and the interleaving of the service's tasks.
    - [Kafka]: the producer and consumer of messages/src/kafka.rs, the records of the relay and
      the ingester's loop; the brokers are the class [Rdkafka].
    - [TaskProofs]: messages/src/task_proofs.rs and verifier/src/main.rs.
    - [Sdk], [SdkProofs]: src/network/human-network-sdk/src/lib.rs.  The relay and the
      signer service are the class [Service], which the modelled RPC server implements.
    - [Cli], [CliProofs]: cli/src/main.rs.  A run is an action on the servers behind a URL
      ([HumanRpcClient], implemented by the modelled RPC server) that prints lines.
    - [Supervision], [SupervisionProofs]: actors/src/actor_manager.rs and lib.rs,
      messages/src/actor_type.rs, the supervisors of the four actor files and
      node/src/main.rs.  The state is [NodeWorld]: the registry of names with the states of
      the actors and the failed ones that wait; [node_step] is a message or a round of
      [handle_actor_panic].
    - [Startup]: env/src/environment.rs, network/src/utils.rs and network.rs, the arguments
      of node/src/main.rs.  [Registry]: registry_iface/src/main.rs, the transaction that
      registers a node, and what the others read back.
    - [Observer], [ObserverProofs]: observer/src.  A handler is a program of calls to other
      services ([Prog]); the theorems are about its traces under any answers, about
      requests one after the other, and about interleavings ([run_schedule]).

    ** Conventions

    A Rust function that can fail or panic returns an [outcome]: [Ok], [Err] or [Panic].
    An actor's handler returns the new state, the list of messages it emits in order, and
    how it ended; a handler that stops with an error keeps the state changes and messages
    before it.  Integers are [Z] with their width where it matters ([u32], [u64], [u128],
    the wrapping exponent of [verify_vss]); bytes are [Z] in range.  A [HashMap] is a
    [gmap], and a loop over one visits its entries in an order given by the class
    [HashOrder], so the theorems hold for every order.  Random values are arguments.

    Code outside the repository is a parameter with named laws: the field arithmetic of
    [ff], [k256] and [ark_ff] ([PrimeField], [CurveLaws], [CofactorLaws], [Ark], ...), RSA ([Rsa],
    [RsaLaws]: decryption inverts encryption), the hash functions ([Hashes]), argon2
    ([Kdf]), ChaCha8 and [gen_range] ([Rng], [RngLaws]), the floating point of
    elections and sampling ([F64], [ThresholdFloat], with [binary64] as their IEEE
    instance), the order in which a database delivers rows ([RowOrder]), JSON texts
    ([KafkaCodec], [SdkTexts], [AppTexts], ...), Ethereum, Redis and token libraries ([Eth], [Jwt]), the drand check ([Drand]).  Each
    class has a concrete instance, and every theorem with a hypothesis is applied at a
    concrete input by the lemma of the same name with the suffix _witness.

    Bounds: the hash-to-curve loops run over their 1024 counters and the Koblitz loop over
    its [2^63] counters ([search] is binary recursion on the number of counters, which
    stops at the first hit, so the source's own bounds are used); the loops that wait for
    the outside world (enough registered provers, enough answers to pings) consume a list of
    answers and end in [HWaiting] when it is exhausted.  Only [monitor_loop] takes fuel, a
    number of ticks, and [monitor_terminates] proves that 120 are enough.

    ** What the theorems show

    - Threshold cryptography: interpolation, Feldman sharing (complete and binding),
      DLEQ completeness and special soundness, the OPRF, threshold multiplication, honest
      runs of the key generation and the resharing, and what a node that completes a
      round knows whatever it was sent, also points outside the prime-order subgroup.
    - Engines: the engines of a quorum generate the keys for every order of delivery
      ([engines_generate_keys]), and those of an old and a new quorum reshare them
      ([engines_reshare_keys]); whose messages the DKG engine counts, and what its round 1
      makes public.
    - Elections: a barrier opens if and only if all members reported; what an election
      and a re-election install and announce; the threshold and when the key generation
      accepts it; the beacon check; what survives a restart.
    - The whole network: the keys that the engines generate make the relay and the provers
      ready to serve ([keygen_ready_to_serve]); a client's request to the signer service
      comes back as the point times the secret for every order of the provers' answers
      ([client_served]); relay and provers agree on who serves a request, and to whom it is
      forwarded with and without spare provers; after a resharing
      the relay and the new quorum serve ([resharing_ready_to_serve]); a served request is
      reported once in the ingester's tables ([served_request_reported]).
    - The application state: exactly one answer per request, what becomes of a request on
      each branch, bounds on what is stored, the majority of group keys, rollback restores
      what was saved, the monitor ends; and that one prover can complete a request alone.
    - Gossip and RPC: forwarded requests form a queue that expires, the first election is started
      once, which messages end the listener; who gets key shares, and the race between
      two calls; export and import of shares.
    - The signer service: the rate limit over any window and how it can stick, numbers of
      requests, and that a slow request fails after one poll.
    - Task proofs: the verifier accepts every batch the relay submits, and exactly the batches
      whose proofs verify, however short or unsigned.
    - The ingester: recording a task is atomic and refines an append-only log of events, the
      three generations of the points endpoint agree over any run of the service, pages
      partition the requests, and no text of a client reaches the SQL of a query.
    - The SDK: both ways to the OPRF give the key times the input's point whatever the
      masks, and decryption inverts encryption within the number of polls.
    - The command line: a run prints the PRF of its input ([cli_evaluates_prf]); key shares
      move between provers by three runs ([cli_moves_key_shares]), in exactly the format that
      the option accepts ([keyshares_option]).
    - Failures: a failed engine runs again within four rounds of the respawning loop, and
      when it is lost for good; a crash of the application state after a save loses nothing
      that was saved ([crash_recovery]); a respawned gossip engine is cut off.
    - Start: the provers a node reads from the registry are well formed, and a node whose
      registration was executed is among them with its keys, while a reverted one is not
      noticed ([registered_prover_listed]).
    - The observer: an attestation is issued only for what was checked and paid, once for a
      nullifier unless requests race; what is stored is found again, except on Sui.  The address of
      an EVM recipient is a parameter: the lines that compute it do not type-check.
    - Requests: selection of nodes, credits are never exceeded and are all that is checked, what ties the extra data
      to the point, and what is not checked (replays, the enclave's public mask).
    - Curves, codecs, signatures, encryption, sampling: hash to curve, round trips with
      the exact range in which they hold, completeness and uniqueness.

    ** Not modelled

    Expiry of the in-memory caches of the application state (those of the listener expire), and
    logging with its set-up (telemetry, the Datadog client), the encoding of points for log lines
    included.  The transport of messages (libp2p and the configuration of
    its behaviours, HTTP servers, rdkafka, clap) and the database migrations: library calls
    without logic of the program.  The upstream queries of the ingester: their answers are
    arguments.  The hand-written [Clone] of messages, which copies every variant or panics, and
    the names of messages in logs.  The prototype v0_nodes: of its binaries only v0_verifier
    is still built, whose handler is that of the verifier; the others do not match the current
    interfaces.

    This file: outcomes, integers, bytes, hash-map order, shared lemmas and tactics. *)
From Stdlib Require Import ZArith Lia Znumtheory Ascii String.
From stdpp Require Import base list gmap strings.

Global Open Scope Z_scope.

(** ** Outcomes: Rust's [Result] plus panics

    [Ok]/[Err] are the constructors of [Result]; [Panic] is an [assert!],
    an [unwrap] of [None]/[Err], an index out of bounds or a remainder by
    zero. *)
Inductive outcome (E A : Type) : Type :=
  | Ok (a : A)
  | Err (e : E)
  | Panic.
Arguments Ok {E A} a.
Arguments Err {E A} e.
Arguments Panic {E A}.

#[export] Instance outcome_ret E : MRet (outcome E) := λ A a, Ok a.
#[export] Instance outcome_bind E : MBind (outcome E) := λ A B k m,
  match m with Ok a => k a | Err e => Err e | Panic => Panic end.
#[export] Instance outcome_fmap E : FMap (outcome E) := λ A B f m,
  match m with Ok a => Ok (f a) | Err e => Err e | Panic => Panic end.

Section OutcomeOps.
Context {E A : Type}.

(** [Result::map_err]. *)
Definition map_err {E'} (f : E → E') (m : outcome E A) : outcome E' A :=
  match m with Ok a => Ok a | Err e => Err (f e) | Panic => Panic end.

(** [Option::ok_or]. *)
Definition ok_or (o : option A) (e : E) : outcome E A :=
  match o with Some a => Ok a | None => Err e end.

(** [Option::unwrap] / [expect]. *)
Definition unwrap (o : option A) : outcome E A :=
  match o with Some a => Ok a | None => Panic end.

(** [Result::unwrap]: an error becomes a panic, so the error type is free. *)
Definition unwrap_res {E'} (m : outcome E' A) : outcome E A :=
  match m with Ok a => Ok a | _ => Panic end.

(** [assert!]. *)
Definition assert_ (b : bool) : outcome E unit := if b then Ok tt else Panic.

Definition is_Ok (m : outcome E A) : bool :=
  match m with Ok _ => true | _ => false end.
End OutcomeOps.

(** A [for] loop over a list that threads an accumulator and may exit early
    with [?] or a panic. *)
Fixpoint foldM {E A B : Type} (f : B → A → outcome E B) (b : B) (l : list A)
    : outcome E B :=
  match l with
  | [] => Ok b
  | a :: l => b' ← f b a; foldM f b' l
  end.

Section OutcomeLemmas.
Context {E : Type}.

Lemma bind_Ok {A B} (m : outcome E A) (k : A → outcome E B) b :
  (m ≫= k) = Ok b ↔ ∃ a, m = Ok a ∧ k a = Ok b.
Proof. destruct m; naive_solver. Qed.

Lemma outcome_bind_assoc {A B D} (m : outcome E A) (f : A → outcome E B) (g : B → outcome E D) :
  ((m ≫= f) ≫= g) = (m ≫= λ a, f a ≫= g).
Proof. by destruct m. Qed.

Lemma fmap_Ok {A B} (m : outcome E A) (f : A → B) b :
  f <$> m = Ok b ↔ ∃ a, m = Ok a ∧ b = f a.
Proof. destruct m; naive_solver. Qed.

Lemma map_err_Ok {E' A} (f : E → E') (m : outcome E A) a :
  map_err f m = Ok a ↔ m = Ok a.
Proof. destruct m; naive_solver. Qed.

Lemma ok_or_Ok {A} (o : option A) (e : E) a : ok_or o e = Ok a ↔ o = Some a.
Proof. destruct o; naive_solver. Qed.

Lemma unwrap_Ok {A} (o : option A) a : unwrap (E:=E) o = Ok a ↔ o = Some a.
Proof. destruct o; naive_solver. Qed.

Lemma unwrap_res_Ok {E' A} (m : outcome E' A) a :
  unwrap_res (E:=E) m = Ok a ↔ m = Ok a.
Proof. destruct m; naive_solver. Qed.

Lemma assert_Ok (b : bool) u : assert_ (E:=E) b = Ok u ↔ b = true.
Proof. destruct b, u; naive_solver. Qed.

Lemma foldM_app {A B} (f : B → A → outcome E B) b l1 l2 :
  foldM f b (l1 ++ l2) = (b' ← foldM f b l1; foldM f b' l2).
Proof.
  revert b. induction l1 as [|a l1 IH]; intros b; simpl; [done|].
  destruct (f b a); simpl; auto.
Qed.

Lemma foldM_ext {A B} (f g : B → A → outcome E B) b l :
  (∀ b a, a ∈ l → f b a = g b a) → foldM f b l = foldM g b l.
Proof.
  revert b. induction l as [|a l IH]; intros b Hf; simpl; [done|].
  rewrite Hf by left. destruct (g b a); simpl; [|done..]. apply IH.
  intros; apply Hf; by right.
Qed.

(** A loop whose body never fails is a plain left fold. *)
Lemma foldM_total {A B} (f : B → A → outcome E B) (g : B → A → B) b l :
  (∀ b a, a ∈ l → f b a = Ok (g b a)) → foldM f b l = Ok (foldl g b l).
Proof.
  revert b. induction l as [|a l IH]; intros b Hf; simpl; [done|].
  rewrite Hf by left. simpl. apply IH. intros; apply Hf; by right.
Qed.

Lemma foldM_inv {A B} (P : B → Prop) (f : B → A → outcome E B) b l b' :
  (∀ b a c, a ∈ l → P b → f b a = Ok c → P c) → P b → foldM f b l = Ok b' → P b'.
Proof.
  revert b. induction l as [|a l IH]; intros b Hf Hb; simpl.
  - naive_solver.
  - intros (c & Hc & Hl)%bind_Ok. eapply IH; [| |exact Hl].
    + intros; eapply Hf; eauto. by right.
    + eapply Hf; eauto. left.
Qed.
End OutcomeLemmas.

(** [inv_ok] opens every "this computation returned [Ok]" hypothesis. *)
Ltac inv_ok_step :=
  match goal with
  | H : (_ ≫= _) = Ok _ |- _ => apply bind_Ok in H as (? & ? & ?)
  | H : _ <$> _ = Ok _ |- _ => apply fmap_Ok in H as (? & ? & ?)
  | H : map_err _ _ = Ok _ |- _ => apply map_err_Ok in H
  | H : ok_or _ _ = Ok _ |- _ => apply ok_or_Ok in H
  | H : unwrap _ = Ok _ |- _ => apply unwrap_Ok in H
  | H : unwrap_res _ = Ok _ |- _ => apply unwrap_res_Ok in H
  | H : assert_ _ = Ok _ |- _ => apply assert_Ok in H
  | H : Ok _ = Ok _ |- _ => injection H as H
  | H : Err _ = Ok _ |- _ => discriminate H
  | H : Panic = Ok _ |- _ => discriminate H
  | H : mret _ = Ok _ |- _ => unfold mret, outcome_ret in H
  end.
Ltac inv_ok := repeat inv_ok_step.

(** ** Machine integers

    The release profile of the workspace (network/Cargo.toml) leaves
    overflow checks off: arithmetic wraps. *)
Definition wrap (w : Z) (z : Z) : Z := z mod 2 ^ w.
Definition u16 : Z → Z := wrap 16.
Definition u32 : Z → Z := wrap 32.
Definition u64 : Z → Z := wrap 64.
Definition u128 : Z → Z := wrap 128.

Lemma wrap_small w z : 0 ≤ z < 2 ^ w → wrap w z = z.
Proof. intros. by apply Z.mod_small. Qed.

Lemma wrap_range w z : 0 ≤ w → 0 ≤ wrap w z < 2 ^ w.
Proof. intros. apply Z.mod_pos_bound. lia. Qed.

(** ** Big-endian byte strings *)
Definition is_byte (b : Z) : Prop := 0 ≤ b < 256.

(** [BigUint::from_bytes_be]. *)
Definition be_val (l : list Z) : Z := foldl (λ acc b, acc * 256 + b) 0 l.

(** [to_be_bytes] of an integer of [n] bytes. *)
Fixpoint be_bytes (n : nat) (z : Z) : list Z :=
  match n with
  | O => []
  | S n => be_bytes n (z / 256) ++ [z mod 256]
  end.

(** [BigUint::to_bytes_be]: no leading zero, and one zero byte for zero. *)
Definition to_bytes_be (z : Z) : list Z :=
  be_bytes (Z.to_nat (Z.log2 z / 8 + 1)) z.

Section Bytes.
Lemma be_val_snoc l b : be_val (l ++ [b]) = be_val l * 256 + b.
Proof. unfold be_val. by rewrite foldl_snoc. Qed.

Lemma be_bytes_length n z : length (be_bytes n z) = n.
Proof.
  revert z; induction n as [|n IH]; intros z; simpl; [done|].
  rewrite length_app, IH. simpl. lia.
Qed.

Lemma be_bytes_byte n z : Forall is_byte (be_bytes n z).
Proof.
  revert z; induction n as [|n IH]; intros z; simpl; [constructor|].
  apply Forall_app; split; [apply IH|]. constructor; [|constructor].
  unfold is_byte. apply Z.mod_pos_bound. lia.
Qed.

Lemma be_val_bytes n z : be_val (be_bytes n z) = z mod 256 ^ Z.of_nat n.
Proof.
  revert z; induction n as [|n IH]; intros z; simpl be_bytes.
  - by rewrite Z.mod_1_r.
  - rewrite be_val_snoc, IH, Nat2Z.inj_succ, Z.pow_succ_r by lia.
    rewrite Z.rem_mul_r by lia. lia.
Qed.

Lemma be_val_range l : Forall is_byte l → 0 ≤ be_val l < 256 ^ Z.of_nat (length l).
Proof.
  induction l as [|b l IH] using rev_ind; intros Hl; [by unfold be_val; simpl|].
  apply Forall_app in Hl as [Hl Hb]. rewrite Forall_singleton in Hb.
  specialize (IH Hl). rewrite be_val_snoc, length_app, Nat2Z.inj_add.
  rewrite Z.pow_add_r by lia. change (256 ^ Z.of_nat (length [b])) with 256.
  unfold is_byte in Hb. lia.
Qed.

Lemma be_bytes_val l : Forall is_byte l → be_bytes (length l) (be_val l) = l.
Proof.
  induction l as [|b l IH] using rev_ind; intros Hl; [done|].
  apply Forall_app in Hl as [Hl Hb]. rewrite Forall_singleton in Hb.
  rewrite length_app, Nat.add_comm, be_val_snoc. simpl. unfold is_byte in Hb.
  rewrite Z.div_add_l, (Z.div_small b), Z.add_0_r, IH by (auto; lia).
  by rewrite Z.add_comm, Z.mod_add, Z.mod_small by lia.
Qed.

Lemma be_bytes_inj n z1 z2 :
  0 ≤ z1 < 256 ^ Z.of_nat n → 0 ≤ z2 < 256 ^ Z.of_nat n →
  be_bytes n z1 = be_bytes n z2 → z1 = z2.
Proof.
  intros H1 H2 Heq. apply (f_equal be_val) in Heq.
  by rewrite !be_val_bytes, !Z.mod_small in Heq.
Qed.

Lemma be_val_zeros_app n l : be_val (replicate n 0 ++ l) = be_val l.
Proof. unfold be_val. rewrite foldl_app. f_equal. by induction n. Qed.

Lemma be_val_app l1 l2 : be_val (l1 ++ l2) = be_val l1 * 256 ^ Z.of_nat (length l2) + be_val l2.
Proof.
  induction l2 as [|b l2 IH] using rev_ind; [rewrite app_nil_r; cbn; lia|].
  rewrite app_assoc, !be_val_snoc, IH, length_app, Nat2Z.inj_add, Z.pow_add_r by lia.
  change (256 ^ Z.of_nat (length [b])) with 256. lia.
Qed.

(** The minimal encoding of [z] fits in [n] bytes when [z] does. *)
Lemma to_bytes_be_length z n :
  (0 < n)%nat → 0 ≤ z < 256 ^ Z.of_nat n → (length (to_bytes_be z) ≤ n)%nat.
Proof.
  intros Hn Hz. unfold to_bytes_be. rewrite be_bytes_length.
  enough (Z.log2 z / 8 + 1 ≤ Z.of_nat n) by lia.
  destruct (decide (z = 0)) as [->|]; [change (Z.log2 0 / 8 + 1) with 1; lia|].
  assert (Z.log2 z < 8 * Z.of_nat n).
  { apply Z.log2_lt_pow2; [lia|]. change 256 with (2 ^ 8) in Hz.
    rewrite Z.pow_mul_r; lia. }
  enough (Z.log2 z / 8 < Z.of_nat n) by lia. apply Z.div_lt_upper_bound; lia.
Qed.

Lemma be_val_to_bytes_be z : 0 ≤ z → be_val (to_bytes_be z) = z.
Proof.
  intros Hz. unfold to_bytes_be. rewrite be_val_bytes. apply Z.mod_small.
  split; [done|]. destruct (decide (z = 0)) as [->|]; [simpl; lia|].
  change 256 with (2 ^ 8). rewrite <- Z.pow_mul_r by lia.
  apply Z.log2_lt_pow2; [lia|].
  pose proof (Z.log2_nonneg z). pose proof (Z.div_pos (Z.log2 z) 8).
  rewrite Z2Nat.id by lia. pose proof (Z.mul_succ_div_gt (Z.log2 z) 8). lia.
Qed.

Lemma to_bytes_be_byte z : Forall is_byte (to_bytes_be z).
Proof. apply be_bytes_byte. Qed.

(** Left-padding the minimal encoding gives the fixed-width one. *)
Lemma pad_to_bytes_be n z :
  (0 < n)%nat → 0 ≤ z < 256 ^ Z.of_nat n →
  replicate (n - length (to_bytes_be z)) 0 ++ to_bytes_be z = be_bytes n z.
Proof.
  intros Hn Hz. pose proof (to_bytes_be_length z n Hn Hz) as Hlen.
  set (l := _ ++ _). assert (length l = n) as Hl.
  { unfold l. rewrite length_app, length_replicate. lia. }
  assert (be_val l = z) as Hv.
  { unfold l. rewrite be_val_zeros_app. apply be_val_to_bytes_be. lia. }
  transitivity (be_bytes (length l) (be_val l)); [|by rewrite Hl, Hv].
  symmetry. apply be_bytes_val. unfold l. apply Forall_app; split; [|apply to_bytes_be_byte].
  apply Forall_replicate. unfold is_byte. lia.
Qed.
End Bytes.

(** ** Hexadecimal digits (lower case, as [hex::encode] and
    [to_str_radix(16)] print them) *)
Definition hex_digit (d : Z) : ascii :=
  ascii_of_nat (Z.to_nat (if d <? 10 then 48 + d else 87 + d)).

(** A digit as [hex::decode] reads it: both cases. *)
Definition hex_value (c : ascii) : option Z :=
  let n := Z.of_nat (nat_of_ascii c) in
  if (48 <=? n) && (n <=? 57) then Some (n - 48)
  else if (97 <=? n) && (n <=? 102) then Some (n - 87)
  else if (65 <=? n) && (n <=? 70) then Some (n - 55)
  else None.

Lemma hex_value_digit d : 0 ≤ d < 16 → hex_value (hex_digit d) = Some d.
Proof.
  intros Hd. assert (d ∈ (Z.of_nat <$> seq 0 16)) as Hin.
  { apply list_elem_of_fmap. exists (Z.to_nat d). rewrite elem_of_seq. lia. }
  assert (Forall (λ d, hex_value (hex_digit d) = Some d) (Z.of_nat <$> seq 0 16)) as Hall
    by (repeat constructor).
  by eapply Forall_forall in Hin; [|exact Hall].
Qed.

(** [BigUint::to_str_radix(16)]: no leading zeros, one digit for zero. *)
Fixpoint hex_digits (n : nat) (z : Z) : list ascii :=
  match n with
  | O => []
  | S n => hex_digits n (z / 16) ++ [hex_digit (z mod 16)]
  end.
Definition to_str_radix_16 (z : Z) : string :=
  string_of_list_ascii (hex_digits (Z.to_nat (Z.log2 z / 4 + 1)) z).

Create HintDb bytes.
#[export] Hint Resolve be_bytes_byte be_bytes_length to_bytes_be_byte : bytes.
Create Rewrite HintDb bytes_rw.
#[export] Hint Rewrite be_bytes_length be_val_bytes : bytes_rw.

(** ** Hash maps

    [std::collections::HashMap] visits its entries in an unspecified order.
    [HashOrder] is that order: any duplicate-free enumeration of the map's
    entries, the same one for [iter], [keys] and [values] of one map. *)
Class HashOrder := {
  hm_iter : ∀ {K} `{Countable K} {V}, gmap K V → list (K * V);
  hm_iter_perm : ∀ {K} `{Countable K} {V} (m : gmap K V),
    hm_iter m ≡ₚ map_to_list m
}.

Definition hm_keys `{HashOrder} {K} `{Countable K} {V} (m : gmap K V) : list K :=
  (hm_iter m).*1.
Definition hm_values `{HashOrder} {K} `{Countable K} {V} (m : gmap K V) : list V :=
  (hm_iter m).*2.

(** [entry(k).or_insert(v)]. *)
Definition or_insert {K} `{Countable K} {V} (k : K) (v : V) (m : gmap K V) : gmap K V :=
  match m !! k with Some _ => m | None => <[k:=v]> m end.

(** One such order, for evaluation. *)
Definition map_to_list_order : HashOrder.
Proof. refine {| hm_iter K _ _ V m := map_to_list m |}. done. Defined.

Section HashMaps.
Context `{HO : HashOrder} {K : Type} `{Countable K} {V : Type}.
Implicit Types m : gmap K V.

Lemma elem_of_hm_iter m k v : (k, v) ∈ hm_iter m ↔ m !! k = Some v.
Proof. by rewrite hm_iter_perm, elem_of_map_to_list. Qed.

Lemma NoDup_hm_keys m : NoDup (hm_keys m).
Proof. unfold hm_keys. rewrite hm_iter_perm. apply NoDup_fst_map_to_list. Qed.

Lemma elem_of_hm_keys m k : k ∈ hm_keys m ↔ is_Some (m !! k).
Proof.
  unfold hm_keys. rewrite list_elem_of_fmap. split.
  - intros ([k' v] & -> & Hin). apply elem_of_hm_iter in Hin. eauto.
  - intros [v Hv]. exists (k, v). by rewrite elem_of_hm_iter.
Qed.

Lemma hm_keys_length m : length (hm_keys m) = size m.
Proof.
  unfold hm_keys. rewrite length_fmap, hm_iter_perm. by rewrite length_map_to_list.
Qed.

Lemma hm_iter_length m : length (hm_iter m) = size m.
Proof. by rewrite hm_iter_perm, length_map_to_list. Qed.

Lemma lookup_or_insert k k' v m :
  or_insert k v m !! k' =
    match m !! k' with Some w => Some w | None => if decide (k = k') then Some v else None end.
Proof.
  unfold or_insert. destruct (m !! k) eqn:Hk.
  - destruct (m !! k') eqn:Hk'; [done|]. case_decide; naive_solver.
  - destruct (decide (k = k')) as [->|Hne].
    + by rewrite lookup_insert_eq, Hk.
    + rewrite lookup_insert_ne by done. by destruct (m !! k').
Qed.
End HashMaps.

(** ** Loops over hash maps *)
Section MapLoops.
Context `{HO : HashOrder} {K : Type} `{Countable K} {V W E : Type}.

(** A loop of checks. *)
Lemma foldM_unit {A} (g : A → outcome E unit) (l : list A) :
  foldM (λ _ a, g a) tt l = Ok tt ↔ Forall (λ a, g a = Ok tt) l.
Proof.
  induction l as [|a l IH]; cbn [foldM]; [by split|].
  rewrite Forall_cons. destruct (g a) as [[]| |]; cbn [mbind outcome_bind]; naive_solver.
Qed.

(** A loop that computes an entry [f k v] for every entry of a map and
    collects the results: [body] inserts [f k v] under the fresh key [k], or
    leaves the accumulator alone when [f] gives [None]. *)
Variables (f : K → V → outcome E (option W))
          (body : gmap K W → K * V → outcome E (gmap K W)).
Hypothesis body_spec : ∀ acc k v, acc !! k = None →
  body acc (k, v) =
    (o ← f k v; Ok (match o with Some w => <[k:=w]> acc | None => acc end)).

Lemma foldM_build_gen (l : list (K * V)) acc :
  NoDup l.*1 → (∀ k, k ∈ l.*1 → acc !! k = None) →
  (∀ k v, (k, v) ∈ l → is_Ok (f k v)) →
  ∃ r, foldM body acc l = Ok r ∧
    (∀ k, k ∉ l.*1 → r !! k = acc !! k) ∧
    (∀ k v, (k, v) ∈ l → f k v = Ok (r !! k)).
Proof.
  revert acc. induction l as [|[k v] l IH]; intros acc Hnd Hacc Hok; csimpl in *.
  - exists acc. split; [done|]. split; [done|]. set_solver.
  - apply NoDup_cons in Hnd as [Hk Hnd]. rewrite body_spec by (apply Hacc; set_solver).
    pose proof (Hok k v ltac:(set_solver)) as Hfk.
    destruct (f k v) as [o| |] eqn:Hf; [|done..]. cbn [mbind outcome_bind].
    set (acc' := match o with Some w => <[k:=w]> acc | None => acc end).
    assert (acc' !! k = o) as Hk'.
    { unfold acc'. destruct o; [by rewrite lookup_insert_eq|]. apply Hacc; set_solver. }
    assert (∀ k', k' ≠ k → acc' !! k' = acc !! k') as Hother.
    { intros k' Hne. unfold acc'. destruct o; [by rewrite lookup_insert_ne|done]. }
    destruct (IH acc') as (r & Hr & Hout & Hin); [done| |set_solver|].
    { intros k' Hk2. rewrite Hother by set_solver. apply Hacc; set_solver. }
    exists r. split; [done|]. split.
    + intros k' Hk2. rewrite Hout, Hother by set_solver. done.
    + intros k' v' [Heq|Hl]%elem_of_cons; [|by apply Hin].
      injection Heq as -> ->. rewrite Hf, Hout by done. by rewrite Hk'.
Qed.

Lemma foldM_build_total (m : gmap K V) :
  (∀ k v, m !! k = Some v → is_Ok (f k v)) →
  ∃ r, foldM body ∅ (hm_iter m) = Ok r ∧
    (∀ k, m !! k = None → r !! k = None) ∧
    (∀ k v, m !! k = Some v → f k v = Ok (r !! k)).
Proof.
  intros Hok. destruct (foldM_build_gen (hm_iter m) ∅) as (r & Hr & Hout & Hin).
  - apply NoDup_hm_keys.
  - intros. apply lookup_empty.
  - intros k v Hkv. apply (Hok k v). by apply elem_of_hm_iter.
  - exists r. split; [done|]. split.
    + intros k Hk. rewrite Hout; [apply lookup_empty|].
      intros Hkk%elem_of_hm_keys. rewrite Hk in Hkk. by destruct Hkk.
    + intros k v Hkv. apply Hin. by apply elem_of_hm_iter.
Qed.

Lemma foldM_build_Ok_gen (l : list (K * V)) acc r :
  NoDup l.*1 → (∀ k, k ∈ l.*1 → acc !! k = None) →
  foldM body acc l = Ok r → ∀ k v, (k, v) ∈ l → is_Ok (f k v).
Proof.
  revert acc. induction l as [|[k v] l IH]; intros acc Hnd Hacc Hr k' v' Hin;
    csimpl in *; [set_solver|].
  apply NoDup_cons in Hnd as [Hk Hnd]. rewrite body_spec in Hr by (apply Hacc; set_solver).
  inv_ok. subst. apply elem_of_cons in Hin as [Heq|Hin].
  - injection Heq as -> ->.
    match goal with Hf : f _ _ = Ok _ |- _ => by rewrite Hf end.
  - eapply IH; [done| |eassumption|done]. intros k2 Hk2. case_match; [|apply Hacc; set_solver].
    rewrite lookup_insert_ne by set_solver. apply Hacc; set_solver.
Qed.

(** If the loop returns, every entry was computed, and the result holds it. *)
Lemma foldM_build_Ok (m : gmap K V) r :
  foldM body ∅ (hm_iter m) = Ok r →
  (∀ k, m !! k = None → r !! k = None) ∧ (∀ k v, m !! k = Some v → f k v = Ok (r !! k)).
Proof.
  intros Hr. destruct (foldM_build_total m) as (r' & Hr' & Hspec).
  - intros k v Hkv. eapply foldM_build_Ok_gen; [apply NoDup_hm_keys| |exact Hr|].
    + intros. apply lookup_empty.
    + by apply elem_of_hm_iter.
  - rewrite Hr' in Hr. injection Hr as <-. exact Hspec.
Qed.
End MapLoops.

Lemma hm_values_fmap `{HO : HashOrder} {K} `{Countable K} {V W} (g : V → W) (m : gmap K V) :
  hm_values (g <$> m) ≡ₚ g <$> (map_to_list m).*2.
Proof.
  unfold hm_values. rewrite hm_iter_perm, map_to_list_fmap, <- !list_fmap_compose. done.
Qed.

Lemma hm_values_perm `{HO : HashOrder} {K} `{Countable K} {V} (m : gmap K V) :
  hm_values m ≡ₚ (map_to_list m).*2.
Proof. unfold hm_values. by rewrite hm_iter_perm. Qed.

(** ** Bounded loops

    A [while] loop with a large bound: [inl] continues with a new state,
    [inr] leaves with a result.  The bound is binary, so that a loop that exits
    early evaluates quickly even when the bound is [2^63]. *)
Section Loops.
Context {A B : Type}.

Fixpoint run_pos (p : positive) (f : A → A + B) (a : A) : A + B :=
  match p with
  | xH => f a
  | xO p => match run_pos p f a with inl a' => run_pos p f a' | inr b => inr b end
  | xI p => match f a with
            | inl a0 => match run_pos p f a0 with inl a' => run_pos p f a' | inr b => inr b end
            | inr b => inr b end
  end.

Fixpoint run_nat (n : nat) (f : A → A + B) (a : A) : A + B :=
  match n with
  | O => inl a
  | S n => match f a with inl a' => run_nat n f a' | inr b => inr b end
  end.

Lemma run_nat_add n m f a :
  run_nat (n + m) f a = match run_nat n f a with inl a' => run_nat m f a' | inr b => inr b end.
Proof.
  revert a. induction n as [|n IH]; intros a; simpl; [done|]. destruct (f a); auto.
Qed.

(** The binary loop is the unary one. *)
Lemma run_pos_nat p f a : run_pos p f a = run_nat (Pos.to_nat p) f a.
Proof.
  revert a. induction p as [p IH|p IH|]; intros a; cbn [run_pos].
  - rewrite Pos2Nat.inj_xI. simpl. destruct (f a) as [a0|]; [|done].
    rewrite Nat.add_0_r, run_nat_add, <- IH. destruct (run_pos p f a0); auto.
  - rewrite Pos2Nat.inj_xO. simpl. rewrite Nat.add_0_r, run_nat_add, <- IH.
    destruct (run_pos p f a); auto.
  - rewrite Pos2Nat.inj_1. simpl. by destruct (f a).
Qed.
End Loops.

(** A search loop: the state counts up from [acc] until [f] finds a result. *)
Definition search_step {B} (f : Z → option B) (acc : Z) : Z + B :=
  match f acc with Some b => inr b | None => inl (acc + 1) end.
Definition search {B} (bound : positive) (f : Z → option B) : option B :=
  match run_pos bound (search_step f) 0 with inr b => Some b | inl _ => None end.

Section Search.
Context {B : Type} (f : Z → option B).

Lemma run_search_Some n acc b :
  run_nat n (search_step f) acc = inr b →
  ∃ k, acc ≤ k < acc + Z.of_nat n ∧ f k = Some b ∧ ∀ j, acc ≤ j < k → f j = None.
Proof.
  revert acc. induction n as [|n IH]; intros acc; simpl; [done|].
  unfold search_step at 1. destruct (f acc) as [b'|] eqn:Hf.
  - intros [= ->]. exists acc. repeat split; auto; lia.
  - intros (k & Hk & Hfk & Hmin)%IH. exists k. split; [lia|]. split; [done|].
    intros j Hj. destruct (decide (j = acc)) as [->|]; [done|]. apply Hmin. lia.
Qed.

Lemma run_search_None n acc a :
  run_nat n (search_step f) acc = inl a → ∀ j, acc ≤ j < acc + Z.of_nat n → f j = None.
Proof.
  revert acc. induction n as [|n IH]; intros acc Hr j Hj; [lia|]. cbn [run_nat] in Hr.
  unfold search_step at 1 in Hr. destruct (f acc) eqn:Hf; [done|].
  destruct (decide (j = acc)) as [->|]; [done|]. eapply IH; [exact Hr|lia].
Qed.

(** A search returns the result at the least counter where there is one, and
    fails only if there is none below the bound. *)
Lemma search_Some bound b :
  search bound f = Some b ↔
  ∃ k, 0 ≤ k < Z.pos bound ∧ f k = Some b ∧ ∀ j, 0 ≤ j < k → f j = None.
Proof.
  unfold search. rewrite run_pos_nat. split.
  - destruct (run_nat _ _ _) eqn:Hr; [done|]. intros [= ->].
    apply run_search_Some in Hr as (k & Hk & ?). exists k. split; [lia|done].
  - intros (k & Hk & Hfk & Hmin). destruct (run_nat _ _ _) eqn:Hr.
    + eapply run_search_None in Hr; [|instantiate (1:=k); lia]. congruence.
    + apply run_search_Some in Hr as (k' & Hk' & Hfk' & Hmin').
      assert (k = k') as ->; [|congruence].
      destruct (Z.lt_trichotomy k k') as [Hlt|[|Hlt]]; [|done|].
      * rewrite Hmin' in Hfk by lia. done.
      * rewrite Hmin in Hfk' by lia. done.
Qed.

Lemma search_None bound : search bound f = None ↔ ∀ j, 0 ≤ j < Z.pos bound → f j = None.
Proof.
  unfold search. rewrite run_pos_nat. split.
  - destruct (run_nat _ _ _) eqn:Hr; [|done]. intros _ j Hj.
    eapply run_search_None; [exact Hr|lia].
  - intros Hall. destruct (run_nat _ _ _) eqn:Hr; [done|].
    apply run_search_Some in Hr as (k & Hk & Hfk & _). rewrite Hall in Hfk by lia. done.
Qed.
End Search.
