(* ===== verification/Float64.v ===== *)
(** * Double precision numbers

    Rust's [f64] is IEEE 754 binary64 with rounding to nearest even, which the Standard
    Library specifies bit by bit ([SpecFloat] at 53 bits of precision).  This file names
    the operations the code uses and proves where they do not round: sums and products of
    integers below [2^53], a tenth of a multiple of ten, and the ceiling of a quotient
    by a hundred. *)
From Stdlib Require Import ZArith Lia.
From Corelib Require Import Floats.SpecFloat.
From stdpp Require Import base tactics numbers.
From S2P Require Import Prelude.

Abbreviation float := spec_float (only parsing).
Abbreviation mantissa_bits := 53 (only parsing).
Abbreviation max_exponent := 1024 (only parsing).

(** [as f64] of an integer, the arithmetic and the comparisons. *)
Definition float_of_Z (z : Z) : float := binary_normalize mantissa_bits max_exponent z 0 false.
Definition fadd : float → float → float := SFadd mantissa_bits max_exponent.
Definition fmul : float → float → float := SFmul mantissa_bits max_exponent.
Definition fdiv : float → float → float := SFdiv mantissa_bits max_exponent.
Definition flt : float → float → bool := SFltb.
Definition fle : float → float → bool := SFleb.
Definition feqb : float → float → bool := SFeqb.

(** [x.floor()] and [x.ceil()] of a finite number, as integers. *)
Definition signed_mantissa (s : bool) (m : positive) : Z := if s then Z.neg m else Z.pos m.
Definition floor_Z (s : bool) (m : positive) (e : Z) : Z :=
  if 0 <=? e then signed_mantissa s m * 2 ^ e else signed_mantissa s m / 2 ^ (- e).
Definition ceil_Z (s : bool) (m : positive) (e : Z) : Z :=
  if 0 <=? e then signed_mantissa s m * 2 ^ e else - (- signed_mantissa s m / 2 ^ (- e)).

(** A cast from a float to an integer saturates, and [NaN] is zero. *)
Definition clamp (lo hi z : Z) : Z := Z.max lo (Z.min hi z).
Definition cast_with (round : bool → positive → Z → Z) (lo hi : Z) (x : float) : Z :=
  match x with
  | S754_zero _ | S754_nan => 0
  | S754_infinity s => if s then lo else hi
  | S754_finite s m e => clamp lo hi (round s m e)
  end.
(** [x.ceil() as u32] and [x.floor() as i64]. *)
Definition ceil_u32 : float → Z := cast_with ceil_Z 0 (2 ^ 32 - 1).
Definition floor_i64 : float → Z := cast_with floor_Z (- 2 ^ 63) (2 ^ 63 - 1).

(** The literal [0.1]. *)
Definition tenth : float := fdiv (float_of_Z 1) (float_of_Z 10).

(** ** Rounding *)

Lemma digits2_log2 p : Z.pos (digits2_pos p) = Z.log2 (Z.pos p) + 1.
Proof.
  induction p as [p IH|p IH|]; [..|done]; cbn [digits2_pos]; rewrite Pos2Z.inj_succ, IH.
  - rewrite (Pos2Z.inj_xI p), Z.log2_succ_double by lia. lia.
  - rewrite (Pos2Z.inj_xO p), Z.log2_double by lia. lia.
Qed.

Lemma iter_pos_nat {A} (f : A → A) p x : SpecFloat.iter_pos f p x = Nat.iter (Pos.to_nat p) f x.
Proof.
  revert x. induction p as [p IH|p IH|]; intros x; cbn [SpecFloat.iter_pos]; [| |done].
  - rewrite !IH, Pos2Nat.inj_xI, <- Nat.iter_add, Nat.iter_succ_r. f_equal. lia.
  - rewrite !IH, Pos2Nat.inj_xO, <- Nat.iter_add. f_equal. lia.
Qed.

(** Shifting a mantissa to the right keeps the quotient and its last lost bit. *)
Lemma shr_1_pos m r s : 0 ≤ m →
  shr_1 {| shr_m := m; shr_r := r; shr_s := s |}
  = {| shr_m := m / 2; shr_r := Z.testbit m 0; shr_s := r || s |}.
Proof.
  intros Hm. rewrite <- Z.div2_div. destruct m as [|[p|p|]|]; [done..|lia].
Qed.

Lemma shr_iter m r s (n : nat) : 0 ≤ m →
  ∃ s', Nat.iter (S n) shr_1 {| shr_m := m; shr_r := r; shr_s := s |}
        = {| shr_m := m / 2 ^ Z.of_nat (S n); shr_r := Z.testbit m (Z.of_nat n); shr_s := s' |}.
Proof.
  intros Hm. induction n as [|n [s' IH]].
  - eexists. by apply shr_1_pos.
  - eexists. rewrite Nat.iter_succ, IH, shr_1_pos by (apply Z.div_pos; lia). f_equal.
    + rewrite Z.div_div by lia. f_equal. rewrite (Nat2Z.inj_succ (S n)), Z.pow_succ_r by lia. lia.
    + rewrite <- Z.shiftr_div_pow2, Z.shiftr_spec by lia. f_equal.
Qed.

(** What rounding the mantissa [m] to [n] bits less gives: the quotient or its successor,
    and the quotient when the lost part is below a half. *)
Lemma round_shr m e l n : 0 ≤ m → 0 ≤ n →
  ∃ R, round_nearest_even (shr_m (shr (shr_record_of_loc m l) e n).1)
         (loc_of_shr_record (shr (shr_record_of_loc m l) e n).1) = R ∧
       (R = m / 2 ^ n ∨ R = m / 2 ^ n + 1) ∧
       (l = loc_Exact → 2 * (m mod 2 ^ n) < 2 ^ n → R = m / 2 ^ n).
Proof.
  intros Hm Hn. eexists. split; [done|].
  assert (∀ x b s, let loc := loc_of_shr_record {| shr_m := x; shr_r := b; shr_s := s |} in
    (round_nearest_even x loc = x ∨ round_nearest_even x loc = x + 1) ∧
    (b = false → round_nearest_even x loc = x)) as Hr.
  { intros x [] []; cbn; try (destruct (Z.even x)); naive_solver. }
  destruct n as [|p|]; [..|lia].
  - cbn [shr fst]. rewrite Z.pow_0_r, Z.div_1_r. destruct l as [|[]]; cbn.
    all: try (destruct (Z.even m)); naive_solver.
  - unfold shr. cbn [fst]. rewrite iter_pos_nat.
    assert (∃ r s, shr_record_of_loc m l = {| shr_m := m; shr_r := r; shr_s := s |}) as (r & s & ->).
    { destruct l as [|[]]; cbn; eauto. }
    destruct (shr_iter m r s (pred (Pos.to_nat p)) Hm) as [s' Hs].
    replace (S (pred (Pos.to_nat p))) with (Pos.to_nat p) in Hs by lia.
    rewrite positive_nat_Z in Hs. rewrite Hs. cbn [shr_m]. destruct (Hr (m / 2 ^ Z.pos p)
      (Z.testbit m (Z.of_nat (pred (Pos.to_nat p)))) s') as [H1 H2].
    split; [done|]. intros _ Hlow. apply H2.
    rewrite Z.testbit_false by lia.
    replace (Z.pos p) with (Z.succ (Z.of_nat (pred (Pos.to_nat p)))) in Hlow by lia.
    rewrite Z.pow_succ_r in Hlow by lia. set (h := 2 ^ Z.of_nat (pred (Pos.to_nat p))) in *.
    assert (0 < h) by (unfold h; lia).
    pose proof (Z.mod_pos_bound m (2 * h)).
    rewrite (Z.mul_comm 2 h), Z.rem_mul_r in Hlow by lia.
    pose proof (Z.mod_pos_bound m h). pose proof (Z.mod_pos_bound (m / h) 2). nia.
Qed.

Lemma fexp_normal x : -1021 ≤ x → fexp mantissa_bits max_exponent x = x - 53.
Proof. intros. unfold fexp, emin. lia. Qed.

Lemma Zdigits2_log2 m : 0 < m → Zdigits2 m = Z.log2 m + 1.
Proof. intros. destruct m as [|p|]; [lia| |lia]. apply digits2_log2. Qed.

(** Rounding a mantissa of at least 53 bits, in the normal range. *)
Lemma round_aux_spec m e l n : n = Z.log2 m - 52 →
  2 ^ 52 ≤ m → -1074 ≤ e + n → e + n < 971 →
  ∃ R, (R = m / 2 ^ n ∨ R = m / 2 ^ n + 1) ∧
    (l = loc_Exact → 2 * (m mod 2 ^ n) < 2 ^ n → R = m / 2 ^ n) ∧
    2 ^ 52 ≤ R ≤ 2 ^ 53 ∧
    binary_round_aux mantissa_bits max_exponent false m e l
    = (if R <? 2 ^ 53 then S754_finite false (Z.to_pos R) (e + n)
       else S754_finite false (2 ^ 52) (e + n + 1)).
Proof.
  intros Hn' Hm He He'.
  assert (0 ≤ n) as Hn.
  { pose proof (Z.log2_le_mono _ _ Hm) as H. rewrite Z.log2_pow2 in H by lia. lia. }
  destruct (round_shr m e l n ltac:(lia) Hn) as (R & HR & Hcases & Hexact).
  exists R. split; [done|]. split; [done|].
  assert (2 ^ 52 ≤ m / 2 ^ n < 2 ^ 53) as Hq.
  { destruct (Z.log2_spec m ltac:(lia)) as [H1 H2].
    assert (2 ^ Z.log2 m = 2 ^ 52 * 2 ^ n) as E1 by (rewrite <- Z.pow_add_r by lia; f_equal; lia).
    rewrite Z.pow_succ_r in H2 by apply Z.log2_nonneg.
    split; [apply Z.div_le_lower_bound; lia|apply Z.div_lt_upper_bound; lia]. }
  assert (2 ^ 52 ≤ R ≤ 2 ^ 53) as HRr by lia. split; [done|].
  unfold binary_round_aux, shr_fexp at 1. rewrite Zdigits2_log2 by lia.
  rewrite fexp_normal by lia. replace (Z.log2 m + 1 + e - 53 - e) with n by lia.
  destruct (shr (shr_record_of_loc m l) e n) as [mrs' e'] eqn:Hshr. cbn [fst] in HR. rewrite HR.
  assert (e' = e + n) as ->.
  { unfold shr in Hshr. destruct n; [| |lia]; injection Hshr as <- <-; lia. }
  unfold shr_fexp. rewrite Zdigits2_log2 by lia.
  destruct (Z.ltb_spec R (2 ^ 53)) as [Hlt|Hge].
  - assert (Z.log2 R = 52) as -> by (apply Z.log2_unique; lia).
    rewrite fexp_normal by lia. replace (52 + 1 + (e + n) - 53 - (e + n)) with 0 by lia.
    cbn [shr]. destruct R as [|R|]; [lia| |lia]. cbn [shr_record_of_loc shr_m Z.to_pos].
    rewrite (proj2 (Z.leb_le _ _)) by lia. done.
  - assert (R = 2 ^ 53) as -> by lia. rewrite Z.log2_pow2 by lia.
    rewrite fexp_normal by lia. replace (53 + 1 + (e + n) - 53 - (e + n)) with 1 by lia.
    cbn -[Z.leb]. rewrite (proj2 (Z.leb_le _ _)) by lia. done.
Qed.

(** ** Integers below [2^53] *)

(** The number [z] as the library normalises it. *)
Definition fin (z : Z) : float :=
  S754_finite false (Z.to_pos (z * 2 ^ (52 - Z.log2 z))) (Z.log2 z - 52).

Lemma fin_mantissa z : 0 < z < 2 ^ 53 →
  0 ≤ Z.log2 z ≤ 52 ∧ 2 ^ 52 ≤ z * 2 ^ (52 - Z.log2 z) < 2 ^ 53.
Proof.
  intros Hz. assert (0 ≤ Z.log2 z ≤ 52) as Hl.
  { split; [apply Z.log2_nonneg|]. apply Z.lt_succ_r, Z.log2_lt_pow2; lia. }
  split; [done|]. destruct (Z.log2_spec z ltac:(lia)) as [H1 H2].
  rewrite Z.pow_succ_r in H2 by lia.
  assert (2 ^ 52 = 2 ^ Z.log2 z * 2 ^ (52 - Z.log2 z)) as E1
    by (rewrite <- Z.pow_add_r by lia; f_equal; lia).
  assert (0 < 2 ^ (52 - Z.log2 z)) by (apply Z.pow_pos_nonneg; lia).
  change (2 ^ 53) with (2 * 2 ^ 52). nia.
Qed.

Lemma log2_shifted z k : 0 < z → 0 ≤ k → Z.log2 (z * 2 ^ k) = Z.log2 z + k.
Proof. intros. rewrite Z.log2_mul_pow2 by lia. lia. Qed.

(** A mantissa that is an integer below [2^53] up to its exponent, and close to it. *)
Lemma round_aux_near m e z r : 0 < z < 2 ^ 53 → -1074 ≤ e →
  ∀ n, n = Z.log2 z - 52 - e → 0 ≤ n →
  m = z * 2 ^ (52 - Z.log2 z) * 2 ^ n + r → 0 ≤ r → 2 * r < 2 ^ n →
  binary_round_aux mantissa_bits max_exponent false m e loc_Exact = fin z.
Proof.
  intros Hz He n Hn' Hn -> Hr0 Hr. destruct (fin_mantissa z Hz) as [Hl HM].
  set (M := z * 2 ^ (52 - Z.log2 z)) in *.
  assert (0 < 2 ^ n) by (apply Z.pow_pos_nonneg; lia).
  assert (Z.log2 (M * 2 ^ n + r) = 52 + n) as HL.
  { apply Z.log2_unique; [lia|]. rewrite Z.pow_succ_r, Z.pow_add_r by lia.
    change (2 ^ 53) with (2 * 2 ^ 52) in HM. nia. }
  destruct (round_aux_spec (M * 2 ^ n + r) e loc_Exact n) as (R & _ & HR & _ & ->); [lia|nia|lia..|].
  - rewrite (Z.add_comm _ r), Z.mod_add, Z.mod_small, Z.div_add, Z.div_small, Z.add_0_l in HR by lia.
    specialize (HR eq_refl Hr) as ->. rewrite (proj2 (Z.ltb_lt _ _)) by lia.
    unfold fin. fold M. f_equal. lia.
Qed.

Lemma round_aux_exact e z k : 0 < z < 2 ^ 53 → -1074 ≤ e → e = - k → 52 - Z.log2 z ≤ k →
  binary_round_aux mantissa_bits max_exponent false (z * 2 ^ k) e loc_Exact = fin z.
Proof.
  intros Hz He -> Hk. destruct (fin_mantissa z Hz) as [Hl _].
  apply (round_aux_near _ _ z 0 Hz He (Z.log2 z - 52 + k)); [lia..| |lia|].
  - rewrite <- Z.mul_assoc, <- Z.pow_add_r by lia. rewrite Z.add_0_r. do 2 f_equal. lia.
  - apply Z.pow_pos_nonneg; lia.
Qed.

Lemma shl_align_spec m e e' : 
  shl_align m e e' = if e' <? e then (Z.to_pos (Z.pos m * 2 ^ (e - e')), e') else (m, e).
Proof.
  unfold shl_align. destruct (Z.ltb_spec e' e) as [H|H].
  - destruct (e' - e) as [|p|p] eqn:Hd; [lia..|]. f_equal.
    replace (e - e') with (Z.pos p) by lia. clear. rewrite <- (Pos2Z.id (Pos.iter xO m p)). f_equal.
    induction p as [|p IH] using Pos.peano_ind; [cbn; lia|].
    rewrite Pos.iter_succ, Pos2Z.inj_xO, IH, Pos2Z.inj_succ, Z.pow_succ_r by lia. lia.
  - destruct (e' - e) as [|p|p] eqn:Hd; [done..|lia].
Qed.

Lemma binary_round_exact m e z k : 0 < z < 2 ^ 53 → -1074 ≤ e → e = - k → 0 ≤ k →
  Z.pos m = z * 2 ^ k →
  binary_round mantissa_bits max_exponent false m e = fin z.
Proof.
  intros Hz He -> Hk Hm. destruct (fin_mantissa z Hz) as [Hl _].
  unfold binary_round. rewrite digits2_log2, Hm, log2_shifted by lia.
  rewrite fexp_normal, shl_align_spec by lia.
  destruct (Z.ltb_spec (Z.log2 z + k + 1 + - k - 53) (- k)) as [H|H].
  - rewrite Hm, Z2Pos.id.
    + rewrite <- Z.mul_assoc, <- Z.pow_add_r by lia. apply round_aux_exact; lia.
    + apply Z.mul_pos_pos; [lia|apply Z.pow_pos_nonneg; lia].
  - rewrite Hm. apply round_aux_exact; lia.
Qed.

Lemma float_of_Z_fin z : 0 < z < 2 ^ 53 → float_of_Z z = fin z.
Proof.
  intros Hz. unfold float_of_Z, binary_normalize. destruct z as [|p|]; [lia| |lia].
  apply (binary_round_exact _ _ _ 0); lia.
Qed.

Lemma fadd_fin a b : 0 < a → 0 < b → a + b < 2 ^ 53 → fadd (fin a) (fin b) = fin (a + b).
Proof.
  intros Ha Hb Hab. destruct (fin_mantissa a ltac:(lia)) as [La Ma], (fin_mantissa b ltac:(lia)) as [Lb Mb].
  unfold fadd, fin at 1 2. cbn [SFadd cond_Zopp]. rewrite !shl_align_spec.
  set (k := 52 - Z.min (Z.log2 a) (Z.log2 b)).
  assert (∀ z, 0 < z < 2 ^ 53 → 0 ≤ Z.log2 z ≤ 52 → 2 ^ 52 ≤ z * 2 ^ (52 - Z.log2 z) → - k ≤ Z.log2 z - 52 →
    Z.pos (if - k <? Z.log2 z - 52 then
             (Z.to_pos (Z.pos (Z.to_pos (z * 2 ^ (52 - Z.log2 z))) * 2 ^ (Z.log2 z - 52 - - k)), - k)
           else (Z.to_pos (z * 2 ^ (52 - Z.log2 z)), Z.log2 z - 52)).1 = z * 2 ^ k) as Hal.
  { intros z Hz Lz Mz Hk. destruct (Z.ltb_spec (- k) (Z.log2 z - 52)); cbn [fst].
    - rewrite (Z2Pos.id (z * _)), <- Z.mul_assoc, <- Z.pow_add_r by lia.
      replace (52 - Z.log2 z + (Z.log2 z - 52 - - k)) with k by lia.
      rewrite Z2Pos.id; [done|]. apply Z.mul_pos_pos; [lia|apply Z.pow_pos_nonneg; lia].
    - rewrite Z2Pos.id by lia. do 2 f_equal. lia. }
  replace (Z.min (Z.log2 a - 52) (Z.log2 b - 52)) with (- k) by lia.
  rewrite !Hal, <- Z.mul_add_distr_r by lia. unfold binary_normalize.
  assert (0 < (a + b) * 2 ^ k) by (apply Z.mul_pos_pos; [lia|apply Z.pow_pos_nonneg; lia]).
  destruct ((a + b) * 2 ^ k) as [|p|] eqn:Hs; [lia| |lia].
  apply (binary_round_exact _ _ _ k); lia.
Qed.

Lemma fmul_fin a b : 0 < a → 0 < b → a * b < 2 ^ 53 → fmul (fin a) (fin b) = fin (a * b).
Proof.
  intros Ha Hb Hab.
  destruct (fin_mantissa a ltac:(nia)) as [La Ma], (fin_mantissa b ltac:(nia)) as [Lb Mb].
  unfold fmul, fin at 1 2. cbn [SFmul xorb]. rewrite Pos2Z.inj_mul, !Z2Pos.id by lia.
  replace (a * 2 ^ (52 - Z.log2 a) * (b * 2 ^ (52 - Z.log2 b)))
    with (a * b * 2 ^ (52 - Z.log2 a + (52 - Z.log2 b))) by (rewrite Z.pow_add_r by lia; lia).
  apply round_aux_exact; [nia|lia..|].
  pose proof (Z.log2_mul_below a b). lia.
Qed.

(** ** A tenth, and the ceiling of hundredths *)

Lemma tenth_fin k : 0 < k → 10 * k < 2 ^ 53 → fmul tenth (fin (10 * k)) = fin k.
Proof.
  intros Hk Hlt. change tenth with (S754_finite false 7205759403792794 (-56)).
  destruct (fin_mantissa (10 * k) ltac:(lia)) as [L10 M10], (fin_mantissa k ltac:(lia)) as [Lk Mk].
  unfold fmul, fin at 1. cbn [SFmul xorb]. rewrite Pos2Z.inj_mul, Z2Pos.id by lia.
  set (j := 52 - Z.log2 (10 * k)) in *. assert (0 < 2 ^ j) by (apply Z.pow_pos_nonneg; lia).
  apply (round_aux_near _ _ k (4 * k * 2 ^ j) ltac:(lia)) with (n := Z.log2 k + 4 + j); [lia..| |nia|].
  - assert (2 ^ (52 - Z.log2 k) * 2 ^ (Z.log2 k + 4 + j) = 2 ^ 56 * 2 ^ j) as E1
      by (rewrite <- !Z.pow_add_r by lia; f_equal; lia).
    rewrite <- (Z.mul_assoc k), E1. change (2 ^ 56) with 72057594037927936. lia.
  - rewrite !Z.pow_add_r by lia. destruct (Z.log2_spec k Hk) as [_ H2].
    rewrite Z.pow_succ_r in H2 by lia. change (2 ^ 4) with 16. nia.
Qed.

(** The ceiling of a mantissa rounded as [round_aux_spec] says. *)
Lemma ceil_rounded R d : 2 ^ 52 ≤ R ≤ 2 ^ 53 → 1 < d →
  ceil_u32 (if R <? 2 ^ 53 then S754_finite false (Z.to_pos R) (- d)
            else S754_finite false (2 ^ 52) (- d + 1))
  = clamp 0 (2 ^ 32 - 1) (- (- R / 2 ^ d)).
Proof.
  intros HR Hd. destruct (Z.ltb_spec R (2 ^ 53)) as [H|H]; cbn [ceil_u32 cast_with];
    unfold ceil_u32, cast_with, ceil_Z, signed_mantissa; f_equal.
  - rewrite (proj2 (Z.leb_gt _ _)), Z2Pos.id by lia. by rewrite Z.opp_involutive.
  - rewrite (proj2 (Z.leb_gt _ _)) by lia. assert (R = 2 ^ 53) as -> by lia. f_equal.
    replace (- (- d + 1)) with (d - 1) by lia. replace d with (Z.succ (d - 1)) at 2 by lia.
    rewrite Z.pow_succ_r by lia. replace (- 2 ^ 53) with (2 * (- Z.pos (2 ^ 52))) by done.
    rewrite Z.div_mul_cancel_l; [done| |lia]. apply Z.pow_nonzero; lia.
Qed.

(** Rounding to a multiple of [1/U] does not move a number of hundredths over an integer. *)
Lemma ceil_hundredths a U R : 0 ≤ a → 200 ≤ U →
  (R = a * U / 100 ∨ R = a * U / 100 + 1) → (a mod 100 = 0 → R = a * U / 100) →
  - (- R / U) = - (- a / 100).
Proof.
  intros Ha HU HR Hex. pose proof (Z.div_mod a 100 ltac:(lia)) as Hdm.
  pose proof (Z.mod_pos_bound a 100 ltac:(lia)) as Hb.
  set (c := a / 100) in *. set (b := a mod 100) in *. clearbody b c.
  assert (a * U / 100 = c * U + b * U / 100) as Hq.
  { rewrite Hdm at 1. replace ((100 * c + b) * U) with (b * U + c * U * 100) by lia.
    rewrite Z.div_add by lia. lia. }
  rewrite Hq in HR, Hex. destruct (Z.eq_dec b 0) as [Hb0|Hb0].
  - rewrite (Hex Hb0), Hb0, Z.mul_0_l, Z.div_0_l, Z.add_0_r, <- Z.mul_opp_l, Z.div_mul by lia.
    assert (- a / 100 = - c) as -> by (symmetry; apply (Z.div_unique _ _ _ 0); lia). done.
  - pose proof (Z.div_mod (b * U) 100 ltac:(lia)). pose proof (Z.mod_pos_bound (b * U) 100 ltac:(lia)).
    set (f := b * U / 100) in *. assert (1 ≤ f ≤ U - 2) by nia.
    assert (- R / U = - (c + 1)) as -> by (symmetry; apply (Z.div_unique _ _ _ ((c + 1) * U - R)); lia).
    assert (- a / 100 = - (c + 1)) as -> by (symmetry; apply (Z.div_unique _ _ _ (100 - b)); lia). done.
Qed.

Lemma fdiv_hundred a : 0 < a < 2 ^ 39 → ∃ R d, 2 ^ 52 ≤ R ≤ 2 ^ 53 ∧ 8 ≤ d ∧
  (R = a * 2 ^ d / 100 ∨ R = a * 2 ^ d / 100 + 1) ∧ (a mod 100 = 0 → R = a * 2 ^ d / 100) ∧
  fdiv (fin a) (fin 100) = (if R <? 2 ^ 53 then S754_finite false (Z.to_pos R) (- d)
                            else S754_finite false (2 ^ 52) (- d + 1)).
Proof.
  intros Ha. destruct (fin_mantissa a ltac:(lia)) as [La Ma].
  assert (Z.log2 a < 39) as La' by (apply Z.log2_lt_pow2; lia).
  change (fin 100) with (S754_finite false 7036874417766400 (-46)).
  set (j := 52 - Z.log2 a) in *. unfold fdiv, fin. fold j. cbn [SFdiv xorb].
  unfold SFdiv_core_binary. rewrite !Zdigits2_log2, Z2Pos.id by lia.
  assert (Z.log2 (a * 2 ^ j) = 52) as -> by (apply Z.log2_unique; lia).
  change (Z.log2 7036874417766400) with 52. rewrite fexp_normal by lia.
  replace (Z.min _ _) with (- (j + 7)) by lia.
  replace (Z.log2 a - 52 - -46 - - (j + 7)) with 53 by lia. cbv beta iota zeta.
  rewrite Z.shiftl_mul_pow2 by lia.
  destruct (Z.div_eucl (a * 2 ^ j * 2 ^ 53) 7036874417766400) as [q r] eqn:Hdiv.
  assert (a * 2 ^ j * 2 ^ 53 = 2 ^ 46 * (a * 2 ^ (j + 7))) as E1
    by (rewrite Z.pow_add_r by lia; change (2 ^ 53) with (2 ^ 46 * 2 ^ 7); lia).
  assert (a * 2 ^ j * 2 ^ 53 = 7036874417766400 * q + r ∧ 0 ≤ r < 7036874417766400) as [Hqr Hr].
  { pose proof (Z.div_eucl_eq (a * 2 ^ j * 2 ^ 53) 7036874417766400 ltac:(done)) as H1.
    pose proof (Z.mod_pos_bound (a * 2 ^ j * 2 ^ 53) 7036874417766400 ltac:(done)) as H2.
    unfold Z.modulo in H2. rewrite Hdiv in H1, H2. done. }
  assert (q = a * 2 ^ (j + 7) / 100) as Hq.
  { apply (Z.div_unique _ _ _ (a * 2 ^ (j + 7) - 100 * q)); lia. }
  assert (2 ^ 52 ≤ q < 2 ^ 54) as Hqb by lia.
  assert (0 ≤ Z.log2 q - 52 ≤ 1) as Hn.
  { assert (52 ≤ Z.log2 q) by (apply Z.log2_le_pow2; lia).
    assert (Z.log2 q < 54) by (apply Z.log2_lt_pow2; lia). lia. }
  remember (Z.log2 q - 52) as n eqn:Hneq.
  destruct (round_aux_spec q (- (j + 7)) (new_location 7036874417766400 r) n) as (R & HR & Hex & HRb & ->);
    [lia..|].
  assert (q / 2 ^ n = a * 2 ^ (j + 7 - n) / 100) as Hdq.
  { rewrite Hq. replace (j + 7) with (j + 7 - n + n) at 1 by lia.
    assert (0 < 2 ^ n) by (apply Z.pow_pos_nonneg; lia).
    rewrite Z.pow_add_r, Z.mul_assoc, Z.div_div, (Z.mul_comm 100), <- Z.div_div, Z.div_mul by lia. done. }
  exists R, (j + 7 - n). split; [done|]. split; [lia|]. rewrite <- Hdq. split; [done|].
  replace (- (j + 7 - n)) with (- (j + 7) + n) by lia. split; [|done].
  intros H100. apply Z.div_exact in H100; [|done].
  assert (q = a / 100 * 2 ^ (j + 7)) as Hq100.
  { rewrite Hq, H100 at 1. rewrite <- Z.mul_assoc, Z.mul_comm, Z.div_mul by lia. done. }
  apply Hex.
  - assert (r = 0) as -> by lia. done.
  - assert (0 < 2 ^ n) by (apply Z.pow_pos_nonneg; lia).
    replace (j + 7) with (j + 7 - n + n) in Hq100 by lia.
    rewrite Hq100, Z.pow_add_r, Z.mul_assoc, Z.mod_mul by lia. lia.
Qed.

Lemma ceil_hundredth a : 0 ≤ a ≤ 100 * (2 ^ 32 - 1) →
  ceil_u32 (fdiv (float_of_Z a) (float_of_Z 100)) = - (- a / 100).
Proof.
  intros Ha. destruct (Z.eq_dec a 0) as [->|]; [done|].
  rewrite !float_of_Z_fin by lia.
  destruct (fdiv_hundred a ltac:(lia)) as (R & d & HR & Hd & Hcases & Hex & ->).
  rewrite ceil_rounded by lia.
  assert (200 ≤ 2 ^ d) by (etransitivity; [|apply (Z.pow_le_mono_r 2 8); lia]; lia).
  rewrite (ceil_hundredths a (2 ^ d) R) by (done || lia). unfold clamp.
  pose proof (Z.div_le_lower_bound (- a) 100 (- (2 ^ 32 - 1))).
  pose proof (Z.div_le_upper_bound (- a) 100 0). lia.
Qed.

(** ** Comparisons *)
Lemma fcompare_fin a b : 0 < a < 2 ^ 53 → 0 < b < 2 ^ 53 → SFcompare (fin a) (fin b) = Some (a ?= b).
Proof.
  intros Ha Hb. destruct (fin_mantissa a Ha) as [La Ma], (fin_mantissa b Hb) as [Lb Mb].
  cbn [SFcompare fin]. f_equal.
  destruct (Z.compare_spec (Z.log2 a - 52) (Z.log2 b - 52)) as [H|H|H].
  - change (Pos.compare_cont Eq ?x ?y) with (x ?= y)%positive.
    rewrite Pos2Z.inj_compare, !Z2Pos.id by lia.
    assert (Z.log2 a = Z.log2 b) as -> by lia.
    rewrite !(Z.mul_comm _ (2 ^ _)). symmetry. apply Zmult_compare_compat_l, Z.lt_gt, Z.pow_pos_nonneg; lia.
  - symmetry. apply Z.compare_lt_iff, Z.log2_lt_cancel. lia.
  - symmetry. apply Z.compare_gt_iff, Z.log2_lt_cancel. lia.
Qed.

(** ** Exact integers, zero included *)
Lemma fcompare_Z a b : 0 ≤ a < 2 ^ 53 → 0 ≤ b < 2 ^ 53 →
  SFcompare (float_of_Z a) (float_of_Z b) = Some (a ?= b).
Proof.
  intros Ha Hb. destruct (Z.eq_dec a 0) as [->|], (Z.eq_dec b 0) as [->|].
  - done.
  - rewrite (float_of_Z_fin b) by lia. by destruct b; [| |lia].
  - rewrite (float_of_Z_fin a) by lia. by destruct a; [| |lia].
  - rewrite !float_of_Z_fin by lia. apply fcompare_fin; lia.
Qed.

Lemma fadd_Z a b : 0 ≤ a → 0 ≤ b → a + b < 2 ^ 53 →
  fadd (float_of_Z a) (float_of_Z b) = float_of_Z (a + b).
Proof.
  intros Ha Hb Hab. destruct (Z.eq_dec a 0) as [->|], (Z.eq_dec b 0) as [->|].
  - done.
  - rewrite Z.add_0_l, (float_of_Z_fin b) by lia. done.
  - rewrite Z.add_0_r, (float_of_Z_fin a) by lia. done.
  - rewrite !float_of_Z_fin by lia. apply fadd_fin; lia.
Qed.

Lemma fmul_Z a b : 0 ≤ a < 2 ^ 53 → 0 ≤ b < 2 ^ 53 → a * b < 2 ^ 53 →
  fmul (float_of_Z a) (float_of_Z b) = float_of_Z (a * b).
Proof.
  intros Ha Hb Hab. destruct (Z.eq_dec a 0) as [->|], (Z.eq_dec b 0) as [->|].
  - done.
  - rewrite Z.mul_0_l, (float_of_Z_fin b) by lia. done.
  - rewrite Z.mul_0_r, (float_of_Z_fin a) by lia. done.
  - rewrite !float_of_Z_fin by nia. apply fmul_fin; lia.
Qed.

Lemma tenth_Z k : 0 ≤ k → 10 * k < 2 ^ 53 → fmul tenth (float_of_Z (10 * k)) = float_of_Z k.
Proof.
  intros Hk Hlt. destruct (Z.eq_dec k 0) as [->|]; [done|].
  rewrite !float_of_Z_fin by lia. apply tenth_fin; lia.
Qed.

Lemma flt_Z a b : 0 ≤ a < 2 ^ 53 → 0 ≤ b < 2 ^ 53 →
  flt (float_of_Z a) (float_of_Z b) = (a <? b).
Proof. intros. unfold flt, SFltb. by rewrite fcompare_Z. Qed.
