(* ===== verification/PrimeField.v ===== *)
(** * Prime fields, polynomials and Lagrange interpolation

    [PrimeField] is the contract of [ff::PrimeField] as the crates use it:
    the integers modulo a prime with their canonical representatives
    ([F256k1] and [BABYJUBJUB] are two such fields, derived by macro from
    their moduli).  The rest of the file is the algebra the threshold
    protocols rest on: a polynomial with as many roots as coefficients is
    zero, and the Lagrange basis reproduces every short enough polynomial. *)
From Stdlib Require Import ZArith Lia Znumtheory Ring Field.
From stdpp Require Import base list.
From S2P Require Import Prelude.

Class PrimeField (F : Type) := {
  f_zero : F;
  f_one : F;
  f_add : F → F → F;
  f_sub : F → F → F;
  f_mul : F → F → F;
  f_neg : F → F;
  f_inv : F → F;
  f_eq_dec :: EqDecision F;
  f_modulus : Z;
  (** [PrimeField::from_u128] (and [from_str_vartime] on decimal digits):
      the residue of an integer. *)
  f_of_Z : Z → F;
  (** The integer whose big-endian bytes are [to_repr]. *)
  f_to_Z : F → Z;
  f_prime : prime f_modulus;
  f_to_Z_range x : 0 ≤ f_to_Z x < f_modulus;
  f_of_to x : f_of_Z (f_to_Z x) = x;
  f_to_of z : f_to_Z (f_of_Z z) = z mod f_modulus;
  f_to_Z_zero : f_to_Z f_zero = 0;
  f_to_Z_one : f_to_Z f_one = 1;
  f_to_Z_add x y : f_to_Z (f_add x y) = (f_to_Z x + f_to_Z y) mod f_modulus;
  f_to_Z_sub x y : f_to_Z (f_sub x y) = (f_to_Z x - f_to_Z y) mod f_modulus;
  f_to_Z_mul x y : f_to_Z (f_mul x y) = (f_to_Z x * f_to_Z y) mod f_modulus;
  f_to_Z_neg x : f_to_Z (f_neg x) = (- f_to_Z x) mod f_modulus;
  f_inv_l x : x ≠ f_zero → f_mul (f_inv x) x = f_one
}.

Declare Scope field_scope.
Delimit Scope field_scope with F.
Infix "+" := f_add : field_scope.
Infix "-" := f_sub : field_scope.
Infix "*" := f_mul : field_scope.
Notation "- x" := (f_neg x) : field_scope.
Notation "0" := f_zero : field_scope.
Notation "1" := f_one : field_scope.
Notation "x / y" := (f_mul x (f_inv y)) : field_scope.

Section Theory.
Context {F : Type} `{PF : !PrimeField F}.
Implicit Types x y z : F.

Lemma f_to_Z_inj x y : f_to_Z x = f_to_Z y → x = y.
Proof. intros H. by rewrite <- (f_of_to x), H, f_of_to. Qed.

Lemma f_modulus_gt1 : 1 < f_modulus (F:=F).
Proof. destruct (f_prime (F:=F)). lia. Qed.

Ltac to_Z :=
  apply f_to_Z_inj;
  repeat first [rewrite f_to_Z_add | rewrite f_to_Z_sub | rewrite f_to_Z_mul
               | rewrite f_to_Z_neg | rewrite f_to_Z_zero | rewrite f_to_Z_one
               | rewrite f_to_of].

Lemma f_to_Z_mod x : f_to_Z x mod f_modulus = f_to_Z x.
Proof. apply Z.mod_small, f_to_Z_range. Qed.

Lemma f_field_theory :
  field_theory (0%F : F) 1%F f_add f_mul f_sub f_neg (λ x y, (x / y)%F) f_inv eq.
Proof.
  pose proof f_modulus_gt1. constructor; [constructor| | |]; intros.
  - to_Z. by rewrite Z.add_0_l, f_to_Z_mod.
  - to_Z. by rewrite Z.add_comm.
  - to_Z. rewrite Zplus_mod_idemp_r, Zplus_mod_idemp_l. f_equal. lia.
  - to_Z. by rewrite Z.mul_1_l, f_to_Z_mod.
  - to_Z. by rewrite Z.mul_comm.
  - to_Z. rewrite Zmult_mod_idemp_r, Zmult_mod_idemp_l. f_equal. lia.
  - to_Z. rewrite <- Zplus_mod, Zmult_mod_idemp_l. f_equal. lia.
  - to_Z. rewrite Zplus_mod_idemp_r. f_equal.
  - to_Z. rewrite Zplus_mod_idemp_r, Z.add_opp_diag_r. by rewrite Z.mod_0_l by lia.
  - intros H1. apply (f_equal f_to_Z) in H1. rewrite f_to_Z_one, f_to_Z_zero in H1. lia.
  - done.
  - by apply f_inv_l.
Qed.

Add Field F_field : f_field_theory.

Lemma f_one_neq_zero : (1%F : F) ≠ 0%F.
Proof. apply f_field_theory. Qed.

Lemma f_inv_r x : x ≠ 0%F → (x * f_inv x)%F = 1%F.
Proof. intros. transitivity (f_inv x * x)%F; [ring|]. by apply f_inv_l. Qed.

Lemma f_mul_zero x y : (x * y)%F = 0%F → x = 0%F ∨ y = 0%F.
Proof.
  intros H. destruct (decide (x = 0%F)) as [|Hx]; [by left|right].
  transitivity (f_inv x * (x * y))%F; [|rewrite H; ring].
  by field.
Qed.

Lemma f_mul_nonzero x y : x ≠ 0%F → y ≠ 0%F → (x * y)%F ≠ 0%F.
Proof. intros Hx Hy [?|?]%f_mul_zero; done. Qed.

Lemma f_inv_nonzero x : x ≠ 0%F → f_inv x ≠ 0%F.
Proof.
  intros Hx H. apply f_one_neq_zero. rewrite <- (f_inv_l x Hx), H. ring.
Qed.

Lemma f_sub_zero x y : (x - y)%F = 0%F ↔ x = y.
Proof.
  split; [intros H|intros ->; ring].
  transitivity ((x - y) + y)%F; [ring|]. rewrite H. ring.
Qed.

(** [Field::invert]. *)
Definition f_invert x : option F := if decide (x = 0%F) then None else Some (f_inv x).

Lemma f_of_Z_add a b : f_of_Z (a + b) = (f_of_Z a + f_of_Z b : F)%F.
Proof. to_Z. by rewrite <- Zplus_mod. Qed.
Lemma f_of_Z_mul a b : f_of_Z (a * b) = (f_of_Z a * f_of_Z b : F)%F.
Proof. to_Z. by rewrite <- Zmult_mod. Qed.
Lemma f_of_Z_0 : f_of_Z 0 = (0%F : F).
Proof. to_Z. by apply Z.mod_0_l, Z.neq_sym, Z.lt_neq, Z.lt_trans with (2:=f_modulus_gt1). Qed.
Lemma f_of_Z_1 : f_of_Z 1 = (1%F : F).
Proof. to_Z. apply Z.mod_1_l, f_modulus_gt1. Qed.

Lemma f_of_Z_mod a : f_of_Z (a mod f_modulus) = (f_of_Z a : F).
Proof. to_Z. pose proof f_modulus_gt1. by rewrite Z.mod_mod by lia. Qed.

(** [from_u128] is injective below the modulus. *)
Lemma f_of_Z_inj a b :
  0 ≤ a < f_modulus (F:=F) → 0 ≤ b < f_modulus (F:=F) → f_of_Z a = (f_of_Z b : F) → a = b.
Proof.
  intros Ha Hb H. apply (f_equal f_to_Z) in H.
  by rewrite !f_to_of, !Z.mod_small in H.
Qed.

Lemma f_of_Z_nonzero a : 0 < a < f_modulus (F:=F) → f_of_Z a ≠ (0%F : F).
Proof.
  intros Ha H. rewrite <- f_of_Z_0 in H. apply f_of_Z_inj in H; lia.
Qed.

(** [Field::pow] with a small exponent. *)
Fixpoint f_pow x (n : nat) : F :=
  match n with O => 1%F | S n => (x * f_pow x n)%F end.

Lemma f_of_Z_pow a n : f_of_Z (a ^ Z.of_nat n) = f_pow (f_of_Z a : F) n.
Proof.
  induction n as [|n IH]; [apply f_of_Z_1|].
  by rewrite Nat2Z.inj_succ, Z.pow_succ_r, f_of_Z_mul, IH by lia.
Qed.

(** ** Sums *)
Fixpoint f_sum (l : list F) : F :=
  match l with [] => 0%F | x :: l => (x + f_sum l)%F end.

#[global] Instance f_sum_perm : Proper ((≡ₚ) ==> (=)) f_sum.
Proof.
  intros l1 l2 Hp. induction Hp; simpl; [done|by f_equal|ring|congruence].
Qed.

Lemma f_sum_foldl x l : foldl f_add x l = (x + f_sum l)%F.
Proof. revert x. induction l as [|y l IH]; intros x; simpl; [ring|]. rewrite IH. ring. Qed.

Section SumMap.
Context {A : Type}.
Implicit Types (g h : A → F) (l : list A).

Lemma f_sum_add g h l :
  f_sum ((λ a, g a + h a)%F <$> l) = (f_sum (g <$> l) + f_sum (h <$> l))%F.
Proof. induction l as [|a l IH]; csimpl; [ring|]. rewrite IH. ring. Qed.

Lemma f_sum_scale c g l : f_sum ((λ a, c * g a)%F <$> l) = (c * f_sum (g <$> l))%F.
Proof. induction l as [|a l IH]; csimpl; [ring|]. rewrite IH. ring. Qed.

Lemma f_sum_zero l : f_sum ((λ _, 0%F) <$> l) = 0%F.
Proof. induction l as [|a l IH]; csimpl; [done|]. rewrite IH. ring. Qed.

Lemma f_sum_ext g h l : (∀ a, a ∈ l → g a = h a) → f_sum (g <$> l) = f_sum (h <$> l).
Proof.
  induction l as [|a l IH]; intros H; csimpl; [done|].
  rewrite H by left. f_equal. apply IH. intros; apply H; by right.
Qed.
End SumMap.

(** Summation order can be exchanged. *)
Lemma f_sum_swap {A B} (g : A → B → F) (l : list A) (k : list B) :
  f_sum ((λ a, f_sum (g a <$> k)) <$> l) = f_sum ((λ b, f_sum ((λ a, g a b) <$> l)) <$> k).
Proof.
  induction l as [|a l IH]; csimpl; [by rewrite f_sum_zero|].
  rewrite IH, <- f_sum_add. by apply f_sum_ext.
Qed.

(** ** Polynomials *)

(** Value at [x] of the polynomial with ascending coefficients [cs]. *)
Fixpoint peval (cs : list F) x : F :=
  match cs with [] => 0%F | c :: cs => (c + x * peval cs x)%F end.

Lemma peval_0 c cs : peval (c :: cs) 0%F = c.
Proof. simpl. ring. Qed.

(** The value as a sum of monomials, which is how the code computes it. *)
Lemma peval_monomials cs x k :
  f_sum (imap (λ i c, f_pow x (k + i) * c)%F cs) = (f_pow x k * peval cs x)%F.
Proof.
  revert k. induction cs as [|c cs IH]; intros k; simpl; [ring|].
  rewrite Nat.add_0_r. rewrite (imap_ext _ (λ i c, f_pow x (S k + i) * c)%F).
  - rewrite IH. simpl. ring.
  - intros i y _. simpl. by rewrite <- Nat.add_succ_comm.
Qed.

(** Division by [X - a]. *)
Lemma peval_divide cs a :
  ∃ q, length q = pred (length cs) ∧
    ∀ x, peval cs x = (peval cs a + (x - a) * peval q x)%F.
Proof.
  induction cs as [|c [|c' cs] IH].
  - exists []. split; [done|]. intros x; simpl; ring.
  - exists []. split; [done|]. intros x; simpl; ring.
  - destruct IH as (q & Hl & Hq). exists (peval (c' :: cs) a :: q). split.
    { cbn [length] in *. lia. }
    intros x. cbn [peval] in *. rewrite (Hq x). ring.
Qed.

(** A polynomial with at least as many distinct roots as coefficients
    vanishes everywhere. *)
Lemma peval_roots cs rs :
  NoDup rs → (length cs ≤ length rs)%nat → (∀ r, r ∈ rs → peval cs r = 0%F) →
  ∀ x, peval cs x = 0%F.
Proof.
  revert cs. induction rs as [|r rs IH]; intros cs Hnd Hlen Hr x.
  - destruct cs; [done|simpl in Hlen; lia].
  - apply NoDup_cons in Hnd as [Hnin Hnd].
    destruct (peval_divide cs r) as (q & Hq & Hdiv).
    assert (∀ y, peval cs y = ((y - r) * peval q y)%F) as Hfac.
    { intros y. rewrite Hdiv, Hr by left. ring. }
    rewrite Hfac, (IH q); [ring|done|simpl in Hlen; lia|].
    intros s Hs. assert ((s - r) * peval q s = 0)%F as H0.
    { rewrite <- Hfac. apply Hr. by right. }
    apply f_mul_zero in H0 as [H0|]; [|done].
    apply f_sub_zero in H0 as ->. done.
Qed.

(** Functions that are polynomials with at most [n] coefficients. *)
Definition is_poly (n : nat) (f : F → F) : Prop :=
  ∃ cs, (length cs ≤ n)%nat ∧ ∀ x, f x = peval cs x.

Fixpoint padd (p q : list F) : list F :=
  match p, q with
  | [], q => q
  | p, [] => p
  | a :: p, b :: q => (a + b)%F :: padd p q
  end.

Lemma peval_padd p q x : peval (padd p q) x = (peval p x + peval q x)%F.
Proof.
  revert q. induction p as [|a p IH]; intros [|b q]; simpl; try ring.
  rewrite IH. ring.
Qed.

Lemma padd_length p q : length (padd p q) = Nat.max (length p) (length q).
Proof. revert q. induction p as [|a p IH]; intros [|b q]; simpl; auto. Qed.

Lemma peval_scale c p x : peval (f_mul c <$> p) x = (c * peval p x)%F.
Proof. induction p as [|a p IH]; csimpl; [ring|]. rewrite IH. ring. Qed.

Lemma is_poly_const n c : (0 < n)%nat → is_poly n (λ _, c).
Proof. exists [c]. simpl. split; [lia|]. intros; ring. Qed.

Lemma is_poly_add n f g : is_poly n f → is_poly n g → is_poly n (λ x, f x + g x)%F.
Proof.
  intros (p & Hp & Hf) (q & Hq & Hg). exists (padd p q). split.
  - rewrite padd_length. lia.
  - intros x. by rewrite peval_padd, Hf, Hg.
Qed.

Lemma is_poly_scale n c f : is_poly n f → is_poly n (λ x, c * f x)%F.
Proof.
  intros (p & Hp & Hf). exists (f_mul c <$> p). split.
  - by rewrite length_fmap.
  - intros x. by rewrite peval_scale, Hf.
Qed.

Lemma is_poly_linear n a f : is_poly n f → is_poly (S n) (λ x, (x - a) * f x)%F.
Proof.
  intros (p & Hp & Hf).
  exists (padd (0%F :: p) (f_mul (- a)%F <$> p)). split.
  - rewrite padd_length, length_fmap. simpl. lia.
  - intros x. rewrite peval_padd, peval_scale, Hf. simpl. ring.
Qed.

Lemma is_poly_ext n f g : (∀ x, g x = f x) → is_poly n f → is_poly n g.
Proof. intros Hfg (p & Hp & Hf). exists p. split; [done|]. intros x. by rewrite Hfg, Hf. Qed.

Lemma is_poly_weaken n m f : (n ≤ m)%nat → is_poly n f → is_poly m f.
Proof. intros Hn (p & Hp & Hf). exists p. split; [lia|done]. Qed.

Lemma is_poly_sum {A} n (g : A → F → F) l :
  (∀ a, a ∈ l → is_poly n (g a)) → is_poly n (λ x, f_sum ((λ a, g a x) <$> l)).
Proof.
  induction l as [|a l IH]; intros Hg.
  - exists []. split; [simpl; lia|done].
  - apply is_poly_add; [apply Hg; left|]. apply IH. intros; apply Hg; by right.
Qed.

(** ** Lagrange interpolation *)

(** [lagrange i l x] is the product of [(x - j) / (i - j)] over the [j] of [l]
    different from [i]. *)
Fixpoint lagrange (i : F) (l : list F) (x : F) : F :=
  match l with
  | [] => 1%F
  | j :: l => if decide (j = i) then lagrange i l x
              else ((x - j) / (i - j) * lagrange i l x)%F
  end.

Lemma lagrange_self i l : lagrange i l i = 1%F.
Proof.
  induction l as [|j l IH]; simpl; [done|]. case_decide as Hd; [done|].
  rewrite IH. rewrite f_inv_r; [ring|]. rewrite f_sub_zero. congruence.
Qed.

Lemma lagrange_other i j l : j ∈ l → j ≠ i → lagrange i l j = 0%F.
Proof.
  intros Hin Hne. induction Hin as [j l|j k l Hin IH]; simpl.
  - rewrite decide_False by done. ring.
  - rewrite IH by done. case_decide; [done|ring].
Qed.

Lemma lagrange_notin_poly i l : i ∉ l → is_poly (S (length l)) (lagrange i l).
Proof.
  induction l as [|j l IH]; intros Hni; [apply is_poly_const; lia|].
  apply not_elem_of_cons in Hni as [Hne Hni].
  eapply is_poly_ext, (is_poly_linear _ j), (is_poly_scale _ (f_inv (i - j)%F)), IH, Hni.
  intros x. simpl. rewrite decide_False by done. ring.
Qed.

Lemma lagrange_poly i l : i ∈ l → NoDup l → is_poly (length l) (lagrange i l).
Proof.
  induction 1 as [i l|i k l Hin IH]; intros [Hk Hnd]%NoDup_cons; simpl.
  - eapply is_poly_ext, lagrange_notin_poly, Hk.
    intros x. simpl. by rewrite decide_True by done.
  - eapply is_poly_ext, (is_poly_linear _ k), (is_poly_scale _ (f_inv (i - k)%F)), IH, Hnd.
    intros x. simpl. rewrite decide_False by (intros ->; done). ring.
Qed.

Lemma sum_indicator (j : F) (g : F → F) l :
  NoDup l → j ∈ l →
  f_sum ((λ i, (if decide (i = j) then 1 else 0)%F * g i)%F <$> l) = g j.
Proof.
  intros Hnd Hin. apply elem_of_Permutation in Hin as [l' Hl'].
  rewrite Hl' in Hnd. apply NoDup_cons in Hnd as [Hni _]. rewrite Hl'. csimpl.
  rewrite decide_True by done. rewrite (f_sum_ext _ (λ _, 0%F)).
  - rewrite f_sum_zero. ring.
  - intros i Hi. rewrite decide_False by (intros ->; done). ring.
Qed.

(** A polynomial with at most as many coefficients as there are distinct
    indices is the Lagrange combination of its values. *)
Theorem lagrange_interpolation cs l x :
  NoDup l → (length cs ≤ length l)%nat →
  f_sum ((λ i, lagrange i l x * peval cs i)%F <$> l) = peval cs x.
Proof.
  intros Hnd Hlen.
  set (d := λ y, (f_sum ((λ i, peval cs i * lagrange i l y)%F <$> l)
                  + f_neg 1 * peval cs y)%F).
  assert (is_poly (length l) d) as (ds & Hds & Hd).
  { apply is_poly_add.
    - apply (is_poly_sum _ (λ i y, peval cs i * lagrange i l y)%F).
      intros i Hi. apply is_poly_scale. by apply lagrange_poly.
    - apply is_poly_scale. by exists cs. }
  assert (d x = 0%F) as Hx.
  { rewrite Hd. apply (peval_roots ds l); [done..|].
    intros j Hj. rewrite <- Hd. unfold d.
    rewrite (f_sum_ext _ (λ i, (if decide (i = j) then 1 else 0)%F * peval cs i)%F).
    - rewrite sum_indicator by done. ring.
    - intros i Hi. case_decide as Hij.
      + subst. rewrite lagrange_self. ring.
      + rewrite lagrange_other by (auto; done). ring. }
  unfold d in Hx. rewrite (f_sum_ext _ (λ i, peval cs i * lagrange i l x)%F).
  - apply f_sub_zero. rewrite <- Hx. ring.
  - intros i _. ring.
Qed.

(** Reconstruction from shares: any values that agree with a short polynomial
    on the indices interpolate to that polynomial. *)
Corollary lagrange_reconstruct cs (s : F → F) l x :
  NoDup l → (length cs ≤ length l)%nat → (∀ i, i ∈ l → s i = peval cs i) →
  f_sum ((λ i, lagrange i l x * s i)%F <$> l) = peval cs x.
Proof.
  intros Hnd Hlen Hs. rewrite <- (lagrange_interpolation cs l x) by done.
  apply f_sum_ext. intros i Hi. by rewrite Hs.
Qed.
End Theory.
