(* ===== verification/Curve.v ===== *)
(** * The [Curve] interface (crates/cryptography/src/curve.rs)

    The traits [ScalarTrait], [PointTrait] and [Curve] as a class of
    operations, and what the protocols rely on as a class of laws.  The laws
    speak of the prime-order subgroup only: BabyJubJub has a cofactor, and
    scalar arithmetic modulo the subgroup order is not an action on the
    points outside it. *)
From Stdlib Require Import ZArith Lia Znumtheory Field.
From stdpp Require Import base list strings.
From S2P Require Import Prelude PrimeField.

(** lib.rs, [enum Error]. *)
Inductive Error : Type :=
  | InvalidInput
  | InvalidSignature
  | ExtremelyRareErrorInputUnhashableToCurve
  | InvalidDLEQProof
  | UnknownError
  | Other (data : string).

#[export] Instance Error_eq_dec : EqDecision Error.
Proof. solve_decision. Defined.

(** [Blake2b512] and [Sha3_256] (lib.rs [hash512], [hash256]): functions from
    byte strings to byte strings of 64 and 32 bytes. *)
Class Hashes := {
  hash512 : list Z → list Z;
  hash256 : list Z → list Z;
  hash512_length m : length (hash512 m) = 64%nat;
  hash512_bytes m : Forall is_byte (hash512 m);
  hash256_length m : length (hash256 m) = 32%nat;
  hash256_bytes m : Forall is_byte (hash256 m)
}.

Class Curve := {
  Point : Type;
  Scalar : Type;
  FieldEl : Type;
  point_eq_dec :: EqDecision Point;
  (** [C::Scalar] with [Add], [Sub], [Mul] and equality. *)
  scalar_field :: PrimeField Scalar;
  (** [C::FieldEl: PrimeField]. *)
  fieldel_field :: PrimeField FieldEl;
  (** Size of [FieldEl::Repr] in bytes (40 for [F256k1], 32 for [BABYJUBJUB]). *)
  repr_len : nat;
  FIELD_MODULUS_BE : list Z;
  ZERO : Point;
  base_point_or_generator : Point;
  (** [PointTrait]. *)
  add_self : Point → Point → Point;
  scalar_mul : Point → Scalar → Point;
  neg : Point → Point;
  is_on_curve : Point → bool;
  is_in_subgroup_assuming_on_curve : Point → bool;
  encode : Point → outcome Error (list Z);
  from_encoded : list Z → outcome Error Point;
  (** [From<FieldEl> for Scalar] and [From<Scalar> for FieldEl]. *)
  scalar_of_field : FieldEl → Scalar;
  field_of_scalar : Scalar → FieldEl;
  (** [ScalarTrait]; [mul_inv] is a [CtOption]. *)
  mul_inv : Scalar → outcome Error (option Scalar);
  from_biguint_vartime : Z → outcome Error Scalar;
  scalar_from_bytes : list Z → outcome Error Scalar;
  scalar_to_bytes : Scalar → list Z;
  hash_to_curve : list Z → outcome Error Point;
  hash_from_curve : Point → outcome Error Z
}.

(** [PrimeField::to_repr] of a field element: big-endian bytes
    ([PrimeFieldReprEndianness = "big"]). *)
Definition to_repr `{Curve} (x : FieldEl) : list Z := be_bytes repr_len (f_to_Z x).

(** The check that guards [safe_scalar_mul_with_curve_and_subgroup_checks]
    and the Koblitz map. *)
Definition in_subgroup `{Curve} (P : Point) : bool :=
  is_on_curve P && is_in_subgroup_assuming_on_curve P.

(** [PointTrait::safe_scalar_mul_with_curve_and_subgroup_checks]. *)
Definition safe_scalar_mul_with_curve_and_subgroup_checks `{Curve}
    (P : Point) (s : Scalar) : outcome Error Point :=
  if is_on_curve P && is_in_subgroup_assuming_on_curve P
  then Ok (scalar_mul P s) else Err InvalidInput.

Class CurveLaws (C : Curve) : Prop := {
  modulus_agree : f_modulus (F:=FieldEl) = f_modulus (F:=Scalar);
  scalar_of_field_val x : f_to_Z (scalar_of_field x) = f_to_Z x;
  field_of_scalar_val s : f_to_Z (field_of_scalar s) = f_to_Z s;
  repr_len_fits : f_modulus (F:=FieldEl) ≤ 256 ^ Z.of_nat repr_len;
  field_modulus_pos : 0 < be_val FIELD_MODULUS_BE;
  sub_zero : in_subgroup ZERO;
  sub_base : in_subgroup base_point_or_generator;
  sub_add P Q : in_subgroup P → in_subgroup Q → in_subgroup (add_self P Q);
  sub_mul P a : in_subgroup P → in_subgroup (scalar_mul P a);
  sub_neg P : in_subgroup P → in_subgroup (neg P);
  add_self_comm P Q : in_subgroup P → in_subgroup Q → add_self P Q = add_self Q P;
  add_self_assoc P Q R : in_subgroup P → in_subgroup Q → in_subgroup R →
    add_self P (add_self Q R) = add_self (add_self P Q) R;
  add_self_zero P : in_subgroup P → add_self ZERO P = P;
  add_self_neg P : in_subgroup P → add_self P (neg P) = ZERO;
  smul_add P a b : in_subgroup P →
    scalar_mul P (a + b)%F = add_self (scalar_mul P a) (scalar_mul P b);
  smul_add_point P Q a : in_subgroup P → in_subgroup Q →
    scalar_mul (add_self P Q) a = add_self (scalar_mul P a) (scalar_mul Q a);
  smul_mul P a b : in_subgroup P →
    scalar_mul (scalar_mul P a) b = scalar_mul P (a * b)%F;
  smul_one P : in_subgroup P → scalar_mul P 1%F = P;
  base_order a : scalar_mul base_point_or_generator a = ZERO → a = 0%F;
  base_generates P : in_subgroup P → ∃ a, P = scalar_mul base_point_or_generator a;
  encode_total P : in_subgroup P → P ≠ ZERO → is_Ok (encode P);
  encode_decode P bs : in_subgroup P → encode P = Ok bs → from_encoded bs = Ok P;
  from_biguint_val z : 0 ≤ z → from_biguint_vartime z = Ok (f_of_Z z);
  mul_inv_nonzero s : s ≠ 0%F → mul_inv s = Ok (Some (f_inv s));
  mul_inv_zero t : mul_inv 0%F ≠ Ok (Some t);
  scalar_bytes s : scalar_from_bytes (scalar_to_bytes s) = Ok s;
  hash_to_curve_sub m P : hash_to_curve m = Ok P → in_subgroup P
}.

Declare Scope point_scope.
Delimit Scope point_scope with P.
Infix "+" := add_self : point_scope.
Notation "a ⋅ X" := (scalar_mul X a) (at level 40, left associativity) : point_scope.

Create HintDb subgroup.
#[export] Hint Resolve sub_zero sub_base sub_add sub_mul sub_neg hash_to_curve_sub : subgroup.

Abbreviation G := base_point_or_generator.

Section Theory.
Context `{C : Curve} {CL : CurveLaws C}.
Implicit Types (X Y : Point) (a b : Scalar).
Local Open Scope point_scope.

Add Field S_field : (f_field_theory (F:=Scalar)).

Lemma add_zero_r X : in_subgroup X → X + ZERO = X.
Proof. intros. rewrite add_self_comm, add_self_zero; auto with subgroup. Qed.

Lemma add_cancel_r X Y Z : in_subgroup X → in_subgroup Y → in_subgroup Z →
  X + Z = Y + Z → X = Y.
Proof.
  intros HX HY HZ Heq. apply (f_equal (λ U, U + neg Z)) in Heq.
  rewrite <- !add_self_assoc, !add_self_neg, !add_zero_r in Heq; auto with subgroup.
Qed.

Lemma smul_zero X : in_subgroup X → 0%F ⋅ X = ZERO.
Proof.
  intros HX. apply (add_cancel_r _ _ (0%F ⋅ X)); auto with subgroup.
  rewrite <- smul_add, add_self_zero by auto with subgroup. f_equal. ring.
Qed.

Lemma smul_eq X a b : a = b → a ⋅ X = b ⋅ X.
Proof. by intros ->. Qed.

(** The generator has the order of the scalar field. *)
Lemma smul_base_inj a b : a ⋅ G = b ⋅ G → a = b.
Proof.
  intros Heq. apply f_sub_zero, base_order.
  apply (add_cancel_r _ _ (b ⋅ G)); auto with subgroup.
  rewrite <- smul_add, add_self_zero, <- Heq by auto with subgroup.
  apply smul_eq. ring.
Qed.

Lemma smul_inj X a b : in_subgroup X → X ≠ ZERO → a ⋅ X = b ⋅ X → a = b.
Proof.
  intros HX Hnz Heq. destruct (base_generates X HX) as [x ->].
  rewrite !smul_mul in Heq by auto with subgroup. apply smul_base_inj in Heq.
  assert (x ≠ 0%F) as Hx.
  { intros ->. apply Hnz. by apply smul_zero, sub_base. }
  apply f_sub_zero. assert (x * (a - b) = 0)%F as H0.
  { transitivity (x * a - x * b)%F; [ring|]. rewrite Heq. ring. }
  apply f_mul_zero in H0 as [|]; done.
Qed.

Lemma smul_nonzero X a : in_subgroup X → X ≠ ZERO → a ≠ 0%F → a ⋅ X ≠ ZERO.
Proof.
  intros HX Hnz Ha H0. apply Ha, (smul_inj X); auto. by rewrite H0, smul_zero.
Qed.

Lemma base_nonzero : G ≠ ZERO.
Proof.
  intros H. apply (f_one_neq_zero (F:=Scalar)), base_order.
  rewrite smul_one by auto with subgroup. done.
Qed.

Lemma smul_neg X a : in_subgroup X → (- a)%F ⋅ X = neg (a ⋅ X).
Proof.
  intros HX. apply (add_cancel_r _ _ (a ⋅ X)); auto with subgroup.
  rewrite <- smul_add, (add_self_comm (neg _)), add_self_neg by auto with subgroup.
  rewrite <- (smul_zero X) by done. apply smul_eq. ring.
Qed.

(** Scalar and field representations of one number. *)
Lemma scalar_of_field_of_Z z : scalar_of_field (f_of_Z z) = f_of_Z z.
Proof.
  apply f_to_Z_inj. by rewrite scalar_of_field_val, !f_to_of, modulus_agree.
Qed.

Lemma scalar_field_inv x : field_of_scalar (scalar_of_field x) = x.
Proof. apply f_to_Z_inj. by rewrite field_of_scalar_val, scalar_of_field_val. Qed.

Lemma field_scalar_inv s : scalar_of_field (field_of_scalar s) = s.
Proof. apply f_to_Z_inj. by rewrite scalar_of_field_val, field_of_scalar_val. Qed.

Lemma scalar_of_field_inj x y : scalar_of_field x = scalar_of_field y → x = y.
Proof. intros H. by rewrite <- (scalar_field_inv x), H, scalar_field_inv. Qed.

Lemma scalar_of_field_add x y :
  scalar_of_field (x + y)%F = (scalar_of_field x + scalar_of_field y)%F.
Proof.
  apply f_to_Z_inj.
  by rewrite scalar_of_field_val, !f_to_Z_add, modulus_agree, !scalar_of_field_val.
Qed.

Lemma scalar_of_field_mul x y :
  scalar_of_field (x * y)%F = (scalar_of_field x * scalar_of_field y)%F.
Proof.
  apply f_to_Z_inj.
  by rewrite scalar_of_field_val, !f_to_Z_mul, modulus_agree, !scalar_of_field_val.
Qed.

Lemma scalar_of_field_zero : scalar_of_field 0%F = 0%F.
Proof. apply f_to_Z_inj. by rewrite scalar_of_field_val, !f_to_Z_zero. Qed.

Lemma be_val_to_repr x : be_val (to_repr x) = f_to_Z x.
Proof.
  unfold to_repr. rewrite be_val_bytes. apply Z.mod_small.
  pose proof (f_to_Z_range x). pose proof repr_len_fits. lia.
Qed.

(** Decoding a share: the scalar read from its bytes is the field element. *)
Lemma share_decode x :
  ∃ s, from_biguint_vartime (be_val (to_repr x)) = Ok s ∧ field_of_scalar s = x.
Proof.
  rewrite be_val_to_repr. pose proof (f_to_Z_range x) as Hx.
  exists (f_of_Z (f_to_Z x)). split; [apply from_biguint_val; lia|].
  apply f_to_Z_inj. rewrite field_of_scalar_val, f_to_of, <- modulus_agree.
  by apply Z.mod_small.
Qed.

(** [x ⋆ X]: multiplication by a field element, converted as the code does. *)
Definition fmul_point X (x : FieldEl) : Point := scalar_mul X (scalar_of_field x).

Lemma fmul_add X x y : in_subgroup X →
  fmul_point X (x + y)%F = fmul_point X x + fmul_point X y.
Proof. intros. unfold fmul_point. by rewrite scalar_of_field_add, smul_add. Qed.

Lemma fmul_mul X x y : in_subgroup X →
  fmul_point (fmul_point X x) y = fmul_point X (x * y)%F.
Proof. intros. unfold fmul_point. by rewrite scalar_of_field_mul, smul_mul. Qed.

Lemma fmul_zero X : in_subgroup X → fmul_point X 0%F = ZERO.
Proof. intros. unfold fmul_point. by rewrite scalar_of_field_zero, smul_zero. Qed.

Lemma fmul_sub X x : in_subgroup X → in_subgroup (fmul_point X x).
Proof. intros. apply sub_mul; done. Qed.

Lemma fmul_base_inj x y : fmul_point G x = fmul_point G y → x = y.
Proof. intros H. by apply scalar_of_field_inj, smul_base_inj. Qed.

Lemma fmul_inj X x y : in_subgroup X → X ≠ ZERO →
  fmul_point X x = fmul_point X y → x = y.
Proof. intros HX Hnz H. by apply scalar_of_field_inj, (smul_inj X). Qed.

Lemma fmul_generates X : in_subgroup X → ∃ x, X = fmul_point G x.
Proof.
  intros [a ->]%base_generates. exists (field_of_scalar a). unfold fmul_point.
  by rewrite field_scalar_inv.
Qed.

(** A sum of multiples of one point, accumulated from the left. *)
Lemma foldl_fmul {A} X x (g : A → FieldEl) l : in_subgroup X →
  foldl (λ acc u, acc + fmul_point X (g u)) (fmul_point X x) l
  = fmul_point X (x + f_sum (g <$> l))%F.
Proof.
  intros HX. revert x. induction l as [|a l IH]; intros x; csimpl.
  - rewrite fmul_add, fmul_zero, add_zero_r; auto using fmul_sub.
  - rewrite <- fmul_add, IH by done. f_equal.
    apply f_to_Z_inj. rewrite !f_to_Z_add, Zplus_mod_idemp_l, Zplus_mod_idemp_r.
    f_equal. lia.
Qed.

End Theory.
#[export] Hint Resolve fmul_sub : subgroup.
