(* ===== verification/ModelCurve.v ===== *)
(** * A concrete curve satisfying the [Curve] contract

    The additive group of the integers modulo 101, with the generator 1 and
    one-byte encodings.  It is small enough to evaluate and is the instance
    at which the development's general theorems are exercised: it shows
    that the laws of [CurveLaws] are consistent. *)
From Stdlib Require Import ZArith Lia Znumtheory Zmod.
From stdpp Require Import base list strings.
From S2P Require Import Prelude PrimeField Curve.

Definition q101 : Z := 101.

Lemma prime_q101 : prime q101.
Proof.
  apply prime_intro; [unfold q101; lia|]. intros n Hn. enough (Z.gcd n q101 = 1) as Hg by (unfold rel_prime; rewrite <- Hg; constructor;
    [apply Z.gcd_divide_l|apply Z.gcd_divide_r|intros; by apply Z.gcd_greatest]).
  assert (forallb (λ k, Z.gcd (Z.of_nat k) q101 =? 1) (seq 1 100) = true) as H
    by (vm_compute; reflexivity).
  rewrite forallb_forall in H. specialize (H (Z.to_nat n)).
  rewrite in_seq in H. unfold q101 in *. rewrite Z2Nat.id in H by lia.
  apply Z.eqb_eq, H. lia.
Qed.

Abbreviation Z101 := (Zmod.Zmod q101).

#[local] Instance Z101_eq_dec : EqDecision Z101.
Proof.
  intros x y. destruct (Zmod.eqb x y) eqn:E.
  - left. by apply Zmod.eqb_eq.
  - right. intros ->. by rewrite Zmod.eqb_refl in E.
Defined.

Program Definition Z101_field : PrimeField Z101 := {|
  f_zero := Zmod.zero; f_one := Zmod.one; f_add := Zmod.add; f_sub := Zmod.sub;
  f_mul := Zmod.mul; f_neg := Zmod.opp; f_inv := Zmod.inv;
  f_modulus := q101; f_of_Z := Zmod.of_Z q101; f_to_Z := Zmod.unsigned;
|}.
Next Obligation. exact prime_q101. Qed.
Next Obligation. intros. apply Zmod.unsigned_pos_bound. unfold q101; lia. Qed.
Next Obligation. intros. apply Zmod.of_Z_to_Z. Qed.
Next Obligation. intros. apply Zmod.unsigned_of_Z. Qed.
Next Obligation. apply Zmod.unsigned_0. Qed.
Next Obligation. reflexivity. Qed.
Next Obligation. intros. apply Zmod.unsigned_add. Qed.
Next Obligation. intros. apply Zmod.unsigned_sub. Qed.
Next Obligation. intros. apply Zmod.unsigned_mul. Qed.
Next Obligation. intros. apply Zmod.unsigned_opp. Qed.
Next Obligation.
  intros x Hx. simpl in *. apply Zmod.mul_inv_same_l_prime; [|done].
  apply prime_alt, prime_q101.
Qed.

#[local] Existing Instance Z101_field.

(** The hash functions of the model: the big-endian value of the message,
    truncated to the digest size. *)
Program Definition model_hashes : Hashes := {|
  hash512 m := be_bytes 64 (be_val m);
  hash256 m := be_bytes 32 (be_val m)
|}.
Next Obligation. intros. apply be_bytes_length. Qed.
Next Obligation. intros. apply be_bytes_byte. Qed.
Next Obligation. intros. apply be_bytes_length. Qed.
Next Obligation. intros. apply be_bytes_byte. Qed.

Definition model_curve : Curve := {|
  Point := Z101; Scalar := Z101; FieldEl := Z101;
  repr_len := 1;
  FIELD_MODULUS_BE := be_bytes 32 q101;
  ZERO := Zmod.zero;
  base_point_or_generator := Zmod.one;
  add_self := Zmod.add;
  scalar_mul P a := Zmod.mul P a;
  neg := Zmod.opp;
  is_on_curve _ := true;
  is_in_subgroup_assuming_on_curve _ := true;
  encode P := Ok [Zmod.unsigned P];
  from_encoded bs :=
    match bs with
    | [b] => if b <? q101 then Ok (Zmod.of_Z q101 b) else Err InvalidInput
    | _ => Err InvalidInput
    end;
  scalar_of_field x := x;
  field_of_scalar x := x;
  mul_inv s := Ok (f_invert s);
  from_biguint_vartime z := Ok (Zmod.of_Z q101 z);
  scalar_from_bytes bs := Ok (Zmod.of_Z q101 (be_val bs));
  scalar_to_bytes s := be_bytes 1 (Zmod.unsigned s);
  hash_to_curve m := Ok (Zmod.of_Z q101 (be_val m + 1));
  hash_from_curve P := Ok (Zmod.unsigned P)
|}.

Lemma model_curve_laws : CurveLaws model_curve.
Proof.
  constructor; simpl; try done; intros.
  - apply Zmod.add_comm.
  - apply Zmod.add_assoc.
  - apply Zmod.add_0_l.
  - apply Zmod.add_opp_same_r.
  - by rewrite Zmod.mul_comm, Zmod.mul_add_l, (Zmod.mul_comm a), (Zmod.mul_comm b).
  - apply Zmod.mul_add_l.
  - symmetry. apply Zmod.mul_assoc.
  - rewrite Zmod.mul_comm. apply Zmod.mul_1_l.
  - by rewrite Zmod.mul_1_l in H.
  - exists P. symmetry. apply Zmod.mul_1_l.
  - injection H0 as <-. pose proof (Zmod.unsigned_pos_bound P ltac:(unfold q101; lia)).
    destruct (Z.ltb_spec (Zmod.unsigned P) q101); [|lia]. by rewrite Zmod.of_Z_to_Z.
  - unfold f_invert. by rewrite decide_False.
  - f_equal. unfold be_val. simpl.
    pose proof (Zmod.unsigned_pos_bound s ltac:(unfold q101; lia)) as Hs.
    rewrite Z.mod_small by (unfold q101 in *; lia). apply Zmod.of_Z_to_Z.
Qed.

(** The instances, for the files that evaluate on the model. *)
Module ModelInstances.
#[export] Existing Instance Z101_eq_dec.
#[export] Existing Instance Z101_field.
#[export] Existing Instance model_hashes.
#[export] Existing Instance model_curve.
#[export] Existing Instance model_curve_laws.
#[export] Existing Instance map_to_list_order.
End ModelInstances.
