(* ===== verification/Cofactor.v ===== *)
(** * Points outside the prime-order subgroup

    BabyJubJub has cofactor 8, and [from_encoded] (curve.rs) checks that a decoded point
    is on the curve, not that it is in the subgroup of prime order.  What a peer sends is thus
    the sum of a subgroup point and a point of small order.  The class [CofactorLaws] says what
    the protocols need of such points: the projection [clear] to the subgroup, which is
    multiplication by the integer that is 1 modulo the subgroup order and 0 modulo the
    cofactor, commutes with the operations.  On a curve without cofactor, as secp256k1, it is
    the identity.  [cofactor_curve] is a small curve with cofactor 2, at which the theorems
    about such points are exercised. *)
From Stdlib Require Import ZArith Lia Znumtheory Zmod.
From stdpp Require Import base list gmap strings.
From S2P Require Import Prelude PrimeField Curve ModelCurve.

Class CofactorLaws (C : Curve) := {
  (** The component in the subgroup. *)
  clear : Point → Point;
  decoded_on_curve bs P : from_encoded bs = Ok P → is_on_curve P;
  curve_add P Q : is_on_curve P → is_on_curve Q → is_on_curve (add_self P Q);
  curve_mul P a : is_on_curve P → is_on_curve (scalar_mul P a);
  clear_sub P : is_on_curve P → in_subgroup (clear P);
  clear_id P : in_subgroup P → clear P = P;
  clear_add P Q : is_on_curve P → is_on_curve Q → clear (add_self P Q) = add_self (clear P) (clear Q);
  clear_mul P a : is_on_curve P → clear (scalar_mul P a) = scalar_mul (clear P) a
}.

(** A point that a peer can send. *)
Definition decoded `{Curve} (P : Point) : Prop := ∃ bs, from_encoded bs = Ok P.

Section Cofactor.
Context `{C : Curve} {CL : CurveLaws C} {CF : CofactorLaws C}.
Implicit Types P Q : Point.

Lemma decoded_curve P : decoded P → is_on_curve P.
Proof. intros [bs Hbs]. by eapply decoded_on_curve. Qed.
Lemma sub_curve P : in_subgroup P → is_on_curve P.
Proof. unfold in_subgroup. intros [H _]%andb_True. done. Qed.

(** Sums of multiples, accumulated from the left, as [DLEQProof] and the checks of the key
    generation compute them. *)
Lemma clear_lin P Q a b : is_on_curve P → is_on_curve Q →
  clear (add_self (scalar_mul P a) (scalar_mul Q b)) = add_self (scalar_mul (clear P) a) (scalar_mul (clear Q) b).
Proof. intros HP HQ. by rewrite clear_add, !clear_mul by (done || by apply curve_mul). Qed.
Lemma clear_fmul P (x : FieldEl) : is_on_curve P → clear (fmul_point P x) = fmul_point (clear P) x.
Proof. intros HP. by apply clear_mul. Qed.
End Cofactor.
#[export] Hint Resolve clear_sub sub_curve decoded_curve : subgroup.

(** A curve whose points are all in the subgroup. *)
Program Definition prime_order_cofactor (C : Curve) (H : ∀ P : Point (Curve:=C), in_subgroup P) : CofactorLaws C :=
  {| clear P := P |}.
Next Obligation. intros C H bs P _. by apply sub_curve. Qed.
Next Obligation. intros C H P Q _ _. by apply sub_curve. Qed.
Next Obligation. intros C H P a _. by apply sub_curve. Qed.
Next Obligation. intros C H P _. apply H. Qed.
Next Obligation. done. Qed.
Next Obligation. done. Qed.
Next Obligation. done. Qed.

(** ** A small curve with cofactor 2

    The integers modulo 202; the subgroup of order 101 is that of the even ones, with the
    generator 2, and 101 is the point of order 2. *)
Definition q202 : Z := 202.
Abbreviation Z202 := (Zmod.Zmod q202).

#[local] Instance Z202_eq_dec : EqDecision Z202.
Proof.
  intros x y. destruct (Zmod.eqb x y) eqn:E.
  - left. by apply Zmod.eqb_eq.
  - right. intros ->. by rewrite Zmod.eqb_refl in E.
Defined.
#[local] Existing Instance Z101_field.
#[local] Existing Instance Z101_eq_dec.

Definition cofactor_curve : Curve := {|
  Point := Z202; Scalar := Z101; FieldEl := Z101; repr_len := 1; FIELD_MODULUS_BE := be_bytes 32 q101;
  ZERO := Zmod.zero; base_point_or_generator := Zmod.of_Z q202 2; add_self := Zmod.add;
  scalar_mul P a := Zmod.of_Z q202 (Zmod.unsigned P * Zmod.unsigned a); neg := Zmod.opp;
  is_on_curve _ := true; is_in_subgroup_assuming_on_curve P := Z.even (Zmod.unsigned P);
  encode P := Ok [Zmod.unsigned P];
  from_encoded bs :=
    match bs with [b] => if b <? q202 then Ok (Zmod.of_Z q202 b) else Err InvalidInput | _ => Err InvalidInput end;
  scalar_of_field x := x; field_of_scalar x := x; mul_inv s := Ok (f_invert s);
  from_biguint_vartime z := Ok (Zmod.of_Z q101 z); scalar_from_bytes bs := Ok (Zmod.of_Z q101 (be_val bs));
  scalar_to_bytes s := be_bytes 1 (Zmod.unsigned s);
  hash_to_curve m := Ok (Zmod.of_Z q202 (2 * (be_val m + 1))); hash_from_curve P := Ok (Zmod.unsigned P)
|}.

(** The subgroup is the double of the integers modulo 101. *)
Definition double (x : Z101) : Z202 := Zmod.of_Z q202 (2 * Zmod.unsigned x).
Lemma double_unsigned x : Zmod.unsigned (double x) = 2 * Zmod.unsigned x.
Proof.
  unfold double. rewrite Zmod.unsigned_of_Z. apply Z.mod_small.
  pose proof (Zmod.unsigned_pos_bound x ltac:(unfold q101; lia)). unfold q101, q202 in *. lia.
Qed.
Lemma of_double z : Zmod.of_Z q202 (2 * z) = double (Zmod.of_Z q101 z).
Proof.
  apply Zmod.unsigned_inj. rewrite double_unsigned, !Zmod.unsigned_of_Z. change q202 with (2 * q101).
  apply Z.mul_mod_distr_l; unfold q101; lia.
Qed.
Lemma even_double (P : Z202) : in_subgroup (H:=cofactor_curve) P → ∃ x, P = double x.
Proof.
  intros HP. cbn in HP. apply Is_true_true, Z.even_spec in HP as [k Hk].
  exists (Zmod.of_Z q101 k). rewrite <- of_double, <- Hk. symmetry. apply Zmod.of_Z_to_Z.
Qed.
Lemma double_sub x : in_subgroup (H:=cofactor_curve) (double x).
Proof. change (Is_true (Z.even (Zmod.unsigned (double x)))). by rewrite double_unsigned, Z.even_mul. Qed.
Lemma double_add x y : Zmod.add (double x) (double y) = double (Zmod.add x y).
Proof.
  apply Zmod.unsigned_inj. rewrite double_unsigned, !Zmod.unsigned_add, !double_unsigned. change q202 with (2 * q101).
  rewrite <- Z.mul_mod_distr_l by (unfold q101; lia). f_equal. lia.
Qed.
Lemma double_mul x a : scalar_mul (Curve:=cofactor_curve) (double x) a = double (Zmod.mul x a).
Proof.
  change (Zmod.of_Z q202 (Zmod.unsigned (double x) * Zmod.unsigned a) = double (Zmod.mul x a)).
  rewrite double_unsigned, <- Z.mul_assoc, of_double.
  done.
Qed.
Lemma double_inj x y : double x = double y → x = y.
Proof. intros H%(f_equal Zmod.unsigned). rewrite !double_unsigned in H. apply Zmod.unsigned_inj. lia. Qed.
Lemma double_one : (Zmod.of_Z q202 2 : Z202) = double Zmod.one.
Proof. reflexivity. Qed.
Lemma double_opp x : Zmod.opp (double x) = double (Zmod.opp x).
Proof.
  apply Zmod.unsigned_inj. rewrite double_unsigned, !Zmod.unsigned_opp, double_unsigned. change q202 with (2 * q101).
  rewrite <- Z.mul_mod_distr_l by (unfold q101; lia). f_equal. lia.
Qed.

Lemma cofactor_curve_laws : CurveLaws cofactor_curve.
Proof.
  constructor; try done; try (intros; cbn in *; (apply Zmod.add_comm || apply Zmod.add_assoc || apply Zmod.add_0_l ||
    apply Zmod.add_opp_same_r)).
  - intros P Q [x ->]%even_double [y ->]%even_double. change (in_subgroup (H:=cofactor_curve) (Zmod.add (double x) (double y))).
    rewrite double_add. apply double_sub.
  - intros P a [x ->]%even_double. rewrite double_mul. apply double_sub.
  - intros P [x ->]%even_double. change (in_subgroup (H:=cofactor_curve) (Zmod.opp (double x))). rewrite double_opp. apply double_sub.
  - intros P a b [x ->]%even_double. rewrite !double_mul. change (double (Zmod.mul x (Zmod.add a b))
      = Zmod.add (double (Zmod.mul x a)) (double (Zmod.mul x b))). rewrite double_add. f_equal.
    by rewrite Zmod.mul_comm, Zmod.mul_add_l, (Zmod.mul_comm a), (Zmod.mul_comm b).
  - intros P Q a [x ->]%even_double [y ->]%even_double. rewrite !double_mul.
    change (scalar_mul (Curve:=cofactor_curve) (Zmod.add (double x) (double y)) a
      = Zmod.add (double (Zmod.mul x a)) (double (Zmod.mul y a))).
    rewrite !double_add, double_mul. f_equal. apply Zmod.mul_add_l.
  - intros P a b [x ->]%even_double. rewrite !double_mul. f_equal. symmetry. apply Zmod.mul_assoc.
  - intros P [x ->]%even_double. rewrite double_mul. f_equal. cbn. rewrite Zmod.mul_comm. apply Zmod.mul_1_l.
  - intros a. change (base_point_or_generator (Curve:=cofactor_curve)) with (double Zmod.one). rewrite double_mul.
    change (ZERO (Curve:=cofactor_curve)) with (double Zmod.zero). intros H%double_inj. by rewrite Zmod.mul_1_l in H.
  - intros P [x ->]%even_double. exists x. change (base_point_or_generator (Curve:=cofactor_curve)) with (double Zmod.one).
    by rewrite double_mul, Zmod.mul_1_l.
  - intros P bs _ [= <-]. cbn. pose proof (Zmod.unsigned_pos_bound P ltac:(unfold q202; lia)).
    destruct (Z.ltb_spec (Zmod.unsigned P) q202); [|lia]. by rewrite Zmod.of_Z_to_Z.
  - intros s Hs. cbn. unfold f_invert. by rewrite decide_False.
  - intros s. cbn. f_equal. unfold be_val. cbn.
    pose proof (Zmod.unsigned_pos_bound s ltac:(unfold q101; lia)) as Hs.
    rewrite Z.mod_small by (unfold q101 in *; lia). apply Zmod.of_Z_to_Z.
  - intros m P [= <-]. rewrite of_double. apply double_sub.
Qed.

(** Multiplication by 102, which is 1 modulo 101 and 0 modulo 2. *)
Program Definition cofactor_curve_cofactor : CofactorLaws cofactor_curve :=
  {| clear P := Zmod.of_Z q202 (Zmod.unsigned (P : Z202) * 102) : Z202 |}.
Next Obligation. done. Qed.
Next Obligation. done. Qed.
Next Obligation. done. Qed.
Next Obligation.
  intros P _. change (in_subgroup (H:=cofactor_curve) (Zmod.of_Z q202 (Zmod.unsigned (P : Z202) * 102))).
  replace (Zmod.unsigned (P : Z202) * 102) with (2 * (Zmod.unsigned (P : Z202) * 51)) by lia.
  rewrite of_double. apply double_sub.
Qed.
Next Obligation.
  intros P [x ->]%even_double. cbn beta. rewrite double_unsigned, <- Z.mul_assoc, of_double. f_equal.
  apply Zmod.unsigned_inj. rewrite Zmod.unsigned_of_Z.
  replace (Zmod.unsigned x * 102) with (Zmod.unsigned x + Zmod.unsigned x * q101) by (unfold q101; lia).
  rewrite Z_mod_plus_full. apply Z.mod_small. apply Zmod.unsigned_pos_bound. unfold q101; lia.
Qed.
Next Obligation.
  intros P Q _ _. change (Zmod.of_Z q202 (Zmod.unsigned (Zmod.add (P : Z202) Q) * 102)
    = Zmod.add (Zmod.of_Z q202 (Zmod.unsigned (P : Z202) * 102)) (Zmod.of_Z q202 (Zmod.unsigned (Q : Z202) * 102))).
  apply Zmod.unsigned_inj. rewrite Zmod.unsigned_add, !Zmod.unsigned_of_Z, Zmod.unsigned_add.
  rewrite Zmult_mod_idemp_l, Z.mul_add_distr_r, Zplus_mod, !Zmod.unsigned_of_Z. done.
Qed.
Next Obligation.
  intros P a _. change (Zmod.of_Z q202 (Zmod.unsigned (Zmod.of_Z q202 (Zmod.unsigned (P : Z202) * Zmod.unsigned (a : Z101))) * 102)
    = Zmod.of_Z q202 (Zmod.unsigned (Zmod.of_Z q202 (Zmod.unsigned (P : Z202) * 102)) * Zmod.unsigned (a : Z101))).
  apply Zmod.unsigned_inj. rewrite !Zmod.unsigned_of_Z, !Zmult_mod_idemp_l. f_equal. lia.
Qed.

(** The point of order 2, outside the subgroup. *)
Definition torsion : Point (Curve:=cofactor_curve) := (Zmod.of_Z q202 101 : Z202).

(** Every point of the small curves can be sent. *)
Lemma cofactor_decoded (P : Z202) : decoded (H:=cofactor_curve) P.
Proof.
  exists [Zmod.unsigned P]. cbn. pose proof (Zmod.unsigned_pos_bound P ltac:(unfold q202; lia)).
  destruct (Z.ltb_spec (Zmod.unsigned P) q202); [|lia]. by rewrite Zmod.of_Z_to_Z.
Qed.
Lemma model_decoded (P : Point (Curve:=model_curve)) : decoded (H:=model_curve) P.
Proof. eexists. by eapply (encode_decode (CurveLaws:=model_curve_laws)). Qed.

Module CofactorInstances.
#[export] Existing Instance Z101_eq_dec.
#[export] Existing Instance Z202_eq_dec.
#[export] Existing Instance Z101_field.
#[export] Existing Instance model_hashes.
#[export] Existing Instance cofactor_curve.
#[export] Existing Instance cofactor_curve_laws.
#[export] Existing Instance cofactor_curve_cofactor.
#[export] Existing Instance map_to_list_order.
End CofactorInstances.
