(* ===== verification/Polynomial.v ===== *)
(** * Polynomials, Lagrange coefficients and Feldman sharing
    (crates/cryptography/src/polynomial.rs) *)
From Stdlib Require Import ZArith Lia Znumtheory Field.
From stdpp Require Import base list gmap strings.
From S2P Require Import Prelude PrimeField Curve ModelCurve.

(** ** The [Polynomial] struct *)
Record Polynomial (F : Type) := { coefficients : list F }.
Arguments coefficients {F} _.
Arguments Build_Polynomial {F} _.

Section Poly.
Context {F : Type} `{!PrimeField F}.

Definition from_coeffs (coeffs : list F) : Polynomial F := {| coefficients := coeffs |}.

(** [F::random(&mut thread_rng())] is the argument [rnd]: the [i]-th draw. *)
Definition random_polynomial (rnd : nat → F) (degree : nat) : Polynomial F :=
  {| coefficients := rnd <$> seq 0 (degree + 1) |}.

Definition random_polynomials_with_secret (rnd : nat → F) (degree : nat) (secret : F)
    : Polynomial F :=
  let coeffs := rnd <$> seq 0 (degree + 1) in
  {| coefficients := <[0%nat := secret]> coeffs |}.

(** [from_seed]: every round hashes [recent] with Blake2b-512 and converts the
    digest to a [[u8; 32]] with [try_into]; [prg] is [F::random] of the
    [StdRng] seeded with the result. *)
Definition try_into_32 (l : list Z) : outcome unit (list Z) :=
  if (length l =? 32)%nat then Ok l else Err tt.

Fixpoint from_seed_loop `{Hashes} (prg : list Z → F) (n : nat) (recent : list Z)
    (coeffs : list F) : outcome unit (list F) :=
  match n with
  | O => Ok coeffs
  | S n =>
      recent' ← try_into_32 (hash512 recent);
      from_seed_loop prg n recent' (coeffs ++ [prg recent'])
  end.

Definition from_seed `{Hashes} (prg : list Z → F) (seed : list Z) (degree : nat)
    : outcome unit (Polynomial F) :=
  _ ← assert_ (length seed =? 32)%nat;
  coeffs ← from_seed_loop prg (degree + 1) seed [];
  Ok (from_coeffs coeffs).

(** [eval]: the sum of [x.pow([i]).mul(coeff)] over the enumerated
    coefficients. *)
Definition eval (p : Polynomial F) (x : F) : F :=
  foldl f_add 0%F (imap (λ i coeff, f_pow x i * coeff)%F (coefficients p)).

(** [deg]: [usize] subtraction, which wraps for the empty polynomial. *)
Definition deg (p : Polynomial F) : Z := u64 (Z.of_nat (length (coefficients p)) - 1).

Definition add_same_deg (p q : Polynomial F) : outcome unit (Polynomial F) :=
  _ ← assert_ (deg p =? deg q);
  Ok {| coefficients := zip_with (λ a b, b + a)%F (coefficients p) (coefficients q) |}.

(** ** [lagrange_basis_at_0]: the product of [j / (j - i)] over the indices
    [j != i]; [invert().unwrap()] panics on a zero denominator. *)
Definition lagrange_basis_at_0 {E} (i : Z) (indices : list Z) : outcome E F :=
  _ ← assert_ (0 <? i);
  let i_ : F := f_of_Z i in
  foldM (λ acc j,
    if negb (j =? i) then
      let j_ := f_of_Z j in
      let denominator := (j_ - i_)%F in
      inv ← unwrap (f_invert denominator);
      Ok (acc * j_ * inv)%F
    else Ok acc) 1%F indices.
End Poly.

(** ** Feldman verifiable secret sharing *)
Section Feldman.
Context `{C : Curve} `{HashOrder}.

Definition feldman_vss {T E} (poly : Polynomial FieldEl) (set : gmap Z T) (t : nat)
    : outcome E (gmap Z FieldEl * list Point) :=
  let y := foldl (λ y kv, or_insert kv.1 (eval poly (f_of_Z kv.1)) y) ∅ (hm_iter set) in
  v ← foldM (λ v j,
        coeff ← unwrap (coefficients poly !! j);
        Ok (v ++ [scalar_mul base_point_or_generator (scalar_of_field coeff)]))
      [] (seq 0 t);
  Ok (y, v).

(** The loop of [verify_vss] over [checks[1..]]: [exp] is a [u128]. *)
Fixpoint verify_vss_loop (index : Z) (cop : list Point) (exp : Z) (accum : Point) : Point :=
  match cop with
  | [] => accum
  | i :: cop =>
      let exp := u128 (exp * index) in
      let temp : FieldEl := f_of_Z exp in
      let res2 := scalar_mul i (scalar_of_field temp) in
      verify_vss_loop index cop exp (add_self accum res2)
  end.

Definition verify_vss {E} (index : Z) (share : FieldEl) (checks : list Point) : outcome E bool :=
  let res := scalar_mul base_point_or_generator (scalar_of_field share) in
  accum ← unwrap (checks !! 0%nat);
  Ok (bool_decide (res = verify_vss_loop index (drop 1 checks) 1 accum)).
End Feldman.

(** ** Properties of polynomials *)
Section PolyFacts.
Context {F : Type} `{!PrimeField F}.
Add Field F_field : (f_field_theory (F:=F)).

(** [eval] is the Horner value of the coefficient list. *)
Lemma eval_peval (p : Polynomial F) x : eval p x = peval (coefficients p) x.
Proof.
  unfold eval. rewrite f_sum_foldl.
  rewrite (imap_ext _ (λ i c, f_pow x (0 + i) * c)%F) by done.
  rewrite peval_monomials. simpl. ring.
Qed.

Lemma peval_zip_add (p q : list F) x : length p = length q →
  peval (zip_with (λ a b, b + a)%F p q) x = (peval p x + peval q x)%F.
Proof.
  revert q. induction p as [|a p IH]; intros [|b q] Hl; simpl in *; try discriminate.
  - ring.
  - rewrite IH by congruence. ring.
Qed.

Lemma random_with_secret_coeffs (rnd : nat → F) degree secret :
  ∃ cs, coefficients (random_polynomials_with_secret rnd degree secret) = secret :: cs
        ∧ length cs = degree.
Proof.
  unfold random_polynomials_with_secret. rewrite Nat.add_comm. simpl.
  eexists; split; [done|]. by rewrite length_fmap, length_seq.
Qed.

(** The value at 0 of a sharing polynomial is the secret. *)
Lemma eval_secret (rnd : nat → F) degree secret :
  eval (random_polynomials_with_secret rnd degree secret) 0%F = secret.
Proof.
  destruct (random_with_secret_coeffs rnd degree secret) as (cs & Hcs & _).
  by rewrite eval_peval, Hcs, peval_0.
Qed.

(** Conditions under which a set of [u32] indices is usable. *)
Definition good_indices (l : list Z) : Prop :=
  NoDup l ∧ Forall (λ i, 0 < i < f_modulus (F:=F)) l.

Lemma good_indices_range l i : good_indices l → i ∈ l → 0 < i < f_modulus (F:=F).
Proof. intros [_ Hf] Hi. by eapply Forall_forall in Hf. Qed.

Lemma good_indices_perm l l' : l ≡ₚ l' → good_indices l → good_indices l'.
Proof. unfold good_indices. intros Hp. by rewrite Hp. Qed.

Lemma good_indices_NoDup l : good_indices l → NoDup ((f_of_Z : Z → F) <$> l).
Proof.
  intros Hg. destruct Hg as [Hnd Hf]. apply NoDup_fmap_2_strong; [|done].
  intros x y Hx Hy Heq. eapply Forall_forall in Hx, Hy; [|done..]. simpl in *.
  apply (f_of_Z_inj (F:=F)); lia || done.
Qed.

Lemma lagrange_loop {E} i l (acc : F) :
  0 < i < f_modulus (F:=F) → Forall (λ i, 0 < i < f_modulus (F:=F)) l →
  foldM (E:=E) (λ acc j,
    if negb (j =? i) then
      inv ← unwrap (f_invert (f_of_Z j - f_of_Z i)%F);
      Ok (acc * f_of_Z j * inv)%F
    else Ok acc) acc l
  = Ok (acc * lagrange (f_of_Z i) (f_of_Z <$> l) 0)%F.
Proof.
  intros Hi Hl. revert acc. induction l as [|j l IH]; intros acc; csimpl.
  - f_equal. ring.
  - apply Forall_cons in Hl as [Hj Hl]. specialize (IH Hl).
    destruct (Z.eqb_spec j i) as [->|Hne]; csimpl.
    + rewrite decide_True by done. apply IH.
    + assert (f_of_Z j ≠ (f_of_Z i : F)) as Hd.
      { intros Heq. apply Hne, (f_of_Z_inj (F:=F)); lia || done. }
      rewrite decide_False by done. unfold f_invert.
      rewrite decide_False by (by rewrite f_sub_zero). csimpl. rewrite IH. f_equal.
      field. repeat split; by rewrite f_sub_zero.
Qed.

(** On distinct nonzero indices below the modulus the loop returns the
    Lagrange basis polynomial of [i] evaluated at 0. *)
Lemma lagrange_basis_at_0_spec {E} i l :
  0 < i < f_modulus (F:=F) → Forall (λ i, 0 < i < f_modulus (F:=F)) l →
  lagrange_basis_at_0 (E:=E) i l = Ok (lagrange (f_of_Z i) (f_of_Z <$> l) 0 : F)%F.
Proof.
  intros Hi Hl. unfold lagrange_basis_at_0. rewrite (proj2 (Z.ltb_lt 0 i)) by lia.
  simpl. etransitivity; [apply lagrange_loop; done|]. f_equal. ring.
Qed.

(** The coefficient as a value, where [lagrange_basis_at_0] returns one. *)
Definition lambda_at_0 (l : list Z) (i : Z) : F :=
  lagrange (f_of_Z i) (f_of_Z <$> l) 0%F.

(** Any shares on a polynomial with at most as many coefficients as indices
    combine to its value at 0. *)
Lemma lambda_reconstruct (cs : list F) (s : Z → F) l :
  good_indices l → (length cs ≤ length l)%nat →
  (∀ i, i ∈ l → s i = peval cs (f_of_Z i)) →
  f_sum ((λ i, s i * lambda_at_0 l i)%F <$> l) = peval cs 0%F.
Proof.
  intros Hg Hlen Hs.
  rewrite <- (lagrange_interpolation cs (f_of_Z <$> l) 0%F);
    [|by apply good_indices_NoDup|by rewrite length_fmap].
  rewrite <- list_fmap_compose. apply f_sum_ext. intros i Hi.
  unfold compose, lambda_at_0. rewrite Hs by done. ring.
Qed.

Lemma lambda_perm l l' i : l ≡ₚ l' → lambda_at_0 l i = lambda_at_0 l' i.
Proof.
  unfold lambda_at_0. induction 1; csimpl; [done| | |congruence].
  - case_decide; congruence.
  - repeat case_decide; ring.
Qed.
End PolyFacts.

(** ** Properties of the sharing *)
Section FeldmanFacts.
Context `{C : Curve} {CL : CurveLaws C} `{HO : HashOrder}.
Add Field FE_field : (f_field_theory (F:=FieldEl)).
Add Field S_field : (f_field_theory (F:=Scalar)).

Lemma feldman_shares {T} (poly : Polynomial FieldEl) (set : gmap Z T) k :
  foldl (λ y kv, or_insert kv.1 (eval poly (f_of_Z kv.1)) y) ∅ (hm_iter set) !! k
  = (λ _, eval poly (f_of_Z k)) <$> set !! k.
Proof.
  assert (∀ (l : list (Z * T)) (y : gmap Z FieldEl),
    foldl (λ y kv, or_insert kv.1 (eval poly (f_of_Z kv.1)) y) y l !! k
    = match y !! k with
      | Some w => Some w
      | None => if decide (k ∈ l.*1) then Some (eval poly (f_of_Z k)) else None
      end) as Hgen.
  { induction l as [|[k' v] l IH]; intros y; csimpl.
    - by destruct (y !! k).
    - rewrite IH, lookup_or_insert. simpl. destruct (y !! k); [done|].
      destruct (decide (k' = k)) as [->|Hk].
      + by rewrite decide_True by set_solver.
      + apply decide_ext. set_solver. }
  rewrite Hgen, lookup_empty. change ((hm_iter set).*1) with (hm_keys set).
  case_decide as Hk; rewrite elem_of_hm_keys in Hk.
  - by destruct Hk as [v ->].
  - apply eq_None_not_Some in Hk. by rewrite Hk.
Qed.

Lemma feldman_commit {E} (cs : list FieldEl) t v0 k : (k + t ≤ length cs)%nat →
  foldM (E:=E) (λ v j,
      coeff ← unwrap (cs !! j);
      Ok (v ++ [scalar_mul G (scalar_of_field coeff)])) v0 (seq k t)
  = Ok (v0 ++ (fmul_point G <$> take t (drop k cs))).
Proof.
  revert v0 k. induction t as [|t IH]; intros v0 k Hk; csimpl.
  - by rewrite app_nil_r.
  - destruct (lookup_lt_is_Some_2 cs k) as [c Hc]; [lia|].
    rewrite Hc. csimpl. rewrite IH by lia. rewrite (drop_S cs c k Hc). csimpl.
    by rewrite <- app_assoc.
Qed.

(** What [feldman_vss] returns: one evaluation per member of the set, and the
    commitments to the first [t] coefficients. *)
Lemma feldman_vss_spec {E T} (poly : Polynomial FieldEl) (set : gmap Z T) t :
  (t ≤ length (coefficients poly))%nat →
  ∃ y v, feldman_vss (E:=E) poly set t = Ok (y, v)
    ∧ (∀ k, y !! k = (λ _, eval poly (f_of_Z k)) <$> set !! k)
    ∧ v = fmul_point G <$> take t (coefficients poly).
Proof.
  intros Ht. unfold feldman_vss. eexists _, _. split; [|split].
  - rewrite (feldman_commit _ t [] 0) by lia. by rewrite drop_0.
  - intros k. apply feldman_shares.
  - done.
Qed.

(** Without overflow of the [u128] exponent, the loop adds up the remaining
    terms of the committed polynomial. *)
Lemma verify_vss_loop_spec index (cs : list FieldEl) k a :
  0 ≤ index → index ^ Z.of_nat (k + length cs) < 2 ^ 128 →
  verify_vss_loop index (fmul_point G <$> cs) (index ^ Z.of_nat k) (fmul_point G a)
  = fmul_point G (a + f_pow (f_of_Z index) k * (f_of_Z index * peval cs (f_of_Z index)))%F.
Proof.
  intros Hi. revert k a. induction cs as [|c cs IH]; intros k a Hov; csimpl.
  - f_equal. ring.
  - rewrite length_cons, <- Nat.add_succ_comm in Hov.
    assert (index ^ Z.of_nat (S k) < 2 ^ 128) as Hk.
    { destruct (Z.eq_dec index 0) as [->|]; [by rewrite Z.pow_0_l by lia|].
      eapply Z.le_lt_trans; [|exact Hov]. apply Z.pow_le_mono_r; csimpl; lia. }
    assert (u128 (index ^ Z.of_nat k * index) = index ^ Z.of_nat (S k)) as ->.
    { rewrite Nat2Z.inj_succ, Z.pow_succ_r, Z.mul_comm by lia. apply wrap_small.
      rewrite <- Z.pow_succ_r, <- Nat2Z.inj_succ by lia. split; [|done].
      by apply Z.pow_nonneg. }
    change (scalar_mul ?X (scalar_of_field ?x)) with (fmul_point X x).
    rewrite fmul_mul, <- fmul_add by auto with subgroup.
    rewrite IH by done.
    f_equal. rewrite f_of_Z_pow. simpl. ring.
Qed.

(** With in-range exponents, acceptance is exactly equality of the share with
    the committed polynomial at the index. *)
Lemma verify_vss_spec {E} index share (cs : list FieldEl) :
  cs ≠ [] → 0 ≤ index → index ^ Z.of_nat (length cs - 1) < 2 ^ 128 →
  verify_vss (E:=E) index share (fmul_point G <$> cs)
  = Ok (bool_decide (share = peval cs (f_of_Z index))).
Proof.
  intros Hcs Hi Hov. destruct cs as [|c cs]; [done|]. unfold verify_vss. csimpl.
  f_equal. apply bool_decide_ext. rewrite drop_0.
  change 1 with (index ^ Z.of_nat 0) at 1.
  rewrite verify_vss_loop_spec by (rewrite ?length_cons in Hov; simpl in *; rewrite ?Nat.sub_0_r in Hov; done).
  change (scalar_mul ?X (scalar_of_field ?x)) with (fmul_point X x).
  assert ((c + f_pow (f_of_Z index) 0 * (f_of_Z index * peval cs (f_of_Z index)))%F
          = peval (c :: cs) (f_of_Z index)) as -> by (simpl; ring).
  split; [apply fmul_base_inj|by intros ->].
Qed.
End FeldmanFacts.

(** ** Claims *)
Section Claims.
Context {F : Type} `{!PrimeField F}.
Add Field F_field2 : (f_field_theory (F:=F)).

(** threshold reconstruction.  For distinct nonzero indices below the field
    modulus, [lagrange_basis_at_0] returns a coefficient for every index, and
    the coefficients combine the shares [eval p i] of any polynomial with at
    most as many coefficients as there are indices into the secret
    [eval p 0]. *)
Theorem lagrange_shares_reconstruct (p : Polynomial F) (l : list Z) :
  good_indices (F:=F) l → (length (coefficients p) ≤ length l)%nat →
  ∃ lam : Z → F,
    (∀ i, i ∈ l → lagrange_basis_at_0 (E:=Error) i l = Ok (lam i)) ∧
    f_sum ((λ i, eval p (f_of_Z i) * lam i)%F <$> l) = eval p 0%F.
Proof.
  intros Hg Hlen. exists (lambda_at_0 l). split.
  - intros i Hi. apply lagrange_basis_at_0_spec; [by eapply good_indices_range|apply Hg].
  - rewrite eval_peval. apply lambda_reconstruct; [done..|].
    intros i _. apply eval_peval.
Qed.

(** [add_same_deg] succeeds exactly on polynomials of equal length and adds
    them pointwise; otherwise the assertion panics. *)
Theorem add_same_deg_eval (p q : Polynomial F) :
  Z.of_nat (length (coefficients p)) < 2 ^ 64 → Z.of_nat (length (coefficients q)) < 2 ^ 64 →
  (length (coefficients p) = length (coefficients q) ∧
   ∃ r, add_same_deg p q = Ok r ∧ ∀ x, eval r x = (eval p x + eval q x)%F)
  ∨ (length (coefficients p) ≠ length (coefficients q) ∧ add_same_deg p q = Panic).
Proof.
  intros Hp Hq. unfold add_same_deg, deg, u64, wrap.
  destruct (decide (length (coefficients p) = length (coefficients q))) as [Heq|Hne].
  - left. split; [done|]. rewrite Heq, Z.eqb_refl. eexists; split; [done|].
    intros x. rewrite !eval_peval. by apply peval_zip_add.
  - right. split; [done|]. destruct (Z.eqb_spec
      ((Z.of_nat (length (coefficients p)) - 1) mod 2 ^ 64)
      ((Z.of_nat (length (coefficients q)) - 1) mod 2 ^ 64)) as [He|]; [|done].
    exfalso. apply Hne. Z.to_euclidean_division_equations. nia.
Qed.

(** [from_seed] never returns a polynomial: the 64-byte Blake2b-512 digest
    cannot be converted to 32 bytes, so every call returns the conversion
    error. *)
Theorem from_seed_always_fails `{Hashes} (prg : list Z → F) (seed : list Z) (degree : nat) :
  length seed = 32%nat → from_seed prg seed degree = Err tt.
Proof.
  intros Hs. unfold from_seed. rewrite Hs. simpl. rewrite Nat.add_comm. simpl.
  unfold try_into_32. by rewrite hash512_length.
Qed.
End Claims.

Section ClaimsFeldman.
Context `{C : Curve} {CL : CurveLaws C} `{HO : HashOrder}.

(** Feldman sharing is complete and binding.  For a polynomial with [t]
    coefficients, [feldman_vss] gives every member of the set its evaluation,
    and as long as [index^(t-1)] fits in a [u128] the commitments make
    [verify_vss] accept a share if and only if it is that evaluation. *)
Theorem feldman_vss_verify {T} (poly : Polynomial FieldEl) (set : gmap Z T) (t : nat) :
  length (coefficients poly) = t → (0 < t)%nat →
  ∃ y v, feldman_vss (E:=Error) poly set t = Ok (y, v) ∧ length v = t ∧
    ∀ index, is_Some (set !! index) → 0 ≤ index → index ^ Z.of_nat (t - 1) < 2 ^ 128 →
      ∃ share, y !! index = Some share ∧
        ∀ share', verify_vss (E:=Error) index share' v = Ok (bool_decide (share' = share)).
Proof.
  intros Hlen Ht. destruct (feldman_vss_spec (E:=Error) poly set t) as (y & v & Heq & Hy & Hv);
    [lia|]. rewrite take_ge in Hv by lia.
  exists y, v. split; [done|]. split; [by rewrite Hv, length_fmap|].
  intros index [x Hx] Hi Hov. exists (eval poly (f_of_Z index)). split.
  - by rewrite Hy, Hx.
  - intros share'. rewrite Hv, verify_vss_spec, eval_peval by
      (rewrite ?Hlen; auto; intros Hnil; rewrite Hnil in Hlen; simpl in Hlen; lia).
    done.
Qed.
End ClaimsFeldman.

Import ModelInstances.

(** the exponent of [verify_vss] is a wrapping [u128].  At index [2^64]
    with three commitments the last exponent wraps to 0 and the honest share
    of a polynomial with a nonzero leading coefficient is rejected. *)
Theorem verify_vss_overflow_rejects_honest :
  let poly : Polynomial (FieldEl (Curve:=model_curve)) :=
    from_coeffs [f_of_Z 5; f_of_Z 7; f_of_Z 9] in
  let index := 2 ^ 64 in
  ∃ y v share, feldman_vss (E:=Error) poly {[ index := () ]} 3 = Ok (y, v) ∧
    y !! index = Some share ∧ share = eval poly (f_of_Z index) ∧
    verify_vss (E:=Error) index share v = Ok false.
Proof.
  eexists _, _, _. split; [vm_compute; reflexivity|].
  split; [vm_compute; reflexivity|]. split; vm_compute; reflexivity.
Qed.

(** Closes [good_indices] of a concrete list of indices. *)
Ltac solve_good_indices :=
  split; [repeat constructor; set_solver|repeat constructor; vm_compute; done].

(** ** Instances of the claims *)
Lemma lagrange_shares_reconstruct_witness :
  ∃ lam : Z → Z101,
    (∀ i, i ∈ [3; 1] → lagrange_basis_at_0 (E:=Error) i [3; 1] = Ok (lam i)) ∧
    f_sum ((λ i, eval (from_coeffs [f_of_Z 23; f_of_Z 56]) (f_of_Z i) * lam i)%F <$> [3; 1])
    = eval (from_coeffs [f_of_Z 23; f_of_Z 56]) 0%F.
Proof.
  apply (lagrange_shares_reconstruct (F:=Z101) (from_coeffs [f_of_Z 23; f_of_Z 56]) [3; 1]).
  - solve_good_indices.
  - simpl. lia.
Defined.

Lemma add_same_deg_eval_witness :
  let p : Polynomial Z101 := from_coeffs [f_of_Z 100; f_of_Z 69] in
  let q : Polynomial Z101 := from_coeffs [f_of_Z 9; f_of_Z 1] in
  (length (coefficients p) = length (coefficients q) ∧
   ∃ r, add_same_deg p q = Ok r ∧ ∀ x, eval r x = (eval p x + eval q x)%F)
  ∨ (length (coefficients p) ≠ length (coefficients q) ∧ add_same_deg p q = Panic).
Proof. intros p q. apply (add_same_deg_eval p q); vm_compute; done. Defined.

Lemma from_seed_always_fails_witness :
  from_seed (λ l, f_of_Z (be_val l) : Z101) (replicate 32 7) 2 = Err tt.
Proof. apply (from_seed_always_fails (F:=Z101)). reflexivity. Defined.

Lemma feldman_vss_verify_witness :
  let poly : Polynomial (FieldEl (Curve:=model_curve)) := from_coeffs [f_of_Z 5; f_of_Z 7] in
  let set : gmap Z unit := {[ 1 := (); 2 := (); 3 := () ]} in
  ∃ y v, feldman_vss (E:=Error) poly set 2 = Ok (y, v) ∧ length v = 2%nat ∧
    ∀ index, is_Some (set !! index) → 0 ≤ index → index ^ Z.of_nat (2 - 1) < 2 ^ 128 →
      ∃ share, y !! index = Some share ∧
        ∀ share', verify_vss (E:=Error) index share' v = Ok (bool_decide (share' = share)).
Proof. intros poly set. apply (feldman_vss_verify poly set 2); simpl; lia. Defined.
