(* ===== verification/Dleq.v ===== *)
(** * DLEQ proofs and the 2HashDH OPRF (crates/cryptography/src/lib.rs) *)
From Stdlib Require Import ZArith Lia Field String Zmod.
From stdpp Require Import base list strings.
From S2P Require Import Prelude PrimeField Curve ModelCurve Cofactor.

(** [argon2::SaltString::encode_b64] and [Argon2::hash_password], which
    [local_kdf] calls; a [None] is their error. *)
Class Kdf := {
  encode_b64 : list Z → option (list Z);
  hash_password : list Z → list Z → option (list Z)
}.

Section Dleq.
Context `{C : Curve} `{Hashes}.

Record DLEQProof := {
  input_point : Point;
  pubkey : Point;
  output_point : Point;
  r_pub : Point;
  r_in : Point;
  challenge : Scalar;
  response : Scalar
}.

(** The concatenation of the points' encodings. *)
Definition concat_encoded (pts : list Point) : outcome Error (list Z) :=
  foldM (λ concatted pt, encoded ← encode pt; Ok (concatted ++ encoded)) [] pts.

Definition challenge_hash (input_point pubkey output_point r_pub r_in : Point)
    : outcome Error Scalar :=
  concatted ← concat_encoded
    [base_point_or_generator; input_point; pubkey; output_point; r_pub; r_in];
  let digest := hash512 concatted in
  let digest_modn := be_val digest mod be_val FIELD_MODULUS_BE in
  from_biguint_vartime digest_modn.

(** [DLEQProof::new]; [r] is the nonce [C::Scalar::rand_vartime()]. *)
Definition DLEQProof_new (r : Scalar) (input_point : Point) (secret_key : Scalar)
    : outcome Error DLEQProof :=
  let pubkey := scalar_mul base_point_or_generator secret_key in
  let output_point := scalar_mul input_point secret_key in
  let r_pub := scalar_mul base_point_or_generator r in
  let r_in := scalar_mul input_point r in
  challenge ← challenge_hash input_point pubkey output_point r_pub r_in;
  let response := (r - challenge * secret_key)%F in
  Ok {| input_point := input_point; pubkey := pubkey; output_point := output_point;
        r_pub := r_pub; r_in := r_in; challenge := challenge; response := response |}.

(** [should_be_rA] and [should_be_rB] of [verify_and_get_output]: the nonce
    commitments recomputed from the response. *)
Definition should_be_rA (self : DLEQProof) : Point :=
  add_self (scalar_mul base_point_or_generator (response self))
           (scalar_mul (pubkey self) (challenge self)).
Definition should_be_rB (self : DLEQProof) : Point :=
  add_self (scalar_mul (input_point self) (response self))
           (scalar_mul (output_point self) (challenge self)).

Definition verify_and_get_output (self : DLEQProof) (pk point_to_multiply : Point)
    : outcome Error Point :=
  should_be_challenge ← challenge_hash point_to_multiply (pubkey self) (output_point self)
                          (should_be_rA self) (should_be_rB self);
  if bool_decide (should_be_challenge = challenge self)
     && bool_decide (input_point self = point_to_multiply)
     && bool_decide (pubkey self = pk)
  then Ok (output_point self) else Err InvalidDLEQProof.

(** ** The OPRF client and server *)
Definition local_kdf `{Kdf} (username password : list Z) : outcome Error (list Z) :=
  let salt_ := hash256 username in
  let salt := take 16 salt_ in
  salt_string ← ok_or (encode_b64 salt) InvalidInput;
  derived ← ok_or (hash_password password salt_string) InvalidInput;
  Ok derived.

(** [secret_mask] is [C::Scalar::rand_vartime()]. *)
Definition oprf_client_1 `{Kdf} (secret_mask : Scalar) (username password : list Z)
    : outcome Error (list Z * Scalar) :=
  local_kdf_result ← local_kdf username password;
  hashed2curve ← hash_to_curve local_kdf_result;
  let masked := scalar_mul hashed2curve secret_mask in
  encoded ← encode masked;
  Ok (encoded, secret_mask).

Definition server (r : Scalar) (server_secret : Scalar) (oprf_client_masked : list Z)
    : outcome Error DLEQProof :=
  as_pt ← from_encoded oprf_client_masked;
  DLEQProof_new r as_pt server_secret.

Definition oprf_client_2 (my_masked_point : Point) (my_mask : Scalar) (server_pubkey : Point)
    (server_response : DLEQProof) : outcome Error string :=
  server_output ← verify_and_get_output server_response server_pubkey my_masked_point;
  inverted ← mul_inv my_mask;
  match inverted with
  | None => Err InvalidInput
  | Some inv =>
      h ← hash_from_curve (scalar_mul server_output inv);
      Ok (to_str_radix_16 h)
  end.
End Dleq.

(** ** Lemmas *)
Section DleqFacts.
Context `{C : Curve} {CL : CurveLaws C} `{HH : Hashes}.
Add Field S_field : (f_field_theory (F:=Scalar)).

Lemma concat_encoded_total pts :
  Forall (λ P, is_Ok (encode P)) pts → is_Ok (concat_encoded pts).
Proof.
  intros Hf. unfold concat_encoded. generalize (@nil Z) as acc.
  induction Hf as [|P pts HP Hf IH]; intros acc; simpl; [done|].
  destruct (encode P); [apply IH|done..].
Qed.

Lemma encode_base_total : is_Ok (encode G).
Proof. apply encode_total; [apply sub_base|apply base_nonzero]. Qed.

Lemma challenge_hash_total P1 P2 P3 P4 P5 :
  Forall (λ P, in_subgroup P ∧ P ≠ ZERO) [P1; P2; P3; P4; P5] →
  ∃ c, challenge_hash P1 P2 P3 P4 P5 = Ok c.
Proof.
  intros Hf. unfold challenge_hash.
  assert (is_Ok (concat_encoded [G; P1; P2; P3; P4; P5])) as Hok.
  { apply concat_encoded_total. constructor; [apply encode_base_total|].
    eapply Forall_impl; [exact Hf|]. intros P []. by apply encode_total. }
  destruct (concat_encoded _) as [bs| |]; [|done..]. simpl. eexists.
  apply from_biguint_val, Z.mod_pos_bound, field_modulus_pos.
Qed.

(** The commitments [r⋅G] and [r⋅P] are recovered from an honest response. *)
Lemma dleq_recompute X r c x : in_subgroup X →
  add_self (scalar_mul X (r - c * x)%F) (scalar_mul (scalar_mul X x) c) = scalar_mul X r.
Proof.
  intros HX. rewrite smul_mul, <- smul_add by done. apply smul_eq. ring.
Qed.

Lemma DLEQ_new_verify r X x pr : in_subgroup X →
  DLEQProof_new r X x = Ok pr →
  verify_and_get_output pr (scalar_mul G x) X = Ok (scalar_mul X x).
Proof.
  intros HX Hnew. unfold DLEQProof_new in Hnew. inv_ok. subst pr.
  unfold verify_and_get_output, should_be_rA, should_be_rB. simpl.
  rewrite !dleq_recompute by auto with subgroup.
  rewrite H. simpl. by rewrite !bool_decide_true.
Qed.

Lemma DLEQ_new_total r X x : in_subgroup X → X ≠ ZERO → x ≠ 0%F → r ≠ 0%F →
  ∃ pr, DLEQProof_new r X x = Ok pr.
Proof.
  intros HX Hnz Hx Hr.
  destruct (challenge_hash_total X (scalar_mul G x) (scalar_mul X x) (scalar_mul G r)
              (scalar_mul X r)) as [c Hc].
  - repeat constructor; auto using smul_nonzero, base_nonzero, sub_base with subgroup.
  - unfold DLEQProof_new. rewrite Hc. by eexists.
Qed.

(** What acceptance means. *)
Lemma verify_Ok pr pk X out :
  verify_and_get_output pr pk X = Ok out →
  input_point pr = X ∧ pubkey pr = pk ∧ out = output_point pr ∧
  challenge_hash X pk out (should_be_rA pr) (should_be_rB pr) = Ok (challenge pr).
Proof.
  unfold verify_and_get_output. intros Hv. inv_ok. case_match eqn:Hb; [|done].
  rewrite !andb_true_iff, !bool_decide_eq_true in Hb. destruct Hb as [[-> <-] <-].
  inv_ok. subst. auto.
Qed.

(** Two openings of one commitment give the discrete logarithm. *)
Lemma extract_dlog X Y c c' z z' : in_subgroup X → in_subgroup Y → c ≠ c' →
  add_self (scalar_mul X z) (scalar_mul Y c) = add_self (scalar_mul X z') (scalar_mul Y c') →
  Y = scalar_mul X ((z' - z) / (c - c'))%F.
Proof.
  intros HX HY Hc Heq.
  destruct (base_generates X HX) as [a ->], (base_generates Y HY) as [b ->].
  rewrite !smul_mul, <- !smul_add in Heq by auto with subgroup.
  apply smul_base_inj in Heq. rewrite smul_mul by auto with subgroup. apply smul_eq.
  assert (c - c' ≠ 0)%F as Hd by (by rewrite f_sub_zero).
  assert (a * (z' - z) = b * (c - c'))%F as Hlin.
  { apply f_sub_zero. transitivity ((a * z' + b * c') - (a * z + b * c))%F; [ring|].
    rewrite Heq. ring. }
  transitivity (b * (c - c') / (c - c'))%F; [by field|]. rewrite <- Hlin. ring.
Qed.
End DleqFacts.

(** ** Claims *)
Section DleqClaims.
Context `{C : Curve} {CL : CurveLaws C} {CF : CofactorLaws C} `{HH : Hashes}.
Add Field S_field2 : (f_field_theory (F:=Scalar)).

(** DLEQ completeness.  For a nonzero subgroup point, a nonzero key and a
    nonzero nonce, [DLEQProof::new] returns a proof, and verifying it against
    the key's public point returns the input point times the key. *)
Theorem dleq_complete (r x : Scalar) (X : Point) :
  in_subgroup X → X ≠ ZERO → x ≠ 0%F → r ≠ 0%F →
  ∃ pr, DLEQProof_new r X x = Ok pr ∧
    verify_and_get_output pr (scalar_mul G x) X = Ok (scalar_mul X x).
Proof.
  intros HX Hnz Hx Hr. destruct (DLEQ_new_total r X x) as [pr Hpr]; [done..|].
  exists pr. split; [done|]. by eapply DLEQ_new_verify.
Qed.

(** C11: DLEQ special soundness, in the two-oracle form of the Fiat-Shamir transform.  Suppose
    two proofs of one statement (public key, input, output), all points that decode, also
    outside the subgroup, are accepted under two hash functions, with the same recomputed
    commitments, and the two hash functions give different challenges for that statement and
    those commitments.  Then public key and output have the same discrete logarithm up to
    points of small order: there is [x] with [clear pk = x⋅G] and [clear out = x⋅clear X], and
    these are the points themselves when they are in the subgroup.  That the challenges of the
    proofs are those of the hash functions is what [verify_and_get_output] checks. *)
Theorem dleq_special_soundness (H1 H2 : Hashes) (p1 p2 : DLEQProof) (pk X out : Point) :
  decoded pk → decoded X → decoded out →
  verify_and_get_output (H:=H1) p1 pk X = Ok out →
  verify_and_get_output (H:=H2) p2 pk X = Ok out →
  should_be_rA p1 = should_be_rA p2 → should_be_rB p1 = should_be_rB p2 →
  challenge_hash (H:=H1) X pk out (should_be_rA p1) (should_be_rB p1)
    ≠ challenge_hash (H:=H2) X pk out (should_be_rA p1) (should_be_rB p1) →
  ∃ x, clear pk = scalar_mul G x ∧ clear out = scalar_mul (clear X) x ∧
    (in_subgroup pk → in_subgroup X → in_subgroup out → pk = scalar_mul G x ∧ out = scalar_mul X x).
Proof.
  intros Hpk%decoded_curve HX%decoded_curve Hout%decoded_curve.
  intros (Hi1 & Hk1 & Ho1 & Hc1)%verify_Ok (Hi2 & Hk2 & Ho2 & Hc2)%verify_Ok HA HB Hc.
  rewrite Hc1, HA, HB, Hc2 in Hc. assert (challenge p1 ≠ challenge p2) as Hne by congruence. clear Hc Hc1 Hc2.
  unfold should_be_rA, should_be_rB in *. rewrite Hk1, Hk2 in HA. rewrite Hi1, Hi2, <- Ho1, <- Ho2 in HB.
  apply (f_equal clear) in HA, HB. rewrite !clear_lin in HA, HB by auto with subgroup.
  rewrite clear_id in HA by auto with subgroup.
  eexists. split; [|split].
  - eapply extract_dlog; [auto with subgroup..|exact Hne|exact HA].
  - eapply extract_dlog; [auto with subgroup..|exact Hne|exact HB].
  - intros Spk SX Sout. rewrite <- (clear_id pk), <- (clear_id out), <- (clear_id X) by done.
    split; (eapply extract_dlog; [auto with subgroup..|exact Hne|]); rewrite ?clear_id in * by auto with subgroup; done.
Qed.

(** the OPRF computes the PRF.  Whenever the key-derivation and the hash to
    the curve succeed (on a nonzero point) and mask, server key and nonce are
    nonzero, the client's first message, the server's response and the client's
    unmasking all succeed, and the result is the hexadecimal
    [hash_from_curve] of the server key times the hashed input: the mask
    cancels. *)
Theorem oprf_correct `{KDF : Kdf} (username password kdf : list Z) (Hpt : Point)
    (mask secret r : Scalar) (prf : Z) :
  local_kdf username password = Ok kdf → hash_to_curve kdf = Ok Hpt → Hpt ≠ ZERO →
  mask ≠ 0%F → secret ≠ 0%F → r ≠ 0%F →
  hash_from_curve (scalar_mul Hpt secret) = Ok prf →
  ∃ masked M resp,
    oprf_client_1 mask username password = Ok (masked, mask) ∧
    from_encoded masked = Ok M ∧
    server r secret masked = Ok resp ∧
    oprf_client_2 M mask (scalar_mul G secret) resp = Ok (to_str_radix_16 prf).
Proof.
  intros Hkdf Hh Hnz Hm Hs Hr Hprf. pose proof (hash_to_curve_sub _ _ Hh) as HH1.
  pose proof (sub_mul _ mask HH1) as HM. pose proof (smul_nonzero _ _ HH1 Hnz Hm) as HMnz.
  pose proof (encode_total _ HM HMnz) as Henc.
  destruct (encode (scalar_mul Hpt mask)) as [masked| |] eqn:Hmasked; [|done..].
  pose proof (encode_decode _ _ HM Hmasked) as Hdec.
  destruct (DLEQ_new_total r _ _ HM HMnz Hs Hr) as [resp Hresp].
  exists masked, (scalar_mul Hpt mask), resp. split; [|split; [done|split]].
  - unfold oprf_client_1. rewrite Hkdf. simpl. rewrite Hh. simpl. by rewrite Hmasked.
  - unfold server. by rewrite Hdec.
  - unfold oprf_client_2. rewrite (DLEQ_new_verify _ _ _ _ HM Hresp). simpl.
    rewrite mul_inv_nonzero by done. simpl.
    rewrite !smul_mul by done. replace (mask * (secret * f_inv mask))%F with secret
      by (by field). by rewrite Hprf.
Qed.

(** a mask that cannot be inverted never yields an output: with the zero
    mask [oprf_client_2] returns an error or panics. *)
Theorem oprf_zero_mask_rejected (M pk : Point) (resp : DLEQProof) (s : string) :
  oprf_client_2 M 0%F pk resp ≠ Ok s.
Proof.
  unfold oprf_client_2. intros Hok. inv_ok. case_match; [|done].
  by eapply mul_inv_zero.
Qed.
End DleqClaims.

Import ModelInstances.

(** ** Instances of the claims *)
Lemma dleq_complete_witness :
  ∃ pr, DLEQProof_new (C:=model_curve) (f_of_Z 17) (f_of_Z 40 : Z101) (f_of_Z 5) = Ok pr ∧
    verify_and_get_output pr (scalar_mul G (f_of_Z 5)) (f_of_Z 40 : Z101)
    = Ok (scalar_mul (Curve:=model_curve) (f_of_Z 40 : Z101) (f_of_Z 5)).
Proof.
  apply (dleq_complete (C:=model_curve) (f_of_Z 17) (f_of_Z 5) (f_of_Z 40 : Z101));
    vm_compute; done.
Defined.

(** A second oracle, one more than the first modulo the digest size. *)
Program Definition model_hashes' : Hashes := {|
  hash512 m := be_bytes 64 (be_val m + 1);
  hash256 m := be_bytes 32 (be_val m)
|}.
Next Obligation. intros. apply be_bytes_length. Qed.
Next Obligation. intros. apply be_bytes_byte. Qed.
Next Obligation. intros. apply be_bytes_length. Qed.
Next Obligation. intros. apply be_bytes_byte. Qed.

Definition model_proof (H : Hashes) : DLEQProof (C:=model_curve) :=
  match DLEQProof_new (C:=model_curve) (f_of_Z 17) (f_of_Z 40 : Z101) (f_of_Z 5) with
  | Ok pr => pr
  | _ => @Build_DLEQProof model_curve Zmod.zero Zmod.zero Zmod.zero Zmod.zero Zmod.zero
           Zmod.zero Zmod.zero
  end.

Lemma dleq_special_soundness_witness :
  ∃ x, (f_of_Z 5 : Z101) = scalar_mul (Curve:=model_curve) G x ∧
       (f_of_Z 99 : Z101) = scalar_mul (Curve:=model_curve) (f_of_Z 40 : Z101) x.
Proof.
  destruct (dleq_special_soundness (C:=model_curve) (CF:=prime_order_cofactor model_curve (λ _, I)) model_hashes model_hashes'
           (model_proof model_hashes) (model_proof model_hashes')
           (f_of_Z 5) (f_of_Z 40) (f_of_Z 99)) as (x & _ & _ & Hx).
  - by exists [5].
  - by exists [40].
  - by exists [99].
  - vm_compute; done.
  - vm_compute; done.
  - vm_compute; done.
  - vm_compute; done.
  - vm_compute; done.
  - exists x. by apply Hx.
Defined.

#[local] Instance model_kdf : Kdf := {|
  encode_b64 salt := Some salt;
  hash_password password salt := Some (password ++ salt)
|}.

Lemma oprf_correct_witness :
  let kdf := [1; 2] ++ take 16 (hash256 [3]) in
  ∃ masked M resp,
    oprf_client_1 (C:=model_curve) (f_of_Z 9) [3] [1; 2] = Ok (masked, f_of_Z 9) ∧
    from_encoded masked = Ok M ∧
    server (f_of_Z 11) (f_of_Z 7) masked = Ok resp ∧
    oprf_client_2 M (f_of_Z 9) (scalar_mul (Curve:=model_curve) G (f_of_Z 7)) resp
    = Ok (to_str_radix_16 (Zmod.unsigned
            (Zmod.mul (Zmod.of_Z q101 (be_val kdf + 1)) (f_of_Z 7)))).
Proof.
  intros kdf.
  apply (oprf_correct (C:=model_curve) [3] [1; 2] kdf (Zmod.of_Z q101 (be_val kdf + 1)));
    vm_compute; done.
Defined.
