(* ===== verification/Reconstruct.v ===== *)
(** * Reconstruction of a multiplication from the nodes' responses
    (crates/cryptography/src/reconstruct.rs) *)
From Stdlib Require Import ZArith Lia Field.
From stdpp Require Import base list.
From S2P Require Import Prelude PrimeField Curve ModelCurve Polynomial Dleq.

Section Reconstruct.
Context `{C : Curve} `{HH : Hashes}.

(** [additive]: the sum of the verified outputs. *)
Definition additive (point_to_multiply : Point) (responses : list DLEQProof)
    (pubkeys : list Point) : outcome Error Point :=
  foldM (λ result '(proof, pk),
    output ← verify_and_get_output proof pk point_to_multiply;
    Ok (add_self result output)) ZERO (zip responses pubkeys).

(** [threshold]: verified outputs weighted by their Lagrange coefficients;
    [izip!] stops at the shortest list. *)
Definition threshold (point_to_multiply : Point) (responses : list DLEQProof)
    (pubkeys : list Point) (indices : list Z) : outcome Error Point :=
  foldM (λ result '(proof, pk, i),
    output ← verify_and_get_output proof pk point_to_multiply;
    at_zero ← lagrange_basis_at_0 (F:=FieldEl) i indices;
    let as_additive_share := scalar_mul output (scalar_of_field at_zero) in
    Ok (add_self result as_additive_share)) ZERO (zip (zip responses pubkeys) indices).

(** [threshold_unchecked]: the same sum without the proofs. *)
Definition threshold_unchecked (responses : list Point) (indices : list Z) : outcome Error Point :=
  foldM (λ result '(point, i),
    at_zero ← lagrange_basis_at_0 (F:=FieldEl) i indices;
    let as_additive_share := scalar_mul point (scalar_of_field at_zero) in
    Ok (add_self result as_additive_share)) ZERO (zip responses indices).
End Reconstruct.

Section Facts.
Context `{C : Curve} {CL : CurveLaws C} `{HH : Hashes}.
Add Field FE_field : (f_field_theory (F:=FieldEl)).

(** The weighted sum of multiples of one point. *)
Lemma threshold_unchecked_smul X (s : Z → FieldEl) (l : list Z) :
  in_subgroup X → good_indices (F:=FieldEl) l →
  threshold_unchecked ((λ i, fmul_point X (s i)) <$> l) l
  = Ok (fmul_point X (f_sum ((λ i, s i * lambda_at_0 l i)%F <$> l))).
Proof.
  intros HX Hg. unfold threshold_unchecked.
  rewrite (foldM_total _ (λ result pi,
    add_self result (fmul_point pi.1 (lambda_at_0 l pi.2)))).
  - f_equal. rewrite zip_with_fmap_l, zip_with_diag, foldl_fmap. simpl.
    rewrite <- (fmul_zero X) at 1 by done.
    transitivity (foldl (λ acc i, add_self acc (fmul_point X (s i * lambda_at_0 l i)%F))
                        (fmul_point X 0%F) l).
    + assert (∀ acc k, foldl (λ y i, add_self y (fmul_point (fmul_point X (s i)) (lambda_at_0 l i))) acc k
        = foldl (λ y i, add_self y (fmul_point X (s i * lambda_at_0 l i)%F)) acc k) as Hext.
      { intros acc k. revert acc. induction k as [|i k IH]; intros acc; simpl; [done|].
        by rewrite fmul_mul, IH by done. }
      apply Hext.
    + rewrite foldl_fmul by done. f_equal. ring.
  - intros result [point i] Hin.
    apply elem_of_zip_r in Hin as Hi. simpl.
    rewrite lagrange_basis_at_0_spec; [done|by eapply good_indices_range|apply Hg].
Qed.

(** When every proof is accepted, the checked sum is the unchecked one. *)
Lemma threshold_verified X responses pubkeys outs indices :
  length responses = length pubkeys →
  Forall2 (λ rp out, verify_and_get_output rp.1 rp.2 X = Ok out) (zip responses pubkeys) outs →
  threshold X responses pubkeys indices = threshold_unchecked outs indices.
Proof.
  intros Hlen Hv. unfold threshold, threshold_unchecked.
  generalize (zip responses pubkeys) as rps, Hv. clear Hlen Hv responses pubkeys.
  intros rps Hv. generalize (ZERO) as acc. generalize indices at 2 4 as k.
  induction Hv as [|[pr pk] out rps outs Hout Hv IH]; intros [|i k] acc; try done.
  cbn [foldM zip_with fst snd] in *. rewrite Hout. cbn [mbind outcome_bind].
  destruct (lagrange_basis_at_0 i indices); cbn [mbind outcome_bind]; [apply IH|done..].
Qed.
End Facts.

(** ** Claims *)
Section Claims.
Context `{C : Curve} {CL : CurveLaws C} `{HH : Hashes}.
Add Field S_field2 : (f_field_theory (F:=Scalar)).

(** C9: threshold multiplication.  If the nodes at distinct indices hold the
    shares of a polynomial with at most as many coefficients as there are
    nodes, and each answers with an honest DLEQ proof for the point, then
    [threshold] returns the point multiplied by the secret, the polynomial at
    0. *)
Theorem threshold_multiplies_by_secret (p : Polynomial FieldEl) (X : Point) (l : list Z)
    (nonce : Z → Scalar) (responses : list DLEQProof) :
  in_subgroup X → good_indices (F:=FieldEl) l → (length (coefficients p) ≤ length l)%nat →
  Forall2 (λ i pr, DLEQProof_new (nonce i) X (scalar_of_field (eval p (f_of_Z i))) = Ok pr)
    l responses →
  threshold X responses
    ((λ i, scalar_mul G (scalar_of_field (eval p (f_of_Z i)))) <$> l) l
  = Ok (scalar_mul X (scalar_of_field (eval p 0%F))).
Proof.
  intros HX Hg Hlen Hr.
  rewrite (threshold_verified _ _ _ ((λ i, fmul_point X (eval p (f_of_Z i))) <$> l)).
  - rewrite threshold_unchecked_smul by done. rewrite (lambda_reconstruct (coefficients p));
      [by rewrite <- eval_peval|done..|]. intros i _. apply eval_peval.
  - rewrite length_fmap. symmetry. by eapply Forall2_length.
  - clear Hg Hlen. induction Hr as [|i pr l rs Hpr Hr IH]; csimpl; constructor; [|done].
    simpl. by eapply DLEQ_new_verify.
Qed.

(** C10: nothing unverified enters the result.  When [threshold] returns a point
    for lists of equal length, every response was accepted under its public key
    for the requested point, and the result is the unchecked combination of the
    accepted outputs. *)
Theorem threshold_only_verified (X : Point) (responses : list DLEQProof)
    (pubkeys : list Point) (indices : list Z) (R : Point) :
  length responses = length pubkeys → length pubkeys = length indices →
  threshold X responses pubkeys indices = Ok R →
  ∃ outs, Forall2 (λ rp out, verify_and_get_output rp.1 rp.2 X = Ok out)
            (zip responses pubkeys) outs ∧
          threshold_unchecked outs indices = Ok R.
Proof.
  intros Hl1 Hl2 Hok.
  assert (∃ outs, Forall2 (λ rp out, verify_and_get_output rp.1 rp.2 X = Ok out)
            (zip responses pubkeys) outs) as [outs Hv].
  { revert Hok. unfold threshold. generalize (ZERO) as acc.
    assert (length (zip responses pubkeys) = length indices) as Hlz
      by (rewrite length_zip_with; lia).
    revert Hlz. generalize indices at 1 3 as k. generalize (zip responses pubkeys) as rps.
    induction rps as [|[pr pk] rps IH]; intros [|i k] Hlz acc Hok; try discriminate.
    - by exists [].
    - cbn [foldM zip_with] in Hok. inv_ok. subst.
      edestruct IH as [outs Houts]; [|eassumption|]; [simpl in Hlz; lia|].
      eexists (_ :: outs). by constructor. }
  exists outs. split; [done|]. by erewrite <- threshold_verified.
Qed.

(** additive reconstruction.  Honest responses of nodes with additive key
    shares [sks] combine to the point times the sum of the shares. *)
Theorem additive_multiplies_by_sum (X : Point) (sks : list (Scalar * Scalar))
    (responses : list DLEQProof) :
  in_subgroup X →
  Forall2 (λ rs pr, DLEQProof_new rs.1 X rs.2 = Ok pr) sks responses →
  additive X responses ((λ rs, scalar_mul G rs.2) <$> sks)
  = Ok (scalar_mul X (f_sum sks.*2)).
Proof.
  intros HX Hr. unfold additive.
  enough (∀ a, foldM (λ result '(proof, pk),
      output ← verify_and_get_output proof pk X; Ok (add_self result output))
      (scalar_mul X a) (zip responses ((λ rs, scalar_mul G rs.2) <$> sks))
    = Ok (scalar_mul X (a + f_sum sks.*2)%F)) as Hgen.
  { rewrite <- (smul_zero X) by done. rewrite Hgen. f_equal. apply smul_eq. ring. }
  induction Hr as [|[r s] pr sks rs Hpr Hr IH]; intros a; csimpl.
  - f_equal. apply smul_eq. ring.
  - simpl in Hpr. rewrite (DLEQ_new_verify _ _ _ _ HX Hpr). cbn [mbind outcome_bind].
    rewrite <- smul_add, IH by done. f_equal. apply smul_eq. ring.
Qed.
End Claims.

Import ModelInstances.

(** ** Instances of the claims: two of three nodes of a 2-of-3 sharing of 23. *)
Definition model_poly : Polynomial (FieldEl (Curve:=model_curve)) :=
  from_coeffs [f_of_Z 23; f_of_Z 56].
Definition model_nonce (i : Z) : Z101 := f_of_Z (i + 30).
Definition model_responses (l : list Z) : list (DLEQProof (C:=model_curve)) :=
  omap (λ i, match DLEQProof_new (C:=model_curve) (model_nonce i) (f_of_Z 40 : Z101)
                     (scalar_of_field (eval model_poly (f_of_Z i))) with
             | Ok pr => Some pr | _ => None end) l.

Lemma threshold_multiplies_by_secret_witness :
  threshold (C:=model_curve) (f_of_Z 40 : Z101) (model_responses [3; 1])
    ((λ i, scalar_mul G (scalar_of_field (eval model_poly (f_of_Z i)))) <$> [3; 1]) [3; 1]
  = Ok (scalar_mul (Curve:=model_curve) (f_of_Z 40 : Z101)
          (scalar_of_field (eval model_poly 0%F))).
Proof.
  apply (threshold_multiplies_by_secret (C:=model_curve) model_poly (f_of_Z 40 : Z101) [3; 1]
           model_nonce (model_responses [3; 1])).
  - done.
  - solve_good_indices.
  - simpl. lia.
  - repeat constructor; vm_compute; reflexivity.
Defined.

Lemma threshold_only_verified_witness :
  let pks := (λ i, scalar_mul (Curve:=model_curve) G
                     (scalar_of_field (eval model_poly (f_of_Z i)))) <$> [3; 1] in
  ∃ outs, Forall2 (λ rp out, verify_and_get_output (C:=model_curve) rp.1 rp.2 (f_of_Z 40 : Z101) = Ok out)
            (zip (model_responses [3; 1]) pks) outs ∧
          threshold_unchecked (C:=model_curve) outs [3; 1] = Ok (f_of_Z 11 : Z101).
Proof.
  intros pks. apply (threshold_only_verified (C:=model_curve) (f_of_Z 40 : Z101)
    (model_responses [3; 1]) pks [3; 1] (f_of_Z 11)); vm_compute; reflexivity.
Defined.

Lemma additive_multiplies_by_sum_witness :
  additive (C:=model_curve) (f_of_Z 40 : Z101) (model_responses [3; 1])
    ((λ rs, scalar_mul (Curve:=model_curve) G rs.2) <$>
       ((λ i, (model_nonce i, eval model_poly (f_of_Z i))) <$> [3; 1]))
  = Ok (scalar_mul (Curve:=model_curve) (f_of_Z 40 : Z101)
     (f_sum ((λ i, (model_nonce i, eval model_poly (f_of_Z i))) <$> [3; 1]).*2)).
Proof.
  apply (additive_multiplies_by_sum (C:=model_curve) (f_of_Z 40 : Z101)
    ((λ i, (model_nonce i, eval model_poly (f_of_Z i))) <$> [3; 1]) (model_responses [3; 1])).
  - done.
  - repeat constructor; vm_compute; reflexivity.
Defined.
