(* ===== verification/Dkg.v ===== *)
(** * Distributed key generation (crates/cryptography/src/dkg.rs) *)
From Stdlib Require Import ZArith Lia Field.
From stdpp Require Import base list gmap strings pretty.
From S2P Require Import Prelude PrimeField Curve ModelCurve Cofactor Polynomial.

(** The [rsa] crate: key generation, PKCS#1 v1.5 encryption and decryption.
    An [Err] carries the printed library error; [Rand] is the randomness one
    call consumes. *)
Class Rsa := {
  RsaPublicKey : Type;
  RsaPrivateKey : Type;
  Rand : Type;
  rsa_new : Rand → outcome string RsaPrivateKey;
  rsa_public : RsaPrivateKey → RsaPublicKey;
  encrypt : Rand → RsaPublicKey → list Z → outcome string (list Z);
  decrypt : RsaPrivateKey → list Z → outcome string (list Z)
}.

(** Decryption inverts encryption under the matching key. *)
Class RsaLaws (R : Rsa) : Prop := {
  decrypt_encrypt r sk m ct : encrypt r (rsa_public sk) m = Ok ct → decrypt sk ct = Ok m
}.

(** resharing.rs [enum ResharingError] and dkg.rs [enum DKGError]. *)
Inductive ResharingError : Type :=
  | ReRsaError (e : string)
  | ReKeyGenerationFailed (e : string)
  | RePublicKeyVerificationFailed
  | ReOther (e : string).

Inductive DKGError : Type :=
  | RsaError (e : string)
  | KeyGenerationFailed (e : string)
  | PublicKeyVerificationFailed
  | DkgOther (e : string)
  | DkgResharingError (e : ResharingError).

Section Dkg.
Context `{C : Curve} `{HO : HashOrder} `{R : Rsa}.

Record Node := {
  id : Z;
  rsa_pubkey : RsaPublicKey;
  rsa_seckey : RsaPrivateKey;
  init_pub_share : Point;
  private_share : FieldEl;
  network_pubkey : Point;
  own_partial_share : FieldEl
}.

Record Network := {
  threshold : nat;
  total_nodes : nat;
  public_keys : gmap Z RsaPublicKey
}.

(** ** [Network] *)
Definition Network_new (t n : nat) (is_tstar : bool) : outcome Error Network :=
  let invalid :=
    if is_tstar then (n <? t)%nat || (n <? 2)%nat || (t =? 0)%nat
    else (n <=? t)%nat || (n <=? 2)%nat || (t =? 0)%nat in
  if invalid then
    Err (Other ("Invalid parameters for " +:+ (if is_tstar then "tstar" else "new")
                +:+ " network. t=" +:+ pretty t +:+ ", n=" +:+ pretty n))
  else Ok {| threshold := t; total_nodes := n; public_keys := ∅ |}.

Definition add_node (no : Node) (self : Network) : Network :=
  {| threshold := threshold self; total_nodes := total_nodes self;
     public_keys := or_insert (id no) (rsa_pubkey no) (public_keys self) |}.

(** ** [Node] constructors.  [sh0] and [sh1] are the two random field elements. *)
Definition Node_with_rsa_key (sh0 sh1 : FieldEl) (nid : Z) (sk : RsaPrivateKey)
    : outcome DKGError Node :=
  Ok {| id := nid; rsa_pubkey := rsa_public sk; rsa_seckey := sk; init_pub_share := ZERO;
        private_share := sh0; network_pubkey := ZERO; own_partial_share := sh1 |}.

Definition Node_new (r : Rand) (sh0 sh1 : FieldEl) (nid : Z) : outcome DKGError Node :=
  sk ← map_err (λ _, KeyGenerationFailed "RSA secret key for  node") (rsa_new r);
  Ok {| id := nid; rsa_pubkey := rsa_public sk; rsa_seckey := sk; init_pub_share := ZERO;
        private_share := sh0; network_pubkey := ZERO; own_partial_share := sh1 |}.

(** [show] is the [Display] text of an [Error]. *)
Definition Node_with_rsa_key_and_keyshare (show : Error → string) (sh1 : FieldEl) (nid : Z)
    (sk : RsaPrivateKey) (keyshare net_pubkey : list Z) : outcome DKGError Node :=
  scalar ← unwrap_res (scalar_from_bytes keyshare);
  let keyshare_data := field_of_scalar scalar in
  npk ← map_err (λ e, DkgOther ("Failed to restore network_pub key " +:+ show e))
          (from_encoded net_pubkey);
  Ok {| id := nid; rsa_pubkey := rsa_public sk; rsa_seckey := sk; init_pub_share := ZERO;
        private_share := keyshare_data; network_pubkey := npk; own_partial_share := sh1 |}.

(** ** Round 1 *)

(** Step 5 of [dkg_round_1] and of [resharing_round_1]: the encrypted shares.
    [rsa_err] and [other_err] are the error constructors of the caller, [skip]
    the key that gets no ciphertext, [rng k] the randomness of the encryption
    for [k]. *)
Definition encrypt_shares {E} (rsa_err other_err : string → E) (rng : Z → Rand) (skip : option Z)
    (keys : gmap Z RsaPublicKey) (y : gmap Z FieldEl) : outcome E (gmap Z (list Z)) :=
  foldM (λ y_ct '(key, value),
    if bool_decide (Some key = skip) then Ok y_ct else
    share ← ok_or (y !! key) (other_err ("Computed Polynomial not found for " +:+ pretty key));
    ct ← map_err (λ e, rsa_err ("Failed to encrypt the y_i: " +:+ e))
           (encrypt (rng key) value (to_repr share));
    Ok (<[key := ct]> y_ct)) ∅ (hm_iter keys).

(** [network.threshold - 1] wraps for a zero threshold; the wrapped degree has
    [degree + 1 = 0] coefficients and [coeffs[0] = secret] panics. *)
Definition sharing_polynomial {E} (rnd : nat → FieldEl) (t : nat) (secret : FieldEl)
    : outcome E (Polynomial FieldEl) :=
  match t with
  | O => Panic
  | S degree => Ok (random_polynomials_with_secret rnd degree secret)
  end.

Definition dkg_round_1 (ai0 : FieldEl) (rnd : nat → FieldEl) (rng : Z → Rand)
    (self : Node) (network : Network)
    : outcome DKGError (gmap Z (list Z) * list Point * FieldEl) :=
  fi ← sharing_polynomial rnd (threshold network) ai0;
  '(y, v) ← feldman_vss fi (public_keys network) (threshold network);
  y_ct ← encrypt_shares RsaError DkgOther rng (Some (id self)) (public_keys network) y;
  yii ← ok_or (y !! id self) (DkgOther ("Computed Polynomial not found for " +:+ pretty (id self)));
  Ok (y_ct, v, yii).

(** ** Round 2 *)

(** Step 8 of [dkg_round_2] and [resharing_round_2]: decrypt the shares. *)
Definition decrypt_shares {E} (rsa_err other_err : string → E) (sk : RsaPrivateKey)
    (input_y : gmap Z (list Z)) : outcome E (gmap Z FieldEl) :=
  foldM (λ y '(key, value),
    m ← map_err (λ _, rsa_err "Failed to Decrypt the encrypted value") (decrypt sk value);
    scalar ← map_err (λ _, other_err "Failed to convert to Scalar")
               (from_biguint_vartime (be_val m));
    Ok (or_insert key (field_of_scalar scalar) y)) ∅ (hm_iter input_y).

(** Step 9: verify every share against its dealer's commitments. *)
Definition check_shares {E} (other_err : string → E) (nid : Z)
    (y : gmap Z FieldEl) (input_v : gmap Z (list Point)) : outcome E unit :=
  foldM (λ _ '(key, _),
    ev ← ok_or (y !! key) (other_err "Eval not found");
    match input_v !! key with
    | Some input_v_value =>
        ok ← verify_vss nid ev input_v_value;
        if negb ok then Err (other_err "VSS not verified - step 9") else Ok tt
    | None => Err (other_err "Input VSS value not found")
    end) tt (hm_iter y).

(** Step 10: the sum of the commitments to the constant coefficients;
    [x[0]] panics on an empty commitment vector. *)
Definition sum_commitments {E} (init : Point) (input_v : gmap Z (list Point)) : outcome E Point :=
  foldM (λ acc x, x0 ← unwrap (x !! 0%nat); Ok (add_self acc x0)) init (hm_values input_v).

Definition dkg_round_2 (self : Node) (network : Network)
    (input_y : gmap Z (list Z)) (input_v : gmap Z (list Point))
    : outcome DKGError (FieldEl * Point * Point) :=
  let n1 := u64 (Z.of_nat (total_nodes network) - 1) in
  _ ← assert_ ((Z.of_nat (size input_v) =? n1) && (Z.of_nat (size input_y) =? n1));
  _ ← foldM (λ _ '(_, j), assert_ (length j =? threshold network)%nat) tt (hm_iter input_v);
  y ← decrypt_shares RsaError DkgOther (rsa_seckey self) input_y;
  _ ← check_shares DkgOther (id self) y input_v;
  K ← sum_commitments (init_pub_share self) input_v;
  let ki := foldl f_add (own_partial_share self) (hm_values y) in
  let Ki := scalar_mul base_point_or_generator (scalar_of_field ki) in
  Ok (ki, Ki, K).

(** ** Round 3 *)

(** Steps 15 and 16: the Lagrange combination of the public shares; the ids
    are cast to [u32]. *)
Definition lagrange_map {E} (keys : gmap Z RsaPublicKey) : outcome E (gmap Z FieldEl) :=
  let indices := u32 <$> hm_keys keys in
  foldM (λ acc '(key, _),
    lam ← lagrange_basis_at_0 (u32 key) indices;
    Ok (or_insert key lam acc)) ∅ (hm_iter keys).

Definition combine_public_shares {E} (other_err : string → E)
    (lambda : gmap Z FieldEl) (Kj : gmap Z Point) : outcome E Point :=
  foldM (λ acc '(key, value),
    K_j ← ok_or (Kj !! key) (other_err "Key not found");
    let temp := scalar_mul K_j (scalar_of_field value) in
    Ok (add_self acc temp)) ZERO (hm_iter lambda).

Definition dkg_round_3 (self : Node) (network : Network) (Kj : gmap Z Point)
    : outcome DKGError Point :=
  _ ← assert_ (size Kj =? total_nodes network)%nat;
  lambda ← lagrange_map (public_keys network);
  res ← combine_public_shares DkgOther lambda Kj;
  _ ← assert_ (bool_decide (res = network_pubkey self));
  Ok res.
End Dkg.

(** ** What the steps of the rounds compute *)
Section DkgFacts.
Context `{C : Curve} {CL : CurveLaws C} `{HO : HashOrder} `{R : Rsa}.
Add Field FE_field : (f_field_theory (F:=FieldEl)).

(** The share a ciphertext decrypts to. *)
Definition decode_share (sk : RsaPrivateKey) (ct : list Z) : option FieldEl :=
  match decrypt sk ct with
  | Ok m => match from_biguint_vartime (be_val m) with
            | Ok s => Some (field_of_scalar s) | _ => None end
  | _ => None
  end.

Lemma decode_share_repr sk ct x : decrypt sk ct = Ok (to_repr x) → decode_share sk ct = Some x.
Proof.
  intros Hd. unfold decode_share. rewrite Hd.
  destruct (share_decode x) as (s & -> & ->). done.
Qed.

Section DecryptShares.
Context {E : Type} (rsa_err other_err : string → E) (sk : RsaPrivateKey).

Let f (key : Z) (value : list Z) : outcome E (option FieldEl) :=
  m ← map_err (λ _, rsa_err "Failed to Decrypt the encrypted value") (decrypt sk value);
  scalar ← map_err (λ _, other_err "Failed to convert to Scalar")
             (from_biguint_vartime (be_val m));
  Ok (Some (field_of_scalar scalar)).

Let body (y : gmap Z FieldEl) (kv : Z * list Z) : outcome E (gmap Z FieldEl) :=
  let '(key, value) := kv in
  m ← map_err (λ _, rsa_err "Failed to Decrypt the encrypted value") (decrypt sk value);
  scalar ← map_err (λ _, other_err "Failed to convert to Scalar")
             (from_biguint_vartime (be_val m));
  Ok (or_insert key (field_of_scalar scalar) y).

Let body_spec acc k v : acc !! k = None →
  body acc (k, v) = (o ← f k v; Ok (match o with Some w => <[k:=w]> acc | None => acc end)).
Proof.
  intros Hk. unfold body, f, or_insert. rewrite Hk.
  destruct (decrypt sk v) as [m| |]; simpl; [|done..].
  by destruct (from_biguint_vartime (be_val m)).
Qed.

Let f_decode k v : f k v = Ok (decode_share sk v) ∧ is_Some (decode_share sk v)
                   ∨ (¬ is_Ok (f k v) ∧ decode_share sk v = None).
Proof.
  unfold f, decode_share. destruct (decrypt sk v) as [m| |]; simpl; [|right; split; [by intros []|done]..].
  destruct (from_biguint_vartime (be_val m)); simpl; [left; eauto|right; split; [by intros []|done]..].
Qed.

(** [decrypt_shares] returns the decoded shares, all of them, or fails. *)
Lemma decrypt_shares_Ok input_y y :
  decrypt_shares rsa_err other_err sk input_y = Ok y →
  y = omap (decode_share sk) input_y ∧ dom y = dom input_y.
Proof.
  intros Hy. destruct (foldM_build_Ok f body body_spec input_y y Hy) as [Hnone Hsome].
  assert (∀ k, y !! k = (input_y !! k) ≫= decode_share sk ∧
               (is_Some (y !! k) ↔ is_Some (input_y !! k))) as Hy'.
  { intros k. destruct (input_y !! k) as [ct|] eqn:Hk; simpl.
    - specialize (Hsome k ct Hk). destruct (f_decode k ct) as [[Hf Hs]|[Hn _]].
      + rewrite Hf in Hsome. injection Hsome as <-. split; [done|]. split; intros _; eauto.
      + by rewrite Hsome in Hn.
    - rewrite Hnone by done. done. }
  split.
  - apply map_eq. intros k. rewrite lookup_omap. apply Hy'.
  - apply set_eq. intros k. rewrite !elem_of_dom. apply Hy'.
Qed.

Lemma decrypt_shares_total input_y :
  (∀ k ct, input_y !! k = Some ct → is_Some (decode_share sk ct)) →
  decrypt_shares rsa_err other_err sk input_y = Ok (omap (decode_share sk) input_y).
Proof.
  intros Hall. destruct (foldM_build_total f body body_spec input_y) as (y & Hy & _).
  - intros k ct Hk. destruct (f_decode k ct) as [[-> _]|[_ Hn]]; [done|].
    specialize (Hall k ct Hk). rewrite Hn in Hall. by destruct Hall.
  - change (decrypt_shares rsa_err other_err sk input_y = Ok y) in Hy.
    rewrite Hy. f_equal. by apply decrypt_shares_Ok in Hy as [-> _].
Qed.
End DecryptShares.

(** [check_shares] succeeds exactly when every share verifies. *)
Lemma check_shares_Ok {E} (other_err : string → E) nid y input_v :
  check_shares other_err nid y input_v = Ok tt ↔
  ∀ k s, y !! k = Some s →
    ∃ v, input_v !! k = Some v ∧ verify_vss (E:=E) nid s v = Ok true.
Proof.
  unfold check_shares. set (g := λ kv : Z * FieldEl, _).
  etransitivity; [apply (foldM_unit g)|]. rewrite Forall_forall. unfold g. split.
  - intros Hall k s Hk. specialize (Hall (k, s)).
    rewrite elem_of_hm_iter in Hall. specialize (Hall Hk). simpl in Hall.
    rewrite Hk in Hall. simpl in Hall. destruct (input_v !! k) as [v|]; [|done].
    exists v. split; [done|]. destruct (verify_vss nid s v) as [[]| |]; done.
  - intros Hall [k s] Hk%elem_of_hm_iter. rewrite Hk. simpl.
    destruct (Hall k s Hk) as (v & -> & ->). done.
Qed.

(** Commitments to the polynomials [css] of the dealers. *)
Definition commit_poly (cs : list FieldEl) : list Point := fmul_point G <$> cs.
Definition commit (css : gmap Z (list FieldEl)) : gmap Z (list Point) := commit_poly <$> css.

(** The value at [x] of the sum of the dealers' polynomials. *)
Definition sum_at (css : gmap Z (list FieldEl)) (x : FieldEl) : FieldEl :=
  f_sum ((λ cs, peval cs x) <$> (map_to_list css).*2).

(** The loop of step 10, over the commitments in any order. *)
Lemma sum_loop_spec {E} (vs : list (list Point)) (ps : list (list FieldEl)) a :
  vs ≡ₚ commit_poly <$> ps → Forall (λ cs, cs ≠ []) ps →
  foldM (E:=E) (λ acc x, x0 ← unwrap (x !! 0%nat); Ok (add_self acc x0)) (fmul_point G a) vs
  = Ok (fmul_point G (a + f_sum ((λ cs, peval cs 0%F) <$> ps))%F).
Proof.
  intros (ps' & -> & Hp)%Permutation_map_inv Hne. rewrite Hp in Hne |- *. clear Hp ps.
  rewrite (foldM_total _ (λ acc v, add_self acc (default ZERO (v !! 0%nat)))).
  - f_equal. rewrite foldl_fmap.
    transitivity (foldl (λ acc cs, add_self acc (fmul_point G (peval cs 0%F))) (fmul_point G a) ps').
    + generalize (fmul_point G a) as acc. induction Hne as [|cs ps Hcs Hne IH]; intros acc; simpl; [done|].
      rewrite IH. do 2 f_equal. destruct cs as [|c cs]; [done|]. by rewrite peval_0.
    + by rewrite foldl_fmul by auto with subgroup.
  - intros acc v (cs & -> & Hcs)%list_elem_of_fmap. rewrite Forall_forall in Hne.
    specialize (Hne cs Hcs). by destruct cs.
Qed.

Lemma sum_commitments_spec {E} css a :
  (∀ k cs, css !! k = Some cs → cs ≠ []) →
  sum_commitments (E:=E) (fmul_point G a) (commit css) = Ok (fmul_point G (a + sum_at css 0%F)%F).
Proof.
  intros Hne. apply sum_loop_spec; [apply hm_values_fmap|]. apply Forall_fmap, Forall_forall.
  intros [k cs] Hk%elem_of_map_to_list. eauto.
Qed.

Lemma sum_at_fold css a x :
  foldl f_add a (hm_values ((λ cs, peval cs x) <$> css)) = (a + sum_at css x)%F.
Proof. rewrite f_sum_foldl, hm_values_fmap. done. Qed.

(** Any commitments in the subgroup commit to some polynomials. *)
Lemma commit_poly_surj v : Forall (λ P, in_subgroup P) v → ∃ cs, v = commit_poly cs.
Proof.
  induction 1 as [|P v HP _ [cs ->]]; [by exists []|].
  destruct (fmul_generates P HP) as [x ->]. by exists (x :: cs).
Qed.

Lemma commit_surj (input_v : gmap Z (list Point)) :
  (∀ k v, input_v !! k = Some v → Forall (λ P, in_subgroup P) v) →
  ∃ css, input_v = commit css.
Proof.
  induction input_v as [|k v m Hk IH] using map_ind; intros Hsub.
  - exists ∅. unfold commit. by rewrite fmap_empty.
  - destruct IH as [css ->].
    { intros k' v' Hk'. apply (Hsub k'). rewrite lookup_insert_ne by congruence. done. }
    destruct (commit_poly_surj v) as [cs ->].
    { apply (Hsub k). apply lookup_insert_eq. }
    exists (<[k:=cs]> css). unfold commit. by rewrite fmap_insert.
Qed.

(** Verified shares are the dealers' polynomials at the node's id, one per
    dealer. *)
Lemma verified_shares {E} (other_err : string → E) nid t y css :
  (0 < t)%nat → 0 ≤ nid → nid ^ Z.of_nat (t - 1) < 2 ^ 128 →
  (∀ k cs, css !! k = Some cs → length cs = t) →
  size y = size css →
  check_shares other_err nid y (commit css) = Ok tt →
  y = (λ cs, peval cs (f_of_Z nid)) <$> css.
Proof.
  intros Ht Hid Hov Hlen Hsz Hc. rewrite check_shares_Ok in Hc.
  assert (∀ k s, y !! k = Some s → ∃ cs, css !! k = Some cs ∧ s = peval cs (f_of_Z nid)) as Hy.
  { intros k s Hk. destruct (Hc k s Hk) as (v & Hv & Hver).
    unfold commit in Hv. rewrite lookup_fmap_Some in Hv. destruct Hv as (cs & <- & Hcs).
    exists cs. split; [done|]. unfold commit_poly in Hver.
    pose proof (Hlen _ _ Hcs). rewrite verify_vss_spec in Hver.
    - injection Hver as Hver. by apply bool_decide_eq_true in Hver.
    - intros ->. simpl in *. lia.
    - done.
    - by subst t. }
  assert (dom y = dom css) as Hdom.
  { apply set_subseteq_size_eq; [|rewrite !size_dom; lia].
    intros k [s Hs]%elem_of_dom. apply elem_of_dom.
    destruct (Hy k s Hs) as (cs & -> & _). done. }
  apply map_eq. intros k. rewrite lookup_fmap. destruct (y !! k) as [s|] eqn:Hk.
  - destruct (Hy k s Hk) as (cs & -> & ->). done.
  - symmetry. apply fmap_None. apply not_elem_of_dom. rewrite <- Hdom.
    by apply not_elem_of_dom.
Qed.

(** The honest case: shares that decode to the committed values pass. *)
Lemma honest_shares_check {E} (other_err : string → E) nid t css :
  (0 < t)%nat → 0 ≤ nid → nid ^ Z.of_nat (t - 1) < 2 ^ 128 →
  (∀ k cs, css !! k = Some cs → length cs = t) →
  check_shares other_err nid ((λ cs, peval cs (f_of_Z nid)) <$> css) (commit css) = Ok tt.
Proof.
  intros Ht Hid Hov Hlen. apply check_shares_Ok. intros k s Hs.
  rewrite lookup_fmap_Some in Hs. destruct Hs as (cs & <- & Hcs).
  exists (commit_poly cs). unfold commit. rewrite lookup_fmap, Hcs. split; [done|].
  pose proof (Hlen _ _ Hcs). unfold commit_poly. rewrite verify_vss_spec.
  - by rewrite bool_decide_true.
  - intros ->. simpl in *. lia.
  - done.
  - by subst t.
Qed.

Lemma assert_lengths {E} t (input_v : gmap Z (list Point)) :
  foldM (E:=E) (λ _ '(_, j), assert_ (length j =? t)%nat) tt (hm_iter input_v) = Ok tt ↔
  ∀ k v, input_v !! k = Some v → length v = t.
Proof.
  set (g := λ kv : Z * list Point, assert_ (E:=E) (length kv.2 =? t)%nat).
  rewrite (foldM_ext _ (λ _ kv, g kv)) by (intros ? [] _; done).
  rewrite foldM_unit, Forall_forall. unfold g. split.
  - intros Hall k v Hk. specialize (Hall (k, v)). simpl in Hall.
    rewrite assert_Ok, Nat.eqb_eq in Hall. by apply Hall, elem_of_hm_iter.
  - intros Hall [k v] Hk%elem_of_hm_iter. simpl. rewrite assert_Ok, Nat.eqb_eq. eauto.
Qed.

Lemma assert_lengths_Ok {E} t css :
  foldM (E:=E) (λ _ '(_, j), assert_ (length j =? t)%nat) tt (hm_iter (commit css)) = Ok tt ↔
  ∀ k cs, css !! k = Some cs → length cs = t.
Proof.
  rewrite assert_lengths. unfold commit. split.
  - intros Hall k cs Hk. rewrite <- (Hall k (commit_poly cs)) by (by rewrite lookup_fmap, Hk).
    unfold commit_poly. by rewrite length_fmap.
  - intros Hall k v. rewrite lookup_fmap_Some. intros (cs & <- & Hcs). unfold commit_poly.
    rewrite length_fmap. eauto.
Qed.
End DkgFacts.

(** ** Round 3: the Lagrange combination *)
Section Round3.
Context `{C : Curve} {CL : CurveLaws C} `{HO : HashOrder} `{R : Rsa}.
Add Field FE_field3 : (f_field_theory (F:=FieldEl)).

(** Node ids that survive the cast to [u32] and are nonzero in the field. *)
Definition good_ids {V} (keys : gmap Z V) : Prop :=
  ∀ k, is_Some (keys !! k) → 0 < k < 2 ^ 32 ∧ k < f_modulus (F:=FieldEl).

Lemma good_ids_u32 {V} (keys : gmap Z V) : good_ids keys → u32 <$> hm_keys keys = hm_keys keys.
Proof.
  intros Hg. apply list_eq_same_length with (n := length (hm_keys keys));
    [done|by rewrite length_fmap|].
  intros i x y _ Hx Hy. rewrite list_lookup_fmap, Hy in Hx. injection Hx as <-.
  apply list_elem_of_lookup_2, elem_of_hm_keys, Hg in Hy. apply wrap_small. lia.
Qed.

Lemma good_ids_indices {V} (keys : gmap Z V) :
  good_ids keys → good_indices (F:=FieldEl) (hm_keys keys).
Proof.
  intros Hg. split; [apply NoDup_hm_keys|]. apply Forall_forall.
  intros k Hk%elem_of_hm_keys%Hg. lia.
Qed.

(** The coefficients of round 3, as a map. *)
Lemma lagrange_map_spec {E} (keys : gmap Z RsaPublicKey) : good_ids keys →
  lagrange_map (E:=E) keys
  = Ok (map_imap (λ k _, Some (lambda_at_0 (hm_keys keys) k)) keys).
Proof.
  intros Hg. pose proof (good_ids_indices keys Hg) as Hgi.
  set (f := λ (k : Z) (_ : RsaPublicKey), Ok (E:=E) (Some (lambda_at_0 (hm_keys keys) k))).
  unfold lagrange_map. rewrite good_ids_u32 by done.
  set (body := λ (acc : gmap Z FieldEl) (kv : Z * RsaPublicKey),
         Ok (E:=E) (or_insert kv.1 (lambda_at_0 (hm_keys keys) kv.1) acc)).
  rewrite (foldM_ext _ body).
  - destruct (foldM_build_total f body) with (m := keys) as (r & Hr & Hnone & Hsome).
    + intros acc k v Hk. unfold body, f, or_insert. simpl. by rewrite Hk.
    + done.
    + rewrite Hr. f_equal. apply map_eq. intros k. rewrite map_lookup_imap.
      destruct (keys !! k) as [v|] eqn:Hk; simpl; [|by apply Hnone].
      specialize (Hsome k v Hk). unfold f in Hsome. by injection Hsome.
  - intros acc [k v] Hk%elem_of_hm_iter.
    assert (0 < k < 2 ^ 32 ∧ k < f_modulus (F:=FieldEl)) as Hkr by (apply Hg; eauto).
    unfold u32. rewrite wrap_small by lia.
    rewrite lagrange_basis_at_0_spec; [done|lia|apply Hgi].
Qed.

Lemma combine_spec {E} (other_err : string → E) (lam : gmap Z FieldEl) (Kj : gmap Z Point)
    (s : Z → FieldEl) :
  (∀ k, is_Some (lam !! k) → Kj !! k = Some (fmul_point G (s k))) →
  combine_public_shares other_err lam Kj
  = Ok (fmul_point G (f_sum ((λ kv, s kv.1 * kv.2)%F <$> map_to_list lam))).
Proof.
  intros Hk. unfold combine_public_shares.
  rewrite (foldM_total _ (λ acc kv, add_self acc (fmul_point G (s kv.1 * kv.2)%F))).
  - f_equal. rewrite <- (fmul_zero G) at 1 by auto with subgroup.
    rewrite foldl_fmul by auto with subgroup. rewrite hm_iter_perm. f_equal. ring.
  - intros acc [k l] Hin%elem_of_hm_iter. rewrite (Hk k) by eauto. simpl.
    change (scalar_mul ?X (scalar_of_field ?x)) with (fmul_point X x).
    by rewrite fmul_mul by auto with subgroup.
Qed.

(** If the public shares lie on a polynomial with at most as many coefficients
    as there are nodes, they combine to its value at 0. *)
Lemma round3_combination {E} (other_err : string → E) (keys : gmap Z RsaPublicKey)
    (Kj : gmap Z Point) (cs : list FieldEl) :
  good_ids keys → (length cs ≤ size keys)%nat →
  (∀ k, is_Some (keys !! k) → Kj !! k = Some (fmul_point G (peval cs (f_of_Z k)))) →
  (lambda ← lagrange_map keys; combine_public_shares other_err lambda Kj)
  = Ok (fmul_point G (peval cs 0%F)).
Proof.
  intros Hg Hlen Hk. rewrite lagrange_map_spec by done. cbn [mbind outcome_bind].
  rewrite (combine_spec _ _ _ (λ k, peval cs (f_of_Z k))).
  - do 2 f_equal. rewrite <- (lambda_reconstruct cs (λ k, peval cs (f_of_Z k)) (hm_keys keys));
      [|by apply good_ids_indices|by rewrite hm_keys_length|done].
    set (lam := lambda_at_0 (F:=FieldEl) (hm_keys keys)). unfold hm_keys. rewrite hm_iter_perm.
    assert (map_to_list (map_imap (λ k _, Some (lam k)) keys)
            ≡ₚ (λ kv, (kv.1, lam kv.1)) <$> map_to_list keys) as ->.
    { apply NoDup_Permutation; [apply NoDup_map_to_list| |].
      - apply NoDup_fmap_1 with (f := fst). rewrite <- list_fmap_compose.
        apply NoDup_fst_map_to_list.
      - intros [k x]. rewrite elem_of_map_to_list, map_lookup_imap, list_elem_of_fmap. split.
        + destruct (keys !! k) as [v|] eqn:Hkk; simpl; [|done]. intros [= <-].
          exists (k, v). by rewrite elem_of_map_to_list.
        + intros ([k' v] & [= -> ->] & Hkv%elem_of_map_to_list). by rewrite Hkv. }
    rewrite <- !list_fmap_compose. done.
  - intros k. rewrite map_lookup_imap. destruct (keys !! k) eqn:Hkk; simpl; [|by intros []].
    intros _. apply Hk. by rewrite Hkk.
Qed.
End Round3.

(** ** Commitments with a component outside the subgroup

    What a dealer sends is decoded by [from_encoded], which does not put the points in the
    subgroup.  The checks of round 2 then hold of the subgroup components. *)
Section Cleared.
Context `{C : Curve} {CL : CurveLaws C} {CF : CofactorLaws C} `{HO : HashOrder} `{R : Rsa}.

Definition clear_commitments (input_v : gmap Z (list Point)) : gmap Z (list Point) :=
  (λ v : list Point, clear <$> v) <$> input_v.

Lemma verify_vss_loop_clear index cop exp acc : Forall (λ P, is_on_curve P) cop → is_on_curve acc →
  clear (verify_vss_loop index cop exp acc) = verify_vss_loop index (clear <$> cop) exp (clear acc).
Proof.
  intros Hcop. revert exp acc. induction Hcop as [|P cop HP _ IH]; intros exp acc Hacc; csimpl; [done|].
  rewrite IH by (apply curve_add; [done|by apply curve_mul]).
  by rewrite clear_add, clear_mul by (done || by apply curve_mul).
Qed.

Lemma verify_vss_clear {E} index share v : Forall (λ P, is_on_curve P) v →
  verify_vss (E:=E) index share v = Ok true → verify_vss (E:=E) index share (clear <$> v) = Ok true.
Proof.
  unfold verify_vss. intros Hv. destruct Hv as [|P v HP Hv]; csimpl; [done|]. rewrite !drop_0.
  intros [= Heq%bool_decide_eq_true]. f_equal. apply bool_decide_eq_true.
  rewrite <- verify_vss_loop_clear, <- Heq by done. symmetry. apply clear_id. auto with subgroup.
Qed.

Section Received.
Context (input_v : gmap Z (list Point)).
Context (Hon : ∀ k v, input_v !! k = Some v → Forall (λ P, is_on_curve P) v).

Lemma check_shares_clear {E} (other_err : string → E) nid y :
  check_shares other_err nid y input_v = Ok tt →
  check_shares other_err nid y (clear_commitments input_v) = Ok tt.
Proof.
  rewrite !check_shares_Ok. intros Hall k s Hk. destruct (Hall k s Hk) as (v & Hv & Hver).
  exists (clear <$> v). unfold clear_commitments. rewrite lookup_fmap, Hv. split; [done|].
  apply verify_vss_clear; eauto.
Qed.

Lemma clear_commitments_lengths t :
  (∀ k v, input_v !! k = Some v → length v = t) ↔
  (∀ k v, clear_commitments input_v !! k = Some v → length v = t).
Proof.
  unfold clear_commitments. split.
  - intros Hall k v. rewrite lookup_fmap_Some. intros (w & <- & Hw). rewrite length_fmap. eauto.
  - intros Hall k v Hk. rewrite <- (Hall k (clear <$> v)) by (by rewrite lookup_fmap, Hk). by rewrite length_fmap.
Qed.

(** The cleared commitments commit to some polynomials. *)
Lemma clear_commitments_surj : ∃ css, clear_commitments input_v = commit css.
Proof.
  apply commit_surj. unfold clear_commitments. intros k v. rewrite lookup_fmap_Some.
  intros (w & <- & Hw). apply Forall_fmap. eapply Forall_impl; [by eapply Hon|]. intros P HP. by apply clear_sub.
Qed.

Lemma clear_commitments_id :
  (∀ k v, input_v !! k = Some v → Forall (λ P, in_subgroup P) v) → clear_commitments input_v = input_v.
Proof.
  intros Hsub. apply map_eq. intros k. unfold clear_commitments. rewrite lookup_fmap.
  destruct (input_v !! k) as [v|] eqn:Hk; [|done]. simpl. f_equal.
  pose proof (Hsub k v Hk) as Hv. clear -Hv CL. induction Hv as [|P v HP _ IH]; csimpl; [done|].
  by rewrite IH, clear_id.
Qed.

(** Step 10 on the subgroup components. *)
Lemma sum_commitments_clear {E} a css K :
  clear_commitments input_v = commit css → (∀ k cs, css !! k = Some cs → cs ≠ []) →
  sum_commitments (E:=E) (fmul_point G a) input_v = Ok K →
  clear K = fmul_point G (a + sum_at css 0%F)%F.
Proof.
  intros Hcss Hne Hsum. unfold sum_commitments in Hsum.
  assert (foldM (E:=E) (λ acc x, x0 ← unwrap (x !! 0%nat); Ok (add_self acc x0)) (clear (fmul_point G a))
    ((λ v : list Point, clear <$> v) <$> hm_values input_v) = Ok (clear K)) as Hc.
  { assert (Forall (λ v, Forall (λ P, is_on_curve P) v) (hm_values input_v)) as Hf.
    { unfold hm_values. apply Forall_fmap, Forall_forall. intros [k v] Hk%elem_of_hm_iter. eauto. }
    assert (is_on_curve (fmul_point G a)) as Ha by auto with subgroup.
    revert Hsum Ha. generalize (fmul_point G a) as acc. induction Hf as [|v vs Hv _ IH]; intros acc; csimpl.
    - by intros [= ->].
    - destruct Hv as [|P v HP Hv]; csimpl; [done|]. intros Hsum Ha.
      rewrite <- clear_add by done. apply IH; [done|]. by apply curve_add. }
  rewrite clear_id, (sum_loop_spec _ ((map_to_list css).*2)) in Hc.
  - by injection Hc as <-.
  - transitivity (hm_values (clear_commitments input_v)).
    + unfold clear_commitments. rewrite hm_values_fmap. unfold hm_values. by rewrite hm_iter_perm.
    + rewrite Hcss. apply hm_values_fmap.
  - apply Forall_fmap, Forall_forall. intros [k cs] Hk%elem_of_map_to_list. eauto.
  - auto with subgroup.
Qed.
End Received.

(** Steps 8 to 10, shared by the second rounds of the key generation and of the resharing: an
    accepted run on decoded points, with shares from as many dealers as commitments. *)
Lemma round_2_accepted {E} (other_err : string → E) nid t (y : gmap Z FieldEl) input_v a K :
  (0 < t)%nat → 0 ≤ nid → nid ^ Z.of_nat (t - 1) < 2 ^ 128 →
  (∀ k v, input_v !! k = Some v → Forall decoded v) →
  (∀ k v, input_v !! k = Some v → length v = t) → size y = size input_v →
  check_shares other_err nid y input_v = Ok tt →
  sum_commitments (E:=E) (fmul_point G a) input_v = Ok K →
  ∃ css, clear_commitments input_v = commit css ∧ (∀ k cs, css !! k = Some cs → length cs = t) ∧
    y = (λ cs, peval cs (f_of_Z nid)) <$> css ∧ clear K = fmul_point G (a + sum_at css 0%F)%F ∧
    ((∀ k v, input_v !! k = Some v → Forall (λ P, in_subgroup P) v) → input_v = commit css ∧ K = clear K).
Proof.
  intros Ht Hid Hov Hdec Hlen Hsz Hcheck Hsum.
  assert (∀ k v, input_v !! k = Some v → Forall (λ P, is_on_curve P) v) as Hon.
  { intros k v Hk. eapply Forall_impl; [by eapply Hdec|]. intros P. apply decoded_curve. }
  destruct (clear_commitments_surj input_v Hon) as [css Hcss]. exists css. split; [done|].
  assert (∀ k cs, css !! k = Some cs → length cs = t) as Hlens.
  { rewrite clear_commitments_lengths, Hcss in Hlen.
    by rewrite <- (assert_lengths (E:=E)), assert_lengths_Ok in Hlen. }
  assert (∀ k cs, css !! k = Some cs → cs ≠ []) as Hne.
  { intros k cs Hk ->. specialize (Hlens k [] Hk). simpl in Hlens. lia. }
  apply check_shares_clear in Hcheck; [|done]. rewrite Hcss in Hcheck.
  apply (f_equal size) in Hcss as Hsize. unfold clear_commitments, commit in Hsize. rewrite !map_size_fmap in Hsize.
  pose proof (sum_commitments_clear input_v Hon a css K Hcss Hne Hsum) as HK.
  split_and!; [done| |done|].
  - eapply verified_shares; eauto. lia.
  - intros Hsub. rewrite clear_commitments_id in Hcss by done. split; [done|].
    rewrite Hcss, sum_commitments_spec in Hsum by done. injection Hsum as <-. by rewrite HK.
Qed.
End Cleared.

(** ** Claims *)
Section Claims.
Context `{C : Curve} {CL : CurveLaws C} {CF : CofactorLaws C} `{HO : HashOrder} `{R : Rsa}.

(** C12: what a node learns in round 2, whatever the dealers sent.  The received
    commitments are any points that [from_encoded] gives, inside the prime-order subgroup or
    not.  Suppose the node's own contribution is the polynomial [own] and its id raised to
    [threshold - 1] fits in a [u128].  If [dkg_round_2] returns [(ki, Ki, K)], then the
    subgroup components of the commitments commit to polynomials [css] with [threshold]
    coefficients each, [ki] is the value at the node's id of the sum of all the polynomials,
    [Ki] is its public point, and the subgroup component of [K] is the public point of the
    sum at 0.  If every commitment is in the subgroup the commitments and [K] themselves are
    those points; otherwise [K] may differ from it by a point of small order, which the code
    does not notice. *)
Theorem dkg_round_2_sound (self : Node) (network : Network) input_y input_v ki Ki K own :
  (0 < threshold network)%nat → 0 ≤ id self →
  id self ^ Z.of_nat (threshold network - 1) < 2 ^ 128 →
  init_pub_share self = scalar_mul G (scalar_of_field (peval own 0%F)) →
  own_partial_share self = peval own (f_of_Z (id self)) →
  (∀ k v, input_v !! k = Some v → Forall decoded v) →
  dkg_round_2 self network input_y input_v = Ok (ki, Ki, K) →
  ∃ css, clear_commitments input_v = commit css ∧
    (∀ k cs, css !! k = Some cs → length cs = threshold network) ∧
    ki = (peval own (f_of_Z (id self)) + sum_at css (f_of_Z (id self)))%F ∧
    Ki = scalar_mul G (scalar_of_field ki) ∧
    clear K = scalar_mul G (scalar_of_field (peval own 0 + sum_at css 0)%F) ∧
    ((∀ k v, input_v !! k = Some v → Forall (λ P, in_subgroup P) v) → input_v = commit css ∧
      K = scalar_mul G (scalar_of_field (peval own 0 + sum_at css 0)%F)).
Proof.
  intros Ht Hid Hov Hinit Hown Hdec Hok.
  change (init_pub_share self = fmul_point G (peval own 0%F)) in Hinit.
  unfold dkg_round_2 in Hok. inv_ok.
  match goal with H : (_ && _)%bool = true |- _ => apply andb_true_iff in H as [Hs1 Hs2] end.
  apply Z.eqb_eq in Hs1, Hs2.
  match goal with H : foldM _ tt _ = Ok ?u |- _ =>
    destruct u; rewrite assert_lengths in H; rename H into Hlens end.
  match goal with H : check_shares _ _ _ _ = Ok ?u |- _ => destruct u; rename H into Hcheck end.
  match goal with H : decrypt_shares _ _ _ _ = Ok _ |- _ =>
    apply decrypt_shares_Ok in H as [_ Hdom%(f_equal size)]; rewrite !size_dom in Hdom end.
  rewrite <- Hdom in Hs2. assert (Hsz := eq_trans Hs2 (eq_sym Hs1)).
  apply Nat2Z.inj in Hsz.
  match goal with H : sum_commitments _ _ = Ok _ |- _ => rewrite Hinit in H; rename H into Hsum end.
  destruct (round_2_accepted _ _ _ _ _ _ _ Ht Hid Hov Hdec Hlens Hsz Hcheck Hsum)
    as (css & Hcss & Hlen & -> & HK & Hsub).
  exists css. simplify_eq. rewrite sum_at_fold, Hown. split_and!; try done.
  intros H%Hsub. by rewrite HK in H.
Qed.

(** [Network::new] accepts exactly the parameters of a usable threshold
    network: a nonzero threshold not above the size (strictly below it for a
    regular network) and at least two nodes (three for a regular network);
    an accepted network starts empty with those parameters. *)
Theorem Network_new_spec (t n : nat) (is_tstar : bool) :
  let valid := if is_tstar then (0 < t ≤ n ∧ 2 ≤ n)%nat else (0 < t < n ∧ 3 ≤ n)%nat in
  (valid ∧ Network_new t n is_tstar
           = Ok {| threshold := t; total_nodes := n; public_keys := ∅ |}) ∨
  (¬ valid ∧ ∃ msg, Network_new t n is_tstar = Err (Other msg)).
Proof.
  unfold Network_new. destruct is_tstar; cbn zeta;
    (destruct (_ || _)%bool eqn:Hb;
     [right; split; [|by eexists]|left; split; [|done]]);
    rewrite ?orb_true_iff, ?orb_false_iff, ?Nat.ltb_lt, ?Nat.leb_le, ?Nat.ltb_ge,
      ?Nat.leb_gt, ?Nat.eqb_eq, ?Nat.eqb_neq in Hb; lia.
Qed.
End Claims.
