(* ===== verification/Resharing.v ===== *)
(** * Resharing the key to a new quorum (crates/cryptography/src/resharing.rs) *)
From Stdlib Require Import ZArith Lia Field.
From stdpp Require Import base list gmap strings pretty.
From S2P Require Import Prelude PrimeField Curve ModelCurve Cofactor Polynomial Dkg.

Section Resharing.
Context `{C : Curve} `{HO : HashOrder} `{R : Rsa}.

(** Round 1, run by a node of the old quorum that is in [t_star]: its share,
    turned into an additive share by its Lagrange coefficient, is shared again
    with the new quorum. *)
Definition resharing_round_1 (rnd : nat → FieldEl) (rng : Z → Rand)
    (self : Node) (t_star new_quorum : Network)
    : outcome ResharingError (gmap Z (list Z) * list Point) :=
  let indices := u32 <$> hm_keys (public_keys t_star) in
  lambda_i ← lagrange_basis_at_0 (u32 (id self)) indices;
  let ai0 := (private_share self * lambda_i)%F in
  fi ← sharing_polynomial rnd (threshold new_quorum) ai0;
  '(y, v) ← feldman_vss fi (public_keys new_quorum) (threshold new_quorum);
  y_ct ← encrypt_shares ReRsaError ReOther rng None (public_keys new_quorum) y;
  Ok (y_ct, v).

(** Round 2, run by a node of the new quorum. *)
Definition resharing_round_2 (self : Node) (t_star new_quorum : Network)
    (input_y : gmap Z (list Z)) (input_v : gmap Z (list Point)) (K_dkg : Point)
    : outcome ResharingError (FieldEl * Point * Point) :=
  _ ← assert_ ((size input_v =? total_nodes t_star)%nat && (size input_y =? total_nodes t_star)%nat);
  _ ← foldM (λ _ '(_, j), assert_ (length j =? threshold new_quorum)%nat) tt (hm_iter input_v);
  y ← decrypt_shares ReRsaError ReOther (rsa_seckey self) input_y;
  _ ← check_shares ReOther (id self) y input_v;
  K ← sum_commitments ZERO input_v;
  if bool_decide (K ≠ K_dkg) then Err (ReOther "Group public key not verified - step 10") else
  let ki := foldl f_add 0%F (hm_values y) in
  let Ki := scalar_mul base_point_or_generator (scalar_of_field ki) in
  Ok (ki, Ki, K).

(** Round 3. *)
Definition resharing_round_3 (self : Node) (network : Network) (Kj : gmap Z Point)
    : outcome ResharingError Point :=
  _ ← assert_ (size Kj =? total_nodes network)%nat;
  lambda ← lagrange_map (public_keys network);
  res ← combine_public_shares ReOther lambda Kj;
  _ ← assert_ (bool_decide (res = network_pubkey self));
  Ok res.
End Resharing.

Section Claims.
Context `{C : Curve} {CL : CurveLaws C} {CF : CofactorLaws C} `{HO : HashOrder} `{R : Rsa}.
Add Field FE_field : (f_field_theory (F:=FieldEl)).

(** C13: resharing cannot change the network key, whatever the dealers sent.
    The received commitments are any points that [from_encoded] gives, inside the prime-order
    subgroup or not.  If the node's id raised to [threshold - 1] fits in a [u128] and
    [resharing_round_2] returns [(ki, Ki, K)], then [K] is the public key of the previous
    epoch, the subgroup components of the commitments commit to polynomials whose sum has the
    subgroup component of that key as its public value at 0, and [ki] is the value of the sum
    at the node's id.  So when that key is in the subgroup, it is the public key of the shared
    secret itself, even if single commitments are not in the subgroup. *)
Theorem resharing_round_2_sound (self : Node) (t_star new_quorum : Network)
    input_y input_v K_dkg ki Ki K :
  (0 < threshold new_quorum)%nat → 0 ≤ id self →
  id self ^ Z.of_nat (threshold new_quorum - 1) < 2 ^ 128 →
  (∀ k v, input_v !! k = Some v → Forall decoded v) →
  resharing_round_2 self t_star new_quorum input_y input_v K_dkg = Ok (ki, Ki, K) →
  K = K_dkg ∧ ∃ css, clear_commitments input_v = commit css ∧
    (∀ k cs, css !! k = Some cs → length cs = threshold new_quorum) ∧
    clear K_dkg = scalar_mul G (scalar_of_field (sum_at css 0%F)) ∧
    (in_subgroup K_dkg → K_dkg = scalar_mul G (scalar_of_field (sum_at css 0%F))) ∧
    ki = sum_at css (f_of_Z (id self)) ∧
    Ki = scalar_mul G (scalar_of_field ki) ∧
    ((∀ k v, input_v !! k = Some v → Forall (λ P, in_subgroup P) v) →
      input_v = commit css ∧ in_subgroup K_dkg).
Proof.
  intros Ht Hid Hov Hdec Hok. unfold resharing_round_2 in Hok. inv_ok.
  match goal with H : (_ && _)%bool = true |- _ => apply andb_true_iff in H as [Hs1 Hs2] end.
  apply Nat.eqb_eq in Hs1, Hs2.
  match goal with H : foldM _ tt _ = Ok ?u |- _ =>
    destruct u; rewrite assert_lengths in H; rename H into Hlens end.
  match goal with H : check_shares _ _ _ _ = Ok ?u |- _ => destruct u; rename H into Hcheck end.
  match goal with H : decrypt_shares _ _ _ _ = Ok _ |- _ =>
    apply decrypt_shares_Ok in H as [_ Hdom%(f_equal size)]; rewrite !size_dom in Hdom end.
  rewrite <- Hdom in Hs2. assert (Hsz := eq_trans Hs2 (eq_sym Hs1)).
  match goal with H : sum_commitments _ _ = Ok _ |- _ =>
    rewrite <- (fmul_zero G) in H by auto with subgroup; rename H into Hsum end.
  case_bool_decide as HK; [done|]. inv_ok. simplify_eq.
  destruct (round_2_accepted _ _ _ _ _ _ _ Ht Hid Hov Hdec Hlens Hsz Hcheck Hsum)
    as (css & Hcss & Hlen & -> & HcK & Hsub).
  assert (∀ x : FieldEl, (0 + x)%F = x) as H0 by (intros; ring). rewrite H0 in HcK.
  split; [done|]. exists css. rewrite sum_at_fold, H0. split_and!; try done.
  - intros HKs. by rewrite clear_id in HcK.
  - intros [Hv ->]%Hsub. split; [done|]. rewrite HcK. auto with subgroup.
Qed.
End Claims.
