(* ===== verification/DkgProtocol.v ===== *)
(** * Honest runs of key generation and resharing

    The three rounds of dkg.rs and resharing.rs composed the way the engine
    runs them: every message of round 1 is delivered, every node stores its
    outputs between the rounds. *)
From Stdlib Require Import ZArith Lia Field.
From stdpp Require Import base list gmap strings pretty.
From S2P Require Import Prelude PrimeField Curve ModelCurve Cofactor Polynomial Dkg Resharing.

(** ** Round 1 from the receiver's side *)
Section Messages.
Context `{C : Curve} {CL : CurveLaws C} `{HO : HashOrder} `{R : Rsa} {RL : RsaLaws R}.

Lemma encrypt_shares_honest {E} (rsa_err other_err : string → E) rng skip keys y :
  (∀ k pk, keys !! k = Some pk → is_Some (y !! k)) →
  (∀ k pk x, keys !! k = Some pk → is_Ok (encrypt (rng k) pk (to_repr x))) →
  ∃ y_ct, encrypt_shares rsa_err other_err rng skip keys y = Ok y_ct ∧
    ∀ k sk x, keys !! k = Some (rsa_public sk) → Some k ≠ skip → y !! k = Some x →
      ∃ ct, y_ct !! k = Some ct ∧ decode_share sk ct = Some x.
Proof.
  intros Hy Henc.
  set (f := λ (key : Z) (value : RsaPublicKey),
    if bool_decide (Some key = skip) then Ok None else
    share ← ok_or (y !! key) (other_err ("Computed Polynomial not found for " +:+ pretty key));
    ct ← map_err (λ e, rsa_err ("Failed to encrypt the y_i: " +:+ e))
           (encrypt (rng key) value (to_repr share));
    Ok (Some ct)).
  destruct (foldM_build_total f (λ y_ct '(key, value),
    if bool_decide (Some key = skip) then Ok y_ct else
    share ← ok_or (y !! key) (other_err ("Computed Polynomial not found for " +:+ pretty key));
    ct ← map_err (λ e, rsa_err ("Failed to encrypt the y_i: " +:+ e))
           (encrypt (rng key) value (to_repr share));
    Ok (<[key := ct]> y_ct))) with (m := keys) as (y_ct & Hr & _ & Hsome).
  - intros acc k v Hk. unfold f. case_bool_decide; [done|].
    destruct (y !! k); simpl; [|done]. by destruct (encrypt _ _ _).
  - intros k pk Hk. unfold f. case_bool_decide; [done|].
    destruct (Hy k pk Hk) as [x ->]. simpl.
    pose proof (Henc k pk x Hk). by destruct (encrypt _ _ _).
  - exists y_ct. split; [exact Hr|]. intros k sk x Hk Hs Hx.
    specialize (Hsome k _ Hk). unfold f in Hsome. rewrite bool_decide_false, Hx in Hsome by done.
    simpl in Hsome. pose proof (Henc k _ x Hk) as Hok.
    destruct (encrypt _ _ _) as [ct| |] eqn:Hct; [|done..]. simpl in Hsome.
    injection Hsome as Hsome. exists ct. split; [done|].
    by apply decode_share_repr, (decrypt_encrypt (rng k)).
Qed.

(** A dealer's polynomial as coefficients. *)
Definition dealer_poly (rnd : nat → FieldEl) (t : nat) (secret : FieldEl) : list FieldEl :=
  coefficients (random_polynomials_with_secret rnd (t - 1) secret).

Lemma dealer_poly_length rnd t secret : (0 < t)%nat → length (dealer_poly rnd t secret) = t.
Proof.
  intros Ht. unfold dealer_poly.
  destruct (random_with_secret_coeffs rnd (t - 1) secret) as (cs & -> & Hl). simpl. lia.
Qed.

Lemma dealer_poly_0 rnd t secret : peval (dealer_poly rnd t secret) 0%F = secret.
Proof.
  unfold dealer_poly. rewrite <- eval_peval. apply eval_secret.
Qed.

Lemma sharing_polynomial_Ok {E} rnd t secret : (0 < t)%nat →
  sharing_polynomial (E:=E) rnd t secret
  = Ok (random_polynomials_with_secret rnd (t - 1) secret).
Proof. intros Ht. destruct t; [lia|]. simpl. by rewrite Nat.sub_0_r. Qed.

(** What an honest dealer sends for the secret [secret] to the members of
    [keys]: the commitments and one decodable share per member. *)
Definition honest_dealing (keys : gmap Z RsaPublicKey) (skip : option Z) (t : nat)
    (cs : list FieldEl) (y_ct : gmap Z (list Z)) (v : list Point) : Prop :=
  v = commit_poly cs ∧ length cs = t ∧
  ∀ k sk, keys !! k = Some (rsa_public sk) → Some k ≠ skip →
    ∃ ct, y_ct !! k = Some ct ∧ decode_share sk ct = Some (peval cs (f_of_Z k)).

Lemma deal_honest {E} (rsa_err other_err : string → E) rnd rng skip t secret keys :
  (0 < t)%nat →
  (∀ k pk x, keys !! k = Some pk → is_Ok (encrypt (rng k) pk (to_repr x))) →
  ∃ y v y_ct,
    feldman_vss (E:=E) (random_polynomials_with_secret rnd (t - 1) secret) keys t = Ok (y, v) ∧
    encrypt_shares rsa_err other_err rng skip keys y = Ok y_ct ∧
    honest_dealing keys skip t (dealer_poly rnd t secret) y_ct v ∧
    (∀ k, y !! k = (λ _, peval (dealer_poly rnd t secret) (f_of_Z k)) <$> keys !! k).
Proof.
  intros Ht Henc. pose proof (dealer_poly_length rnd t secret Ht) as Hlen.
  destruct (feldman_vss_spec (E:=E) (random_polynomials_with_secret rnd (t - 1) secret) keys t)
    as (y & v & Hf & Hy & Hv); [unfold dealer_poly in Hlen; lia|].
  destruct (encrypt_shares_honest rsa_err other_err rng skip keys y) as (y_ct & Hct & Hdec).
  - intros k pk Hk. rewrite Hy, Hk. eauto.
  - done.
  - exists y, v, y_ct. split; [done|]. split; [done|]. split.
    + split; [|split; [done|]].
      * rewrite Hv. unfold dealer_poly in *. by rewrite take_ge by lia.
      * intros k sk Hk Hs. apply Hdec; [done..|]. by rewrite Hy, Hk, eval_peval.
    + intros k. by rewrite Hy, eval_peval.
Qed.
End Messages.

(** ** Sums of the dealers' polynomials *)
Section Sums.
Context `{C : Curve} {CL : CurveLaws C}.
Add Field FE_field : (f_field_theory (F:=FieldEl)).

Lemma sum_at_poly t css :
  (∀ k cs, css !! k = Some cs → length cs = t) →
  ∃ fs, (length fs ≤ t)%nat ∧ ∀ x, sum_at css x = peval fs x.
Proof.
  intros Hlen.
  assert (Forall (λ cs : list FieldEl, length cs = t) ((map_to_list css).*2)) as Hf.
  { apply Forall_fmap, Forall_forall. intros [k cs] Hk%elem_of_map_to_list. simpl. eauto. }
  unfold sum_at. induction Hf as [|cs l Hcs Hf (fs & Hfs & Hs)].
  - exists []. simpl. split; [lia|done].
  - exists (padd cs fs). split.
    + rewrite padd_length. lia.
    + intros x. csimpl. rewrite peval_padd, Hs. done.
Qed.

Lemma sum_at_delete css k cs x : css !! k = Some cs →
  (peval cs x + sum_at (delete k css) x)%F = sum_at css x.
Proof.
  intros Hk. unfold sum_at. rewrite <- (map_to_list_delete css k cs Hk). done.
Qed.
End Sums.

(** ** The polynomials of a set of dealers *)
Section Dealers.
Context `{C : Curve} {CL : CurveLaws C} {V : Type}
        (dealers : gmap Z V) (t : nat) (rnd : Z → nat → FieldEl) (ai0 : Z → FieldEl).
Hypothesis H_t : (0 < t)%nat.

Definition dealt : gmap Z (list FieldEl) :=
  map_imap (λ k _, Some (dealer_poly (rnd k) t (ai0 k))) dealers.

Lemma dealt_lookup k : dealt !! k = (λ _, dealer_poly (rnd k) t (ai0 k)) <$> dealers !! k.
Proof. unfold dealt. rewrite map_lookup_imap. by destruct (dealers !! k). Qed.

Lemma dealt_length k cs : dealt !! k = Some cs → length cs = t.
Proof.
  rewrite dealt_lookup, fmap_Some. intros (? & _ & ->). by apply dealer_poly_length.
Qed.

Lemma dealt_dom : dom dealt = dom dealers.
Proof.
  apply set_eq. intros k. rewrite !elem_of_dom, dealt_lookup. by rewrite fmap_is_Some.
Qed.

Lemma dealt_size : size dealt = size dealers.
Proof. by rewrite <- !size_dom, dealt_dom. Qed.

Lemma sum_at_dealt x :
  sum_at dealt x
  = f_sum ((λ j, peval (dealer_poly (rnd j.1) t (ai0 j.1)) x) <$> map_to_list dealers).
Proof.
  unfold sum_at.
  assert (map_to_list dealt
          ≡ₚ (λ j, (j.1, dealer_poly (rnd j.1) t (ai0 j.1))) <$> map_to_list dealers) as ->.
  { apply NoDup_Permutation; [apply NoDup_map_to_list| |].
    - apply NoDup_fmap_1 with (f := fst). rewrite <- list_fmap_compose.
      apply NoDup_fst_map_to_list.
    - intros [k cs]. rewrite elem_of_map_to_list, dealt_lookup, list_elem_of_fmap. split.
      + destruct (dealers !! k) as [v|] eqn:Hkk; simpl; [|done]. intros [= <-].
        exists (k, v). by rewrite elem_of_map_to_list.
      + intros ([k' v] & [= -> ->] & Hkv%elem_of_map_to_list). by rewrite Hkv. }
  by rewrite <- !list_fmap_compose.
Qed.

Lemma sum_at_dealt_0 : sum_at dealt 0%F = f_sum ((λ j, ai0 j.1) <$> map_to_list dealers).
Proof. rewrite sum_at_dealt. apply f_sum_ext. intros j _. apply dealer_poly_0. Qed.

(** The shares of the members are one polynomial of [t] coefficients whose
    value at 0 is the sum of the dealers' secrets. *)
Lemma dealt_poly : ∃ fs, (length fs ≤ t)%nat ∧ ∀ x, sum_at dealt x = peval fs x.
Proof. apply sum_at_poly. apply dealt_length. Qed.

Lemma dealt_reconstruct (l : list Z) :
  good_indices (F:=FieldEl) l → (t ≤ length l)%nat →
  f_sum ((λ i, sum_at dealt (f_of_Z i) * lambda_at_0 l i)%F <$> l) = sum_at dealt 0%F.
Proof.
  intros Hl Hlen. destruct dealt_poly as (fs & Hfs & Hs). rewrite Hs.
  apply lambda_reconstruct; [done|lia|]. intros. apply Hs.
Qed.
End Dealers.

(** ** Round 3 on honest public shares *)
Section PublicShares.
Context `{C : Curve} {CL : CurveLaws C} `{HO : HashOrder} `{R : Rsa}.

(** The public shares of the members of [keys]. *)
Definition public_shares (keys : gmap Z RsaPublicKey) (share : Z → FieldEl) : gmap Z Point :=
  map_imap (λ k _, Some (scalar_mul G (scalar_of_field (share k)))) keys.

Lemma public_shares_lookup keys share k :
  public_shares keys share !! k = (λ _, fmul_point G (share k)) <$> keys !! k.
Proof. unfold public_shares. rewrite map_lookup_imap. by destruct (keys !! k). Qed.

Lemma public_shares_size keys share : size (public_shares keys share) = size keys.
Proof.
  rewrite <- !size_dom. f_equal. apply set_eq. intros j.
  by rewrite !elem_of_dom, public_shares_lookup, fmap_is_Some.
Qed.

Lemma public_shares_combine {E} (other_err : string → E) keys share fs :
  good_ids keys → (length fs ≤ size keys)%nat →
  (∀ k, share k = peval fs (f_of_Z k)) →
  (lambda ← lagrange_map keys; combine_public_shares other_err lambda (public_shares keys share))
  = Ok (fmul_point G (peval fs 0%F)).
Proof.
  intros Hids Hfs Hs. apply round3_combination; [done..|].
  intros k [pk Hk]. by rewrite public_shares_lookup, Hk, <- Hs.
Qed.

Lemma members_good_indices (keys : gmap Z RsaPublicKey) l :
  good_ids keys → NoDup l → Forall (λ i, is_Some (keys !! i)) l →
  good_indices (F:=FieldEl) l.
Proof.
  intros Hids Hnd Hl. split; [done|]. eapply Forall_impl; [exact Hl|].
  intros i Hi. apply Hids in Hi. lia.
Qed.

Lemma lambda_at_0_Ok l : good_indices (F:=FieldEl) l →
  ∀ i, i ∈ l → lagrange_basis_at_0 (E:=Error) i l = Ok (lambda_at_0 (F:=FieldEl) l i).
Proof.
  intros Hg i Hi. apply lagrange_basis_at_0_spec; [by eapply good_indices_range|apply Hg].
Qed.
End PublicShares.

(** ** Key generation *)
Section HonestDkg.
Context `{C : Curve} `{HO : HashOrder} `{R : Rsa}.

(** Between the rounds a node stores its own share and commitment (round 1),
    then its key share and the network key (round 2). *)
Definition after_round_1 (n : Node) (m : gmap Z (list Z) * list Point * FieldEl) : Node :=
  {| id := id n; rsa_pubkey := rsa_pubkey n; rsa_seckey := rsa_seckey n;
     init_pub_share := default ZERO (m.1.2 !! 0%nat);
     private_share := private_share n; network_pubkey := network_pubkey n;
     own_partial_share := m.2 |}.

Definition after_round_2 (n : Node) (r : FieldEl * Point * Point) : Node :=
  {| id := id n; rsa_pubkey := rsa_pubkey n; rsa_seckey := rsa_seckey n;
     init_pub_share := init_pub_share n;
     private_share := r.1.1; network_pubkey := r.2;
     own_partial_share := own_partial_share n |}.

Context (network : Network) (nodes : Z → Node)
        (ai0 : Z → FieldEl) (rnd : Z → nat → FieldEl) (rng : Z → Z → Rand).

(** The round-1 messages of all the nodes of the network. *)
Definition dkg_messages : gmap Z (gmap Z (list Z) * list Point * FieldEl) :=
  map_imap (λ k _, match dkg_round_1 (ai0 k) (rnd k) (rng k) (nodes k) network with
                   | Ok m => Some m | _ => None end) (public_keys network).

(** What node [k] received: the other nodes' ciphertexts for it and their
    commitments. *)
Definition dkg_input_y (k : Z) : gmap Z (list Z) := omap (λ m, m.1.1 !! k) (delete k dkg_messages).
Definition dkg_input_v (k : Z) : gmap Z (list Point) := (λ m, m.1.2) <$> delete k dkg_messages.

Definition dkg_node_1 (k : Z) : Node :=
  match dkg_messages !! k with Some m => after_round_1 (nodes k) m | None => nodes k end.

Context {CL : CurveLaws C} {RL : RsaLaws R}.
Add Field FE_field : (f_field_theory (F:=FieldEl)).
Let t := threshold network.
Let keys := public_keys network.

Hypothesis H_t : (0 < t ≤ size keys)%nat.
Hypothesis H_total : total_nodes network = size keys ∧ Z.of_nat (size keys) < 2 ^ 64.
Hypothesis H_nodes : ∀ k, is_Some (keys !! k) →
  id (nodes k) = k ∧ keys !! k = Some (rsa_public (rsa_seckey (nodes k))).
Hypothesis H_ids : good_ids keys.
Hypothesis H_exp : ∀ k, is_Some (keys !! k) → k ^ Z.of_nat (t - 1) < 2 ^ 128.
Hypothesis H_enc : ∀ j k pk x, keys !! k = Some pk → is_Ok (encrypt (rng j k) pk (to_repr x)).

Let css : gmap Z (list FieldEl) := dealt keys t rnd ai0.

Lemma dkg_message k : is_Some (keys !! k) →
  ∃ y_ct v yii, dkg_messages !! k = Some (y_ct, v, yii) ∧
    dkg_round_1 (ai0 k) (rnd k) (rng k) (nodes k) network = Ok (y_ct, v, yii) ∧
    honest_dealing keys (Some k) t (dealer_poly (rnd k) t (ai0 k)) y_ct v ∧
    yii = peval (dealer_poly (rnd k) t (ai0 k)) (f_of_Z k).
Proof.
  intros [pk Hk]. destruct (H_nodes k) as [Hid _]; [by eauto|].
  destruct (deal_honest RsaError DkgOther (rnd k) (rng k) (Some k) t (ai0 k) keys)
    as (y & v & y_ct & Hf & Hct & Hd & Hy); [lia|by intros; eapply H_enc|].
  assert (dkg_round_1 (ai0 k) (rnd k) (rng k) (nodes k) network
          = Ok (y_ct, v, peval (dealer_poly (rnd k) t (ai0 k)) (f_of_Z k))) as Hr.
  { unfold dkg_round_1. rewrite sharing_polynomial_Ok by (fold t; lia). cbn [mbind outcome_bind].
    fold t keys. rewrite Hf. cbn [mbind outcome_bind]. rewrite Hid, Hct. cbn [mbind outcome_bind].
    by rewrite Hy, Hk. }
  eexists y_ct, v, _. split; [|done].
  unfold dkg_messages. rewrite map_lookup_imap. fold keys. rewrite Hk. cbn. by rewrite Hr.
Qed.

Lemma dkg_messages_dom k : dkg_messages !! k = None ↔ keys !! k = None.
Proof.
  split; intros Hk.
  - destruct (keys !! k) as [pk|] eqn:Hkk; [|done].
    destruct (dkg_message k) as (? & ? & ? & Hm & _); [eauto|]. congruence.
  - unfold dkg_messages. rewrite map_lookup_imap. fold keys. by rewrite Hk.
Qed.

Lemma dkg_input_v_eq k : dkg_input_v k = commit (delete k css).
Proof.
  apply map_eq. intros j. unfold dkg_input_v, commit. rewrite !lookup_fmap, !lookup_delete.
  case_decide; [done|]. unfold css. rewrite dealt_lookup. destruct (keys !! j) as [pk|] eqn:Hj.
  - destruct (dkg_message j) as (y_ct & v & yii & -> & _ & (-> & _) & _); [eauto|]. done.
  - apply dkg_messages_dom in Hj. by rewrite Hj.
Qed.

Lemma dkg_input_y_decode k : is_Some (keys !! k) →
  ∀ j, dkg_input_y k !! j ≫= decode_share (rsa_seckey (nodes k))
       = (λ cs, peval cs (f_of_Z k)) <$> (delete k css !! j)
     ∧ (is_Some (dkg_input_y k !! j) ↔ is_Some (delete k css !! j)).
Proof.
  intros Hk j. unfold dkg_input_y. rewrite lookup_omap, !lookup_delete.
  case_decide as Hjk; [by rewrite !is_Some_alt|]. unfold css. rewrite dealt_lookup.
  destruct (keys !! j) as [pk|] eqn:Hj.
  - destruct (dkg_message j) as (y_ct & v & yii & -> & _ & (_ & _ & Hd) & _); [eauto|].
    destruct (H_nodes k Hk) as [_ Hpk].
    destruct (Hd k _ Hpk) as (ct & Hct & Hdec); [congruence|]. simpl. rewrite Hct. simpl.
    rewrite Hdec. split; [done|]. split; eauto.
  - apply dkg_messages_dom in Hj. rewrite Hj. by rewrite !is_Some_alt.
Qed.

(** The share of node [k] and the key of the network. *)
Definition dkg_share (k : Z) : FieldEl :=
  f_sum ((λ j, peval (dealer_poly (rnd j.1) (threshold network) (ai0 j.1)) (f_of_Z k))
           <$> map_to_list (public_keys network)).
Definition dkg_secret : FieldEl := f_sum ((λ j, ai0 j.1) <$> map_to_list (public_keys network)).

Lemma dkg_secret_css : sum_at css 0%F = dkg_secret.
Proof. apply sum_at_dealt_0. Qed.

Lemma dkg_node_1_spec k : is_Some (keys !! k) →
  id (dkg_node_1 k) = k ∧ rsa_seckey (dkg_node_1 k) = rsa_seckey (nodes k) ∧
  init_pub_share (dkg_node_1 k) = fmul_point G (ai0 k) ∧
  own_partial_share (dkg_node_1 k) = peval (dealer_poly (rnd k) t (ai0 k)) (f_of_Z k).
Proof.
  intros Hk. destruct (dkg_message k Hk) as (y_ct & v & yii & Hm & _ & (Hv & _) & Hyii).
  unfold dkg_node_1. rewrite Hm. simpl. destruct (H_nodes k Hk) as [-> _].
  split; [done|]. split; [done|]. split; [|done]. rewrite Hv. unfold dealer_poly.
  destruct (random_with_secret_coeffs (rnd k) (t - 1) (ai0 k)) as (cs & -> & _). done.
Qed.

Lemma dkg_round_2_honest k : is_Some (keys !! k) →
  dkg_round_2 (dkg_node_1 k) network (dkg_input_y k) (dkg_input_v k)
  = Ok (dkg_share k, fmul_point G (dkg_share k), fmul_point G dkg_secret).
Proof.
  intros Hk. destruct (dkg_node_1_spec k Hk) as (Hid & Hsk & Hinit & Hown).
  pose proof (dkg_input_y_decode k Hk) as Hdec.
  destruct (H_ids k Hk) as [Hkr _].
  assert (css !! k = Some (dealer_poly (rnd k) t (ai0 k))) as Hcss
    by (unfold css; rewrite dealt_lookup; by destruct Hk as [? ->]).
  assert (size (delete k css) = (size keys - 1)%nat) as Hsz
    by (rewrite map_size_delete, Hcss; unfold css; rewrite dealt_size; lia).
  assert (size (dkg_input_y k) = size (delete k css)) as Hszy.
  { rewrite <- !size_dom. f_equal. apply set_eq. intros j. rewrite !elem_of_dom. apply Hdec. }
  assert (∀ j cs, delete k css !! j = Some cs → length cs = t) as Hlen.
  { intros j cs [_ Hj]%lookup_delete_Some. eapply dealt_length; [|exact Hj]. lia. }
  assert (omap (decode_share (rsa_seckey (nodes k))) (dkg_input_y k)
          = (λ cs, peval cs (f_of_Z k)) <$> delete k css) as Hy.
  { apply map_eq. intros j. rewrite lookup_omap, lookup_fmap. apply Hdec. }
  unfold dkg_round_2. rewrite dkg_input_v_eq, Hszy, Hsk, Hid, Hinit, Hown.
  assert (u64 (Z.of_nat (total_nodes network) - 1) = Z.of_nat (size (delete k css))) as Hn.
  { rewrite Hsz. destruct H_total as [-> ?]. unfold u64. rewrite wrap_small by lia. lia. }
  assert (size (commit (delete k css)) = size (delete k css)) as ->
    by (unfold commit; apply map_size_fmap).
  rewrite Hn, Z.eqb_refl. cbn [andb assert_ mbind outcome_bind].
  rewrite (proj2 (assert_lengths_Ok _ _) Hlen). cbn [mbind outcome_bind].
  rewrite decrypt_shares_total; [cbn [mbind outcome_bind]|].
  - rewrite Hy. rewrite (honest_shares_check _ _ t); [|lia|lia|by apply H_exp|done].
    cbn [mbind outcome_bind].
    rewrite sum_commitments_spec by (intros j cs Hj ->; apply Hlen in Hj; simpl in Hj; lia).
    cbn [mbind outcome_bind]. rewrite sum_at_fold, (sum_at_delete _ _ _ _ Hcss).
    change (scalar_mul G (scalar_of_field ?x)) with (fmul_point G x).
    rewrite <- dkg_secret_css, <- (sum_at_delete _ _ _ 0%F Hcss), dealer_poly_0.
    unfold css. by rewrite sum_at_dealt.
  - intros j ct Hj. destruct (Hdec j) as [Heq Hiff]. rewrite Hj in Heq, Hiff. simpl in Heq.
    rewrite Heq. apply fmap_is_Some, Hiff. eauto.
Qed.

Lemma dkg_share_css k : dkg_share k = sum_at css (f_of_Z k).
Proof. unfold css. by rewrite sum_at_dealt. Qed.

Lemma dkg_round_3_honest k : is_Some (keys !! k) →
  let NK := fmul_point G dkg_secret in
  dkg_round_3 (after_round_2 (dkg_node_1 k) (dkg_share k, fmul_point G (dkg_share k), NK)) network
    (public_shares keys dkg_share) = Ok NK.
Proof.
  intros Hk NK. destruct (dealt_poly keys t rnd ai0) as (fs & Hfs & Hs); [lia|].
  unfold dkg_round_3. rewrite public_shares_size.
  destruct H_total as [-> _]. fold keys. rewrite Nat.eqb_refl. cbn [assert_ mbind outcome_bind].
  rewrite <- outcome_bind_assoc, (public_shares_combine _ _ _ fs); [|done|lia|].
  - simpl. rewrite <- Hs. fold css. rewrite dkg_secret_css. by rewrite bool_decide_true.
  - intros j. rewrite dkg_share_css. apply Hs.
Qed.

Lemma dkg_reconstruct l : NoDup l → Forall (λ i, is_Some (keys !! i)) l → (t ≤ length l)%nat →
  ∃ lam, (∀ i, i ∈ l → lagrange_basis_at_0 (E:=Error) i l = Ok (lam i)) ∧
    f_sum ((λ i, dkg_share i * lam i)%F <$> l) = dkg_secret.
Proof.
  intros Hnd Hl Hlen. pose proof (members_good_indices _ l H_ids Hnd Hl) as Hg.
  exists (lambda_at_0 l). split; [by apply lambda_at_0_Ok|].
  rewrite <- dkg_secret_css. etransitivity;
    [|apply (dealt_reconstruct keys t rnd ai0) with (l := l); done || lia].
  apply f_sum_ext. intros i _. by rewrite dkg_share_css.
Qed.

(** key generation is correct.  In a network of [n] nodes with distinct ids
    in range and threshold [0 < t <= n], when encryption succeeds every node
    completes the three rounds: round 1 produces its message, round 2 returns
    the node's share [dkg_share k], its public point and the same network key
    for all nodes, round 3 accepts the public shares.  The network key is the
    public point of the sum of all the nodes' secrets, and any [t] shares
    reconstruct that sum. *)
Theorem dkg_honest_run :
  let NK := scalar_mul G (scalar_of_field dkg_secret) in
  let Kj := public_shares (public_keys network) dkg_share in
  (∀ k, is_Some (public_keys network !! k) →
    is_Ok (dkg_round_1 (ai0 k) (rnd k) (rng k) (nodes k) network) ∧
    ∃ Kk, Kj !! k = Some Kk ∧
      dkg_round_2 (dkg_node_1 k) network (dkg_input_y k) (dkg_input_v k)
        = Ok (dkg_share k, Kk, NK) ∧
      dkg_round_3 (after_round_2 (dkg_node_1 k) (dkg_share k, Kk, NK)) network Kj = Ok NK) ∧
  (∀ l, NoDup l → Forall (λ i, is_Some (public_keys network !! i)) l →
    (threshold network ≤ length l)%nat →
    ∃ lam, (∀ i, i ∈ l → lagrange_basis_at_0 (E:=Error) i l = Ok (lam i)) ∧
      f_sum ((λ i, dkg_share i * lam i)%F <$> l) = dkg_secret).
Proof.
  intros NK Kj. split; [|apply dkg_reconstruct]. intros k Hk. split.
  { destruct (dkg_message k Hk) as (? & ? & ? & _ & -> & _). done. }
  eexists. split; [|split; [by apply dkg_round_2_honest|by apply dkg_round_3_honest]].
  unfold Kj. rewrite public_shares_lookup. by destruct Hk as [? ->].
Qed.
End HonestDkg.

(** ** Resharing *)
Section HonestResharing.
Context `{C : Curve} `{HO : HashOrder} `{R : Rsa}.
Context (t_star new_quorum : Network) (old_nodes new_nodes : Z → Node)
        (rnd : Z → nat → FieldEl) (rng : Z → Z → Rand).

(** The round-1 messages of the members of [t_star], and what the new node [k]
    received of them. *)
Definition re_messages : gmap Z (gmap Z (list Z) * list Point) :=
  map_imap (λ k _, match resharing_round_1 (rnd k) (rng k) (old_nodes k) t_star new_quorum with
                   | Ok m => Some m | _ => None end) (public_keys t_star).
Definition re_input_y (k : Z) : gmap Z (list Z) := omap (λ m, m.1 !! k) re_messages.
Definition re_input_v : gmap Z (list Point) := snd <$> re_messages.

Context {CL : CurveLaws C} {RL : RsaLaws R}.
Let t' := threshold new_quorum.
Let keys := public_keys t_star.
Let new_keys := public_keys new_quorum.
Variable cs : list FieldEl.

Hypothesis H_t' : (0 < t' ≤ size new_keys)%nat.
Hypothesis H_star : total_nodes t_star = size keys.
Hypothesis H_new : total_nodes new_quorum = size new_keys.
Hypothesis H_shares : (length cs ≤ size keys)%nat ∧ ∀ k, is_Some (keys !! k) →
  id (old_nodes k) = k ∧ private_share (old_nodes k) = peval cs (f_of_Z k).
Hypothesis H_nodes : ∀ k, is_Some (new_keys !! k) →
  id (new_nodes k) = k ∧ new_keys !! k = Some (rsa_public (rsa_seckey (new_nodes k))).
Hypothesis H_ids : good_ids keys ∧ good_ids new_keys.
Hypothesis H_exp : ∀ k, is_Some (new_keys !! k) → k ^ Z.of_nat (t' - 1) < 2 ^ 128.
Hypothesis H_enc : ∀ j k pk x, new_keys !! k = Some pk → is_Ok (encrypt (rng j k) pk (to_repr x)).

(** The additive share of the old node [k], and the new share of node [k]. *)
Let ai0 (k : Z) : FieldEl := (peval cs (f_of_Z k) * lambda_at_0 (hm_keys keys) k)%F.
Let css : gmap Z (list FieldEl) := dealt keys t' rnd ai0.

Lemma re_message k : is_Some (keys !! k) →
  ∃ y_ct v, re_messages !! k = Some (y_ct, v) ∧
    honest_dealing new_keys None t' (dealer_poly (rnd k) t' (ai0 k)) y_ct v.
Proof.
  intros Hk. destruct H_shares as [_ Hsh]. destruct (Hsh k Hk) as [Hid Hps].
  destruct H_ids as [Hids _]. destruct (Hids k Hk) as [Hkr Hkm].
  destruct (deal_honest ReRsaError ReOther (rnd k) (rng k) None t' (ai0 k) new_keys)
    as (y & v & y_ct & Hf & Hct & Hd & _); [lia|by intros; eapply H_enc|].
  exists y_ct, v. split; [|done].
  unfold re_messages. rewrite map_lookup_imap. fold keys. destruct Hk as [pk Hk]. rewrite Hk. cbn.
  unfold resharing_round_1. fold keys t' new_keys. rewrite good_ids_u32, Hid, Hps by done.
  unfold u32. rewrite wrap_small by lia.
  rewrite lagrange_basis_at_0_spec; [|lia|by apply good_ids_indices].
  cbn [mbind outcome_bind]. rewrite sharing_polynomial_Ok by lia. cbn [mbind outcome_bind].
  unfold ai0, lambda_at_0 in Hf. rewrite Hf. cbn [mbind outcome_bind]. by rewrite Hct.
Qed.

Lemma re_messages_dom k : re_messages !! k = None ↔ keys !! k = None.
Proof.
  split; intros Hk.
  - destruct (keys !! k) as [pk|] eqn:Hkk; [|done].
    destruct (re_message k) as (? & ? & Hm & _); [eauto|]. congruence.
  - unfold re_messages. rewrite map_lookup_imap. fold keys. by rewrite Hk.
Qed.

Lemma re_input_v_eq : re_input_v = commit css.
Proof.
  apply map_eq. intros j. unfold re_input_v, commit, css. rewrite !lookup_fmap, dealt_lookup.
  destruct (keys !! j) as [pk|] eqn:Hj.
  - destruct (re_message j) as (y_ct & v & -> & -> & _); [eauto|]. done.
  - apply re_messages_dom in Hj. by rewrite Hj.
Qed.

Lemma re_input_y_decode k : is_Some (new_keys !! k) →
  ∀ j, re_input_y k !! j ≫= decode_share (rsa_seckey (new_nodes k))
       = (λ cs, peval cs (f_of_Z k)) <$> (css !! j)
     ∧ (is_Some (re_input_y k !! j) ↔ is_Some (css !! j)).
Proof.
  intros Hk j. unfold re_input_y, css. rewrite lookup_omap, dealt_lookup.
  destruct (keys !! j) as [pk|] eqn:Hj.
  - destruct (re_message j) as (y_ct & v & -> & (_ & _ & Hd)); [eauto|].
    destruct (H_nodes k Hk) as [_ Hpk].
    destruct (Hd k _ Hpk) as (ct & Hct & Hdec); [done|]. simpl. rewrite Hct. simpl.
    rewrite Hdec. split; [done|]. split; eauto.
  - apply re_messages_dom in Hj. rewrite Hj. by rewrite !is_Some_alt.
Qed.

(** The additive shares sum up to the old secret. *)
Lemma re_secret : sum_at css 0%F = peval cs 0%F.
Proof.
  unfold css. rewrite sum_at_dealt_0. destruct H_shares as [Hlen _].
  rewrite <- (lambda_reconstruct cs (λ k, peval cs (f_of_Z k)) (hm_keys keys));
    [|apply good_ids_indices, H_ids|by rewrite hm_keys_length|done].
  unfold ai0. set (lam := lambda_at_0 (F:=FieldEl) (hm_keys keys)).
  unfold hm_keys. rewrite hm_iter_perm, <- list_fmap_compose. done.
Qed.

Definition re_share (k : Z) : FieldEl := sum_at css (f_of_Z k).

Lemma re_round_2_honest k : is_Some (new_keys !! k) →
  resharing_round_2 (new_nodes k) t_star new_quorum (re_input_y k) re_input_v
    (fmul_point G (peval cs 0%F))
  = Ok (re_share k, fmul_point G (re_share k), fmul_point G (peval cs 0%F)).
Proof.
  intros Hk. destruct (H_nodes k Hk) as [Hid _]. pose proof (re_input_y_decode k Hk) as Hdec.
  destruct H_ids as [_ Hids]. destruct (Hids k Hk) as [Hkr _].
  assert (size (re_input_y k) = size css) as Hszy.
  { rewrite <- !size_dom. f_equal. apply set_eq. intros j. rewrite !elem_of_dom. apply Hdec. }
  assert (∀ j cs, css !! j = Some cs → length cs = t') as Hlen.
  { intros j cs' Hj. eapply dealt_length; [|exact Hj]. lia. }
  assert (omap (decode_share (rsa_seckey (new_nodes k))) (re_input_y k)
          = (λ cs, peval cs (f_of_Z k)) <$> css) as Hy.
  { apply map_eq. intros j. rewrite lookup_omap, lookup_fmap. apply Hdec. }
  unfold resharing_round_2. rewrite re_input_v_eq, Hszy, Hid, H_star.
  assert (size (commit css) = size keys) as ->
    by (unfold commit; rewrite map_size_fmap; apply dealt_size).
  assert (size css = size keys) as -> by apply dealt_size.
  rewrite Nat.eqb_refl. cbn [andb assert_ mbind outcome_bind].
  rewrite (proj2 (assert_lengths_Ok _ _) Hlen). cbn [mbind outcome_bind].
  rewrite decrypt_shares_total; [cbn [mbind outcome_bind]|].
  - rewrite Hy. rewrite (honest_shares_check _ _ t'); [|lia|lia|by apply H_exp|done].
    cbn [mbind outcome_bind]. rewrite <- (fmul_zero G) by auto with subgroup.
    rewrite sum_commitments_spec by (intros j cs' Hj ->; apply Hlen in Hj; simpl in Hj; lia).
    cbn [mbind outcome_bind]. rewrite sum_at_fold, re_secret.
    rewrite !(Radd_0_l (F_R (f_field_theory (F:=FieldEl)))).
    by rewrite bool_decide_false by (by intros []).
  - intros j ct Hj. destruct (Hdec j) as [Heq Hiff]. rewrite Hj in Heq, Hiff. simpl in Heq.
    rewrite Heq. apply fmap_is_Some, Hiff. eauto.
Qed.

Lemma re_round_3_honest k :
  let NK := fmul_point G (peval cs 0%F) in
  resharing_round_3 (after_round_2 (new_nodes k) (re_share k, fmul_point G (re_share k), NK)) new_quorum
    (public_shares new_keys re_share) = Ok NK.
Proof.
  intros NK. destruct (dealt_poly keys t' rnd ai0) as (fs & Hfs & Hs); [lia|].
  unfold resharing_round_3. rewrite public_shares_size, H_new. fold new_keys.
  rewrite Nat.eqb_refl. cbn [assert_ mbind outcome_bind].
  rewrite <- outcome_bind_assoc, (public_shares_combine _ _ _ fs); [|apply H_ids|lia|].
  - simpl. rewrite <- Hs. fold css. rewrite re_secret. by rewrite bool_decide_true.
  - intros j. apply Hs.
Qed.

Lemma re_reconstruct l : NoDup l → Forall (λ i, is_Some (new_keys !! i)) l → (t' ≤ length l)%nat →
  ∃ lam, (∀ i, i ∈ l → lagrange_basis_at_0 (E:=Error) i l = Ok (lam i)) ∧
    f_sum ((λ i, re_share i * lam i)%F <$> l) = peval cs 0%F.
Proof.
  intros Hnd Hl Hlen. destruct H_ids as [_ Hids].
  pose proof (members_good_indices _ l Hids Hnd Hl) as Hg.
  exists (lambda_at_0 l). split; [by apply lambda_at_0_Ok|].
  rewrite <- re_secret. apply dealt_reconstruct; done || lia.
Qed.

(** resharing preserves the secret.  When the members of [t_star] hold
    shares of a polynomial with at most as many coefficients as there are
    members, and encryption succeeds, every node of the new quorum completes
    rounds 2 and 3 against the old network key: it obtains the share
    [re_share k], and the network key is unchanged.  Any [threshold] new shares
    reconstruct the old secret. *)
Theorem resharing_honest_run :
  let NK := scalar_mul G (scalar_of_field (peval cs 0%F)) in
  let Kj := public_shares (public_keys new_quorum) re_share in
  (∀ k, is_Some (public_keys new_quorum !! k) →
    ∃ Kk, Kj !! k = Some Kk ∧
      resharing_round_2 (new_nodes k) t_star new_quorum (re_input_y k) re_input_v NK
        = Ok (re_share k, Kk, NK) ∧
      resharing_round_3 (after_round_2 (new_nodes k) (re_share k, Kk, NK)) new_quorum Kj
        = Ok NK) ∧
  (∀ l, NoDup l → Forall (λ i, is_Some (public_keys new_quorum !! i)) l →
    (threshold new_quorum ≤ length l)%nat →
    ∃ lam, (∀ i, i ∈ l → lagrange_basis_at_0 (E:=Error) i l = Ok (lam i)) ∧
      f_sum ((λ i, re_share i * lam i)%F <$> l) = peval cs 0%F).
Proof.
  intros NK Kj. split; [|apply re_reconstruct].
  intros k Hk. eexists. split; [|split; [by apply re_round_2_honest|apply re_round_3_honest]].
  unfold Kj. rewrite public_shares_lookup. by destruct Hk as [? ->].
Qed.
End HonestResharing.

(** ** Instances of the claims: a 2-of-3 key generation and a resharing *)
Import ModelInstances.

#[local] Instance model_rsa : Rsa := {|
  RsaPublicKey := Z; RsaPrivateKey := Z; Rand := unit;
  rsa_new _ := Ok 7;
  rsa_public sk := sk;
  encrypt _ pk m := Ok (pk :: m);
  decrypt sk ct := match ct with
                   | pk :: m => if pk =? sk then Ok m else Err "wrong key"
                   | [] => Err "empty" end
|}.

#[local] Instance model_rsa_laws : RsaLaws model_rsa.
Proof. constructor. simpl. intros _ sk m ct [= <-]. by rewrite Z.eqb_refl. Qed.

Definition model_network : Network :=
  {| threshold := 2; total_nodes := 3; public_keys := {[ 1 := 1; 2 := 2; 3 := 3 ]} : gmap Z Z |}.
Definition model_node (k : Z) : Node :=
  {| id := k; rsa_pubkey := (k : RsaPublicKey); rsa_seckey := (k : RsaPrivateKey);
     init_pub_share := ZERO; private_share := 0%F; network_pubkey := ZERO;
     own_partial_share := 0%F |}.
Definition model_ai0 (k : Z) : FieldEl := f_of_Z (k + 10).
Definition model_rnd (k : Z) (i : nat) : FieldEl := f_of_Z (k * 5 + Z.of_nat i).

(** Membership in the concrete networks. *)
Lemma model_members (P : Z → Prop) :
  P 1 → P 2 → P 3 → ∀ k, is_Some (({[ 1 := 1; 2 := 2; 3 := 3 ]} : gmap Z Z) !! k) → P k.
Proof.
  intros H1 H2 H3 k Hk. assert (k ∈ ({[ 1; 2; 3 ]} : gset Z)) as Hin.
  { apply elem_of_dom in Hk. revert Hk. set_solver. }
  set_solver.
Qed.

Lemma dkg_honest_run_witness :
  (∃ ki Ki NK,
    dkg_round_2 (dkg_node_1 model_network model_node model_ai0 model_rnd (λ _ _, tt) 2) model_network
      (dkg_input_y model_network model_node model_ai0 model_rnd (λ _ _, tt) 2)
      (dkg_input_v model_network model_node model_ai0 model_rnd (λ _ _, tt) 2) = Ok (ki, Ki, NK)) ∧
  ∃ lam, f_sum ((λ i, dkg_share model_network model_ai0 model_rnd i * lam i)%F <$> [3; 1])
    = dkg_secret model_network model_ai0.
Proof.
  destruct (dkg_honest_run model_network model_node model_ai0 model_rnd (λ _ _, tt)) as [Hrun Hrec].
  - vm_compute. lia.
  - split; [reflexivity|vm_compute; reflexivity].
  - apply model_members; split; reflexivity.
  - unfold good_ids. apply model_members; vm_compute; repeat split; discriminate || reflexivity.
  - apply model_members; reflexivity.
  - done.
  - destruct (Hrun 2) as (_ & Kk & _ & Hr & _); [by eexists; vm_compute|].
    destruct (Hrec [3; 1]) as (lam & _ & Hl); [| |vm_compute; lia|].
    + apply (bool_decide_unpack _). vm_compute. exact I.
    + repeat constructor; eexists; vm_compute; reflexivity.
    + eauto 10.
Defined.

Definition model_new_network : Network :=
  {| threshold := 2; total_nodes := 3; public_keys := {[ 1 := 1; 2 := 2; 3 := 3 ]} : gmap Z Z |}.
Definition model_cs : list FieldEl := [f_of_Z 36; f_of_Z 18].
Definition model_old_node (k : Z) : Node :=
  {| id := k; rsa_pubkey := (k : RsaPublicKey); rsa_seckey := (k : RsaPrivateKey);
     init_pub_share := ZERO; private_share := peval model_cs (f_of_Z k); network_pubkey := ZERO;
     own_partial_share := 0%F |}.

Lemma resharing_honest_run_witness :
  (∃ ki Ki,
    resharing_round_2 (model_node 2) model_network model_new_network
      (re_input_y model_network model_new_network model_old_node model_rnd (λ _ _, tt) 2)
      (re_input_v model_network model_new_network model_old_node model_rnd (λ _ _, tt))
      (scalar_mul G (scalar_of_field (peval model_cs 0%F)))
    = Ok (ki, Ki, scalar_mul G (scalar_of_field (peval model_cs 0%F)))).
Proof.
  destruct (resharing_honest_run model_network model_new_network model_old_node model_node
              model_rnd (λ _ _, tt) model_cs) as [Hrun _].
  - vm_compute. lia.
  - reflexivity.
  - reflexivity.
  - split; [vm_compute; lia|]. apply model_members; split; reflexivity.
  - apply model_members; split; reflexivity.
  - split; unfold good_ids; apply model_members; vm_compute; repeat split;
      discriminate || reflexivity.
  - apply model_members; reflexivity.
  - done.
  - destruct (Hrun 2) as (Kk & _ & Hr & _); [by eexists; vm_compute|]. eauto.
Defined.

Lemma resharing_round_2_sound_witness :
  let input_y := re_input_y model_network model_new_network model_old_node model_rnd (λ _ _, tt) 3 in
  let input_v := re_input_v model_network model_new_network model_old_node model_rnd (λ _ _, tt) in
  let K_dkg := scalar_mul G (scalar_of_field (peval model_cs 0%F)) in
  ∃ ki Ki K, resharing_round_2 (model_node 3) model_network model_new_network input_y input_v K_dkg
    = Ok (ki, Ki, K) ∧ K = K_dkg.
Proof.
  intros input_y input_v K_dkg.
  assert (∃ r, resharing_round_2 (model_node 3) model_network model_new_network input_y input_v K_dkg
    = Ok r) as [[[ki Ki] K] Hr] by (eexists; vm_compute; reflexivity).
  destruct (resharing_round_2_sound (CF:=prime_order_cofactor model_curve (λ _, I)) (model_node 3) model_network model_new_network input_y input_v
              K_dkg ki Ki K) as [HK _].
  - simpl. lia.
  - vm_compute. discriminate.
  - vm_compute. reflexivity.
  - intros k v _. apply Forall_forall. intros P _. exact (model_decoded P).
  - exact Hr.
  - exists ki, Ki, K. split; [exact Hr|exact HK].
Defined.

(** ** A dealer whose commitments are outside the subgroup

    On [cofactor_curve] dealer 1 adds the point 101 of order 2 to both of its commitments.
    Node 3 has an odd id, so the two errors cancel in [verify_vss] and the share is accepted;
    the network key that node 3 computes is then not in the subgroup. *)
Module SmallOrder.
Import CofactorInstances.

Definition self : Node (C:=cofactor_curve) :=
  {| id := 3; rsa_pubkey := (3 : RsaPublicKey); rsa_seckey := (3 : RsaPrivateKey);
     init_pub_share := fmul_point G (f_of_Z 12); private_share := f_of_Z 0; network_pubkey := ZERO;
     own_partial_share := f_of_Z 24 |}.
Definition input_y : gmap Z (list Z) :=
  {[ 1 := 3 :: to_repr (f_of_Z 25 : FieldEl); 2 := 3 :: to_repr (f_of_Z 32 : FieldEl) ]}.
Definition input_v : gmap Z (list (Point (Curve:=cofactor_curve))) :=
  {[ 1 := [add_self (fmul_point G (f_of_Z 10)) torsion; add_self (fmul_point G (f_of_Z 5)) torsion];
     2 := [fmul_point G (f_of_Z 11); fmul_point G (f_of_Z 7)] ]}.
End SmallOrder.

Lemma dkg_round_2_sound_witness :
  let run := dkg_round_2 (C:=cofactor_curve) SmallOrder.self model_network SmallOrder.input_y SmallOrder.input_v in
  ∃ ki Ki K css, run = Ok (ki, Ki, K) ∧ ¬ in_subgroup K ∧
    ki = (peval [f_of_Z 12; f_of_Z 4] (f_of_Z 3) + sum_at css (f_of_Z 3))%F ∧
    clear (CofactorLaws:=cofactor_curve_cofactor) K
    = scalar_mul G (scalar_of_field (peval [f_of_Z 12; f_of_Z 4] 0 + sum_at css 0)%F).
Proof.
  intros run. unfold run.
  assert (∃ r, run = Ok r ∧ ¬ in_subgroup r.2) as [[[ki Ki] K] [Hr HK]].
  { eexists. split; [vm_compute; reflexivity|]. vm_compute. tauto. }
  destruct (dkg_round_2_sound (CL:=cofactor_curve_laws) (CF:=cofactor_curve_cofactor) SmallOrder.self model_network
    SmallOrder.input_y SmallOrder.input_v ki Ki K [f_of_Z 12; f_of_Z 4])
    as (css & _ & _ & Hki & _ & HcK & _).
  - vm_compute. lia.
  - vm_compute. discriminate.
  - vm_compute. reflexivity.
  - vm_compute. reflexivity.
  - vm_compute. reflexivity.
  - intros k v _. apply Forall_forall. intros P _. exact (cofactor_decoded P).
  - exact Hr.
  - exists ki, Ki, K, css. split_and!; [exact Hr|exact HK|exact Hki|exact HcK].
Defined.
