(* ===== verification/ConcreteCurves.v ===== *)
(** * The two curves (crates/cryptography/src/curve.rs, twisted_conversion.rs)

    What the crate itself computes for [Secp256k1] and [BabyJubJub]: the
    hash-to-curve loops, the point and scalar encodings, the conversions
    between the two representations of the scalar field, and the constants.
    The point arithmetic of [k256] and [ark_ec] is a parameter. *)
From Stdlib Require Import ZArith Lia Znumtheory.
From stdpp Require Import base list strings.
From S2P Require Import Prelude PrimeField Curve ModelCurve.

(** Little-endian values, as [serialize_compressed] writes big integers. *)
Definition le_val (l : list Z) : Z := be_val (reverse l).
Definition le_bytes (n : nat) (z : Z) : list Z := reverse (be_bytes n z).

(** ** Decimal strings ([BigUint::to_string], [PrimeField::from_str_vartime]) *)
Fixpoint dec_digits_go (n : nat) (z : Z) : list Z :=
  match n with
  | O => []
  | S n => if z <? 10 then [z] else dec_digits_go n (z / 10) ++ [z mod 10]
  end.
Definition dec_digits (z : Z) : list Z := dec_digits_go (S (Z.to_nat (Z.log2 z))) z.

Definition from_str_vartime {F} `{!PrimeField F} (s : list Z) : option F :=
  match s with
  | [] => None
  | [0] => Some 0%F
  | 0 :: _ => None
  | _ => Some (foldl (λ res c, res * f_of_Z 10 + f_of_Z c)%F 0%F s)
  end.

Lemma dec_digits_go_val n z : 0 ≤ z < 2 ^ Z.of_nat n →
  foldl (λ r c, r * 10 + c) 0 (dec_digits_go n z) = z.
Proof.
  revert z. induction n as [|n IH]; intros z Hz; cbn [dec_digits_go].
  - change (2 ^ Z.of_nat 0) with 1 in Hz. simpl. lia.
  - rewrite Nat2Z.inj_succ, Z.pow_succ_r in Hz by lia.
    destruct (Z.ltb_spec z 10); [done|].
    pose proof (Z.div_mod z 10). pose proof (Z.mod_pos_bound z 10).
    rewrite foldl_snoc, IH by lia. lia.
Qed.

(** The digits of [z], read back, are [z]; the first is zero only for [0]. *)
Lemma dec_digits_val z : 0 ≤ z → foldl (λ r c, r * 10 + c) 0 (dec_digits z) = z.
Proof.
  intros Hz. apply dec_digits_go_val. split; [done|].
  destruct (decide (z = 0)) as [->|]; [done|]. pose proof (Z.log2_nonneg z).
  rewrite Nat2Z.inj_succ, Z2Nat.id by done. apply Z.log2_spec. lia.
Qed.

Lemma dec_digits_head n z : 0 < z < 2 ^ Z.of_nat n →
  ∃ d l, dec_digits_go n z = d :: l ∧ 0 < d < 10.
Proof.
  revert z. induction n as [|n IH]; intros z Hz; cbn [dec_digits_go].
  - change (2 ^ Z.of_nat 0) with 1 in Hz. lia.
  - rewrite Nat2Z.inj_succ, Z.pow_succ_r in Hz by lia. destruct (Z.ltb_spec z 10).
    + exists z, []. split; [done|lia].
    + pose proof (Z.div_mod z 10). pose proof (Z.mod_pos_bound z 10).
      destruct (IH (z / 10)) as (d & l & -> & Hd); [lia|].
      exists d, (l ++ [z mod 10]). done.
Qed.

Section FromStr.
Context {F : Type} `{!PrimeField F}.

Lemma foldl_of_Z l r : foldl (λ res c, res * f_of_Z 10 + f_of_Z c)%F (f_of_Z r : F) l
  = f_of_Z (foldl (λ r c, r * 10 + c) r l).
Proof.
  revert r. induction l as [|c l IH]; intros r; simpl; [done|]. rewrite <- IH. f_equal.
  apply f_to_Z_inj. rewrite f_to_Z_add, f_to_Z_mul, !f_to_of.
  by rewrite <- Zmult_mod, <- Zplus_mod.
Qed.

(** Reading the decimal digits of [z] gives the residue of [z]. *)
Lemma from_str_dec_digits z : 0 ≤ z → from_str_vartime (dec_digits z) = Some (f_of_Z z : F).
Proof.
  intros Hz. assert (f_of_Z 0 = (0%F : F)) as H0.
  { apply f_to_Z_inj. rewrite f_to_of, f_to_Z_zero. apply Z.mod_0_l.
    pose proof (f_modulus_gt1 (F:=F)). lia. }
  destruct (decide (z = 0)) as [->|Hnz]; [by cbn; rewrite H0|].
  pose proof (dec_digits_val z Hz) as Hval. unfold dec_digits in *.
  destruct (dec_digits_head (S (Z.to_nat (Z.log2 z))) z) as (d & l & Hd & Hr).
  { pose proof (Z.log2_nonneg z). rewrite Nat2Z.inj_succ, Z2Nat.id by done.
    split; [lia|]. apply Z.log2_spec. lia. }
  rewrite Hd in *. unfold from_str_vartime. destruct d as [|d|d]; [lia| |lia].
  rewrite <- H0, foldl_of_Z. by rewrite Hval.
Qed.
End FromStr.

(** Both hash-to-curve loops have the same shape: try 1024 counters, return the
    first success. *)
Lemma search_hash_spec {P : Type} (round : Z → option (outcome Error P)) (try : Z → option P) :
  (∀ acc, round acc = Ok <$> try acc) →
  let r := match search 1024 round with
           | Some r => r
           | None => Err ExtremelyRareErrorInputUnhashableToCurve
           end in
  (∀ p, r = Ok p ↔
    ∃ n, 0 ≤ n < 1024 ∧ try n = Some p ∧ ∀ j, 0 ≤ j < n → try j = None) ∧
  (r = Err ExtremelyRareErrorInputUnhashableToCurve ↔ ∀ j, 0 ≤ j < 1024 → try j = None) ∧
  r ≠ Panic.
Proof.
  intros Hround. cbn zeta.
  assert (∀ j, round j = None → try j = None) as Hnone.
  { intros j. rewrite Hround. apply fmap_None. }
  destruct (search _ _) as [r|] eqn:Hs.
  - apply search_Some in Hs as (n & Hn & Hr & Hmin).
    rewrite Hround in Hr. apply fmap_Some in Hr as (q & Hq & ->).
    split; [|split; [split; [done|]|done]].
    + intros p. split; [intros [= ->]; eauto 10|]. intros (n' & Hn' & Hp & Hm).
      destruct (Z.lt_trichotomy n n') as [Hlt|[<-|Hlt]].
      * rewrite Hm in Hq by lia. done.
      * congruence.
      * rewrite Hnone in Hp by (apply Hmin; lia). done.
    + intros Hall. rewrite Hall in Hq by done. done.
  - rewrite search_None in Hs.
    split; [|split; [split; auto|done]].
    intros p. split; [done|]. intros (n & Hn & Hp & _). rewrite Hnone in Hp by auto. done.
Qed.

(** ** secp256k1 *)
Module Secp256k1.

(** [SECP256K1_P]. *)
Definition SECP256K1_P : list Z :=
  replicate 27 255 ++ [254; 255; 255; 252; 47].

(** [Curve::FIELD_MODULUS_BE] of [Secp256k1]. *)
Definition FIELD_MODULUS_BE : list Z :=
  replicate 15 255 ++ [254; 186; 174; 220; 230; 175; 72; 160; 59; 191; 210; 94; 140; 208; 54; 65; 65].

(** [#[PrimeFieldModulus]] of [F256k1] (lib.rs). *)
Definition F256k1_modulus : Z :=
  115792089237316195423570985008687907852837564279074904382605163141518161494337.

(** The [k256] crate: SEC1 parsing and decompression. *)
Class K256 := {
  AffinePoint : Type;
  EncodedPoint : Type;
  affine_eq_dec :: EqDecision AffinePoint;
  EncodedPoint_from_bytes : list Z → option EncodedPoint;
  EncodedPoint_as_bytes : EncodedPoint → list Z;
  from_encoded_point : EncodedPoint → option AffinePoint;
  to_encoded_point : AffinePoint → bool → EncodedPoint
}.

Section Ops.
Context `{K : K256} `{HH : Hashes}.

(** [PointTrait::is_on_curve]: encode without compression and decode again. *)
Definition is_on_curve (self : AffinePoint) : bool :=
  let encoded := to_encoded_point self false in
  match from_encoded_point encoded with
  | Some p => bool_decide (p = self)
  | None => false
  end.

Definition is_in_subgroup_assuming_on_curve (self : AffinePoint) : bool := true.

Definition encode (self : AffinePoint) : list Z :=
  EncodedPoint_as_bytes (to_encoded_point self true).

Definition from_encoded (encoded : list Z) : outcome Error AffinePoint :=
  ep ← ok_or (EncodedPoint_from_bytes encoded) InvalidInput;
  match from_encoded_point ep with
  | Some p => Ok p
  | None => Err (Other "Failed to parse EncodedPoint as SEC1-encoded AffinePoint")
  end.

(** The 33 bytes built in one round of [hash_to_curve]: tag, padding and
    x-coordinate. *)
Definition candidate (msg : list Z) (acc : Z) : outcome Error (list Z) :=
  let concatted := be_bytes 2 acc ++ msg in
  let digest := hash512 concatted in
  first ← ok_or (head (hash256 concatted)) InvalidInput;
  let deterministic_random_bit := first mod 2 in
  let xcoord := be_val digest mod be_val SECP256K1_P in
  let xcoord_vec := to_bytes_be xcoord in
  if (32 <? length xcoord_vec)%nat then Panic else
  let bytes_under := (32 - length xcoord_vec)%nat in
  Ok ((deterministic_random_bit + 2) :: replicate bytes_under 0 ++ xcoord_vec).

(** One round: [None] continues the loop. *)
Definition hash_to_curve_round (msg : list Z) (acc : Z) : option (outcome Error AffinePoint) :=
  match candidate msg acc with
  | Ok encoded_point =>
      match EncodedPoint_from_bytes encoded_point with
      | None => Some (Err UnknownError)
      | Some encoded =>
          match from_encoded_point encoded with
          | Some p => if is_on_curve p && is_in_subgroup_assuming_on_curve p
                      then Some (Ok p) else None
          | None => None
          end
      end
  | Err e => Some (Err e)
  | Panic => Some Panic
  end.

Definition hash_to_curve (msg : list Z) : outcome Error AffinePoint :=
  match search 1024 (hash_to_curve_round msg) with
  | Some r => r
  | None => Err ExtremelyRareErrorInputUnhashableToCurve
  end.

Definition hash_from_curve (point : AffinePoint) : Z :=
  be_val (hash512 (encode point)) mod be_val FIELD_MODULUS_BE.
End Ops.

(** *** Scalars *)
Section Scalars.
Context {S F : Type} `{!PrimeField S} `{!PrimeField F}.

Definition mul_inv (s : S) : outcome Error (option S) := Ok (f_invert s).

Definition from_biguint_vartime (b : Z) : outcome Error S :=
  ok_or (from_str_vartime (dec_digits b)) InvalidInput.

(** [FieldBytes::from_slice] panics on any length but 32. *)
Definition scalar_from_bytes (bytes : list Z) : outcome Error S :=
  if negb (length bytes =? 32)%nat then Panic else
  if be_val bytes <? f_modulus (F:=S) then Ok (f_of_Z (be_val bytes)) else Err InvalidInput.

Definition scalar_to_bytes (s : S) : list Z := be_bytes 32 (f_to_Z s).

(** [F256k1::from_repr] on 40 big-endian bytes. *)
Definition from_repr (b : list Z) : option F :=
  if be_val b <? f_modulus (F:=F) then Some (f_of_Z (be_val b)) else None.

(** [impl From<Scalar> for F256k1]. *)
Definition field_of_scalar (value : S) : outcome Error F :=
  let as_be_bytes := scalar_to_bytes value in
  let as_40_be_bytes := replicate (40 - length as_be_bytes) 0 ++ as_be_bytes in
  unwrap (from_repr as_40_be_bytes).

(** [impl From<F256k1> for Scalar]. *)
Definition scalar_of_field (value : F) : outcome Error S :=
  let as_be_bytes := be_bytes 40 (f_to_Z value) in
  unwrap (from_str_vartime (dec_digits (be_val as_be_bytes))).

(** The two conversions succeed on every input and keep the number. *)
Lemma field_of_scalar_Ok (s : S) : f_modulus (F:=S) = f_modulus (F:=F) →
  f_modulus (F:=S) ≤ 256 ^ 32 → field_of_scalar s = Ok (f_of_Z (f_to_Z s)).
Proof.
  intros Hm Hle. unfold field_of_scalar, scalar_to_bytes, from_repr.
  rewrite be_val_zeros_app, be_val_bytes. pose proof (f_to_Z_range s) as Hs.
  rewrite Z.mod_small by (change (Z.of_nat 32) with 32; lia).
  destruct (Z.ltb_spec (f_to_Z s) (f_modulus (F:=F))); [done|lia].
Qed.

Lemma scalar_of_field_Ok (x : F) : f_modulus (F:=F) ≤ 256 ^ 32 →
  scalar_of_field x = Ok (f_of_Z (f_to_Z x)).
Proof.
  intros Hle. unfold scalar_of_field. rewrite be_val_bytes. pose proof (f_to_Z_range x).
  assert (256 ^ 32 < 256 ^ Z.of_nat 40) by (vm_compute; reflexivity).
  rewrite Z.mod_small, from_str_dec_digits by lia. done.
Qed.

(** The conversions between [k256::Scalar] and the field [F256k1] (through
    forty big-endian bytes in one direction, through a decimal string in the
    other) never panic and are inverse to each other, when both are fields of the
    same modulus of at most 32 bytes. *)
Theorem scalar_field_conversions (s : S) (x : F) :
  f_modulus (F:=S) = f_modulus (F:=F) → f_modulus (F:=S) ≤ 256 ^ 32 →
  (y ← field_of_scalar s; scalar_of_field y) = Ok s ∧
  (t ← scalar_of_field x; field_of_scalar t) = Ok x.
Proof.
  intros Hm Hle. rewrite field_of_scalar_Ok, scalar_of_field_Ok by (done || lia).
  cbn [mbind outcome_bind]. rewrite scalar_of_field_Ok, field_of_scalar_Ok by (done || lia).
  pose proof (f_modulus_gt1 (F:=S)). pose proof (f_to_Z_range s). pose proof (f_to_Z_range x).
  split; f_equal; apply f_to_Z_inj; rewrite !f_to_of, Hm, Z.mod_mod, Z.mod_small; auto with lia.
Qed.
End Scalars.

(** *** Hashing to the curve *)
Class K256Laws (K : K256) : Prop := {
  (** SEC1: a compressed encoding (tag 2 or 3 and 32 bytes) always parses. *)
  sec1_compressed tag x : (tag = 2 ∨ tag = 3) → length x = 32%nat →
    is_Some (EncodedPoint_from_bytes (tag :: x))
}.

Section HashToCurve.
Context `{K : K256} {KL : K256Laws K} `{HH : Hashes}.

(** The x-coordinate and the SEC1 tag tried at counter [acc]. *)
Definition try_x (msg : list Z) (acc : Z) : Z :=
  be_val (hash512 (be_bytes 2 acc ++ msg)) mod be_val SECP256K1_P.
Definition try_tag (msg : list Z) (acc : Z) : Z :=
  match hash256 (be_bytes 2 acc ++ msg) with b :: _ => b mod 2 + 2 | [] => 2 end.
Definition try_point (msg : list Z) (acc : Z) : option AffinePoint :=
  p ← EncodedPoint_from_bytes (try_tag msg acc :: be_bytes 32 (try_x msg acc))
      ≫= from_encoded_point;
  if is_on_curve p then Some p else None.

Lemma try_x_range msg acc : 0 ≤ try_x msg acc < 256 ^ Z.of_nat 32.
Proof.
  assert (0 < be_val SECP256K1_P < 256 ^ Z.of_nat 32) by (vm_compute; split; reflexivity).
  pose proof (Z.mod_pos_bound (be_val (hash512 (be_bytes 2 acc ++ msg)))
    (be_val SECP256K1_P) ltac:(lia)). unfold try_x. lia.
Qed.

Lemma secp_candidate_Ok msg acc :
  candidate msg acc = Ok (try_tag msg acc :: be_bytes 32 (try_x msg acc)).
Proof.
  unfold candidate, try_tag. pose proof (hash256_length (be_bytes 2 acc ++ msg)) as Hl.
  destruct (hash256 (be_bytes 2 acc ++ msg)) as [|b l]; [done|].
  cbn [head ok_or mbind outcome_bind]. pose proof (try_x_range msg acc) as Hr.
  fold (try_x msg acc).
  pose proof (to_bytes_be_length (try_x msg acc) 32 ltac:(lia) Hr).
  destruct (Nat.ltb_spec 32 (length (to_bytes_be (try_x msg acc)))); [lia|].
  by rewrite (pad_to_bytes_be 32) by (auto; lia).
Qed.

Lemma secp_hash_to_curve_round_eq msg acc :
  hash_to_curve_round msg acc = Ok <$> try_point msg acc.
Proof.
  unfold hash_to_curve_round, try_point. rewrite secp_candidate_Ok.
  destruct (sec1_compressed (try_tag msg acc) (be_bytes 32 (try_x msg acc))) as [e ->].
  - unfold try_tag. case_match; [auto|]. pose proof (Z.mod_pos_bound z 2). lia.
  - apply be_bytes_length.
  - cbn. destruct (from_encoded_point e) as [p|]; [|done]. cbn.
    by destruct (is_on_curve p).
Qed.

(** [Secp256k1::hash_to_curve] never panics; it returns the point decoded
    from the SEC1 encoding of (hash512(n ‖ m) mod p, hash256(n ‖ m) mod 2) for the
    least 16-bit counter n below 1024 at which that decodes to a point on the
    curve, and its "extremely rare" error exactly when there is no such counter. *)
Theorem secp_hash_to_curve_spec (msg : list Z) :
  (∀ p, hash_to_curve msg = Ok p ↔
    ∃ n, 0 ≤ n < 1024 ∧ try_point msg n = Some p ∧ ∀ j, 0 ≤ j < n → try_point msg j = None) ∧
  (hash_to_curve msg = Err ExtremelyRareErrorInputUnhashableToCurve ↔
    ∀ j, 0 ≤ j < 1024 → try_point msg j = None) ∧
  hash_to_curve msg ≠ Panic.
Proof. apply search_hash_spec. intros. apply secp_hash_to_curve_round_eq. Qed.
End HashToCurve.
End Secp256k1.

(** ** BabyJubJub *)
Module BabyJubJub.

(** [BABYJUBJUB_P]: the base field. *)
Definition BABYJUBJUB_P : list Z :=
  [48; 100; 78; 114; 225; 49; 160; 41; 184; 80; 69; 182; 129; 129; 88; 93;
   40; 51; 232; 72; 121; 185; 112; 145; 67; 225; 245; 147; 240; 0; 0; 1].

(** [Curve::FIELD_MODULUS_BE] of [BabyJubJub], byte for byte. *)
Definition FIELD_MODULUS_BE : list Z :=
  [255; 255; 255; 255; 255; 255; 255; 255; 255; 255; 255; 255; 255; 255; 255; 254;
   186; 174; 220; 230; 175; 72; 160; 59; 191; 210; 94; 140; 208; 54; 65; 65].

(** [#[PrimeFieldModulus]] of [BABYJUBJUB]: the order of the subgroup. *)
Definition BABYJUBJUB_modulus : Z :=
  2736030358979909402780800718157159386076813972158567259200215660948447373041.

(** The coordinates of [BABYJUB_BASE_POINT] in twisted form. *)
Definition base_point_twisted : Z * Z :=
  (5299619240641551281634865583518297030282874472190772894086521144482721001553,
   16950150798460657717958625567821834550301663161624707787222815936182638968203).

(** twisted_conversion.rs: [SQRT_A], [SQRT_A_INV] and the two maps, on
    coordinates modulo [BABYJUBJUB_P]. *)
Definition SQRT_A : Z :=
  7214280148105020021932206872019688659210616427216992810330019057549499971851.
Definition SQRT_A_INV : Z :=
  2957874849018779266517920829765869116077630550401372566248359756137677864698.
Definition twisted_to_edwards (P : Z * Z) : Z * Z := (P.1 * SQRT_A mod be_val BABYJUBJUB_P, P.2).
Definition edwards_to_twisted (P : Z * Z) : Z * Z := (P.1 * SQRT_A_INV mod be_val BABYJUBJUB_P, P.2).
Definition BABYJUB_BASE_POINT : Z * Z := twisted_to_edwards base_point_twisted.

(** The [ark_ec] crate on [Affine<EdwardsConfig>]. A field element is given by
    its four limbs read as one integer, as the code constructs it with
    [Fp(BigInt, PhantomData)]. *)
Class Ark := {
  Affine : Type;
  ark_is_on_curve : Affine → bool;
  is_in_correct_subgroup_assuming_on_curve : Affine → bool;
  (** [AffineRepr::xy]: [None] for the zero point. *)
  xy : Affine → option (Z * Z);
  get_xs_from_y_unchecked : Z → option (Z * Z);
  get_point_from_y_unchecked : Z → bool → option Affine
}.

(** [EncodedBabyJubJubPoint] and its [bincode] form: one byte for the flag,
    the length as eight little-endian bytes, the bytes. *)
Record EncodedBabyJubJubPoint := { greatest : bool; y : list Z }.

Definition bincode_serialize (e : EncodedBabyJubJubPoint) : list Z :=
  (if greatest e then 1 else 0) :: le_bytes 8 (Z.of_nat (length (y e))) ++ y e.

Definition bincode_deserialize (b : list Z) : option EncodedBabyJubJubPoint :=
  match b with
  | flag :: rest =>
      if (length rest <? 8)%nat then None else
      let n := le_val (take 8 rest) in
      let body := drop 8 rest in
      if Z.of_nat (length body) <? n then None else
      if flag =? 0 then Some {| greatest := false; y := take (Z.to_nat n) body |}
      else if flag =? 1 then Some {| greatest := true; y := take (Z.to_nat n) body |}
      else None
  | [] => None
  end.

(** [BigInt::<4>::deserialize_compressed]: the first 32 bytes. *)
Definition deserialize_limbs (b : list Z) : option Z :=
  if (length b <? 32)%nat then None else Some (le_val (take 32 b)).

Section Ops.
Context `{A : Ark} `{HH : Hashes}.

Definition encode (self : Affine) : outcome Error (list Z) :=
  '(x, y) ← unwrap (xy self);
  options ← unwrap (get_xs_from_y_unchecked y);
  let ser := le_bytes 32 y in
  if options.1 =? x then Ok (bincode_serialize {| greatest := false; y := ser |})
  else if options.2 =? x then Ok (bincode_serialize {| greatest := true; y := ser |})
  else Panic.

Definition from_encoded (encoded : list Z) : outcome Error Affine :=
  encoded ← unwrap (bincode_deserialize encoded);
  y ← ok_or (deserialize_limbs (y encoded)) InvalidInput;
  match get_point_from_y_unchecked y (greatest encoded) with
  | Some p => if ark_is_on_curve p then Ok p else Err InvalidInput
  | None => Err InvalidInput
  end.

(** The struct serialized in one round of [hash_to_curve]. *)
Definition candidate (msg : list Z) (acc : Z) : outcome Error EncodedBabyJubJubPoint :=
  let concatted := be_bytes 2 acc ++ msg in
  let digest := hash512 concatted in
  first ← ok_or (head (hash256 concatted)) InvalidInput;
  let deterministic_random_bit := first mod 2 =? 0 in
  let xcoord := be_val digest mod be_val BABYJUBJUB_P in
  let xcoord_vec := to_bytes_be xcoord in
  if (32 <? length xcoord_vec)%nat then Panic else
  let bytes_under := (32 - length xcoord_vec)%nat in
  Ok {| greatest := deterministic_random_bit; y := replicate bytes_under 0 ++ xcoord_vec |}.

Definition hash_to_curve_round (msg : list Z) (acc : Z) : option (outcome Error Affine) :=
  match candidate msg acc with
  | Ok c =>
      match from_encoded (bincode_serialize c) with
      | Ok pt => if ark_is_on_curve pt && is_in_correct_subgroup_assuming_on_curve pt
                 then Some (Ok pt) else None
      | Err _ => None
      | Panic => Some Panic
      end
  | Err e => Some (Err e)
  | Panic => Some Panic
  end.

Definition hash_to_curve (msg : list Z) : outcome Error Affine :=
  match search 1024 (hash_to_curve_round msg) with
  | Some r => r
  | None => Err ExtremelyRareErrorInputUnhashableToCurve
  end.

Definition hash_from_curve (point : Affine) : outcome Error Z :=
  bs ← encode point;
  Ok (be_val (hash512 bs) mod be_val FIELD_MODULUS_BE).
End Ops.

(** *** Scalars ([Fr]) *)
Section Scalars.
Context {Fr : Type} `{!PrimeField Fr}.

(** [CtOption::new(self.inverse().unwrap(), ...)]: the unwrap comes first. *)
Definition mul_inv (s : Fr) : outcome Error (option Fr) :=
  inverse ← unwrap (f_invert s);
  Ok (if bool_decide (s = 0%F) then None else Some inverse).

(** [Fr::from(random::<u32>())]; [r] is the random [u32]. *)
Definition rand_vartime (r : Z) : Fr := f_of_Z (u32 r).

Definition from_biguint_vartime (b : Z) : outcome Error Fr := Ok (f_of_Z b).

(** [impl From<Fr> for BABYJUBJUB] and back: thirty-two big-endian bytes padded to
    forty and cut to thirty-two again; a decimal string. *)
Context {F : Type} `{!PrimeField F}.
Definition field_of_fr (value : Fr) : outcome Error F :=
  let as_be_bytes := be_bytes 32 (f_to_Z value) in
  let as_40_be_bytes := replicate (40 - length as_be_bytes) 0 ++ as_be_bytes in
  let last_32_bytes := drop (length as_40_be_bytes - 32) as_40_be_bytes in
  unwrap (Secp256k1.from_repr last_32_bytes).

Definition fr_of_field (value : F) : outcome Error Fr :=
  unwrap (from_str_vartime (dec_digits (be_val (be_bytes 32 (f_to_Z value))))).

Lemma field_of_fr_Ok (s : Fr) : f_modulus (F:=Fr) = f_modulus (F:=F) →
  f_modulus (F:=Fr) ≤ 256 ^ 32 → field_of_fr s = Ok (f_of_Z (f_to_Z s)).
Proof.
  intros Hm Hle. unfold field_of_fr, Secp256k1.from_repr.
  rewrite length_app, length_replicate, be_bytes_length.
  change (40 - 32 + 32 - 32)%nat with (length (replicate (40 - 32) 0)).
  rewrite drop_app_length, be_val_bytes. pose proof (f_to_Z_range s) as Hs.
  rewrite Z.mod_small by (change (Z.of_nat 32) with 32; lia).
  destruct (Z.ltb_spec (f_to_Z s) (f_modulus (F:=F))); [done|lia].
Qed.

Lemma fr_of_field_Ok (x : F) : f_modulus (F:=F) ≤ 256 ^ 32 →
  fr_of_field x = Ok (f_of_Z (f_to_Z x)).
Proof.
  intros Hle. unfold fr_of_field. rewrite be_val_bytes. pose proof (f_to_Z_range x).
  change (Z.of_nat 32) with 32. rewrite Z.mod_small, from_str_dec_digits by lia. done.
Qed.
End Scalars.

(** *** [Fr] as it is stored: four limbs in Montgomery form

    [Fr::to_bytes] and [Fr::from_bytes] copy the limbs; [raw] is their value. The
    scalar a raw value stands for is [raw / 2^256]. *)
Definition fr_to_bytes (raw : Z) : list Z := le_bytes 32 raw.
Definition fr_from_bytes (b : list Z) : outcome Error Z := ok_or (deserialize_limbs b) InvalidInput.

(** *** Theorems *)
Lemma le_val_bytes n z : le_val (le_bytes n z) = z mod 256 ^ Z.of_nat n.
Proof. unfold le_val, le_bytes. by rewrite reverse_involutive, be_val_bytes. Qed.

Lemma le_bytes_length n z : length (le_bytes n z) = n.
Proof. unfold le_bytes. by rewrite length_reverse, be_bytes_length. Qed.

Lemma deserialize_limbs_le raw : 0 ≤ raw < 256 ^ 32 →
  deserialize_limbs (le_bytes 32 raw) = Some raw.
Proof.
  intros Hr. unfold deserialize_limbs. rewrite le_bytes_length. cbn [Nat.ltb Nat.leb].
  rewrite take_ge by (rewrite le_bytes_length; lia).
  by rewrite le_val_bytes, Z.mod_small.
Qed.

Lemma bincode_roundtrip (e : EncodedBabyJubJubPoint) :
  Z.of_nat (length (y e)) < 2 ^ 64 → bincode_deserialize (bincode_serialize e) = Some e.
Proof.
  destruct e as [g l]; cbn [y greatest]. intros Hl. unfold bincode_serialize, bincode_deserialize.
  cbn [y greatest]. rewrite length_app, le_bytes_length.
  destruct (Nat.ltb_spec (8 + length l) 8); [lia|].
  rewrite take_app_le, drop_app_ge, le_bytes_length, Nat.sub_diag, drop_0
    by (rewrite le_bytes_length; lia).
  rewrite take_ge by (rewrite le_bytes_length; lia). rewrite le_val_bytes.
  change (256 ^ Z.of_nat 8) with (2 ^ 64). rewrite Z.mod_small by lia.
  rewrite Z.ltb_irrefl, Nat2Z.id, firstn_all. by destruct g.
Qed.

Class ArkLaws (A : Ark) : Prop := {
  (** The limbs of a coordinate are four words. *)
  xy_range P x y : xy P = Some (x, y) → 0 ≤ x < 256 ^ 32 ∧ 0 ≤ y < 256 ^ 32;
  (** [get_xs_from_y_unchecked] returns the two solutions, and
      [get_point_from_y_unchecked] picks the one the flag names. *)
  xs_from_y P x y : ark_is_on_curve P → xy P = Some (x, y) →
    ∃ x0 x1, get_xs_from_y_unchecked y = Some (x0, x1) ∧ (x = x0 ∨ x = x1) ∧
      get_point_from_y_unchecked y (negb (x0 =? x)) = Some P
}.

Section Laws.
Context `{A : Ark} {AL : ArkLaws A} `{HH : Hashes}.

Lemma from_encoded_serialize g ser yc :
  Z.of_nat (length ser) < 2 ^ 64 → deserialize_limbs ser = Some yc →
  from_encoded (bincode_serialize {| greatest := g; y := ser |}) =
    match get_point_from_y_unchecked yc g with
    | Some p => if ark_is_on_curve p then Ok p else Err InvalidInput
    | None => Err InvalidInput
    end.
Proof.
  intros Hl Hd. unfold from_encoded. rewrite bincode_roundtrip by done.
  cbn [unwrap mbind outcome_bind y greatest]. by rewrite Hd.
Qed.

(** On BabyJubJub, [encode] returns (without panicking) for every point on the
    curve other than zero, and [from_encoded] decodes its result to the same
    point. *)
Theorem babyjubjub_encode_roundtrip (P : Affine) :
  ark_is_on_curve P → is_Some (xy P) →
  ∃ bs, encode P = Ok bs ∧ from_encoded bs = Ok P.
Proof.
  intros Hon [[x yc] Hxy]. unfold encode. rewrite Hxy. cbn [unwrap mbind outcome_bind].
  destruct (xs_from_y P x yc Hon Hxy) as (x0 & x1 & Hxs & Hx & Hpt).
  destruct (xy_range P x yc Hxy) as [_ Hy]. rewrite Hxs. cbn [unwrap mbind outcome_bind fst snd].
  pose proof (from_encoded_serialize (negb (x0 =? x)) (le_bytes 32 yc) yc) as Hdec.
  rewrite le_bytes_length, Hpt, (Is_true_true_1 _ Hon) in Hdec.
  specialize (Hdec ltac:(lia) (deserialize_limbs_le yc Hy)).
  destruct (Z.eqb_spec x0 x) as [He|He].
  - eexists. split; [done|]. by apply Hdec.
  - destruct (Z.eqb_spec x1 x) as [He'|He']; [|naive_solver].
    eexists. split; [done|]. by apply Hdec.
Qed.

(** The encoding tried at counter [acc] of [hash_to_curve]. *)
Definition try_y (msg : list Z) (acc : Z) : Z :=
  be_val (hash512 (be_bytes 2 acc ++ msg)) mod be_val BABYJUBJUB_P.
Definition try_greatest (msg : list Z) (acc : Z) : bool :=
  match hash256 (be_bytes 2 acc ++ msg) with b :: _ => b mod 2 =? 0 | [] => false end.
Definition try_point (msg : list Z) (acc : Z) : option Affine :=
  p ← get_point_from_y_unchecked (le_val (be_bytes 32 (try_y msg acc))) (try_greatest msg acc);
  if ark_is_on_curve p && is_in_correct_subgroup_assuming_on_curve p then Some p else None.

Lemma try_y_range msg acc : 0 ≤ try_y msg acc < 256 ^ Z.of_nat 32.
Proof.
  assert (0 < be_val BABYJUBJUB_P < 256 ^ Z.of_nat 32) by (vm_compute; split; reflexivity).
  pose proof (Z.mod_pos_bound (be_val (hash512 (be_bytes 2 acc ++ msg)))
    (be_val BABYJUBJUB_P) ltac:(lia)). unfold try_y. lia.
Qed.

Lemma bjj_candidate_Ok msg acc :
  candidate msg acc =
    Ok {| greatest := try_greatest msg acc; y := be_bytes 32 (try_y msg acc) |}.
Proof.
  unfold candidate, try_greatest. pose proof (hash256_length (be_bytes 2 acc ++ msg)) as Hl.
  destruct (hash256 (be_bytes 2 acc ++ msg)) as [|b l]; [done|].
  cbn [head ok_or mbind outcome_bind]. pose proof (try_y_range msg acc) as Hr.
  fold (try_y msg acc).
  pose proof (to_bytes_be_length (try_y msg acc) 32 ltac:(lia) Hr).
  destruct (Nat.ltb_spec 32 (length (to_bytes_be (try_y msg acc)))); [lia|].
  by rewrite (pad_to_bytes_be 32) by (auto; lia).
Qed.

Lemma bjj_hash_to_curve_round_eq msg acc :
  hash_to_curve_round msg acc = Ok <$> try_point msg acc.
Proof.
  unfold hash_to_curve_round, try_point. rewrite bjj_candidate_Ok.
  rewrite (from_encoded_serialize _ _ (le_val (be_bytes 32 (try_y msg acc)))).
  2:{ rewrite be_bytes_length. lia. }
  2:{ unfold deserialize_limbs. rewrite be_bytes_length, take_ge; [done|].
      by rewrite be_bytes_length. }
  cbn [mbind option_bind].
  destruct (get_point_from_y_unchecked _ _) as [p|]; [|done]. cbn.
  destruct (ark_is_on_curve p) eqn:Hp; [|done]. cbn. rewrite Hp. cbn.
  by destruct (is_in_correct_subgroup_assuming_on_curve p).
Qed.

(** [BabyJubJub::hash_to_curve] never panics, although [from_encoded] does on
    malformed bytes: it returns the point of the least counter n below 1024 whose
    candidate decodes to a point on the curve and in the subgroup, so every point
    it returns passes both checks, and it fails exactly when there is none. *)
Theorem babyjubjub_hash_to_curve_spec (msg : list Z) :
  (∀ p, hash_to_curve msg = Ok p ↔
    ∃ n, 0 ≤ n < 1024 ∧ try_point msg n = Some p ∧ ∀ j, 0 ≤ j < n → try_point msg j = None) ∧
  (hash_to_curve msg = Err ExtremelyRareErrorInputUnhashableToCurve ↔
    ∀ j, 0 ≤ j < 1024 → try_point msg j = None) ∧
  hash_to_curve msg ≠ Panic.
Proof. apply search_hash_spec. intros. apply bjj_hash_to_curve_round_eq. Qed.
End Laws.

(** Malformed bytes make [BabyJubJub]'s [from_encoded] panic (the [unwrap] of
    [bincode::deserialize]) instead of returning [InvalidInput]; so does encoding
    the zero point when it has no affine coordinates; and the inverse of the zero
    scalar panics instead of being an empty [CtOption]. *)
Theorem babyjubjub_panics `{A : Ark} {Fr} `{!PrimeField Fr} :
  from_encoded [] = Panic ∧ from_encoded (replicate 9 2) = Panic ∧
  (∀ P, xy P = None → encode P = Panic) ∧
  mul_inv (0%F : Fr) = Panic ∧ Secp256k1.mul_inv (0%F : Fr) = Ok None.
Proof.
  repeat split.
  - intros P HP. unfold encode. by rewrite HP.
  - unfold mul_inv, f_invert. by rewrite decide_True.
  - unfold Secp256k1.mul_inv, f_invert. by rewrite decide_True.
Qed.

(** Two byte strings can decode to the same BabyJubJub scalar: [from_bytes]
    inverts [to_bytes] on every stored value, but it accepts any four limbs, also
    those at or above the modulus, which stand for the same residue. *)
Theorem fr_bytes_noncanonical (raw : Z) :
  0 ≤ raw < 2 ^ 256 - BABYJUBJUB_modulus →
  fr_from_bytes (fr_to_bytes raw) = Ok raw ∧
  fr_from_bytes (fr_to_bytes (raw + BABYJUBJUB_modulus)) = Ok (raw + BABYJUBJUB_modulus) ∧
  (raw + BABYJUBJUB_modulus) mod BABYJUBJUB_modulus = raw mod BABYJUBJUB_modulus ∧
  fr_to_bytes (raw + BABYJUBJUB_modulus) ≠ fr_to_bytes raw.
Proof.
  intros Hr. assert (0 < BABYJUBJUB_modulus) by (vm_compute; reflexivity).
  change (2 ^ 256) with (256 ^ 32) in Hr.
  unfold fr_from_bytes, fr_to_bytes. rewrite !deserialize_limbs_le by lia.
  repeat split; [rewrite <- (Z.mul_1_l BABYJUBJUB_modulus) at 1; by rewrite Z.mod_add by lia|].
  intros Heq. apply (f_equal deserialize_limbs) in Heq.
  rewrite !deserialize_limbs_le in Heq by lia. injection Heq. lia.
Qed.

Lemma scale_inverse p a b x : 0 ≤ x < p → a * b mod p = 1 → (x * a mod p) * b mod p = x.
Proof.
  intros Hx Hab. rewrite Zmult_mod_idemp_l, <- Z.mul_assoc, <- Zmult_mod_idemp_r, Hab.
  by rewrite Z.mul_1_r, Z.mod_small.
Qed.

(** The constants are consistent where the protocols need it and inconsistent
    where the documentation promises more: the twisted and untwisted coordinates
    convert into each other, the secp256k1 [FIELD_MODULUS_BE] is the modulus of
    [F256k1], but the BabyJubJub one is not the modulus of [BABYJUBJUB] (it is
    secp256k1's), and a random BabyJubJub scalar is one of only [2^32]. *)
Theorem curve_constants {Fr} `{!PrimeField Fr} :
  (∀ P, 0 ≤ P.1 < be_val BABYJUBJUB_P →
    edwards_to_twisted (twisted_to_edwards P) = P ∧ twisted_to_edwards (edwards_to_twisted P) = P) ∧
  SQRT_A * SQRT_A mod be_val BABYJUBJUB_P = 168700 ∧
  be_val Secp256k1.FIELD_MODULUS_BE = Secp256k1.F256k1_modulus ∧
  be_val FIELD_MODULUS_BE = Secp256k1.F256k1_modulus ∧
  BABYJUBJUB_modulus < be_val FIELD_MODULUS_BE ∧
  (∀ r, ∃ k, 0 ≤ k < 2 ^ 32 ∧ rand_vartime r = (f_of_Z k : Fr)).
Proof.
  split; [|split; [vm_compute; reflexivity|split; [vm_compute; reflexivity|
    split; [vm_compute; reflexivity|split; [vm_compute; reflexivity|]]]]].
  - intros [x yc] Hx. cbn [fst] in Hx. unfold edwards_to_twisted, twisted_to_edwards. cbn [fst snd].
    rewrite !scale_inverse; [done|done|vm_compute; reflexivity|done|vm_compute; reflexivity].
  - intros r. exists (u32 r). split; [apply wrap_range; lia|done].
Qed.
End BabyJubJub.

(** ** The theorems on small instances *)
Module Examples.
Import ModelInstances.

(** Thirty-three bytes with a tag are an encoding; those with an even last byte are
    points. *)
Definition toy_k256 : Secp256k1.K256 := {|
  Secp256k1.AffinePoint := list Z;
  Secp256k1.EncodedPoint := list Z;
  Secp256k1.EncodedPoint_from_bytes b :=
    match b with
    | t :: x => if ((t =? 2) || (t =? 3)) && (length x =? 32)%nat then Some b else None
    | [] => None
    end;
  Secp256k1.EncodedPoint_as_bytes e := e;
  Secp256k1.from_encoded_point e :=
    match last e with Some b => if b mod 2 =? 0 then Some e else None | None => None end;
  Secp256k1.to_encoded_point p _ := p
|}.

Lemma toy_k256_laws : Secp256k1.K256Laws toy_k256.
Proof.
  constructor. intros tag x [-> | ->] Hx; cbn; rewrite Hx; cbn; eauto.
Qed.

(** A point is a y-coordinate and one of the two x-coordinates 0 and 1. *)
Definition toy_ark : BabyJubJub.Ark := {|
  BabyJubJub.Affine := Z * bool;
  BabyJubJub.ark_is_on_curve P := (0 <=? P.1) && (P.1 <? 256 ^ 32);
  BabyJubJub.is_in_correct_subgroup_assuming_on_curve P := P.1 mod 2 =? 0;
  BabyJubJub.xy P :=
    if (0 <=? P.1) && (P.1 <? 256 ^ 32) then Some (if P.2 then 1 else 0, P.1) else None;
  BabyJubJub.get_xs_from_y_unchecked y := Some (0, 1);
  BabyJubJub.get_point_from_y_unchecked y g := Some (y, g)
|}.

Lemma toy_ark_laws : BabyJubJub.ArkLaws toy_ark.
Proof.
  constructor; cbn.
  - intros [u b] x y. cbn [fst snd]. destruct (Z.leb_spec 0 u); [|done].
    destruct (Z.ltb_spec u (256 ^ 32)); [|done]. cbn [andb]. intros [= <- <-].
    split; [|lia]. destruct b; lia.
  - intros [u b] x y _. cbn [fst snd]. case_match; [|done]. intros [= <- <-].
    exists 0, 1. split; [done|]. destruct b; auto.
Qed.

Lemma scalar_field_conversions_witness :
  let s : Z101 := f_of_Z 42 in
  (y ← Secp256k1.field_of_scalar (F:=Z101) s; Secp256k1.scalar_of_field y) = Ok s.
Proof.
  cbn zeta. apply (Secp256k1.scalar_field_conversions (S:=Z101) (F:=Z101) _ 1%F).
  - reflexivity.
  - vm_compute. discriminate.
Defined.

Lemma secp_hash_to_curve_spec_witness :
  @Secp256k1.hash_to_curve toy_k256 _ [8] = Ok (2 :: be_bytes 32 8).
Proof.
  apply (@Secp256k1.secp_hash_to_curve_spec toy_k256 toy_k256_laws).
  exists 0. split; [lia|]. split; [vm_compute; reflexivity|lia].
Defined.

Lemma babyjubjub_encode_roundtrip_witness :
  ∃ bs, @BabyJubJub.encode toy_ark (5, true) = Ok bs ∧
        @BabyJubJub.from_encoded toy_ark bs = Ok (5, true).
Proof.
  apply (@BabyJubJub.babyjubjub_encode_roundtrip toy_ark toy_ark_laws); [done|].
  vm_compute. eauto.
Defined.

Lemma fr_bytes_noncanonical_witness :
  BabyJubJub.fr_from_bytes (BabyJubJub.fr_to_bytes 7) = Ok 7.
Proof.
  apply (BabyJubJub.fr_bytes_noncanonical 7). vm_compute. split; [discriminate|reflexivity].
Defined.
End Examples.
