(* ===== verification/Schnorr.v ===== *)
(** * Schnorr signatures (crates/cryptography/src/schnorrsig.rs) *)
From Stdlib Require Import ZArith Lia Field Zmod.
From stdpp Require Import base list strings.
From S2P Require Import Prelude PrimeField Curve ModelCurve.

Section Schnorr.
Context `{C : Curve} `{HH : Hashes}.

Record SchnorrSig := { R : Point; s : Scalar }.

(** The challenge [h]: the hash of nonce, key and message modulo
    [FIELD_MODULUS_BE], as a scalar. *)
Definition sig_challenge (pubnonce pubkey : Point) (msg : list Z) : outcome Error Scalar :=
  let modulus := be_val FIELD_MODULUS_BE in
  encoded_nonce ← encode pubnonce;
  encoded_key ← encode pubkey;
  let preimg := encoded_nonce ++ encoded_key ++ msg in
  let h := be_val (hash512 preimg) mod modulus in
  unwrap_res (from_biguint_vartime h).

(** [SchnorrSignable::sign]; [nonce] is [Self::rand_vartime()]. *)
Definition sign (nonce : Scalar) (self : Scalar) (msg : list Z) : outcome Error SchnorrSig :=
  let pubnonce := scalar_mul base_point_or_generator nonce in
  let pubkey := scalar_mul base_point_or_generator self in
  h ← sig_challenge pubnonce pubkey msg;
  let s := (nonce + self * h)%F in
  Ok {| R := pubnonce; s := s |}.

(** [SchnorrSignable::verify]. *)
Definition verify (msg : list Z) (pubkey : Point) (sig : SchnorrSig) : outcome Error unit :=
  h ← sig_challenge (R sig) pubkey msg;
  let lhs := scalar_mul base_point_or_generator (s sig) in
  let rhs := add_self (scalar_mul pubkey h) (R sig) in
  if bool_decide (lhs = rhs) then Ok tt else Err InvalidSignature.
End Schnorr.

Section SchnorrFacts.
Context `{C : Curve} {CL : CurveLaws C} `{HH : Hashes}.
Add Field S_field : (f_field_theory (F:=Scalar)).

Lemma sig_challenge_total X Y msg :
  in_subgroup X → X ≠ ZERO → in_subgroup Y → Y ≠ ZERO → ∃ h, sig_challenge X Y msg = Ok h.
Proof.
  intros HX HX0 HY HY0. unfold sig_challenge.
  pose proof (encode_total X HX HX0). pose proof (encode_total Y HY HY0).
  destruct (encode X) as [ex| |]; [|done..]. destruct (encode Y) as [ey| |]; [|done..].
  cbn [mbind outcome_bind].
  rewrite from_biguint_val by (apply Z.mod_pos_bound, field_modulus_pos). by eexists.
Qed.

(** Acceptance, on points given by their discrete logarithms. *)
Lemma verify_dlog msg x r sg h :
  sig_challenge (scalar_mul G r) (scalar_mul G x) msg = Ok h →
  verify msg (scalar_mul G x) {| R := scalar_mul G r; s := sg |} = Ok tt ↔ sg = (r + x * h)%F.
Proof.
  intros Hh. unfold verify. cbn [R s]. rewrite Hh. cbn [mbind outcome_bind].
  rewrite smul_mul, <- smul_add by auto with subgroup. case_bool_decide as Heq.
  - apply smul_base_inj in Heq. split; [|done]. intros _. rewrite Heq. ring.
  - split; [done|]. intros ->. destruct Heq. apply smul_eq. ring.
Qed.

Lemma sign_Ok nonce x msg sg :
  sign nonce x msg = Ok sg →
  ∃ h, sig_challenge (scalar_mul G nonce) (scalar_mul G x) msg = Ok h ∧
       sg = {| R := scalar_mul G nonce; s := (nonce + x * h)%F |}.
Proof. unfold sign. intros. inv_ok. eauto. Qed.

Lemma sign_total nonce x msg : nonce ≠ 0%F → x ≠ 0%F → ∃ sg, sign nonce x msg = Ok sg.
Proof.
  intros Hn Hx. unfold sign.
  destruct (sig_challenge_total (scalar_mul G nonce) (scalar_mul G x) msg) as [h ->];
    auto using smul_nonzero, base_nonzero, sub_base with subgroup. by eexists.
Qed.

Lemma sign_verify nonce x msg sg :
  sign nonce x msg = Ok sg → verify msg (scalar_mul G x) sg = Ok tt.
Proof. intros (h & Hh & ->)%sign_Ok. by apply (verify_dlog _ _ _ _ h). Qed.
End SchnorrFacts.

Section SchnorrClaims.
Context `{C : Curve} {CL : CurveLaws C} `{HH : Hashes}.
Add Field S_field2 : (f_field_theory (F:=Scalar)).

(** Signatures are complete and unique: with a nonzero key and nonce, [sign]
    returns a signature that [verify] accepts under the signer's public key, and
    for that nonce commitment no other response is accepted. *)
Theorem schnorr_sign_verify (nonce x : Scalar) (msg : list Z) :
  nonce ≠ 0%F → x ≠ 0%F →
  ∃ sg, sign nonce x msg = Ok sg ∧ verify msg (scalar_mul G x) sg = Ok tt ∧
    ∀ s', verify msg (scalar_mul G x) {| R := R sg; s := s' |} = Ok tt → s' = s sg.
Proof.
  intros Hn Hx. destruct (sign_total nonce x msg Hn Hx) as [sg Hsg].
  exists sg. split; [done|]. split; [by eapply sign_verify|].
  apply sign_Ok in Hsg as (h & Hh & ->). cbn [R s]. intros s'. by apply verify_dlog.
Qed.

(** A repeated nonce reveals the signing key: two signatures by one key with
    one nonce, on messages whose challenges differ, determine the key as
    [(s1 - s2) / (h1 - h2)]. *)
Theorem schnorr_nonce_reuse (nonce x : Scalar) (m1 m2 : list Z) (sg1 sg2 : SchnorrSig)
    (h1 h2 : Scalar) :
  sign nonce x m1 = Ok sg1 → sign nonce x m2 = Ok sg2 →
  sig_challenge (R sg1) (scalar_mul G x) m1 = Ok h1 →
  sig_challenge (R sg2) (scalar_mul G x) m2 = Ok h2 → h1 ≠ h2 →
  x = ((s sg1 - s sg2) / (h1 - h2))%F.
Proof.
  intros (k1 & Hk1 & ->)%sign_Ok (k2 & Hk2 & ->)%sign_Ok. cbn [R s].
  rewrite Hk1, Hk2. intros [= <-] [= <-] Hne.
  assert (k1 - k2 ≠ 0)%F by (by rewrite f_sub_zero). by field.
Qed.
End SchnorrClaims.

Import ModelInstances.

Lemma schnorr_sign_verify_witness :
  ∃ sg, sign (C:=model_curve) (f_of_Z 17) (f_of_Z 5) [1; 2; 3] = Ok sg ∧
    verify [1; 2; 3] (scalar_mul (Curve:=model_curve) G (f_of_Z 5)) sg = Ok tt.
Proof.
  destruct (schnorr_sign_verify (C:=model_curve) (f_of_Z 17) (f_of_Z 5) [1; 2; 3])
    as (sg & H1 & H2 & _); [vm_compute; done..|]. eauto.
Defined.

Definition model_sig (m : list Z) : SchnorrSig (C:=model_curve) :=
  match sign (C:=model_curve) (f_of_Z 17 : Z101) (f_of_Z 5 : Z101) m with
  | Ok sg => sg | _ => Build_SchnorrSig (C:=model_curve) Zmod.zero Zmod.zero end.
Definition model_challenge (m : list Z) : Scalar (Curve:=model_curve) :=
  match sig_challenge (C:=model_curve) (f_of_Z 17 : Z101) (f_of_Z 5 : Z101) m with
  | Ok h => h | _ => Zmod.zero end.

Lemma schnorr_nonce_reuse_witness :
  (f_of_Z 5 : Scalar (Curve:=model_curve)) =
  ((s (model_sig [3]) - s (model_sig [4])) / (model_challenge [3] - model_challenge [4]))%F.
Proof.
  apply (schnorr_nonce_reuse (C:=model_curve) (f_of_Z 17) (f_of_Z 5) [3] [4]
           (model_sig [3]) (model_sig [4]) (model_challenge [3]) (model_challenge [4]));
    [reflexivity|reflexivity|vm_compute; done..].
Defined.
