(* ===== verification/Encryption.v ===== *)
(** * ElGamal encryption (crates/cryptography/src/encryption.rs)

    [Koblitz]: the map from messages to BabyJubJub points and back.
    [ElGamal]: encryption and decryption over any curve with such a map, and
    ciphertexts whose ephemeral key signs the contract that guards decryption. *)
From Stdlib Require Import ZArith Lia Field Zmod.
From stdpp Require Import base list strings.
From S2P Require Import Prelude PrimeField Curve ModelCurve ConcreteCurves Schnorr.

(** ** The Koblitz map of BabyJubJub *)
Module Koblitz.
Import BabyJubJub.

Definition NUM_BYTES_PADDING : nat := 8.

(** [Fq::from(BigUint)] and [into_bigint]: a coordinate is stored as
    [y * 2^256 mod p]. *)
Abbreviation Fq_modulus := (be_val BABYJUBJUB_P).
Definition MONT_R_INV : Z :=
  9915499612839321149637521777990102151350674507940716049588462388200839649614.
Definition Fq_from (y : Z) : Z := y * 2 ^ 256 mod Fq_modulus.
Definition into_bigint (raw : Z) : Z := raw * MONT_R_INV mod Fq_modulus.

Section Ops.
Context `{A : Ark} `{HH : Hashes}.

(** One round of the search; [None] continues. *)
Definition koblitz_round (bytes : list Z) (acc : Z) : option (outcome Error Affine) :=
  match head (hash256 bytes) with
  | None => Some Panic
  | Some first =>
      let deterministic_random_bit := first mod 2 =? 0 in
      let y := be_bytes 8 acc ++ bytes in
      match get_point_from_y_unchecked (Fq_from (be_val y)) deterministic_random_bit with
      | Some p => if ark_is_on_curve p && is_in_correct_subgroup_assuming_on_curve p
                  then Some (Ok p) else None
      | None => None
      end
  end.

(** [while acc <= (u64::MAX >> 1)]: the counters below [2^63]. *)
Definition koblitz_map (bytes : list Z) : outcome Error Affine :=
  match search (2 ^ 63)%positive (koblitz_round bytes) with
  | Some r => r
  | None => Err InvalidInput
  end.

Definition reverse_koblitz (point : Affine) : outcome Error (list Z) :=
  if negb (ark_is_on_curve point && is_in_correct_subgroup_assuming_on_curve point)
  then Err InvalidInput else
  '(_, y) ← ok_or (xy point) InvalidInput;
  let bigbytes := to_bytes_be (into_bigint y) in
  if (32 <? length bigbytes)%nat then Panic else
  let bytes := replicate (32 - length bigbytes) 0 ++ bigbytes in
  Ok (drop 8 bytes).
End Ops.

(** [get_point_from_y_unchecked] returns a point with that y-coordinate (the zero
    point has no coordinates in [xy]). *)
Class PointFromY (A : Ark) : Prop := {
  point_from_y y g P : get_point_from_y_unchecked y g = Some P →
    ∀ x y', xy P = Some (x, y') → y' = y
}.

Lemma into_bigint_from z : into_bigint (Fq_from z) = z mod Fq_modulus.
Proof.
  unfold into_bigint, Fq_from. rewrite Zmult_mod_idemp_l, <- Z.mul_assoc, <- Zmult_mod_idemp_r.
  replace (2 ^ 256 * MONT_R_INV mod Fq_modulus) with 1 by (vm_compute; reflexivity).
  by rewrite Z.mul_1_r.
Qed.

(** The y-coordinate tried at counter [acc], before reduction. *)
Definition koblitz_y (bytes : list Z) (acc : Z) : Z := acc * 256 ^ 24 + be_val bytes.

Section Facts.
Context `{A : Ark} {PY : PointFromY A} `{HH : Hashes}.

(** A round that finds a point found it at the counter's y-coordinate. *)
Lemma koblitz_round_Ok bytes acc P : length bytes = 24%nat → 0 ≤ acc < 2 ^ 63 →
  koblitz_round bytes acc = Some (Ok P) →
  ∃ g, get_point_from_y_unchecked (Fq_from (koblitz_y bytes acc)) g = Some P ∧
    ark_is_on_curve P = true ∧ is_in_correct_subgroup_assuming_on_curve P = true.
Proof.
  intros Hl Hacc Hr. unfold koblitz_round in Hr.
  destruct (head (hash256 bytes)) as [b|]; [|done].
  rewrite be_val_app, be_val_bytes, Hl, Z.mod_small in Hr by lia.
  destruct (get_point_from_y_unchecked _ _) as [q|] eqn:Hq; [|done].
  case_match eqn:Hb; [|done]. injection Hr as ->. apply andb_true_iff in Hb as [].
  exists (b mod 2 =? 0). done.
Qed.

(** The map returns the point of the first successful counter. *)
Lemma koblitz_map_first bytes P :
  koblitz_map bytes = Ok P ↔
  ∃ acc, 0 ≤ acc < 2 ^ 63 ∧ koblitz_round bytes acc = Some (Ok P) ∧
    ∀ j, 0 ≤ j < acc → koblitz_round bytes j = None.
Proof.
  pose proof (search_Some (koblitz_round bytes) (2 ^ 63) (Ok P)) as Hs.
  change (Z.pos (2 ^ 63)) with (2 ^ 63) in Hs. rewrite <- Hs. unfold koblitz_map.
  destruct (search _ _) as [r|]; [|done]. split; [by intros ->|by intros [= ->]].
Qed.

Lemma reverse_koblitz_Ok P x z : ark_is_on_curve P = true →
  is_in_correct_subgroup_assuming_on_curve P = true →
  xy P = Some (x, Fq_from z) → 0 ≤ z < Fq_modulus →
  reverse_koblitz P = Ok (drop 8 (be_bytes 32 z)).
Proof.
  intros Hon Hsub Hxy Hz. unfold reverse_koblitz. rewrite Hon, Hsub, Hxy.
  cbn [andb negb ok_or mbind outcome_bind]. rewrite into_bigint_from, Z.mod_small by done.
  assert (Fq_modulus < 256 ^ Z.of_nat 32) by (vm_compute; reflexivity).
  pose proof (to_bytes_be_length z 32 ltac:(lia) ltac:(lia)).
  destruct (Nat.ltb_spec 32 (length (to_bytes_be z))); [lia|].
  by rewrite (pad_to_bytes_be 32) by lia.
Qed.
End Facts.

Lemma drop_be_bytes_app l1 l2 : Forall is_byte l1 → Forall is_byte l2 →
  drop (length l1) (be_bytes (length l1 + length l2) (be_val (l1 ++ l2))) = l2.
Proof.
  intros H1 H2. rewrite <- length_app, be_bytes_val by (by apply Forall_app).
  apply drop_app_length.
Qed.

Lemma drop_koblitz_y bytes acc : length bytes = 24%nat → Forall is_byte bytes →
  0 ≤ acc < 2 ^ 63 → drop 8 (be_bytes 32 (koblitz_y bytes acc)) = bytes.
Proof.
  intros Hl Hb Hacc.
  pose proof (drop_be_bytes_app (be_bytes 8 acc) bytes (be_bytes_byte _ _) Hb) as Hd.
  rewrite be_bytes_length, Hl, be_val_app, be_val_bytes, Hl, Z.mod_small in Hd by lia.
  exact Hd.
Qed.

Section Claims.
Context `{A : Ark} {PY : PointFromY A} `{HH : Hashes}.

(** [koblitz_map] returns the point of the first counter whose y-coordinate is
    on the curve and in the subgroup, and [reverse_koblitz] gives the 24 message
    bytes back as long as that counter is below 3486998266802970665 and the point
    is not zero.  From the next counter on the y-coordinate exceeds the modulus,
    which the loop's bound [2^63] does not exclude. *)
Theorem koblitz_roundtrip (bytes : list Z) (acc : Z) (P : Affine) :
  length bytes = 24%nat → Forall is_byte bytes → 0 ≤ acc < 3486998266802970665 →
  koblitz_round bytes acc = Some (Ok P) → (∀ j, 0 ≤ j < acc → koblitz_round bytes j = None) →
  is_Some (xy P) →
  koblitz_map bytes = Ok P ∧ reverse_koblitz P = Ok bytes ∧
  (∀ n, 3486998266802970665 < n < 2 ^ 63 → Fq_modulus < koblitz_y bytes n).
Proof.
  intros Hl Hb Hacc HP Hmin [[x yr] Hxy].
  pose proof (be_val_range bytes Hb) as Hr. rewrite Hl in Hr. change (Z.of_nat 24) with 24 in Hr.
  split; [apply koblitz_map_first; exists acc; repeat split; auto; lia|]. split.
  - destruct (koblitz_round_Ok bytes acc P Hl ltac:(lia) HP) as (g & Hpt & Hon & Hsub).
    pose proof (point_from_y _ _ _ Hpt _ _ Hxy) as ->.
    rewrite (reverse_koblitz_Ok P x (koblitz_y bytes acc)); [|done..|].
    + rewrite drop_koblitz_y by (done || lia). done.
    + assert (3486998266802970665 * 256 ^ 24 < Fq_modulus) by (vm_compute; reflexivity).
      unfold koblitz_y. lia.
  - intros n Hn. assert (Fq_modulus < 3486998266802970666 * 256 ^ 24) by (vm_compute; reflexivity).
    unfold koblitz_y. lia.
Qed.
End Claims.
End Koblitz.

(** ** ElGamal *)
Section ElGamal.
Context `{C : Curve} `{HH : Hashes}.

(** [trait MapCurve]. *)
Class MapCurve := {
  koblitz_map : list Z → outcome Error Point;
  reverse_koblitz : Point → outcome Error (list Z)
}.
Context `{MC : MapCurve}.

Record ElGamalCiphertext := { encrypted_msg : Point; ephemeral_dh_pubkey : Point }.

(** [default_ephem_secret] is [C::Scalar::rand_vartime()]. *)
Definition encrypt_elgamal (default_ephem_secret : Scalar) (msg : list Z)
    (recipient_pubkey : Point) (custom_secret : option Scalar)
    : outcome Error ElGamalCiphertext :=
  msg_as_point ← koblitz_map msg;
  let ephem_secret := default default_ephem_secret custom_secret in
  let ephemeral_dh_pubkey := scalar_mul base_point_or_generator ephem_secret in
  let shared_secret_dh := scalar_mul recipient_pubkey ephem_secret in
  let encrypted_msg := add_self shared_secret_dh msg_as_point in
  Ok {| encrypted_msg := encrypted_msg; ephemeral_dh_pubkey := ephemeral_dh_pubkey |}.

Definition decrypt_elgamal_from_shared_secret (ciphertext : ElGamalCiphertext)
    (shared_secret : Point) : outcome Error (list Z) :=
  reverse_koblitz (add_self (encrypted_msg ciphertext) (neg shared_secret)).

(** [Address] is twenty bytes. *)
Record DecryptionContractSignature := { contract : list Z; sig : SchnorrSig }.

Record ElGamalCiphertextWithSignedConditions := {
  ciphertext : ElGamalCiphertext;
  signed_conditions : DecryptionContractSignature
}.

Definition _verify (self : ElGamalCiphertextWithSignedConditions) : outcome Error unit :=
  verify (contract (signed_conditions self)) (ephemeral_dh_pubkey (ciphertext self))
         (sig (signed_conditions self)).

Definition get_contract_and_pubkey_if_valid (self : ElGamalCiphertextWithSignedConditions)
    : outcome Error (list Z * Point) :=
  _ ← _verify self;
  Ok (contract (signed_conditions self), ephemeral_dh_pubkey (ciphertext self)).

(** [testfn]: the secret is an argument; [rand] and [nonce] are the values the two
    [rand_vartime] calls return. *)
Definition testfn (rand nonce : Scalar) (msg : list Z) (recipient_pubkey : Point)
    (conditions_contract : list Z) (secret : Scalar)
    : outcome Error ElGamalCiphertextWithSignedConditions :=
  ct ← encrypt_elgamal rand msg recipient_pubkey (Some secret);
  signed ← sign nonce secret conditions_contract;
  Ok {| ciphertext := ct;
        signed_conditions := {| contract := conditions_contract; sig := signed |} |}.

(** [encrypt_with_conditions]: the same with a random secret. *)
Definition encrypt_with_conditions (secret rand nonce : Scalar) (msg : list Z)
    (recipient_pubkey : Point) (conditions_contract : list Z)
    : outcome Error ElGamalCiphertextWithSignedConditions :=
  ct ← encrypt_elgamal rand msg recipient_pubkey (Some secret);
  signed ← sign nonce secret conditions_contract;
  Ok {| ciphertext := ct;
        signed_conditions := {| contract := conditions_contract; sig := signed |} |}.
End ElGamal.
Arguments MapCurve : clear implicits.

Section ElGamalClaims.
Context `{C : Curve} {CL : CurveLaws C} `{HH : Hashes} {MC : MapCurve C}.

Lemma encrypt_Ok rand msg pk o M : koblitz_map msg = Ok M →
  encrypt_elgamal rand msg pk o =
    Ok {| encrypted_msg := add_self (scalar_mul pk (default rand o)) M;
          ephemeral_dh_pubkey := scalar_mul G (default rand o) |}.
Proof. intros HM. unfold encrypt_elgamal. by rewrite HM. Qed.

(** Subtracting the Diffie-Hellman secret leaves the message point. *)
Lemma unmask_point X M : in_subgroup X → in_subgroup M → add_self (add_self X M) (neg X) = M.
Proof.
  intros HX HM. rewrite (add_self_comm X M), <- add_self_assoc, add_self_neg, add_zero_r;
    auto with subgroup.
Qed.

(** ElGamal decryption recovers the message: if [msg] maps to a subgroup point
    that maps back to it, then for every recipient key [x] and every ephemeral
    secret (given or random) encryption under [x⋅G] succeeds, and decrypting with
    the shared secret [x] times the ciphertext's ephemeral key returns [msg]. *)
Theorem elgamal_roundtrip (msg : list Z) (M : Point) (x rand : Scalar) (o : option Scalar) :
  koblitz_map msg = Ok M → in_subgroup M → reverse_koblitz M = Ok msg →
  ∃ ct, encrypt_elgamal rand msg (scalar_mul G x) o = Ok ct ∧
    decrypt_elgamal_from_shared_secret ct (scalar_mul (ephemeral_dh_pubkey ct) x) = Ok msg.
Proof.
  intros HM Hsub Hrev. rewrite (encrypt_Ok _ _ _ _ M HM). eexists. split; [done|].
  unfold decrypt_elgamal_from_shared_secret. cbn [encrypted_msg ephemeral_dh_pubkey].
  set (k := default rand o). replace (scalar_mul (scalar_mul G k) x)
    with (scalar_mul (scalar_mul G x) k).
  - rewrite unmask_point by auto with subgroup. done.
  - rewrite !smul_mul by auto with subgroup. apply smul_eq.
    apply f_to_Z_inj. rewrite !f_to_Z_mul. f_equal. lia.
Qed.

(** A conditional ciphertext carries its contract: for a nonzero secret and
    signing nonce, [encrypt_with_conditions] succeeds, the contract's signature
    verifies under the ciphertext's own ephemeral key, and
    [get_contract_and_pubkey_if_valid] returns that contract and that key; the
    recipient still decrypts to the message. *)
Theorem conditional_ciphertext_valid (secret rand nonce x : Scalar) (msg cond : list Z)
    (M : Point) :
  koblitz_map msg = Ok M → in_subgroup M → reverse_koblitz M = Ok msg →
  secret ≠ 0%F → nonce ≠ 0%F →
  ∃ c, encrypt_with_conditions secret rand nonce msg (scalar_mul G x) cond = Ok c ∧
    get_contract_and_pubkey_if_valid c = Ok (cond, scalar_mul G secret) ∧
    decrypt_elgamal_from_shared_secret (ciphertext c)
      (scalar_mul (scalar_mul G x) secret) = Ok msg.
Proof.
  intros HM Hsub Hrev Hs Hn. unfold encrypt_with_conditions.
  rewrite (encrypt_Ok _ _ _ _ M HM). cbn [mbind outcome_bind].
  destruct (sign_total nonce secret cond Hn Hs) as [sg Hsg]. rewrite Hsg.
  cbn [mbind outcome_bind]. eexists. split; [done|]. split.
  - unfold get_contract_and_pubkey_if_valid, _verify. cbn.
    rewrite (sign_verify _ _ _ _ Hsg). done.
  - unfold decrypt_elgamal_from_shared_secret. cbn.
    rewrite unmask_point by auto with subgroup. done.
Qed.
End ElGamalClaims.

(** ** Instances of the claims *)
Import ModelInstances.

Lemma toy_point_from_y : Koblitz.PointFromY Examples.toy_ark.
Proof.
  constructor. intros y g P. cbn. intros [= <-]. cbn. intros x y'. case_match; [|done].
  by intros [= _ <-].
Qed.

Lemma koblitz_roundtrip_witness :
  let P : BabyJubJub.Affine (Ark:=Examples.toy_ark) := (Koblitz.Fq_from 5, true) in
  @Koblitz.koblitz_map Examples.toy_ark _ (replicate 23 0 ++ [5]) = Ok P ∧
  @Koblitz.reverse_koblitz Examples.toy_ark P = Ok (replicate 23 0 ++ [5]).
Proof.
  intros P. destruct (@Koblitz.koblitz_roundtrip Examples.toy_ark toy_point_from_y _
              (replicate 23 0 ++ [5]) 0 P) as (H1 & H2 & _).
  - reflexivity.
  - repeat constructor; discriminate.
  - lia.
  - vm_compute. reflexivity.
  - intros j Hj. lia.
  - vm_compute. eauto.
  - split; [exact H1|exact H2].
Defined.

(** One-byte messages as residues. *)
#[local] Instance toy_map_curve : MapCurve model_curve := {|
  koblitz_map m := Ok (Zmod.of_Z q101 (be_val m) : Point (Curve:=model_curve));
  reverse_koblitz P := Ok (be_bytes 1 (Zmod.unsigned (P : Z101)))
|}.

Lemma elgamal_roundtrip_witness :
  ∃ ct, encrypt_elgamal (C:=model_curve) (f_of_Z 9 : Z101) [42]
          (scalar_mul (Curve:=model_curve) G (f_of_Z 5 : Z101)) None = Ok ct ∧
    decrypt_elgamal_from_shared_secret ct
      (scalar_mul (Curve:=model_curve) (ephemeral_dh_pubkey ct) (f_of_Z 5 : Z101)) = Ok [42].
Proof.
  apply (elgamal_roundtrip (C:=model_curve) [42] (Zmod.of_Z q101 42 : Z101)); vm_compute; done.
Defined.

Lemma conditional_ciphertext_valid_witness :
  ∃ c, encrypt_with_conditions (C:=model_curve) (f_of_Z 9 : Z101) (f_of_Z 3 : Z101)
         (f_of_Z 8 : Z101) [42] (scalar_mul (Curve:=model_curve) G (f_of_Z 5 : Z101))
         (replicate 20 7) = Ok c ∧
    get_contract_and_pubkey_if_valid c
      = Ok (replicate 20 7, scalar_mul (Curve:=model_curve) G (f_of_Z 9 : Z101)).
Proof.
  destruct (conditional_ciphertext_valid (C:=model_curve) (f_of_Z 9 : Z101) (f_of_Z 3 : Z101)
    (f_of_Z 8 : Z101) (f_of_Z 5 : Z101) [42] (replicate 20 7) (Zmod.of_Z q101 42 : Z101))
    as (c & H1 & H2 & _); [vm_compute; done..|]. eauto.
Defined.
