(* ===== verification/NodeSelection.v ===== *)
(** * Node selection (crates/cryptography/src/node_selection.rs)

    The deterministic choice of the nodes that serve a request, and the weighted
    sampling of the elected provers.  [ChaCha8Rng] and the floating-point
    operations are parameters. *)
From Stdlib Require Import ZArith Lia.
From stdpp Require Import base list sets sorting.
From S2P Require Import Prelude.

(** [rand_chacha::ChaCha8Rng] and [rand::Rng::gen_range]. *)
Class Rng := {
  rng : Type;
  from_seed : list Z → rng;
  next_u64 : rng → Z * rng;
  (** [gen_range(BigUint::ZERO..bound)]. *)
  gen_range_big : Z → rng → Z * rng
}.
Class RngLaws (RG : Rng) : Prop := {
  next_u64_range g : 0 ≤ (next_u64 g).1 < 2 ^ 64;
  gen_range_big_range b g : 0 < b → 0 ≤ (gen_range_big b g).1 < b
}.

(** [f64] as the sampling uses it. *)
Class F64 `{Rng} := {
  f64 : Type;
  f64_zero : f64;
  f64_add : f64 → f64 → f64;
  f64_sqrt : f64 → f64;
  f64_ln_1p : f64 → f64;
  f64_le : f64 → f64 → bool;
  f64_eqb : f64 → f64 → bool;
  (** [BigUint::to_f64]. *)
  to_f64 : Z → option f64;
  (** [gen_range(0.0..bound)]; [None] is the panic on an empty or infinite range. *)
  gen_range_f64 : f64 → rng → option (f64 * rng)
}.

(** The documented behaviour the sampling needs to be panic-free: zero equals itself,
    and a range from zero to a nonzero finite sum of nonnegative numbers is not
    empty. *)
Class F64Laws `(F : F64) : Prop := {
  f64_eqb_zero : f64_eqb f64_zero f64_zero = true;
  gen_range_f64_ok t g : f64_eqb t f64_zero = false → is_Some (gen_range_f64 t g)
}.

(** ** Global settings *)
Section Settings.
Context `{F : F64}.

(** [MIN_NODES], [EPSILON], [THRESHOLD]. *)
Record Settings := { MIN_NODES : Z; EPSILON : Z; THRESHOLD : f64 }.

Definition get_min_nodes (g : Settings) : Z := MIN_NODES g.
Definition set_min_nodes (val : Z) (g : Settings) : Settings :=
  {| MIN_NODES := val; EPSILON := EPSILON g; THRESHOLD := THRESHOLD g |}.
Definition get_epsilon (g : Settings) : Z := EPSILON g.
Definition set_epsilon (val : Z) (g : Settings) : Settings :=
  {| MIN_NODES := MIN_NODES g; EPSILON := val; THRESHOLD := THRESHOLD g |}.
Definition get_threshold (g : Settings) : f64 := THRESHOLD g.
Definition set_threshold (val : f64) (g : Settings) : Settings :=
  {| MIN_NODES := MIN_NODES g; EPSILON := EPSILON g; THRESHOLD := val |}.
End Settings.

(** ** Choosing the nodes for a request *)
Section Choice.
Context {E : Type} `{RG : Rng}.

Definition request_seed (epoch_num request_num : Z) : list Z :=
  be_bytes 16 epoch_num ++ be_bytes 16 request_num.

(** One draw: the remainder by the number of nodes left (a panic when none is) and
    [Vec::remove]. *)
Definition draw (g : rng) (node_indices : list Z) : outcome E (Z * list Z * rng) :=
  let '(num, g') := next_u64 g in
  if (length node_indices =? 0)%nat then Panic else
  let node_chosen_idx := Z.to_nat (num mod Z.of_nat (length node_indices)) in
  node_chosen ← unwrap (node_indices !! node_chosen_idx);
  Ok (node_chosen, delete node_chosen_idx node_indices, g').

Fixpoint choose_loop (n : nat) (g : rng) (node_indices nodes_chosen : list Z)
    : outcome E (list Z) :=
  match n with
  | O => Ok nodes_chosen
  | S n =>
      '(node_chosen, rest, g') ← draw g node_indices;
      choose_loop n g' rest (nodes_chosen ++ [u32 node_chosen])
  end.

Definition calc_nodes_to_send_to (epoch_num request_num t_plus_epsilon : Z)
    (node_indices : list Z) : outcome E (list Z) :=
  choose_loop (Z.to_nat t_plus_epsilon) (from_seed (request_seed epoch_num request_num))
    node_indices [].

Fixpoint sent_loop (n : nat) (g : rng) (node_indexes : list Z) (node : Z) : outcome E bool :=
  match n with
  | O => Ok false
  | S n =>
      '(node_chosen, rest, g') ← draw g node_indexes;
      if node_chosen =? node then Ok true else sent_loop n g' rest node
  end.

Definition should_be_sent_to_node (epoch_num request_num t_plus_epsilon node : Z)
    (node_indexes : list Z) : outcome E bool :=
  sent_loop (Z.to_nat t_plus_epsilon) (from_seed (request_seed epoch_num request_num))
    (merge_sort (≤) node_indexes) node.
End Choice.

(** ** Weighted sampling *)
Section Sampling.
Context `{RG : Rng} `{F : !F64} {T : Type} (weight : T → Z).

(** The running sums of the weights. *)
Fixpoint cum_sum_from (acc : Z) (nodes : list T) : list Z :=
  match nodes with
  | [] => []
  | node :: nodes => (acc + weight node) :: cum_sum_from (acc + weight node) nodes
  end.
Definition cum_sum (nodes : list T) : list Z := cum_sum_from 0 nodes.

(** The first index at which the running sum reaches [r]. *)
Fixpoint first_ge (r : Z) (cs : list Z) : option nat :=
  match cs with
  | [] => None
  | c :: cs => if r <=? c then Some O else S <$> first_ge r cs
  end.

Definition weighted_sample (nodes : list T) (g : rng) : option nat * rng :=
  match last (cum_sum nodes) with
  | None => (None, g)
  | Some total_weight =>
      if total_weight =? 0 then (None, g) else
      let '(r, g') := gen_range_big total_weight g in
      (first_ge r (cum_sum nodes), g')
  end.

(** The loop over floating-point weights, with its fallback to the last index. *)
Fixpoint first_ge_f64 (i : nat) (acc r : f64) (ws : list f64) : option nat :=
  match ws with
  | [] => None
  | w :: ws => let acc := f64_add acc w in
               if f64_le r acc then Some i else first_ge_f64 (S i) acc r ws
  end.

(** The common part of the two adjusted samplers; the outer [option] is [None]
    when [gen_range] panics. *)
Definition sample_weights (weights : list f64) (g : rng) : option (option nat * rng) :=
  let total_weight := foldl f64_add f64_zero weights in
  if f64_eqb total_weight f64_zero then Some (None, g) else
  match gen_range_f64 total_weight g with
  | None => None
  | Some (r, g') =>
      Some (Some (default (length weights - 1)%nat (first_ge_f64 0 f64_zero r weights)), g')
  end.

Definition weighted_sample_with_sqrt (nodes : list T) (g : rng) : option (option nat * rng) :=
  sample_weights ((λ node, f64_sqrt (default f64_zero (to_f64 (weight node)))) <$> nodes) g.

Definition weighted_sample_with_log (nodes : list T) (g : rng) : option (option nat * rng) :=
  sample_weights
    ((λ node, let w := default f64_zero (to_f64 (weight node)) in
              if f64_le w f64_zero then f64_zero else f64_ln_1p w) <$> nodes) g.

(** Sampling [n] nodes without replacement with one of the samplers. *)
Section WithoutReplacement.
Context {E : Type} (sample : list T → rng → option (option nat * rng)).

Fixpoint sample_loop (n : nat) (g : rng) (available_nodes result : list T)
    : outcome E (option (list T)) :=
  match n with
  | O => Ok (Some result)
  | S n =>
      '(o, g') ← unwrap (sample available_nodes g);
      match o with
      | None => Ok None
      | Some idx =>
          node ← unwrap (available_nodes !! idx);
          sample_loop n g' (delete idx available_nodes) (result ++ [node])
      end
  end.

Definition sample_n (nodes : list T) (n : nat) (random_seed : list Z)
    : outcome E (option (list T)) :=
  let len := length nodes in
  if (len =? 0)%nat || (n =? 0)%nat || (len <? n)%nat then Ok None
  else sample_loop n (from_seed random_seed) nodes [].

(** The loop of [weighted_sample_n_no_replace]: when a draw fails and enough nodes
    were drawn, the statement [Some(result.clone());] has no effect and the loop
    goes on. *)
Fixpoint sample_loop_min (min_nodes : Z) (n : nat) (g : rng) (the_nodes result : list T)
    : outcome E (option (list T)) :=
  match n with
  | O => Ok (Some result)
  | S n =>
      '(o, g') ← unwrap (sample the_nodes g);
      match o with
      | None =>
          if min_nodes <=? Z.of_nat (length result)
          then sample_loop_min min_nodes n g' the_nodes result
          else Ok None
      | Some idx =>
          node ← unwrap (the_nodes !! idx);
          sample_loop_min min_nodes n g' (delete idx the_nodes) (result ++ [node])
      end
  end.
End WithoutReplacement.

Definition weighted_sample_n_no_sqrt {E} : list T → nat → list Z → outcome E (option (list T)) :=
  sample_n weighted_sample_with_sqrt.
Definition weighted_sample_n_no_classic {E} : list T → nat → list Z → outcome E (option (list T)) :=
  sample_n (λ nodes g, Some (weighted_sample nodes g)).
Definition weighted_sample_n_no_log {E} : list T → nat → list Z → outcome E (option (list T)) :=
  sample_n weighted_sample_with_log.

Definition weighted_sample_n_no_replace {E} (settings : Settings) (nodes : list T) (n : nat)
    (random_seed : list Z) : outcome E (option (list T)) :=
  let len := length nodes in
  if (len =? 0)%nat || (n =? 0)%nat || (len <? n)%nat then Ok None
  else sample_loop_min weighted_sample_with_sqrt (get_min_nodes settings) n
         (from_seed random_seed) nodes [].
End Sampling.

(** ** Facts about the draws *)
Section ChoiceFacts.
Context {E : Type} `{RG : Rng}.

Lemma draw_spec (g : rng) (l : list Z) : l ≠ [] →
  ∃ x l' g', draw (E:=E) g l = Ok (x, l', g') ∧ l ≡ₚ x :: l'.
Proof.
  intros Hl. unfold draw. destruct (next_u64 g) as [num g'].
  destruct (Nat.eqb_spec (length l) 0) as [H0|H0]; [by apply nil_length_inv in H0|].
  assert (Z.to_nat (num mod Z.of_nat (length l)) < length l)%nat as Hi.
  { pose proof (Z.mod_pos_bound num (Z.of_nat (length l)) ltac:(lia)). lia. }
  destruct (lookup_lt_is_Some_2 _ _ Hi) as [x Hx]. rewrite Hx.
  exists x, (delete (Z.to_nat (num mod Z.of_nat (length l))) l), g'. split; [done|].
  by apply delete_Permutation.
Qed.

(** The list chosen from [l] in [n] draws, as drawn. *)
Lemma choose_loop_spec n (g : rng) l acc : (n ≤ length l)%nat →
  ∃ xs rest, choose_loop (E:=E) n g l acc = Ok (acc ++ (u32 <$> xs)) ∧
    length xs = n ∧ l ≡ₚ xs ++ rest.
Proof.
  revert g l acc. induction n as [|n IH]; intros g l acc Hn.
  - exists [], l. cbn. by rewrite app_nil_r.
  - destruct (draw_spec g l) as (x & l' & g' & Hd & Hp); [by intros ->; cbn in Hn; lia|].
    cbn [choose_loop]. rewrite Hd. cbn [mbind outcome_bind].
    destruct (IH g' l' (acc ++ [u32 x])) as (xs & rest & -> & Hlen & Hp').
    { apply Permutation_length in Hp. cbn in Hp. lia. }
    exists (x :: xs), rest. csimpl. rewrite <- app_assoc. split; [done|].
    split; [lia|]. by rewrite Hp, Hp'.
Qed.

Lemma choose_loop_panic n (g : rng) l acc : (length l < n)%nat →
  choose_loop (E:=E) n g l acc = Panic.
Proof.
  revert g l acc. induction n as [|n IH]; intros g l acc Hn; [lia|]. cbn [choose_loop].
  destruct (decide (l = [])) as [->|Hl].
  - unfold draw. by destruct (next_u64 g).
  - destruct (draw_spec g l Hl) as (x & l' & g' & -> & Hp). cbn [mbind outcome_bind].
    apply IH. apply Permutation_length in Hp. cbn in Hp. lia.
Qed.

(** The membership loop and the list loop make the same draws. *)
Lemma sent_loop_choose n (g : rng) l acc node : (n ≤ length l)%nat →
  Forall (λ x, 0 ≤ x < 2 ^ 32) l → node ∉ acc →
  sent_loop (E:=E) n g l node =
    (cs ← choose_loop n g l acc; Ok (bool_decide (node ∈ cs))).
Proof.
  revert g l acc. induction n as [|n IH]; intros g l acc Hn Hl Hacc.
  - cbn. by rewrite bool_decide_false.
  - destruct (draw_spec g l) as (x & l' & g' & Hd & Hp); [by intros ->; cbn in Hn; lia|].
    cbn [sent_loop choose_loop]. rewrite Hd. cbn [mbind outcome_bind].
    rewrite Hp in Hl. apply Forall_cons in Hl as [Hx Hl].
    apply Permutation_length in Hp. cbn in Hp.
    assert (u32 x = x) as -> by (by apply wrap_small). destruct (Z.eqb_spec x node) as [->|Hne].
    + destruct (choose_loop_spec n g' l' (acc ++ [node])) as (xs & rest & -> & _); [lia|].
      cbn. rewrite bool_decide_true; [done|]. set_solver.
    + apply IH; [lia|done|]. set_solver.
Qed.
End ChoiceFacts.

(** ** Facts about the sampling *)
Section SamplingFacts.
Context `{RG : Rng} {T : Type} (weight : T → Z).
Hypothesis weight_nonneg : ∀ t, 0 ≤ weight t.

Lemma cum_sum_length acc (nodes : list T) :
  length (cum_sum_from weight acc nodes) = length nodes.
Proof. revert acc. induction nodes as [|t l IH]; intros acc; cbn; [done|]. by rewrite IH. Qed.

(** [first_ge] is the least index whose entry reaches [r]. *)
Lemma first_ge_Some r cs i :
  first_ge r cs = Some i ↔
  (∃ c, cs !! i = Some c ∧ r ≤ c) ∧ ∀ j c, (j < i)%nat → cs !! j = Some c → c < r.
Proof.
  revert i. induction cs as [|c cs IH]; intros i; cbn [first_ge].
  - split; [done|]. intros [(c & Hc & _) _]. done.
  - destruct (Z.leb_spec r c) as [Hle|Hgt].
    + split.
      * intros [= <-]. split; [by exists c|]. lia.
      * intros [_ Hmin]. destruct i as [|i]; [done|].
        specialize (Hmin 0%nat c ltac:(lia) eq_refl). lia.
    + rewrite fmap_Some. split.
      * intros (j & Hj & ->). apply IH in Hj as [Hx Hmin]. split; [done|].
        intros [|k] d Hk Hd; [injection Hd as <-; lia|]. apply (Hmin k); [lia|done].
      * intros [(d & Hd & Hrd) Hmin]. destruct i as [|i]; [injection Hd as ->; lia|].
        exists i. split; [|done]. apply IH. split; [by exists d|].
        intros j e Hj He. apply (Hmin (S j)); [lia|done].
Qed.

Lemma first_ge_last r cs c : last cs = Some c → r ≤ c → is_Some (first_ge r cs).
Proof.
  revert c. induction cs as [|d cs IH]; intros c Hlast Hr; cbn; [done|].
  case_match; [by eexists|]. apply fmap_is_Some. destruct cs as [|e cs].
  - cbn in Hlast. injection Hlast as ->. lia.
  - by apply (IH c).
Qed.

Lemma cum_sum_ge acc nodes i c : cum_sum_from weight acc nodes !! i = Some c → acc ≤ c.
Proof.
  revert acc i. induction nodes as [|t l IH]; intros acc i; cbn; [done|].
  pose proof (weight_nonneg t). destruct i as [|i]; cbn; [intros [= <-]; lia|].
  intros Hc%IH. lia.
Qed.

Lemma cum_sum_mono acc nodes i j c d : (i ≤ j)%nat →
  cum_sum_from weight acc nodes !! i = Some c → cum_sum_from weight acc nodes !! j = Some d →
  c ≤ d.
Proof.
  revert acc i j. induction nodes as [|t l IH]; intros acc i j Hij; cbn; [done|].
  destruct i as [|i], j as [|j]; cbn.
  - intros [= <-] [= <-]. lia.
  - intros [= <-] Hd%cum_sum_ge. lia.
  - lia.
  - apply IH. lia.
Qed.
End SamplingFacts.

Section ReplacementFacts.
Context `{RG : Rng} {E T : Type} (sample : list T → rng → option (option nat * rng)).

(** Every draw removes what it adds. *)
Lemma sample_loop_min_perm min_nodes n g avail acc res :
  sample_loop_min (E:=E) sample min_nodes n g avail acc = Ok (Some res) →
  ∃ xs rest, res = acc ++ xs ∧ avail ≡ₚ xs ++ rest ∧ (length xs ≤ n)%nat ∧
    (length xs = n ∨ min_nodes ≤ Z.of_nat (length acc + length xs)).
Proof.
  revert g avail acc. induction n as [|n IH]; intros g avail acc; cbn [sample_loop_min].
  - intros [= <-]. exists [], avail. rewrite app_nil_r. cbn. auto.
  - intros Hs. inv_ok. destruct x as [[idx|] g']; inv_ok.
    + apply IH in H1 as (xs & rest & -> & Hp & Hlen & Hmin).
      exists (x :: xs), rest. rewrite <- app_assoc. split; [done|]. split.
      { rewrite (delete_Permutation _ _ _ H0), Hp. done. }
      cbn. rewrite length_app in Hmin. cbn in Hmin. split; [lia|].
      destruct Hmin; [left|right]; lia.
    + case_match eqn:Hm; [|done]. apply IH in H0 as (xs & rest & -> & Hp & Hlen & Hmin).
      exists xs, rest. split; [done|]. split; [done|]. split; [lia|]. right. lia.
Qed.

Lemma sample_loop_perm n g avail acc res :
  sample_loop (E:=E) sample n g avail acc = Ok (Some res) →
  ∃ xs rest, res = acc ++ xs ∧ avail ≡ₚ xs ++ rest ∧ length xs = n.
Proof.
  revert g avail acc. induction n as [|n IH]; intros g avail acc; cbn [sample_loop].
  - intros [= <-]. exists [], avail. by rewrite app_nil_r.
  - intros Hs. inv_ok. destruct x as [[idx|] g']; inv_ok; [|done].
    apply IH in H1 as (xs & rest & -> & Hp & Hlen).
    exists (x :: xs), rest. rewrite <- app_assoc. split; [done|].
    rewrite (delete_Permutation _ _ _ H0), Hp. cbn. auto.
Qed.
End ReplacementFacts.

(** A sampler that never panics and picks indices in range. *)
Section InRange.
Context `{RG : Rng} {E T : Type} (sample : list T → rng → option (option nat * rng)).
Definition in_range : Prop := ∀ nodes g,
  ∃ o g', sample nodes g = Some (o, g') ∧ ∀ i, o = Some i → (i < length nodes)%nat.
Hypothesis sample_in_range : in_range.

Lemma sample_loop_no_panic n g avail acc : sample_loop (E:=E) sample n g avail acc ≠ Panic.
Proof.
  revert g avail acc. induction n as [|n IH]; intros g avail acc; cbn [sample_loop]; [done|].
  destruct (sample_in_range avail g) as (o & g' & -> & Ho). cbn [unwrap mbind outcome_bind].
  destruct o as [i|]; [|done]. destruct (lookup_lt_is_Some_2 avail i) as [x ->]; [auto|].
  cbn [unwrap mbind outcome_bind]. apply IH.
Qed.

Lemma sample_loop_min_no_panic m n g avail acc :
  sample_loop_min (E:=E) sample m n g avail acc ≠ Panic.
Proof.
  revert g avail acc. induction n as [|n IH]; intros g avail acc; cbn [sample_loop_min]; [done|].
  destruct (sample_in_range avail g) as (o & g' & -> & Ho). cbn [unwrap mbind outcome_bind].
  destruct o as [i|]; [|case_match; [apply IH|done]].
  destruct (lookup_lt_is_Some_2 avail i) as [x ->]; [auto|].
  cbn [unwrap mbind outcome_bind]. apply IH.
Qed.

(** If moreover it always picks from a nonempty list of [P]-nodes, the loop
    completes. *)
Lemma sample_loop_completes (P : T → Prop) n g avail acc :
  (∀ nodes g, nodes ≠ [] → Forall P nodes → ∃ i g', sample nodes g = Some (Some i, g')) →
  Forall P avail → (n ≤ length avail)%nat →
  ∃ res, sample_loop (E:=E) sample n g avail acc = Ok (Some res).
Proof.
  intros Hpick. revert g avail acc. induction n as [|n IH]; intros g avail acc HP Hn;
    cbn [sample_loop]; [by eexists|].
  destruct (Hpick avail g) as (i & g' & Hs); [by intros ->; cbn in Hn; lia|done|].
  destruct (sample_in_range avail g) as (o & g2 & Hs2 & Ho). rewrite Hs in Hs2.
  injection Hs2 as <- <-. rewrite Hs. cbn [unwrap mbind outcome_bind].
  destruct (lookup_lt_is_Some_2 avail i) as [x Hx]; [auto|]. rewrite Hx.
  cbn [unwrap mbind outcome_bind]. apply IH.
  - by apply Forall_delete.
  - rewrite length_delete by (by eexists). lia.
Qed.
End InRange.

Section InRangeSamplers.
Context `{RG : Rng} {RL : RngLaws RG} {T : Type} (weight : T → Z).
Hypothesis weight_nonneg : ∀ t, 0 ≤ weight t.

Lemma last_cum_sum acc (nodes : list T) : nodes ≠ [] →
  ∃ c, last (cum_sum_from weight acc nodes) = Some c ∧ acc ≤ c ∧
    (Forall (λ t, 0 < weight t) nodes → acc < c).
Proof.
  revert acc. induction nodes as [|t l IH]; intros acc Hl; [done|].
  pose proof (weight_nonneg t). cbn [cum_sum_from]. rewrite last_cons.
  destruct (decide (l = [])) as [->|Hne].
  - exists (acc + weight t). cbn. split; [done|]. split; [lia|].
    rewrite Forall_singleton. lia.
  - destruct (IH (acc + weight t) Hne) as (c & -> & Hc & Hp). exists c.
    split; [done|]. split; [lia|]. rewrite Forall_cons. intros [? ?%Hp]. lia.
Qed.

Lemma weighted_sample_in_range :
  in_range (λ nodes g, Some (weighted_sample weight nodes g)).
Proof.
  intros nodes g. destruct (weighted_sample weight nodes g) as [o g'] eqn:Ho.
  exists o, g'. split; [done|]. intros i ->. unfold weighted_sample in Ho.
  repeat case_match; simplify_eq.
  match goal with H : first_ge _ _ = Some _ |- _ =>
    apply first_ge_Some in H as [(c & Hc & _) _] end.
  apply lookup_lt_Some in Hc. unfold cum_sum in Hc. by rewrite cum_sum_length in Hc.
Qed.

Lemma weighted_sample_picks (nodes : list T) g : nodes ≠ [] →
  Forall (λ t, 0 < weight t) nodes → ∃ i g', weighted_sample weight nodes g = (Some i, g').
Proof.
  intros Hne Hpos. unfold weighted_sample.
  destruct (last_cum_sum 0 nodes Hne) as (c & Hlast & _ & Hc). specialize (Hc Hpos).
  unfold cum_sum. rewrite Hlast. destruct (Z.eqb_spec c 0); [lia|].
  pose proof (gen_range_big_range c g Hc) as Hr. destruct (gen_range_big c g) as [r g'].
  destruct (first_ge_last r _ c Hlast) as [i ->]; [cbn in Hr; lia|]. eauto.
Qed.
End InRangeSamplers.

Section InRangeFloat.
Context `{RG : Rng} `{F : !F64} {FL : F64Laws F} {T : Type}.

Lemma first_ge_f64_range i acc r ws j :
  first_ge_f64 i acc r ws = Some j → (j < i + length ws)%nat.
Proof.
  revert i acc. induction ws as [|w ws IH]; intros i acc; cbn; [done|].
  case_match; [intros [= ->]; lia|]. intros Hj%IH. lia.
Qed.

Lemma sample_weights_in_range (adjust : T → f64) :
  in_range (λ nodes g, sample_weights (adjust <$> nodes) g).
Proof.
  intros nodes g. unfold sample_weights. destruct (f64_eqb _ _) eqn:Hz; [by exists None, g|].
  destruct (gen_range_f64_ok _ g Hz) as [[r g'] ->]. eexists _, g'. split; [done|].
  intros i [= <-]. assert (0 < length nodes)%nat.
  { destruct nodes; [|cbn; lia]. cbn in Hz. by rewrite f64_eqb_zero in Hz. }
  destruct (first_ge_f64 0 f64_zero r (adjust <$> nodes)) as [j|] eqn:Hj; cbn.
  - apply first_ge_f64_range in Hj. rewrite length_fmap in Hj. lia.
  - rewrite length_fmap. lia.
Qed.
End InRangeFloat.

(** ** Claims *)
Section Claims.
Context {E : Type} `{RG : Rng}.

(** The request's node set: with at least [t_plus_epsilon] distinct nodes whose
    indices fit in 32 bits, [calc_nodes_to_send_to] returns exactly
    [t_plus_epsilon] pairwise distinct nodes, all of them from the given list; with
    fewer it panics (a remainder by zero). *)
Lemma calc_nodes_spec (epoch request t : Z) (nodes : list Z) :
  NoDup nodes → Forall (λ x, 0 ≤ x < 2 ^ 32) nodes → 0 ≤ t →
  (t ≤ Z.of_nat (length nodes) →
    ∃ cs, calc_nodes_to_send_to (E:=E) epoch request t nodes = Ok cs ∧
      Z.of_nat (length cs) = t ∧ NoDup cs ∧ cs ⊆ nodes) ∧
  (Z.of_nat (length nodes) < t → calc_nodes_to_send_to (E:=E) epoch request t nodes = Panic).
Proof.
  intros Hnd Hr Ht. unfold calc_nodes_to_send_to. split; intros Hlen.
  - destruct (choose_loop_spec (E:=E) (Z.to_nat t) (from_seed (request_seed epoch request))
                nodes []) as (xs & rest & -> & Hxs & Hp); [lia|].
    assert (Forall (λ x, 0 ≤ x < 2 ^ 32) xs) as Hxr.
    { rewrite Hp in Hr. by apply Forall_app in Hr as []. }
    assert (u32 <$> xs = xs) as ->.
    { rewrite <- (list_fmap_id xs) at 2. apply list_fmap_ext. intros i x Hx.
      apply wrap_small. by eapply Forall_lookup in Hxr. }
    rewrite Hp in Hnd. apply NoDup_app in Hnd as (Hnd & _).
    exists xs. cbn. split; [done|]. split; [lia|]. split; [done|].
    intros x Hx. rewrite Hp. set_solver.
  - apply choose_loop_panic. lia.
Qed.

(** The fast membership test agrees with the list: with at least
    [t_plus_epsilon] nodes whose indices fit in 32 bits, [should_be_sent_to_node]
    answers whether the node is in the result of [calc_nodes_to_send_to] on the
    sorted indices, so the two agree on every sorted list. *)
Lemma should_be_sent_iff_calc (epoch request t node : Z) (nodes : list Z) :
  t ≤ Z.of_nat (length nodes) → Forall (λ x, 0 ≤ x < 2 ^ 32) nodes →
  should_be_sent_to_node (E:=E) epoch request t node nodes =
    (cs ← calc_nodes_to_send_to epoch request t (merge_sort (≤) nodes);
     Ok (bool_decide (node ∈ cs))) ∧
  (Sorted (≤) nodes → merge_sort (≤) nodes = nodes).
Proof.
  intros Ht Hr. split.
  - apply sent_loop_choose.
    + rewrite merge_sort_Permutation. lia.
    + by rewrite merge_sort_Permutation.
    + set_solver.
  - intros Hs. apply (Sorted_unique (≤)); [apply Sorted_merge_sort; apply _|done|].
    apply merge_sort_Permutation.
Qed.

(** Weighted sampling draws an index exactly by the cumulative weights: with
    positive total weight, the random number [r] selects index [i] if and only if
    the weights before [i] sum to less than [r] and those up to [i] to at least
    [r], and some index is always selected.  In particular [r = 0] selects the
    first node even when its weight is zero. *)
Theorem weighted_sample_spec {RL : RngLaws RG} {T : Type} (weight : T → Z) (nodes : list T)
    (g : rng) (total : Z) :
  (∀ t, 0 ≤ weight t) → last (cum_sum weight nodes) = Some total → 0 < total →
  let r := (gen_range_big total g).1 in
  is_Some (weighted_sample weight nodes g).1 ∧
  (∀ i c, cum_sum weight nodes !! i = Some c →
    (weighted_sample weight nodes g).1 = Some i ↔
    r ≤ c ∧ (i = 0%nat ∨ ∃ b, cum_sum weight nodes !! pred i = Some b ∧ b < r)) ∧
  (r = 0 → (weighted_sample weight nodes g).1 = Some 0%nat).
Proof.
  intros Hw Hlast Htot r. unfold weighted_sample. rewrite Hlast.
  destruct (Z.eqb_spec total 0); [lia|]. pose proof (gen_range_big_range total g Htot) as Hr.
  fold r in Hr. destruct (gen_range_big total g) as [r' g'] eqn:Hg. cbn [fst] in *.
  assert (∀ i c, cum_sum weight nodes !! i = Some c →
    first_ge r (cum_sum weight nodes) = Some i ↔
    r ≤ c ∧ (i = 0%nat ∨ ∃ b, cum_sum weight nodes !! pred i = Some b ∧ b < r)) as Hiff.
  { intros i c Hc. rewrite first_ge_Some. split.
    - intros [(d & Hd & Hrd) Hmin]. split; [naive_solver|]. destruct i as [|i]; [by left|].
      right. destruct (lookup_lt_is_Some_2 (cum_sum weight nodes) i) as [b Hb].
      { apply lookup_lt_Some in Hc. lia. }
      exists b. split; [done|]. apply (Hmin i); [lia|done].
    - intros [Hrc Hpre]. split; [by exists c|]. intros j d Hj Hd.
      destruct Hpre as [->|(b & Hb & Hlt)]; [lia|].
      enough (d ≤ b) by lia. by eapply cum_sum_mono; [done| |exact Hd|exact Hb]; lia. }
  split; [by eapply first_ge_last; [exact Hlast|lia]|]. split; [exact Hiff|].
  intros Hr0. destruct (cum_sum weight nodes) as [|c cs] eqn:Hcs; [done|].
  apply (Hiff 0%nat c eq_refl). split; [|by left]. rewrite Hr0.
  apply (cum_sum_ge weight Hw 0 nodes 0%nat). unfold cum_sum in Hcs. by rewrite Hcs.
Qed.

(** The elected provers are drawn without replacement: whenever
    [weighted_sample_n_no_replace] returns a sample, it is a sub-multiset of the
    candidates of at most [n] nodes, and of fewer than [n] only if it still has
    [MIN_NODES]; the other three samplers return exactly [n] nodes. *)
Theorem sample_without_replacement `{F : !F64} {T : Type} (weight : T → Z) (st : Settings)
    (nodes res : list T) (n : nat) (seed : list Z) :
  (weighted_sample_n_no_replace (E:=E) weight st nodes n seed = Ok (Some res) →
    (∃ rest, nodes ≡ₚ res ++ rest) ∧ (length res ≤ n)%nat ∧
    (length res = n ∨ get_min_nodes st ≤ Z.of_nat (length res))) ∧
  (weighted_sample_n_no_sqrt (E:=E) weight nodes n seed = Ok (Some res) ∨
   weighted_sample_n_no_classic (E:=E) weight nodes n seed = Ok (Some res) ∨
   weighted_sample_n_no_log (E:=E) weight nodes n seed = Ok (Some res) →
    (∃ rest, nodes ≡ₚ res ++ rest) ∧ length res = n).
Proof.
  split.
  - unfold weighted_sample_n_no_replace. case_match; [done|].
    intros (xs & rest & -> & Hp & Hlen & Hmin)%sample_loop_min_perm. cbn in *. eauto.
  - assert (∀ sample, sample_n (E:=E) sample nodes n seed = Ok (Some res) →
      (∃ rest, nodes ≡ₚ res ++ rest) ∧ length res = n) as Hn.
    { intros sample. unfold sample_n. case_match; [done|].
      intros (xs & rest & -> & Hp & Hlen)%sample_loop_perm. cbn in *. eauto. }
    intros [H|[H|H]]; exact (Hn _ H).
Qed.

(** Sampling never indexes out of bounds: given a generator and floats that
    behave as documented, none of the four samplers panics; and the unadjusted
    sampler returns a sample whenever [0 < n] is at most the number of candidates
    and all weights are positive. *)
Theorem sampling_total {RL : RngLaws RG} `{F : !F64} {FL : F64Laws F} {T : Type}
    (weight : T → Z) (st : Settings) (nodes : list T) (n : nat) (seed : list Z) :
  (∀ t, 0 ≤ weight t) →
  weighted_sample_n_no_replace (E:=E) weight st nodes n seed ≠ Panic ∧
  weighted_sample_n_no_sqrt (E:=E) weight nodes n seed ≠ Panic ∧
  weighted_sample_n_no_log (E:=E) weight nodes n seed ≠ Panic ∧
  weighted_sample_n_no_classic (E:=E) weight nodes n seed ≠ Panic ∧
  (Forall (λ t, 0 < weight t) nodes → (0 < n ≤ length nodes)%nat →
    ∃ res, weighted_sample_n_no_classic (E:=E) weight nodes n seed = Ok (Some res)).
Proof.
  intros Hw. split; [|split; [|split; [|split]]].
  - unfold weighted_sample_n_no_replace. case_match; [done|].
    apply sample_loop_min_no_panic, sample_weights_in_range.
  - unfold weighted_sample_n_no_sqrt, sample_n. case_match; [done|].
    apply sample_loop_no_panic, sample_weights_in_range.
  - unfold weighted_sample_n_no_log, sample_n. case_match; [done|].
    apply sample_loop_no_panic, sample_weights_in_range.
  - unfold weighted_sample_n_no_classic, sample_n. case_match; [done|].
    apply sample_loop_no_panic, weighted_sample_in_range.
  - intros Hpos Hn. unfold weighted_sample_n_no_classic, sample_n.
    destruct (Nat.eqb_spec (length nodes) 0), (Nat.eqb_spec n 0),
      (Nat.ltb_spec (length nodes) n); try lia. cbn [orb].
    apply (sample_loop_completes _ (weighted_sample_in_range weight) (λ t, 0 < weight t));
      [|done|lia].
    intros ns g Hne Hp. destruct (weighted_sample_picks weight Hw ns g Hne Hp) as (i & g' & ->).
    eauto.
Qed.
End Claims.

(** ** The claims on a small generator

    The generator's state is a number that is returned and advanced; the floats are
    integers. *)
Module Examples.
#[local] Instance toy_rng : Rng := {|
  rng := Z;
  from_seed l := be_val l mod 1000;
  next_u64 g := (g mod 2 ^ 64, 3 * g + 7);
  gen_range_big b g := (g mod b, 3 * g + 7)
|}.
#[local] Instance toy_rng_laws : RngLaws toy_rng.
Proof. constructor; cbn; intros; apply Z.mod_pos_bound; lia. Qed.

#[local] Instance toy_f64 : F64 := {|
  f64 := Z; f64_zero := 0; f64_add := Z.add; f64_sqrt := Z.sqrt; f64_ln_1p w := Z.log2 (w + 1);
  f64_le := Z.leb; f64_eqb := Z.eqb; to_f64 := Some;
  gen_range_f64 b g := if b =? 0 then None else Some (g mod b, 3 * g + 7)
|}.
#[local] Instance toy_f64_laws : F64Laws toy_f64.
Proof. constructor; cbn; [done|]. intros t g ->. by eexists. Qed.

Lemma weighted_sample_spec_witness :
  is_Some (weighted_sample (λ w : Z, Z.max 0 w) [0; 5; 10] (22 : rng (Rng:=toy_rng))).1.
Proof.
  apply (weighted_sample_spec (λ w : Z, Z.max 0 w) [0; 5; 10] (22 : rng (Rng:=toy_rng)) 15).
  - intros t. lia.
  - reflexivity.
  - lia.
Defined.

Lemma sample_without_replacement_witness :
  ∃ rest : list Z, [4; 9; 16; 25] ≡ₚ [16; 25; 4] ++ rest.
Proof.
  refine (proj1 (proj1 (sample_without_replacement (E:=unit) (λ w : Z, w)
    {| MIN_NODES := 3; EPSILON := 1; THRESHOLD := (60 : f64 (F64:=toy_f64)) |}
    [4; 9; 16; 25] [16; 25; 4] 3 [7]) _)).
  vm_compute. reflexivity.
Defined.

Lemma sampling_total_witness :
  ∃ res, weighted_sample_n_no_classic (E:=unit) (λ w : Z, Z.max 0 w) [4; 9; 16; 25] 3 [7]
         = Ok (Some res).
Proof.
  apply (sampling_total (E:=unit) (λ w : Z, Z.max 0 w)
    {| MIN_NODES := 3; EPSILON := 1; THRESHOLD := (60 : f64 (F64:=toy_f64)) |} [4; 9; 16; 25] 3 [7]).
  - intros t. lia.
  - repeat constructor; done.
  - cbn. lia.
Defined.
End Examples.
