(* ===== verification/Serialization.v ===== *)
(** * Hexadecimal serialization (crates/cryptography/src/serialization.rs)

    The serde modules for points, scalars, field elements and maps of points.
    A value is what the serializer is given: a string, or a map of strings. *)
From Stdlib Require Import ZArith Lia Ascii String Zmod.
From stdpp Require Import base list gmap strings.
From S2P Require Import Prelude PrimeField Curve ModelCurve.

(** ** [hex::encode] and [hex::decode] *)
Definition hex_encode (bytes : list Z) : string :=
  string_of_list_ascii (concat ((λ b, [hex_digit (b / 16); hex_digit (b mod 16)]) <$> bytes)).

Fixpoint hex_decode_list (l : list ascii) : option (list Z) :=
  match l with
  | [] => Some []
  | [_] => None
  | a :: b :: l =>
      hi ← hex_value a; lo ← hex_value b; rest ← hex_decode_list l;
      Some (hi * 16 + lo :: rest)
  end.
Definition hex_decode (s : string) : option (list Z) := hex_decode_list (list_ascii_of_string s).

(** A decoder's error: [D::Error::custom]. *)
Definition DeErr : Type := string.

Section Codecs.
Context `{C : Curve} `{HO : HashOrder}.


(** [point_hex]. *)
Definition point_hex_serialize (point : Point) : outcome DeErr string :=
  bytes ← unwrap_res (encode point);
  Ok (hex_encode bytes).

Definition point_hex_deserialize (s : string) : outcome DeErr Point :=
  bytes ← ok_or (hex_decode s) EmptyString;
  map_err (λ _, "error deserializing point"%string) (from_encoded bytes).

(** [scalar_hex]. *)
Definition scalar_hex_serialize (scalar : Scalar) : string :=
  hex_encode (scalar_to_bytes scalar).

Definition scalar_hex_deserialize (s : string) : outcome DeErr Scalar :=
  bytes ← ok_or (hex_decode s) EmptyString;
  map_err (λ _, "error deserializing point"%string) (scalar_from_bytes bytes).

(** The decoding inside the map modules: two [unwrap]s. *)
Definition decode_or_panic (hex_str : string) : outcome DeErr Point :=
  bytes ← unwrap (hex_decode hex_str);
  unwrap_res (from_encoded bytes).

(** [iter().map(f).collect()] over a vector, stopping at the first failure. *)
Definition collect_vec {A B} (f : A → outcome DeErr B) (l : list A) : outcome DeErr (list B) :=
  foldM (λ acc a, b ← f a; Ok (acc ++ [b])) [] l.

(** [iter().map(f).collect()] over a hash map's entries. *)
Definition collect_map {A B} (f : A → outcome DeErr B) (m : gmap Z A) : outcome DeErr (gmap Z B) :=
  foldM (λ acc '(k, a), b ← f a; Ok (<[k:=b]> acc)) ∅ (hm_iter m).

(** [map_point_hex]: [HashMap<u128, Vec<Point>>]. *)
Definition map_point_hex_serialize (m : gmap Z (list Point)) : outcome DeErr (gmap Z (list string)) :=
  collect_map (collect_vec point_hex_serialize) m.
Definition map_point_hex_deserialize (m : gmap Z (list string)) : outcome DeErr (gmap Z (list Point)) :=
  collect_map (collect_vec decode_or_panic) m.

(** [hashmap_point_hex]: [HashMap<u128, Point>]. *)
Definition hashmap_point_hex_serialize (m : gmap Z Point) : outcome DeErr (gmap Z string) :=
  collect_map point_hex_serialize m.
Definition hashmap_point_hex_deserialize (m : gmap Z string) : outcome DeErr (gmap Z Point) :=
  collect_map decode_or_panic m.

(** [field_hex]. *)
Definition field_hex_serialize (field : FieldEl) : string := hex_encode (to_repr field).

Definition field_hex_deserialize (s : string) : outcome DeErr FieldEl :=
  bytes ← ok_or (hex_decode s) "hex error"%string;
  if negb (length bytes =? repr_len)%nat then Err "Invalid hex length"%string else
  unwrap (if be_val bytes <? f_modulus (F:=FieldEl) then Some (f_of_Z (be_val bytes)) else None).
End Codecs.

(** ** Facts *)
Lemma hex_decode_encode bytes : Forall is_byte bytes → hex_decode (hex_encode bytes) = Some bytes.
Proof.
  intros Hb. unfold hex_decode, hex_encode. rewrite list_ascii_of_string_of_list_ascii.
  induction Hb as [|b l Hb Hl IH]; [done|]. cbn [fmap list_fmap concat app hex_decode_list].
  unfold is_byte in Hb. pose proof (Z.div_mod b 16 ltac:(lia)).
  pose proof (Z.mod_pos_bound b 16 ltac:(lia)). assert (0 ≤ b / 16 < 16) by lia.
  rewrite !hex_value_digit by done. cbn [mbind option_bind]. cbn [fmap list_fmap] in IH.
  rewrite IH. cbn. do 2 f_equal. lia.
Qed.

Section Loops.
Context {A B : Type} (f : A → outcome DeErr B) (g : A → B).

Lemma collect_vec_total l : Forall (λ a, f a = Ok (g a)) l → collect_vec f l = Ok (g <$> l).
Proof.
  intros Hl. unfold collect_vec.
  assert (∀ acc, foldM (λ acc a, b ← f a; Ok (acc ++ [b])) acc l = Ok (acc ++ (g <$> l))) as Hg.
  { induction Hl as [|a l Ha Hl IH]; intros acc; [by rewrite app_nil_r|].
    cbn [foldM]. rewrite Ha. cbn [mbind outcome_bind]. rewrite IH. by rewrite <- app_assoc. }
  apply Hg.
Qed.

Lemma collect_map_total `{HO : HashOrder} (m : gmap Z A) :
  (∀ k a, m !! k = Some a → f a = Ok (g a)) → collect_map f m = Ok (g <$> m).
Proof.
  intros Hm. unfold collect_map.
  destruct (foldM_build_total (K:=Z) (W:=B) (E:=DeErr) (λ _ a, b ← f a; Ok (Some b))
    (λ acc '(k, a), b ← f a; Ok (<[k:=b]> acc))) with (m := m) as (r & Hr & Hout & Hin).
  - intros acc k a _. by destruct (f a).
  - intros k a Hk. by rewrite (Hm k a Hk).
  - rewrite Hr. f_equal. apply map_eq. intros k. rewrite lookup_fmap.
    destruct (m !! k) as [a|] eqn:Hk; [|by apply Hout].
    specialize (Hin k a Hk). rewrite (Hm k a Hk) in Hin. cbn in *. congruence.
Qed.
End Loops.

Section Claims.
Context `{C : Curve} {CL : CurveLaws C} `{HO : HashOrder}.

(** Points that can be sent: in the subgroup, not zero, encoded in bytes. *)
Definition sendable (P : Point) : Prop :=
  in_subgroup P ∧ P ≠ ZERO ∧ ∃ bs, encode P = Ok bs ∧ Forall is_byte bs.

(** The text of a sendable point. *)
Definition point_text (P : Point) : string :=
  match encode P with Ok bs => hex_encode bs | _ => EmptyString end.

Lemma point_hex_text P : sendable P → point_hex_serialize P = Ok (point_text P).
Proof.
  intros (_ & _ & bs & Hbs & _). unfold point_hex_serialize, point_text. by rewrite Hbs.
Qed.

Lemma decode_text P : sendable P →
  point_hex_deserialize (point_text P) = Ok P ∧ decode_or_panic (point_text P) = Ok P.
Proof.
  intros (HP & _ & bs & Hbs & Hb).
  unfold point_hex_deserialize, decode_or_panic, point_text. rewrite Hbs.
  rewrite hex_decode_encode by done. cbn. by rewrite (encode_decode P bs HP Hbs).
Qed.

(** Points, scalars and field elements survive serialization: decoding the
    hexadecimal text of a sendable point, of a scalar (whose encoding consists of
    bytes) or of a field element returns it. *)
Theorem hex_roundtrip (P : Point) (s : Scalar) (x : FieldEl) :
  sendable P → Forall is_byte (scalar_to_bytes s) →
  (t ← point_hex_serialize P; point_hex_deserialize t) = Ok P ∧
  scalar_hex_deserialize (scalar_hex_serialize s) = Ok s ∧
  field_hex_deserialize (field_hex_serialize x) = Ok x.
Proof.
  intros HP Hs. split; [|split].
  - rewrite point_hex_text by done. apply decode_text, HP.
  - unfold scalar_hex_deserialize, scalar_hex_serialize.
    rewrite hex_decode_encode by done. cbn. by rewrite scalar_bytes.
  - unfold field_hex_deserialize, field_hex_serialize.
    rewrite hex_decode_encode by (unfold to_repr; auto with bytes). cbn [ok_or mbind outcome_bind].
    rewrite be_val_to_repr. unfold to_repr. rewrite be_bytes_length, Nat.eqb_refl. cbn [negb].
    pose proof (f_to_Z_range x). destruct (Z.ltb_spec (f_to_Z x) (f_modulus (F:=FieldEl))); [|lia].
    by rewrite f_of_to.
Qed.

(** Maps of points survive serialization, whatever order the hash map is visited
    in: a map of commitment vectors and a map of points whose points are all
    sendable come back unchanged. *)
Theorem map_hex_roundtrip (m : gmap Z (list Point)) (n : gmap Z Point) :
  (∀ k l, m !! k = Some l → Forall sendable l) → (∀ k P, n !! k = Some P → sendable P) →
  (t ← map_point_hex_serialize m; map_point_hex_deserialize t) = Ok m ∧
  (t ← hashmap_point_hex_serialize n; hashmap_point_hex_deserialize t) = Ok n.
Proof.
  intros Hm Hn. split.
  - unfold map_point_hex_serialize, map_point_hex_deserialize.
    rewrite (collect_map_total _ (fmap point_text)).
    2:{ intros k l Hl. apply collect_vec_total. eapply Forall_impl; [by eapply Hm|].
        apply point_hex_text. }
    cbn [mbind outcome_bind].
    rewrite (collect_map_total _ (fmap (λ t, default ZERO
      (match decode_or_panic t with Ok P => Some P | _ => None end)))).
    2:{ intros k ts. rewrite lookup_fmap, fmap_Some. intros (l & Hl & ->).
        apply collect_vec_total. rewrite Forall_fmap. eapply Forall_impl; [by eapply Hm|].
        intros P HP. cbn. by rewrite (proj2 (decode_text P HP)). }
    f_equal. rewrite <- map_fmap_compose. rewrite <- (map_fmap_id m) at 2.
    apply map_fmap_ext. intros k l Hl. cbn. rewrite <- list_fmap_compose.
    rewrite <- (list_fmap_id l) at 2. apply list_fmap_ext. intros i P HP. cbn.
    assert (sendable P) as Hsend by (eapply Forall_lookup; [by eapply Hm|done]).
    by rewrite (proj2 (decode_text P Hsend)).
  - unfold hashmap_point_hex_serialize, hashmap_point_hex_deserialize.
    rewrite (collect_map_total _ point_text) by (intros; apply point_hex_text; eauto).
    cbn [mbind outcome_bind].
    rewrite (collect_map_total _ (λ t, default ZERO
      (match decode_or_panic t with Ok P => Some P | _ => None end))).
    2:{ intros k t. rewrite lookup_fmap, fmap_Some. intros (P & HP & ->).
        by rewrite (proj2 (decode_text P (Hn k P HP))). }
    f_equal. rewrite <- map_fmap_compose. rewrite <- (map_fmap_id n) at 2.
    apply map_fmap_ext. intros k P HP. cbn. by rewrite (proj2 (decode_text P (Hn k P HP))).
Qed.

(** Malformed text is an error for a single point or scalar but a panic inside a
    map: a text that is not hexadecimal makes [point_hex] and [scalar_hex] return an
    error and the two map modules panic, and a field element at or above the modulus
    makes [field_hex] panic. *)
Theorem malformed_text_errors_or_panics (s t : string) (k : Z) (bs : list Z) :
  hex_decode s = None → hex_decode t = Some bs → length bs = repr_len →
  f_modulus (F:=FieldEl) ≤ be_val bs →
  (∃ e, point_hex_deserialize s = Err e) ∧ (∃ e, scalar_hex_deserialize s = Err e) ∧
  map_point_hex_deserialize {[k := [s]]} = Panic ∧
  hashmap_point_hex_deserialize {[k := s]} = Panic ∧
  field_hex_deserialize t = Panic.
Proof.
  intros Hs Ht Hl Hv.
  assert (∀ A (a : A), hm_iter ({[k := a]} : gmap Z A) = [(k, a)]) as Hit.
  { intros A a. pose proof (hm_iter_perm ({[k := a]} : gmap Z A)) as Hp.
    rewrite map_to_list_singleton in Hp. by apply Permutation_singleton_r in Hp. }
  repeat split.
  - unfold point_hex_deserialize. rewrite Hs. by eexists.
  - unfold scalar_hex_deserialize. rewrite Hs. by eexists.
  - unfold map_point_hex_deserialize, collect_map. rewrite Hit. cbn.
    unfold decode_or_panic. by rewrite Hs.
  - unfold hashmap_point_hex_deserialize, collect_map. rewrite Hit. cbn.
    unfold decode_or_panic. by rewrite Hs.
  - unfold field_hex_deserialize. rewrite Ht. cbn. rewrite Hl, Nat.eqb_refl. cbn.
    destruct (Z.ltb_spec (be_val bs) (f_modulus (F:=FieldEl))); [lia|done].
Qed.
End Claims.

Import ModelInstances.

Lemma sendable_model (z : Z) : 0 < z < q101 →
  sendable (C:=model_curve) (Zmod.of_Z q101 z : Point (Curve:=model_curve)).
Proof.
  intros Hz. assert (Zmod.unsigned (Zmod.of_Z q101 z) = z) as Hu.
  { rewrite Zmod.unsigned_of_Z. apply Z.mod_small. lia. }
  split; [done|]. split.
  - intros H0. apply (f_equal (Zmod.unsigned (m:=q101))) in H0. rewrite Hu in H0.
    change (z = Zmod.unsigned (Zmod.zero (m:=q101))) in H0. rewrite Zmod.unsigned_0 in H0. lia.
  - exists [z]. split.
    + transitivity (Ok (E:=Error) [Zmod.unsigned (Zmod.of_Z q101 z)]); [done|by rewrite Hu].
    + constructor; [|constructor]. unfold is_byte, q101 in *. lia.
Qed.

Lemma hex_roundtrip_witness :
  (t ← point_hex_serialize (C:=model_curve) (Zmod.of_Z q101 77 : Z101);
   point_hex_deserialize t) = Ok (Zmod.of_Z q101 77 : Z101).
Proof.
  refine (proj1 (hex_roundtrip (C:=model_curve) (Zmod.of_Z q101 77 : Z101) (f_of_Z 3 : Z101)
           (f_of_Z 4 : Z101) _ _)).
  - apply sendable_model. done.
  - repeat constructor; done.
Defined.

Lemma map_hex_roundtrip_witness :
  let m : gmap Z (list Z101) := {[5 := [Zmod.of_Z q101 77; Zmod.of_Z q101 1]]} in
  let n : gmap Z Z101 := {[9 := Zmod.of_Z q101 2]} in
  (t ← map_point_hex_serialize (C:=model_curve) m; map_point_hex_deserialize t) = Ok m ∧
  (t ← hashmap_point_hex_serialize (C:=model_curve) n; hashmap_point_hex_deserialize t) = Ok n.
Proof.
  intros m n. apply (map_hex_roundtrip (C:=model_curve) m n).
  - intros k l [<- <-]%lookup_singleton_Some.
    repeat constructor; apply sendable_model; done.
  - intros k P [<- <-]%lookup_singleton_Some. apply sendable_model. done.
Defined.

Lemma malformed_text_errors_or_panics_witness :
  map_point_hex_deserialize (C:=model_curve) {[5 := ["zz"%string]]} = Panic ∧
  field_hex_deserialize (C:=model_curve) "ff" = Panic.
Proof.
  destruct (malformed_text_errors_or_panics (C:=model_curve) "zz" "ff" 5 [255])
    as (_ & _ & H1 & _ & H2); [vm_compute; done..|]. auto.
Defined.
