(* ===== verification/ZkMask.v ===== *)
(** * Injected masks and JWT claims (crates/cryptography/src/zkinjmask.rs) *)
From Stdlib Require Import ZArith Lia Ascii String Field Zmod.
From stdpp Require Import base list sets strings.
From S2P Require Import Prelude PrimeField Curve ModelCurve Dleq.

(** [str::as_bytes] on text of one-byte characters. *)
Definition as_bytes (s : string) : list Z :=
  (λ c, Z.of_nat (nat_of_ascii c)) <$> list_ascii_of_string s.

Set Warnings "-register-all".

(** ** Masks and mask proofs *)
Section Mask.
Context `{C : Curve} `{HH : Hashes}.

Record Mask := { public_mask : Point; secret_mask : Scalar }.

(** [secret] is [C::Scalar::rand_vartime()]. *)
Definition Mask_new (secret : Scalar) : Mask :=
  {| public_mask := scalar_mul base_point_or_generator secret; secret_mask := secret |}.

(** [MaskProof] wraps a DLEQ proof; [r] is the nonce it draws. *)
Definition MaskProof : Type := DLEQProof.

Definition MaskProof_create (r : Scalar) (secret_mask : Scalar) (unique_str : string)
    : outcome Error MaskProof :=
  pt ← hash_to_curve (as_bytes unique_str);
  DLEQProof_new r pt secret_mask.

Definition MaskProof_verify_and_get_output (self : MaskProof) (public_mask : Point)
    (unique_str : string) : outcome Error Point :=
  pt ← hash_to_curve (as_bytes unique_str);
  verify_and_get_output self public_mask pt.

(** The error is an [anyhow!] message. *)
Definition invert_mask_and_obtain_prf (secret_mask : Scalar) (network_output : Point)
    : outcome Error (list Z) :=
  inv ← mul_inv secret_mask;
  match inv with
  | None => Err (Other "Could not invert mask")
  | Some i =>
      let unmasked := scalar_mul network_output i in
      h ← hash_from_curve unmasked;
      Ok (to_bytes_be h)
  end.
End Mask.

(** ** JWT claims *)

(** [serde_json::Value]. *)
Inductive Value : Type :=
  | VNull
  | VBool (b : bool)
  | VNumber (n : Z)
  | VString (s : string)
  | VArray (l : list Value)
  | VObject (fields : list (string * Value)).

(** [Value::get] with a string key, [as_str], [as_bool]. *)
Fixpoint assoc (key : string) (fields : list (string * Value)) : option Value :=
  match fields with
  | [] => None
  | (k, v) :: rest => if bool_decide (k = key) then Some v else assoc key rest
  end.
Definition get (v : Value) (key : string) : option Value :=
  match v with VObject fields => assoc key fields | _ => None end.
Definition as_str (v : Value) : option string :=
  match v with VString s => Some s | _ => None end.
Definition as_bool (v : Value) : option bool :=
  match v with VBool b => Some b | _ => None end.

Record JWTClaims := {
  iss : string; aud : option string; azp : option string; sub : string; pubmask : string;
  salt : option string; from_enclave : option bool
}.

(** [str::split] on a character. *)
Fixpoint split_on (sep : ascii) (s cur : list ascii) : list (list ascii) :=
  match s with
  | [] => [cur]
  | c :: s => if bool_decide (c = sep) then cur :: split_on sep s []
              else split_on sep s (cur ++ [c])
  end.
Definition split (sep : ascii) (s : string) : list string :=
  string_of_list_ascii <$> split_on sep (list_ascii_of_string s) [].

(** [base64] and [serde_json], which the decoder calls. *)
Class JwtDecoders := {
  base64_url_decode : string → option (list Z);
  json_from_slice : list Z → option Value
}.

Section Claims_decoding.
Context `{JD : JwtDecoders}.

Definition from_raw_token_unchecked (token : string) : outcome string JWTClaims :=
  match split "." token with
  | [_; payload; _] =>
      bytes ← ok_or (base64_url_decode payload) "base64"%string;
      claims ← ok_or (json_from_slice bytes) "json"%string;
      let e := "JWT claim missing"%string in
      let required key := v ← ok_or (get claims key) e; ok_or (as_str v) e in
      let optional key := get claims key ≫= as_str in
      iss ← required "iss"%string;
      sub ← required "sub"%string;
      pubmask ← required "pubmask"%string;
      Ok {| iss := iss; aud := optional "aud"%string; azp := optional "azp"%string; sub := sub;
            pubmask := pubmask; salt := optional "salt"%string;
            from_enclave := (λ v, default false (as_bool v)) <$> get claims "from_enclave"%string |}
  | _ => Err "Invalid JWT format"%string
  end.
End Claims_decoding.

(** [join(",")]. *)
Definition join_comma (l : list string) : string :=
  match l with
  | [] => EmptyString
  | s :: l => fold_left (λ acc t, String.append acc (String.append "," t)) l s
  end.

Definition default_salt : string := "human-default-salt".

Definition unique_string (self : JWTClaims) : outcome string string :=
  login_at_domain ← ok_or (match azp self with Some a => Some a | None => aud self end)
                          "JWT must include azp or aud"%string;
  Ok (join_comma [login_at_domain; iss self; sub self; default default_salt (salt self)]).

(** ** Facts *)
Definition comma_free (s : string) : Prop := ","%char ∉ list_ascii_of_string s.

Lemma list_ascii_append s t :
  list_ascii_of_string (String.append s t) = list_ascii_of_string s ++ list_ascii_of_string t.
Proof. induction s as [|c s IH]; [done|].
  transitivity (c :: list_ascii_of_string (String.append s t)); [done|]. by rewrite IH. Qed.

Lemma list_ascii_inj s t : list_ascii_of_string s = list_ascii_of_string t → s = t.
Proof.
  intros H. rewrite <- (string_of_list_ascii_of_string s), H.
  apply string_of_list_ascii_of_string.
Qed.

(** The part before the first separator is determined. *)
Lemma app_sep_inj {A} (c : A) (l1 l2 r1 r2 : list A) : c ∉ l1 → c ∉ l2 →
  l1 ++ c :: r1 = l2 ++ c :: r2 → l1 = l2 ∧ r1 = r2.
Proof.
  revert l2. induction l1 as [|a l1 IH]; intros [|b l2] H1 H2 Heq; cbn in Heq; simplify_eq.
  - done.
  - set_solver.
  - set_solver.
  - destruct (IH l2) as [-> ->]; set_solver.
Qed.

(** Joining four comma-free parts is injective (the last may contain commas). *)
Lemma join4_inj a b c d a' b' c' d' :
  comma_free a → comma_free b → comma_free c → comma_free a' → comma_free b' → comma_free c' →
  join_comma [a; b; c; d] = join_comma [a'; b'; c'; d'] → a = a' ∧ b = b' ∧ c = c' ∧ d = d'.
Proof.
  unfold comma_free. intros Ha Hb Hc Ha' Hb' Hc' Heq. cbn in Heq.
  apply (f_equal list_ascii_of_string) in Heq.
  repeat (rewrite list_ascii_append in Heq || cbn in Heq). rewrite <- !app_assoc in Heq. cbn in Heq.
  apply app_sep_inj in Heq as [H1%list_ascii_inj Heq]; [|done..].
  apply app_sep_inj in Heq as [H2%list_ascii_inj Heq]; [|done..].
  apply app_sep_inj in Heq as [H3%list_ascii_inj H4%list_ascii_inj]; done.
Qed.

Section MaskClaims.
Context `{C : Curve} {CL : CurveLaws C} `{HH : Hashes}.
Add Field S_field : (f_field_theory (F:=Scalar)).

(** The whole injected-mask flow computes the PRF: for a user string that hashes
    to a nonzero point, a nonzero mask [m] and nonce, the proof is created and
    accepted under the public mask [m⋅G] with output [m⋅H]; and when the network
    multiplies that output by its key [k], unmasking gives the bytes of
    [hash_from_curve] of [k⋅H], whatever the mask was. *)
Theorem zkmask_flow (m r k : Scalar) (u : string) (Hpt : Point) (prf : Z) :
  hash_to_curve (as_bytes u) = Ok Hpt → Hpt ≠ ZERO → m ≠ 0%F → r ≠ 0%F →
  hash_from_curve (scalar_mul Hpt k) = Ok prf →
  ∃ pr out, MaskProof_create r (secret_mask (Mask_new m)) u = Ok pr ∧
    MaskProof_verify_and_get_output pr (public_mask (Mask_new m)) u = Ok out ∧
    invert_mask_and_obtain_prf m (scalar_mul out k) = Ok (to_bytes_be prf).
Proof.
  intros Hh Hnz Hm Hr Hprf. pose proof (hash_to_curve_sub _ _ Hh) as Hsub.
  destruct (DLEQ_new_total r Hpt m) as [pr Hpr]; [done..|].
  exists pr, (scalar_mul Hpt m). unfold MaskProof_create, MaskProof_verify_and_get_output.
  rewrite Hh. cbn [mbind outcome_bind Mask_new public_mask secret_mask]. split; [done|].
  split; [exact (DLEQ_new_verify r Hpt m pr Hsub Hpr)|].
  unfold invert_mask_and_obtain_prf. rewrite mul_inv_nonzero by done. cbn [mbind outcome_bind].
  rewrite !smul_mul by auto with subgroup. replace (m * (k * f_inv m))%F with k by (by field).
  by rewrite Hprf.
Qed.
End MaskClaims.

(** What the unique string distinguishes: on claims whose domain, issuer and
    subject contain no comma, equal unique strings mean equal domain (azp, or aud
    without azp), issuer, subject and salt, a missing salt counting as the default
    one. *)
Theorem unique_string_injective (c1 c2 : JWTClaims) (d1 d2 u : string) :
  (match azp c1 with Some a => Some a | None => aud c1 end) = Some d1 →
  (match azp c2 with Some a => Some a | None => aud c2 end) = Some d2 →
  Forall comma_free [d1; iss c1; sub c1; d2; iss c2; sub c2] →
  unique_string c1 = Ok u → unique_string c2 = Ok u →
  d1 = d2 ∧ iss c1 = iss c2 ∧ sub c1 = sub c2 ∧
  default default_salt (salt c1) = default default_salt (salt c2).
Proof.
  intros H1 H2 Hf Hu1 Hu2. unfold unique_string in *. rewrite H1 in Hu1. rewrite H2 in Hu2.
  cbn [ok_or mbind outcome_bind] in *.
  rewrite !Forall_cons in Hf. destruct Hf as (? & ? & ? & ? & ? & ? & _).
  apply join4_inj; [done..|congruence].
Qed.

(** With commas in the claims the unique string is not unique: two different
    users of different issuers get one string, and so do a token without salt and one
    whose salt is the default text. *)
Theorem unique_string_collision :
  (∃ c1 c2, iss c1 ≠ iss c2 ∧ sub c1 ≠ sub c2 ∧ unique_string c1 = unique_string c2 ∧
    is_Ok (unique_string c1)) ∧
  (∃ c1 c2, salt c1 ≠ salt c2 ∧ unique_string c1 = unique_string c2 ∧ is_Ok (unique_string c1)).
Proof.
  split.
  - exists {| iss := "i"; aud := Some "d"%string; azp := None; sub := "u,v"; pubmask := "";
              salt := None; from_enclave := None |},
           {| iss := "i,u"; aud := Some "d"%string; azp := None; sub := "v"; pubmask := "";
              salt := None; from_enclave := None |}. done.
  - exists {| iss := "i"; aud := Some "d"%string; azp := None; sub := "u"; pubmask := "";
              salt := None; from_enclave := None |},
           {| iss := "i"; aud := Some "d"%string; azp := None; sub := "u"; pubmask := "";
              salt := Some default_salt; from_enclave := None |}. done.
Qed.

(** Decoding a token: it succeeds exactly on three dot-separated parts whose
    middle one is base64 of a JSON object with string claims iss, sub and pubmask;
    an optional claim of another type is dropped, except [from_enclave], which then
    reads as false. *)
Theorem from_raw_token_spec `{JD : JwtDecoders} (token : string) (c : JWTClaims) :
  from_raw_token_unchecked token = Ok c ↔
  ∃ header payload sg bytes v,
    split "." token = [header; payload; sg] ∧ base64_url_decode payload = Some bytes ∧
    json_from_slice bytes = Some v ∧
    get v "iss" = Some (VString (iss c)) ∧ get v "sub" = Some (VString (sub c)) ∧
    get v "pubmask" = Some (VString (pubmask c)) ∧
    aud c = get v "aud" ≫= as_str ∧ azp c = get v "azp" ≫= as_str ∧
    salt c = get v "salt" ≫= as_str ∧
    from_enclave c = (λ x, match x with VBool b => b | _ => false end) <$> get v "from_enclave".
Proof.
  unfold from_raw_token_unchecked. split.
  - repeat case_match; try done. intros Hok. inv_ok. subst.
    eexists _, _, _, _, _. split; [done|]. split; [done|]. split; [done|].
    cbn [iss sub pubmask aud azp salt from_enclave].
    repeat match goal with
    | H : as_str ?x = Some _ |- _ => destruct x; try discriminate H; injection H as ->
    end.
    repeat split; auto. by destruct (get _ "from_enclave") as [[]|].
  - intros (h & p & sg & bs & v & -> & Hb & Hj & Hi & Hs & Hp & Ha & Hz & Hsa & Hf).
    rewrite Hb. cbn [ok_or mbind outcome_bind]. rewrite Hj. cbn [ok_or mbind outcome_bind].
    rewrite Hi. cbn [ok_or mbind outcome_bind as_str]. rewrite Hs.
    cbn [ok_or mbind outcome_bind as_str]. rewrite Hp. cbn [ok_or mbind outcome_bind as_str].
    rewrite <- Ha, <- Hz, <- Hsa. destruct c. cbn in *. subst. f_equal. f_equal.
    by destruct (get v "from_enclave") as [[]|].
Qed.

Import ModelInstances.

Lemma zkmask_flow_witness :
  let Hpt := Zmod.of_Z q101 (be_val (as_bytes "ab") + 1) in
  ∃ pr out,
    MaskProof_create (C:=model_curve) (f_of_Z 17 : Z101) (f_of_Z 9 : Z101) "ab" = Ok pr ∧
    MaskProof_verify_and_get_output (C:=model_curve) pr
      (scalar_mul (Curve:=model_curve) G (f_of_Z 9 : Z101)) "ab" = Ok out ∧
    invert_mask_and_obtain_prf (C:=model_curve) (f_of_Z 9 : Z101)
      (scalar_mul (Curve:=model_curve) out (f_of_Z 7 : Z101))
    = Ok (to_bytes_be (Zmod.unsigned (Zmod.mul Hpt (f_of_Z 7)))).
Proof.
  intros Hpt.
  apply (zkmask_flow (C:=model_curve) (f_of_Z 9 : Z101) (f_of_Z 17 : Z101) (f_of_Z 7 : Z101)
           "ab" Hpt); vm_compute; done.
Defined.

Lemma unique_string_injective_witness :
  let c1 := {| iss := "https://issuer"; aud := Some "site"%string; azp := None; sub := "u1";
               pubmask := ""; salt := None; from_enclave := None |} in
  let c2 := {| iss := "https://issuer"; aud := None; azp := Some "site"%string; sub := "u1";
               pubmask := "00"; salt := Some default_salt; from_enclave := Some true |} in
  unique_string c1 = unique_string c2 ∧ sub c1 = sub c2.
Proof.
  intros c1 c2. split; [reflexivity|].
  destruct (unique_string_injective c1 c2 "site" "site"
    "site,https://issuer,u1,human-default-salt") as (_ & _ & H & _);
    [reflexivity|reflexivity| |reflexivity|reflexivity|exact H].
  repeat constructor; intros Hin; unfold comma_free in *; vm_compute in Hin; set_solver.
Defined.

#[local] Instance toy_decoders : JwtDecoders := {|
  base64_url_decode s := Some (as_bytes s);
  json_from_slice b := Some (VObject [("iss", VString "i"); ("sub", VString "s");
    ("pubmask", VString "p"); ("from_enclave", VNumber 1)])%string
|}.

Lemma from_raw_token_spec_witness :
  from_raw_token_unchecked "aa.bb.cc" =
  Ok {| iss := "i"; aud := None; azp := None; sub := "s"; pubmask := "p"; salt := None;
        from_enclave := Some false |}.
Proof.
  apply from_raw_token_spec. exists "aa"%string, "bb"%string, "cc"%string. cbn.
  eexists _, _. repeat split; reflexivity.
Defined.
