(* ===== verification/Request.v ===== *)
(** * Requests to the network (crates/messages/src/network_utils.rs, jwt.rs)

    The signed request, the credits a signer has for each method, the accounting
    of requests in Redis, and the verification of JSON web tokens.  Ethereum
    signatures, contract calls, Redis and the token library are parameters. *)
From Stdlib Require Import ZArith Lia Ascii String Zmod.
From stdpp Require Import base list gmap strings.
From S2P Require Import Prelude PrimeField Curve ModelCurve Dleq Schnorr Encryption NodeSelection Serialization ZkMask.

(** ** Methods *)
Inductive Method : Type :=
  | OPRFSecp256k1
  | OPRFBabyJubJub
  | DecryptBabyJubJub
  | JWTPRFSecp256k1.

#[export] Instance Method_eq_dec : EqDecision Method.
Proof. solve_decision. Defined.

Definition method_as_str (m : Method) : string :=
  match m with
  | OPRFSecp256k1 => "OPRFSecp256k1"
  | OPRFBabyJubJub => "OPRFBabyJubJub"
  | DecryptBabyJubJub => "DecryptBabyJubJub"
  | JWTPRFSecp256k1 => "JWTPRFSecp256k1"
  end.

Definition method_from_str (s : string) : option Method :=
  if bool_decide (s = "OPRFSecp256k1"%string) then Some OPRFSecp256k1
  else if bool_decide (s = "OPRFBabyJubJub"%string) then Some OPRFBabyJubJub
  else if bool_decide (s = "DecryptBabyJubJub"%string) then Some DecryptBabyJubJub
  else if bool_decide (s = "JWTPRFSecp256k1"%string) then Some JWTPRFSecp256k1
  else None.

(** ** Ethereum signatures, contracts and serialization *)
Definition Address : Type := list Z.

Class Eth := {
  Signature : Type;
  Wallet : Type;
  wallet_address : Wallet → Address;
  sign_message : Wallet → list Z → option Signature;
  sig_recover : Signature → list Z → option Address;
  (** [Signature::try_from(&[u8])]. *)
  sig_from_bytes : list Z → option Signature;
  (** [HumanCreditsRobustNet::credits_for], a [U256]. *)
  credits_for : Address → option Z;
  (** [DecryptContract::can_decrypt]: contract, user, keccak256 of the point. *)
  can_decrypt : Address → Address → list Z → option bool;
  keccak256 : list Z → list Z
}.

Record RequestToNetwork `{Eth} := {
  method : Method;
  point : list Z;
  epoch : Z;
  request_per_user : Z;
  signature : option Signature;
  extra_data : option (list Z)
}.

Section Types.
Context `{E : Eth}.

Definition with_signature (s : option Signature) (r : RequestToNetwork) : RequestToNetwork :=
  {| method := method r; point := point r; epoch := epoch r;
     request_per_user := request_per_user r; signature := s; extra_data := extra_data r |}.

(** The nodes that answer a request. *)
Context {Err : Type} `{RG : Rng}.

Definition is_for_my_node (self : RequestToNetwork) (t_plus_epsilon my_node_idx : Z)
    (new_provers_idxes : list Z) : outcome Err bool :=
  should_be_sent_to_node (epoch self) (request_per_user self) t_plus_epsilon my_node_idx
    new_provers_idxes.

Definition get_nodes (self : RequestToNetwork) (t_plus_epsilon : Z) (nodes_idxes : list Z)
    : outcome Err (list Z) :=
  calc_nodes_to_send_to (epoch self) (request_per_user self) t_plus_epsilon nodes_idxes.
End Types.

(** ** JSON web tokens (jwt.rs) *)
Class Jwt `{Eth} := {
  jwt_decoders :: JwtDecoders;
  base64_standard_decode : string → option (list Z);
  (** The Redis entry of an issuer's keys, and the download of them. *)
  jwk_cache_get : string → option string;
  json_from_str : string → option Value;
  jwk_download : string → option Value;
  (** [DecodingKey::from_rsa_components] and [decode::<JWTClaims>] with RS256. *)
  jwt_decode : string → string → string → option JWTClaims;
  (** The configured enclave signer, if it parses as an address. *)
  enclave_signer_address : option Address
}.

Section JwtVerify.
Context `{E : Eth} `{J : !Jwt}.

(** [get_jwk]: with a connection the cache is read, and nothing else is tried;
    without one the keys are downloaded. *)
Definition get_jwk (issuer : string) (use_cache : bool) : outcome string Value :=
  if use_cache then
    cached ← ok_or (jwk_cache_get issuer) "redis"%string;
    ok_or (json_from_str cached) "json"%string
  else ok_or (jwk_download issuer) "download"%string.

Definition verify_enclave_jwt (jwt : string) : outcome string unit :=
  signer ← ok_or enclave_signer_address "address"%string;
  unvalidated ← from_raw_token_unchecked jwt;
  if negb (default false (from_enclave unvalidated)) then Err "Must be from enclave"%string else
  sg ← ok_or (split "." jwt !! 2%nat) "JWT lacks signature"%string;
  bytes ← ok_or (base64_standard_decode sg) "base64"%string;
  sg ← ok_or (sig_from_bytes bytes) "signature"%string;
  u ← unique_string unvalidated;
  recovered ← ok_or (sig_recover sg (as_bytes u)) "recover"%string;
  if bool_decide (recovered = signer) then Ok tt
  else Err "JWT signature does not match enclave signer address"%string.

(** The key at [key_idx] of a key set, as modulus and exponent. *)
Definition select_key (jwk : Value) (key_idx : nat) : outcome string (string * string) :=
  keys ← ok_or (get jwk "keys") "JWK lacks 'keys' field"%string;
  keys ← ok_or (match keys with VArray l => Some l | _ => None end)
               "JWK 'keys' is not an array"%string;
  key ← ok_or (keys !! key_idx) "JWK key index is out of boudns"%string;
  n ← ok_or (get key "n") "JWK key (assuming RSA) is missing modulus"%string;
  n ← ok_or (as_str n) "key has invalid format"%string;
  e ← ok_or (get key "e") "JWK key (assuming RSA) is missing exponent"%string;
  e ← ok_or (as_str e) "key has invalid format"%string;
  Ok (n, e).

Definition verify_jwt (jwt : string) (key_idx : nat) (use_cache : bool)
    : outcome string (string * string) :=
  unvalidated ← from_raw_token_unchecked jwt;
  if default false (from_enclave unvalidated) then
    _ ← verify_enclave_jwt jwt;
    u ← unique_string unvalidated;
    Ok (u, pubmask unvalidated)
  else
    jwk ← get_jwk (iss unvalidated) use_cache;
    '(modulus, exponent) ← select_key jwk key_idx;
    claims ← ok_or (jwt_decode modulus exponent jwt) "InvalidSignature"%string;
    if bool_decide (iss claims = iss unvalidated) then
      u ← unique_string claims;
      Ok (u, pubmask claims)
    else Err "Issuer in the JWT does not match the issuer whose key was fetched"%string.
End JwtVerify.

(** ** Credits and accounting *)

(** Redis as the accounting uses it: [total_count:<method>:0x<user>] to a number. *)
Abbreviation Redis := (gmap string Z).

Section Accounting.
(** [CB] is BabyJubJub, [CS] is secp256k1. *)
Context (CB CS : Curve) `{HH : Hashes} `{E : Eth} `{J : !Jwt}.

(** [FrontendData] (zkinjmask.rs). *)
Record FrontendData := { jwt : string; key_idx : nat; mask_proof : MaskProof (C:=CS) }.

(** [bincode] on the request and on the two kinds of extra data. *)
Class RequestCodec := {
  serialize_request : RequestToNetwork → option (list Z);
  deserialize_conditions : list Z → option (ElGamalCiphertextWithSignedConditions (C:=CB));
  deserialize_frontend : list Z → option FrontendData
}.
Context `{RC : !RequestCodec}.

Definition _sign (self : RequestToNetwork) (wallet : Wallet) : outcome string Signature :=
  bytes ← ok_or (serialize_request self) "bincode"%string;
  ok_or (sign_message wallet bytes) "sign"%string.

Definition signed (self : RequestToNetwork) (wallet : Wallet) : outcome string RequestToNetwork :=
  match signature self with
  | Some _ => Err "Request already signed"%string
  | None => sg ← _sign self wallet; Ok (with_signature (Some sg) self)
  end.

Definition recover (self : RequestToNetwork) : outcome string Address :=
  match signature self with
  | Some s =>
      bytes ← ok_or (serialize_request (with_signature None self)) "bincode"%string;
      ok_or (sig_recover s bytes) "recover"%string
  | None => Err "Request not signed"%string
  end.

(** [as_u128] panics on a larger balance. *)
Definition standard_credits (user : Address) : outcome string Z :=
  balance ← ok_or (credits_for user) "Failed to get user's credits"%string;
  if balance <? 2 ^ 128 then Ok balance else Panic.

Definition crypto_err (e : Error) : string :=
  match e with InvalidSignature => "Invalid signature" | _ => "cryptography" end.

Definition get_user_credits (self : Method) (user : Address) (point : list Z)
    (extra_data : option (list Z)) : outcome string Z :=
  match self with
  | OPRFSecp256k1 | OPRFBabyJubJub => standard_credits user
  | DecryptBabyJubJub =>
      credits ← standard_credits user;
      match extra_data with
      | Some extra_data =>
          data ← ok_or (deserialize_conditions extra_data) "bincode"%string;
          '(contract, pubkey) ← map_err crypto_err (get_contract_and_pubkey_if_valid (C:=CB) data);
          point ← map_err crypto_err (from_encoded (Curve:=CB) point);
          if bool_decide (point = pubkey) then
            c1 ← map_err crypto_err (encode (Curve:=CB) (ephemeral_dh_pubkey (ciphertext data)));
            can ← ok_or (can_decrypt contract user (keccak256 c1))
                        "Failed to get user's credits"%string;
            if can : bool then Ok credits else Ok 0
          else Err "Point provided does not match the public key in the signature"%string
      | None => Err "No extra data provided for DecryptBabyJubJub method"%string
      end
  | JWTPRFSecp256k1 =>
      credits ← standard_credits user;
      match extra_data with
      | Some raw_data =>
          fd ← ok_or (deserialize_frontend raw_data) "bincode"%string;
          '(unique_str, public_mask) ←
            match verify_jwt (jwt fd) (key_idx fd) true with
            | Err _ => verify_jwt (jwt fd) (key_idx fd) false
            | r => r
            end;
          mask_bytes ← ok_or (hex_decode public_mask) "hex"%string;
          mask ← map_err crypto_err (from_encoded (Curve:=CS) mask_bytes);
          _ ← map_err crypto_err
                (MaskProof_verify_and_get_output (C:=CS) (mask_proof fd) mask unique_str);
          Ok credits
      | None => Err "No extra data provided for JWTPRFSecp256k1 method"%string
      end
  end.

Definition count_key (m : Method) (user : Address) : string :=
  String.append "total_count:"
    (String.append (method_as_str m) (String.append ":0x" (hex_encode user))).

(** [GET] of a [u32]: a missing key is [None], a number out of range an error. *)
Definition redis_get_u32 (db : Redis) (key : string) : outcome string (option Z) :=
  match db !! key with
  | None => Ok None
  | Some v => if (0 <=? v) && (v <? 2 ^ 32) then Ok (Some v) else Err "redis type error"%string
  end.

(** A Kafka record on the credits topic: user, method, exhausted credits. *)
Definition KafkaCredits : Type := Address * string * Z.

Definition account_request_from_signer (self : RequestToNetwork) (record : bool) (db : Redis)
    : outcome string (Z * Redis * list KafkaCredits) :=
  user ← recover self;
  credits ← get_user_credits (method self) user (point self) (extra_data self);
  let key := count_key (method self) user in
  stored ← redis_get_u32 db key;
  let stored_requests_per_user := default 0 stored in
  let new_credits_per_user := u32 (stored_requests_per_user + 1) in
  if u32 credits <? new_credits_per_user then Err "No credits for a request"%string else
  if record then
    Ok (1, <[key := new_credits_per_user]> db,
        [(user, method_as_str (method self), request_per_user self)])
  else Ok (1, db, []).

(** [as i64] on a [u128]. *)
Definition as_i64 (z : Z) : Z := (z + 2 ^ 63) mod 2 ^ 64 - 2 ^ 63.

Definition verify_account_request_from_signer (self : RequestToNetwork) (db : Redis)
    : outcome string Redis :=
  user ← recover self;
  credits ← get_user_credits (method self) user (point self) (extra_data self);
  let key := count_key (method self) user in
  stored ← redis_get_u32 db key;
  let stored_requests_per_user := default 0 stored in
  db ← (if as_i64 stored_requests_per_user <? as_i64 (request_per_user self) then
          if credits <? request_per_user self then Err "request number above credits"%string
          else if request_per_user self <? 2 ^ 63
               then Ok (<[key := request_per_user self]> db)
               else Err "out of range integral type conversion attempted"%string
        else Ok db);
  if credits <? request_per_user self then Err "No credits for a request"%string else Ok db.
End Accounting.

(** ** Facts *)
Class EthLaws (E : Eth) : Prop := {
  (** An address is a list of bytes, and a signature recovers to its signer. *)
  recover_bytes s m a : sig_recover s m = Some a → Forall is_byte a;
  recover_signed w m s : sign_message w m = Some s → sig_recover s m = Some (wallet_address w)
}.

Lemma method_str_roundtrip m : method_from_str (method_as_str m) = Some m.
Proof. by destruct m. Qed.

Lemma method_as_str_inj m1 m2 : method_as_str m1 = method_as_str m2 → m1 = m2.
Proof. by destruct m1, m2. Qed.

Lemma method_colon_free m : ":"%char ∉ list_ascii_of_string (method_as_str m).
Proof. destruct m; apply (bool_decide_unpack _); vm_compute; exact I. Qed.

(** Different methods or users have different counters. *)
Lemma count_key_inj m1 m2 u1 u2 : Forall is_byte u1 → Forall is_byte u2 →
  count_key m1 u1 = count_key m2 u2 → m1 = m2 ∧ u1 = u2.
Proof.
  intros H1 H2 Heq. unfold count_key in Heq. apply (f_equal list_ascii_of_string) in Heq.
  rewrite !list_ascii_append in Heq. apply app_inv_head in Heq.
  change (list_ascii_of_string ":0x") with (":"%char :: list_ascii_of_string "0x") in Heq.
  cbn [app] in Heq. apply app_sep_inj in Heq as [Hm Hu]; [|apply method_colon_free..].
  split; [by apply method_as_str_inj, list_ascii_inj|].
  apply app_inv_head, list_ascii_inj, (f_equal hex_decode) in Hu.
  rewrite !hex_decode_encode in Hu by done. congruence.
Qed.

Section AccountingFacts.
Context (CB CS : Curve) `{HH : Hashes} `{E : Eth} {EL : EthLaws E} `{J : !Jwt}.
Context `{RC : !RequestCodec CB CS}.
Implicit Types (r : RequestToNetwork) (db : Redis).
Local Abbreviation account := (account_request_from_signer CB CS).
Local Abbreviation credits_of := (get_user_credits CB CS).

Lemma standard_credits_Ok user c : standard_credits user = Ok c → credits_for user = Some c.
Proof. unfold standard_credits. intros H. inv_ok. case_match; by simplify_eq. Qed.

(** No method grants more than the standard credits. *)
Lemma get_user_credits_bound m user pt ed c :
  credits_of m user pt ed = Ok c → ∃ c0, credits_for user = Some c0 ∧ (c = c0 ∨ c = 0).
Proof.
  unfold get_user_credits. destruct m; intros Hc; [eauto using standard_credits_Ok..| |]; inv_ok;
    match goal with H : standard_credits _ = Ok _ |- _ => apply standard_credits_Ok in H end.
  - destruct ed; [|done]. inv_ok. destruct x1 as [? ?]. inv_ok. repeat case_match; inv_ok; eauto.
    destruct x3; inv_ok; subst; eauto.
  - destruct ed; [|done]. inv_ok. destruct x1 as [? ?]. inv_ok. subst. eauto.
Qed.

Lemma signed_recover r w r' : signature r = None →
  signed CB CS r w = Ok r' → recover CB CS r' = Ok (wallet_address w).
Proof.
  intros Hs Hr. unfold signed, _sign in Hr. rewrite Hs in Hr. inv_ok. subst r'.
  unfold recover. cbn. replace (with_signature None (with_signature (Some x) r)) with r.
  - match goal with H : serialize_request _ _ _ = Some _ |- _ => rewrite H end. cbn.
    by erewrite recover_signed.
  - destruct r. cbn in Hs. by subst.
Qed.

Lemma recover_is_bytes r user : recover CB CS r = Ok user → Forall is_byte user.
Proof.
  unfold recover. case_match; [|done]. intros Hr. inv_ok. by eapply recover_bytes.
Qed.

(** What acceptance does. *)
Lemma account_Ok r db n db' k : account r true db = Ok (n, db', k) →
  ∃ user c s, recover CB CS r = Ok user ∧
    credits_of (method r) user (point r) (extra_data r) = Ok c ∧
    redis_get_u32 db (count_key (method r) user) = Ok s ∧
    u32 (default 0 s + 1) ≤ u32 c ∧ n = 1 ∧
    db' = <[count_key (method r) user := u32 (default 0 s + 1)]> db.
Proof.
  unfold account_request_from_signer. intros Ha. inv_ok. case_match eqn:Hlt; [done|].
  inv_ok. simplify_eq. apply Z.ltb_ge in Hlt. eauto 10.
Qed.

Lemma account_accepts r db user c s :
  recover CB CS r = Ok user →
  credits_of (method r) user (point r) (extra_data r) = Ok c →
  redis_get_u32 db (count_key (method r) user) = Ok s →
  u32 (default 0 s + 1) ≤ u32 c →
  account r true db = Ok (1, <[count_key (method r) user := u32 (default 0 s + 1)]> db,
    [(user, method_as_str (method r), request_per_user r)]).
Proof.
  intros Hu Hc Hs Hle. unfold account_request_from_signer. rewrite Hu. cbn [mbind outcome_bind].
  rewrite Hc. cbn [mbind outcome_bind]. rewrite Hs. cbn [mbind outcome_bind].
  destruct (Z.ltb_spec (u32 c) (u32 (default 0 s + 1))); [lia|done].
Qed.

Lemma redis_get_lookup db key s : redis_get_u32 db key = Ok s →
  s = db !! key ∧ 0 ≤ default 0 s < 2 ^ 32.
Proof.
  unfold redis_get_u32. destruct (db !! key) as [v|]; [|intros [= <-]; split; [done|cbn; lia]].
  case_match eqn:Hv; [|done]. intros [= <-]. apply andb_true_iff in Hv as [Hv1 Hv2].
  cbn. split; [done|]. lia.
Qed.

(** The relay handles requests one after the other; [accepted] logs the ones it
    let through. *)
Definition handle_one (st : Redis * list (Method * Address)) r : Redis * list (Method * Address) :=
  match account r true st.1, recover CB CS r with
  | Ok (_, db', _), Ok user => (db', (method r, user) :: st.2)
  | _, _ => st
  end.
Definition handle_all (rs : list RequestToNetwork) : Redis * list (Method * Address) :=
  foldl handle_one (∅, []) rs.

Definition accepted_count (m : Method) (user : Address) (log : list (Method * Address)) : nat :=
  length (filter (λ p, p = (m, user)) log).

(** The counter of a user is the number of that user's accepted requests, and stays
    within the credits. *)
Definition counted (m : Method) (user : Address) (c : Z)
    (st : Redis * list (Method * Address)) : Prop :=
  default 0 (st.1 !! count_key m user) = Z.of_nat (accepted_count m user st.2) ∧
  Z.of_nat (accepted_count m user st.2) ≤ c.

Lemma handle_one_counted m user c st r : Forall is_byte user → credits_for user = Some c →
  0 ≤ c < 2 ^ 32 - 1 → counted m user c st → counted m user c (handle_one st r).
Proof.
  intros Hb Hc Hr [Hcnt Hle]. unfold handle_one.
  destruct (account r true (st.1)) as [[[n db'] k]| |] eqn:Ha; [|done..].
  apply account_Ok in Ha as (u & c' & s & Hu & Hcr & Hs & Hlt & -> & ->). rewrite Hu.
  apply redis_get_lookup in Hs as [-> Hs]. unfold counted, accepted_count in *. cbn [fst snd].
  rewrite filter_cons. destruct (decide ((method r, u) = (m, user))) as [Heq|Hne].
  - injection Heq as <- ->. rewrite lookup_insert_eq, decide_True by done. cbn [default length].
    rewrite Hcnt in *. set (a := length _) in *.
    assert (u32 (Z.of_nat a + 1) = Z.of_nat a + 1) as -> by (apply wrap_small; lia).
    assert (u32 (Z.of_nat a + 1) = Z.of_nat a + 1) as Hw by (apply wrap_small; lia).
    rewrite Hw in Hlt. apply get_user_credits_bound in Hcr as (c0 & Hc0 & Hor).
    rewrite Hc in Hc0. injection Hc0 as <-.
    assert (u32 c = c) as Huc by (apply wrap_small; lia).
    assert (u32 0 = 0) as Hu0 by done. unfold id. destruct Hor as [-> | ->]; lia.
  - rewrite decide_False by done. rewrite lookup_insert_ne; [done|].
    intros [Hm Hu']%count_key_inj; [by simplify_eq|by eapply recover_is_bytes|done].
Qed.

Lemma handle_all_counted rs m user c : Forall is_byte user → credits_for user = Some c →
  0 ≤ c < 2 ^ 32 - 1 → counted m user c (handle_all rs).
Proof.
  intros Hb Hc Hr. unfold handle_all. assert (counted m user c (∅, [])) as H0.
  { unfold counted, accepted_count. cbn. rewrite lookup_empty. cbn. lia. }
  revert H0. generalize (∅ : Redis, @nil (Method * Address)) as st.
  induction rs as [|r rs IH]; intros st Hst; cbn; [exact Hst|]. by apply IH, handle_one_counted.
Qed.

(** The counter decides alone. *)
Lemma account_iff_credits r st user c c' : credits_for user = Some c → 0 ≤ c < 2 ^ 32 - 1 →
  counted (method r) user c st → recover CB CS r = Ok user →
  credits_of (method r) user (point r) (extra_data r) = Ok c' →
  is_Ok (account r true st.1) ↔ Z.of_nat (accepted_count (method r) user st.2) < c'.
Proof.
  intros Hc Hr [Hcnt Hle] Hu Hcr. set (a := Z.of_nat _) in *.
  assert (0 ≤ a) as Ha by (unfold a; lia).
  assert (redis_get_u32 st.1 (count_key (method r) user) = Ok (st.1 !! count_key (method r) user)) as Hs.
  { unfold redis_get_u32. destruct (st.1 !! count_key (method r) user) as [v|]; [|done]. cbn in Hcnt.
    destruct (Z.leb_spec 0 v), (Z.ltb_spec v (2 ^ 32)); done || lia. }
  assert (u32 (a + 1) = a + 1) as Hw by (apply wrap_small; lia).
  assert (u32 c' = c') as Hw'.
  { apply get_user_credits_bound in Hcr as (c0 & Hc0 & Hor). apply wrap_small. destruct Hor; simplify_eq; lia. }
  unfold account_request_from_signer. rewrite Hu. cbn [mbind outcome_bind]. rewrite Hcr. cbn [mbind outcome_bind].
  rewrite Hs. cbn [mbind outcome_bind]. rewrite Hcnt, Hw, Hw'.
  destruct (Z.ltb_spec c' (a + 1)); split; intros; (done || lia || by eexists).
Qed.

(** C25: The credits bound the answers, and nothing else does.  Starting from an empty
    Redis, after any sequence of requests of any users, the number of accepted requests of
    one user for one method equals that user's counter and is at most the user's credits
    (below [2^32 - 1], where the 32-bit arithmetic is exact).  The next request of the user
    for the method, with credits [c'], is then accepted if and only if fewer than [c']
    requests were: its epoch and its request number are not looked at, so a request of the
    sequence that is sent again is accepted as a new one would be.  The documentation of
    [account_request_from_signer] promises the two checks, and [test_request_number_checking]
    and [test_babyjubjub_decryption_accounting] expect them; the code does not make them. *)
Theorem credits_never_exceeded (rs : list RequestToNetwork) (m : Method) (user : Address) (c : Z) :
  Forall is_byte user → credits_for user = Some c → 0 ≤ c < 2 ^ 32 - 1 →
  default 0 ((handle_all rs).1 !! count_key m user)
    = Z.of_nat (accepted_count m user (handle_all rs).2) ∧
  Z.of_nat (accepted_count m user (handle_all rs).2) ≤ c ∧
  ∀ r c', method r = m → recover CB CS r = Ok user →
    credits_of m user (point r) (extra_data r) = Ok c' →
    is_Ok (account r true (handle_all rs).1) ↔
      Z.of_nat (accepted_count m user (handle_all rs).2) < c'.
Proof.
  intros Hb Hc Hr. pose proof (handle_all_counted rs m user c Hb Hc Hr) as Hcnt.
  split_and!; [apply Hcnt..|]. intros r c' <-. by apply account_iff_credits with (c:=c).
Qed.

(** A signed request can be replayed: with credits for two more requests left, the
    very same request is accepted twice in a row, and a request that differs only in
    epoch, request number and signature (of the same signer) is accounted the same
    way: neither number is looked at. *)
Theorem request_replay_accepted r db user c s :
  recover CB CS r = Ok user →
  credits_of (method r) user (point r) (extra_data r) = Ok c →
  redis_get_u32 db (count_key (method r) user) = Ok s →
  default 0 s + 2 ≤ u32 c →
  (∃ db1 db2 k, account r true db = Ok (1, db1, k) ∧ account r true db1 = Ok (1, db2, k)) ∧
  (∀ r2, method r2 = method r → point r2 = point r → extra_data r2 = extra_data r →
    recover CB CS r2 = Ok user →
    ∃ db1 k k2, account r true db = Ok (1, db1, k) ∧ account r2 true db = Ok (1, db1, k2)).
Proof.
  intros Hu Hc Hs Hle. pose proof (redis_get_lookup _ _ _ Hs) as [_ Hr].
  pose proof (wrap_range 32 c ltac:(lia)) as Hw. fold (u32 c) in Hw.
  assert (∀ x, 0 ≤ x ≤ u32 c → u32 x = x) as Hsmall by (intros; apply wrap_small; lia).
  split.
  - set (n := default 0 s + 1) in *. assert (u32 n = n) as Hn by (apply Hsmall; lia).
    pose proof (account_accepts r db user c s Hu Hc Hs) as A1. fold n in A1. rewrite Hn in A1.
    eexists _, _, _. split; [apply A1; lia|].
    apply (account_accepts r _ user c (Some n) Hu Hc).
    + unfold redis_get_u32. rewrite lookup_insert_eq.
      destruct (Z.leb_spec 0 n), (Z.ltb_spec n (2 ^ 32)); done || lia.
    + change (default 0 (Some n)) with n. rewrite Hsmall; lia.
  - intros r2 Hm Hp He Hu2.
    assert (u32 (default 0 s + 1) ≤ u32 c) as Hle1 by (rewrite Hsmall; lia).
    pose proof (account_accepts r2 db user c s Hu2) as H2. rewrite Hm, Hp, He in H2.
    rewrite (H2 Hc Hs Hle1), (account_accepts r db user c s Hu Hc Hs Hle1). eauto.
Qed.

(** What ties the extra data to the point that gets multiplied.  For decryption,
    positive credits require a valid signature of the condition contract by the very
    point of the request, and the contract's consent.  For the JWT method the point
    is not examined at all: the credits are the same for every point. *)
Theorem extra_data_binding (user : Address) (pt pt2 ed : list Z) (c : Z) :
  (credits_of DecryptBabyJubJub user pt (Some ed) = Ok c → 0 < c →
    ∃ data contract P c1, deserialize_conditions CB CS ed = Some data ∧
      verify (C:=CB) contract P (sig (signed_conditions data)) = Ok tt ∧
      from_encoded (Curve:=CB) pt = Ok P ∧ encode (Curve:=CB) P = Ok c1 ∧
      can_decrypt contract user (keccak256 c1) = Some true) ∧
  credits_of JWTPRFSecp256k1 user pt (Some ed) = credits_of JWTPRFSecp256k1 user pt2 (Some ed).
Proof.
  split; [|reflexivity]. intros Hc Hpos. unfold get_user_credits in Hc. inv_ok.
  destruct x1 as [contract pubkey]. unfold get_contract_and_pubkey_if_valid, _verify in *.
  inv_ok. case_match eqn:Hp; [|done]. apply bool_decide_eq_true in Hp. inv_ok. simplify_eq.
  match goal with u : unit |- _ => destruct u end.
  match goal with H : (if ?b then _ else _) = Ok _ |- _ => destruct b; inv_ok; [|lia] end.
  eauto 10.
Qed.
End AccountingFacts.

Section JwtFacts.
Context `{E : Eth} `{J : !Jwt}.

(** The enclave's signature does not cover the public mask: if an enclave token is
    accepted, then so is every enclave token with the same signature part and the same
    unique string, and it is the second token's own mask that is returned. *)
Theorem enclave_pubmask_unauthenticated (t1 t2 : string) (c1 c2 : JWTClaims) (i : nat)
    (use_cache : bool) (u : string) :
  from_raw_token_unchecked t1 = Ok c1 → from_raw_token_unchecked t2 = Ok c2 →
  from_enclave c1 = Some true → from_enclave c2 = Some true →
  split "." t1 !! 2%nat = split "." t2 !! 2%nat → unique_string c1 = unique_string c2 →
  verify_jwt t1 i use_cache = Ok (u, pubmask c1) →
  verify_jwt t2 i use_cache = Ok (u, pubmask c2).
Proof.
  intros H1 H2 He1 He2 Hs Hu Hv. unfold verify_jwt, verify_enclave_jwt in *.
  rewrite !H1 in Hv. rewrite !H2. cbn [mbind outcome_bind] in *. rewrite He1 in Hv. rewrite He2.
  cbn [default from_option id negb] in *. inv_ok.
  repeat match goal with
  | H : ?e = Some _ |- context [ok_or ?e _] => rewrite H; cbn [ok_or mbind outcome_bind]
  end.
  rewrite <- Hs, <- Hu.
  repeat match goal with
  | H : ?e = Some _ |- context [ok_or ?e _] => rewrite H; cbn [ok_or mbind outcome_bind]
  | H : unique_string _ = Ok _ |- _ => rewrite H; cbn [mbind outcome_bind]
  end.
  assert (x5 = x0) as -> by congruence. rewrite H8. cbn. rewrite H9. cbn. by subst.
Qed.
End JwtFacts.

(** ** Instances of the claims *)
Module RequestExamples.
Import ModelInstances.

(** A signature is the signer's address; every user has three credits. *)
#[local] Instance toy_eth : Eth := {|
  Signature := Address; Wallet := Address;
  wallet_address w := w;
  sign_message w m := if forallb (λ b, (0 <=? b) && (b <? 256)) w then Some w else None;
  sig_recover s m := if forallb (λ b, (0 <=? b) && (b <? 256)) s then Some s else None;
  sig_from_bytes b := Some b;
  credits_for _ := Some 3;
  can_decrypt _ _ _ := Some true;
  keccak256 b := b
|}.

#[local] Instance toy_eth_laws : EthLaws toy_eth.
Proof.
  constructor; cbn.
  - intros s m a. case_match eqn:Hb; [|done]. intros [= <-]. apply Forall_forall. intros x Hx.
    rewrite forallb_forall in Hb. specialize (Hb x (proj1 (list_elem_of_In _ _) Hx)).
    unfold is_byte. lia.
  - intros w m s. case_match eqn:Hb; [|done]. intros [= <-]. by rewrite Hb.
Qed.

(** Tokens are base64-free: the payload "x" and "y" differ in the mask only. *)
Definition toy_claims (mask : string) : Value :=
  VObject [("iss", VString "i"); ("sub", VString "s"); ("aud", VString "d");
           ("pubmask", VString mask); ("from_enclave", VBool true)]%string.

#[local] Instance toy_jwt : Jwt := {|
  jwt_decoders := {| base64_url_decode s := Some (as_bytes s);
    json_from_slice b := Some (toy_claims (if bool_decide (b = [120]) then "aa" else "bb")) |};
  base64_standard_decode s := Some (as_bytes s);
  jwk_cache_get _ := None; json_from_str _ := None; jwk_download _ := None;
  jwt_decode _ _ _ := None;
  enclave_signer_address := Some (as_bytes "g")
|}.

Definition toy_conditions : ElGamalCiphertextWithSignedConditions (C:=model_curve) :=
  {| ciphertext := Build_ElGamalCiphertext (C:=model_curve) Zmod.zero (f_of_Z 5 : Z101);
     signed_conditions := {| contract := [9]; sig :=
       match sign (C:=model_curve) (f_of_Z 17 : Z101) (f_of_Z 5 : Z101) [9] with
       | Ok sg => sg | _ => Build_SchnorrSig (C:=model_curve) Zmod.zero Zmod.zero end |} |}.

#[local] Instance toy_codec : RequestCodec model_curve model_curve := {|
  serialize_request _ := Some [];
  deserialize_conditions _ := Some toy_conditions;
  deserialize_frontend _ := None
|}.

Definition toy_request (n : Z) : RequestToNetwork :=
  {| method := OPRFSecp256k1; point := [7]; epoch := 1; request_per_user := n;
     signature := Some [1; 2]; extra_data := None |}.

(** A user with three credits sends request 1 twice and request 7: the replay is counted as
    a request, and the fourth request is refused although its number is new. *)
Lemma credits_never_exceeded_witness :
  let account r rs := account_request_from_signer model_curve model_curve r true
                        (handle_all model_curve model_curve rs).1 in
  is_Ok (account (toy_request 1) [toy_request 1]) ∧
  ¬ is_Ok (account (toy_request 8) [toy_request 1; toy_request 1; toy_request 7]).
Proof.
  assert (Forall is_byte [1; 2]) as Hb by (repeat constructor; discriminate).
  split.
  - apply (credits_never_exceeded model_curve model_curve [toy_request 1] OPRFSecp256k1 [1; 2] 3 Hb
      ltac:(reflexivity) ltac:(lia)) with (c' := 3); vm_compute; reflexivity.
  - intros Hok.
    destruct (credits_never_exceeded model_curve model_curve [toy_request 1; toy_request 1; toy_request 7]
      OPRFSecp256k1 [1; 2] 3 Hb ltac:(reflexivity) ltac:(lia)) as (_ & _ & Hiff).
    apply (Hiff (toy_request 8) 3) in Hok; [|vm_compute; reflexivity..].
    revert Hok. vm_compute. discriminate.
Defined.

Lemma request_replay_accepted_witness :
  ∃ db1 db2 k,
    account_request_from_signer model_curve model_curve (toy_request 1) true ∅ = Ok (1, db1, k) ∧
    account_request_from_signer model_curve model_curve (toy_request 1) true db1 = Ok (1, db2, k).
Proof.
  apply (request_replay_accepted model_curve model_curve (toy_request 1) ∅ [1; 2] 3 None);
    vm_compute; done.
Defined.

Lemma extra_data_binding_witness :
  ∃ data contract P c1,
    deserialize_conditions model_curve model_curve [0] = Some data ∧
    verify (C:=model_curve) contract P (sig (signed_conditions data)) = Ok tt ∧
    from_encoded (Curve:=model_curve) [5] = Ok P ∧ encode (Curve:=model_curve) P = Ok c1 ∧
    can_decrypt contract [1; 2] (keccak256 c1) = Some true.
Proof.
  apply (extra_data_binding model_curve model_curve [1; 2] [5] [6] [0] 3);
    vm_compute; reflexivity.
Defined.

Definition toy_decoded (mask : string) : JWTClaims :=
  {| iss := "i"; aud := Some "d"%string; azp := None; sub := "s"; pubmask := mask;
     salt := None; from_enclave := Some true |}.

Lemma enclave_pubmask_unauthenticated_witness :
  verify_jwt "h.y.g" 0 true = Ok ("d,i,s,human-default-salt", "bb")%string.
Proof.
  apply (enclave_pubmask_unauthenticated "h.x.g" "h.y.g" (toy_decoded "aa") (toy_decoded "bb")
           0 true); vm_compute; reflexivity.
Defined.
End RequestExamples.
