(* ===== verification/Messages.v ===== *)
(** * Messages between the actors (crates/messages/src/message.rs, drand.rs, utils.rs)

    The data the actors exchange: provers, election parameters, and the messages of
    the actors.  The variants that carry requests, proofs or reply channels are with the
    actor that handles them ([AppState], [Gossip]). *)
From Stdlib Require Import ZArith Lia.
From stdpp Require Import base list gmap strings.
From S2P Require Import Prelude ConcreteCurves.

(** [libp2p::PeerId]: an opaque identifier. *)
Abbreviation PeerId := Z (only parsing).

(** [voting_power] is a [U256]: four 64-bit limbs, least significant first. *)
Record ProverInfo := {
  evm_address : list Z;
  peer_id : PeerId;
  address : string;
  rpcaddr : string;
  human_pub_key : list Z;
  rsa_pub_key : string;
  voting_power : list Z;
  idx : Z
}.
#[export] Instance ProverInfo_eq_dec : EqDecision ProverInfo.
Proof. solve_decision. Defined.

(** [HasWeight for ProverInfo]: the little-endian bytes of the limbs, read back. *)
Definition prover_weight (self : ProverInfo) : Z :=
  le_val (concat (le_bytes 8 <$> voting_power self)).

Record ElectionInfo := { threshold : Z; epsilon : Z; total_provers : Z }.
Definition ElectionInfo_new (threshold epsilon total_provers : Z) : ElectionInfo :=
  {| threshold := threshold; epsilon := epsilon; total_provers := total_provers |}.

Record DrandResponse := {
  round : Z; randomness : string; drand_signature : string; previous_signature : string
}.
Definition DrandResponse_default : DrandResponse :=
  {| round := 0; randomness := ""; drand_signature := ""; previous_signature := "" |}.

(** [HashMap<PeerId, (ProverInfo, NodeIdx)>]. *)
Abbreviation QuorumMap := (gmap PeerId (ProverInfo * Z)).
(** [HashMap<String, Vec<u8>>]: key shares or group keys by method. *)
Abbreviation KeyMap := (gmap string (list Z)).

(** Round outputs: encrypted shares by node, encoded commitments, and in the first
    round of the key generation the node's own share. *)
Abbreviation Round1Output := (gmap Z (list Z) * list (list Z) * list Z)%type.
Abbreviation ResharingRound1Output := (gmap Z (list Z) * list (list Z))%type.

Inductive MonitorEvent := MonitorDKG | MonitorResharing | MultiplicationResult (uuid : string).

(** [enum Message]: what is gossiped.  [ForwardMulRequest] and the variants that are not
    serialized carry requests and channels and are in [Gossip]. *)
Inductive Message : Type :=
  | ElectedProvers (info : ElectionInfo) (provers : list ProverInfo)
  | ReElectedProvers (info : ElectionInfo) (tstar new : QuorumMap) (group_keys : KeyMap)
      (drand : DrandResponse)
  | Round1Out (node : Z) (out : gmap string Round1Output)
  | ResharingRound1Out (node : Z) (out : gmap string ResharingRound1Output)
  | Round2Out (node : Z) (out : KeyMap)
  | ResharingRound2Out (node : Z) (out : KeyMap)
  | Ready (node : Z) (peer : PeerId) (pubshares group_keys : KeyMap)
  | ResharingPrepared (node : Z) (peer : PeerId) (pubshares : KeyMap)
  | ReportElectionNodeStatus (peer : PeerId)
  | ReportReElectionNodeStatus (peer : PeerId)
  | StartDKGInit
  | StartResharingInit
  | DKGInitCompleted (peer : PeerId)
  | ResharingInitCompleted (peer : PeerId)
  | StartDKGRound1
  | StartResharingRound1
  | DKGRound1Completed (peer : PeerId)
  | ResharingRound1Completed (peer : PeerId)
  | StartDKGRound2
  | StartResharingRound2
  | DKGRound2Completed (peer : PeerId)
  | ResharingRound2Completed (peer : PeerId)
  | StartDKGRound3
  | StartResharingRound3
  | ReElection
  | Subscribe (topic : string)
  | Unsubscribe (topic : string)
  | MessageText (text : string)
  | AddToBlacklist (peer : PeerId)
  | RemoveFromBlacklist (peer : PeerId)
  | RollbackToPreviousState
  | SaveCurrentState.

(** [enum AppStateChangeMessage]: the variants without requests, proofs and reply
    channels. *)
Inductive AppStateChangeMessage : Type :=
  | UpdateElectedProvers (provers : list ProverInfo) (is_cache : bool)
  | UpdatedThreshold (info : ElectionInfo)
  | UpdateNodeIdx (i : Z)
  | StoreKeyShares (shares : KeyMap)
  | StoreQuorumMap (tstar new : QuorumMap)
  | AppClearShares
  | ForwardReElectedProvers (info : ElectionInfo) (tstar new : QuorumMap) (drand : DrandResponse)
  | UpdateCachedProversMap (new : QuorumMap)
  | MonitorQuorumFormation (event : MonitorEvent)
  | StoreKSet (peer : PeerId) (pubshares : KeyMap) (i : Z) (group_keys : KeyMap)
  | ResharingStoreKSet (peer : PeerId) (pubshares : KeyMap) (i : Z)
  | PreResharing
  | BackupState
  | AppRollbackToPreviousState
  | AppSaveCurrentState.

(** [enum DkgEngineMessage]. *)
Inductive DkgEngineMessage : Type :=
  | Init (i : Z) (peer : PeerId) (provers : QuorumMap) (t : Z)
  | Round1
  | DkgRound1Out (node : Z) (out : gmap string Round1Output)
  | Round2
  | StoreReceivedPublicKey (node : Z) (pubshares : KeyMap)
  | StoreResharedReceivedPublicKey (node : Z) (pubshares : KeyMap)
  | Round3
  | ResharingInit (i : Z) (tstar new : QuorumMap) (info : ElectionInfo) (peer : PeerId)
      (group_keys : KeyMap)
  | ResharingRound1 (info : ElectionInfo) (is_relected : bool)
  | DkgResharingRound1Out (node : Z) (out : gmap string ResharingRound1Output)
  | ResharingRound2
  | ResharingRound3
  | DkgClearShares
  | DkgStartDKGRound1
  | DkgStartDKGRound2
  | DkgStartDKGRound3
  | DkgStartResharingRound1
  | DkgStartResharingRound2
  | DkgStartResharingRound3.

(** [struct ElectionParams]; the percentage is a float. *)
Record ElectionParams {F : Type} := {
  p_threshold : option F; p_epsilon : option Z; p_min_nodes : option Z
}.
Arguments ElectionParams : clear implicits.

(** [enum ElectionEngineMessage]; a request's reply channel is the handler's output. *)
Inductive ElectionEngineMessage {F : Type} : Type :=
  | Participating (peer : PeerId) (is_relected : bool)
  | FirstElection
  | TriggerReElection (prev : list ProverInfo)
  | CheckElectedStatus (provers : list ProverInfo)
  | CheckReElectedStatus (info : ElectionInfo) (tstar new : QuorumMap) (group_keys : KeyMap)
      (drand : DrandResponse)
  | RecordElectionNodeStatus (peer : PeerId)
  | RecordRelectionNodeStatus (peer : PeerId)
  | ElectionStartDKGInit
  | ElectionStartResharingInit
  | RecordDKGInitNodeStatus (peer : PeerId)
  | RecordResharingInitNodeStatus (peer : PeerId)
  | RecordDKGRound1NodeStatus (peer : PeerId)
  | RecordResharingRound1NodeStatus (peer : PeerId)
  | RecordDKGRound2NodeStatus (peer : PeerId)
  | RecordResharingRound2NodeStatus (peer : PeerId)
  | AddToExclusionList (peer : PeerId)
  | RemoveFromExclusionList (peer : PeerId)
  | GetExclusionList
  | UpdateElectionParams (params : ElectionParams F)
  | GetElectionParams.
Arguments ElectionEngineMessage : clear implicits.

(** Replies on a request's channel ([enum NodeResponse], the variants sent here). *)
Inductive NodeResponse {F : Type} : Type :=
  | AddedToExclusionList (peer : PeerId)
  | RemovedFromExclusionList (peer : PeerId)
  | CurrentExcludedPeers (peers : gset PeerId)
  | ElectionParamsResponse (min_nodes epsilon : Z) (threshold : F)
  | ResponseError (request_id message : string).
Arguments NodeResponse : clear implicits.

(** What a handler emits: [cast_message!] to another actor, a gossip on the network
    topic, or a reply. *)
Inductive Output {F : Type} : Type :=
  | ToAppState (m : AppStateChangeMessage)
  | ToDkg (m : DkgEngineMessage)
  | Gossip (m : Message)
  | Reply (r : NodeResponse F)
  (** [API_TOKEN.lock().await.used = false]. *)
  | ResetApiToken.
Arguments Output : clear implicits.

(** How a handler ends: normally, with an error (which stops the actor), by a panic,
    or not yet (a loop still waiting for its condition). *)
Inductive HandlerResult : Type :=
  | HOk
  | HErr (message : string)
  | HPanic
  | HWaiting.

(** A prover's weight is its voting power. *)
Lemma le_val_app l1 l2 : le_val (l1 ++ l2) = le_val l1 + 256 ^ Z.of_nat (length l1) * le_val l2.
Proof. unfold le_val. rewrite reverse_app, be_val_app, length_reverse. lia. Qed.

Lemma prover_weight_limbs p a b c d : voting_power p = [a; b; c; d] →
  Forall (λ x, 0 ≤ x < 2 ^ 64) [a; b; c; d] →
  prover_weight p = a + 2 ^ 64 * (b + 2 ^ 64 * (c + 2 ^ 64 * d)).
Proof.
  intros Hp. rewrite !Forall_cons. intros (Ha & Hb & Hc & Hd & _).
  unfold prover_weight. rewrite Hp. cbn [fmap list_fmap concat].
  rewrite !le_val_app, !BabyJubJub.le_bytes_length, !BabyJubJub.le_val_bytes.
  change (256 ^ Z.of_nat 8) with (2 ^ 64). rewrite !Z.mod_small by done.
  change (le_val []) with 0. lia.
Qed.

Lemma prover_weight_nonneg p : 0 ≤ prover_weight p.
Proof.
  unfold prover_weight, le_val. apply be_val_range, Forall_reverse, Forall_concat, Forall_fmap.
  apply Forall_true. intros v. apply Forall_reverse, be_bytes_byte.
Qed.
