(* ===== verification/Election.v ===== *)
(** * The election engine (crates/actors/src/election_actor.rs)

    The actor's state, one definition per handler, and the barriers by which the relay
    starts each round of the key generation and of the resharing once every elected
    prover has reported the previous one.

    A handler returns the new state, what it emits in order, and how it ended.  What it
    asks the outside world for (the registered provers, who answers a ping, the drand
    beacon, the local generator) is an [Env]. *)
From Stdlib Require Import ZArith Lia Ascii String.
From stdpp Require Import base list gmap sets strings.
From Corelib Require Import Floats.SpecFloat.
From S2P Require Import Prelude Float64 NodeSelection Serialization Dkg Messages.

(** messages/lib.rs. *)
Inductive ElectionState := CollectingProposals | CollectedProposals | TriggerElection | QuorumElected.
#[export] Instance ElectionState_eq_dec : EqDecision ElectionState.
Proof. solve_decision. Defined.

Inductive RelectionStatus :=
  ReElected | StatusResharingInit | StatusResharingRound1 | StatusResharingRound2
| StatusResharingRound3.
#[export] Instance RelectionStatus_eq_dec : EqDecision RelectionStatus.
Proof. solve_decision. Defined.

Record ReElectionCheckContext := {
  ctx_tstar_provers : QuorumMap;
  ctx_new_provers : QuorumMap;
  ctx_group_keys : KeyMap;
  ctx_election_info : ElectionInfo
}.

(** [struct ElectionEngineState]; [self_id] is its [peer_id], [relay_node] the first
    component of the pair. *)
Record ElectionEngineState := {
  self_id : PeerId;
  relay_node : PeerId;
  current_state : ElectionState;
  tstar_provers : list ProverInfo;
  elected_provers : list ProverInfo;
  current_threshold : Z;
  election_status : gset PeerId;
  re_election_status : gmap PeerId RelectionStatus;
  dkg_init_status : gset PeerId;
  re_sharing_init_status : gmap PeerId RelectionStatus;
  dkg_round1_status : gset PeerId;
  dkg_round2_status : gset PeerId;
  re_sharing_round1_status : gmap PeerId RelectionStatus;
  re_sharing_round2_status : gmap PeerId RelectionStatus;
  re_election_check_context : option ReElectionCheckContext
}.

(** Assignments to the fields. *)
Definition set_current_state v (st : ElectionEngineState) : ElectionEngineState := {|
  self_id := self_id st; relay_node := relay_node st; current_state := v;
  tstar_provers := tstar_provers st; elected_provers := elected_provers st;
  current_threshold := current_threshold st; election_status := election_status st;
  re_election_status := re_election_status st; dkg_init_status := dkg_init_status st;
  re_sharing_init_status := re_sharing_init_status st;
  dkg_round1_status := dkg_round1_status st; dkg_round2_status := dkg_round2_status st;
  re_sharing_round1_status := re_sharing_round1_status st;
  re_sharing_round2_status := re_sharing_round2_status st;
  re_election_check_context := re_election_check_context st |}.
Definition set_tstar_provers v (st : ElectionEngineState) : ElectionEngineState := {|
  self_id := self_id st; relay_node := relay_node st; current_state := current_state st;
  tstar_provers := v; elected_provers := elected_provers st;
  current_threshold := current_threshold st; election_status := election_status st;
  re_election_status := re_election_status st; dkg_init_status := dkg_init_status st;
  re_sharing_init_status := re_sharing_init_status st;
  dkg_round1_status := dkg_round1_status st; dkg_round2_status := dkg_round2_status st;
  re_sharing_round1_status := re_sharing_round1_status st;
  re_sharing_round2_status := re_sharing_round2_status st;
  re_election_check_context := re_election_check_context st |}.
Definition set_elected_provers v (st : ElectionEngineState) : ElectionEngineState := {|
  self_id := self_id st; relay_node := relay_node st; current_state := current_state st;
  tstar_provers := tstar_provers st; elected_provers := v;
  current_threshold := current_threshold st; election_status := election_status st;
  re_election_status := re_election_status st; dkg_init_status := dkg_init_status st;
  re_sharing_init_status := re_sharing_init_status st;
  dkg_round1_status := dkg_round1_status st; dkg_round2_status := dkg_round2_status st;
  re_sharing_round1_status := re_sharing_round1_status st;
  re_sharing_round2_status := re_sharing_round2_status st;
  re_election_check_context := re_election_check_context st |}.
Definition set_current_threshold v (st : ElectionEngineState) : ElectionEngineState := {|
  self_id := self_id st; relay_node := relay_node st; current_state := current_state st;
  tstar_provers := tstar_provers st; elected_provers := elected_provers st;
  current_threshold := v; election_status := election_status st;
  re_election_status := re_election_status st; dkg_init_status := dkg_init_status st;
  re_sharing_init_status := re_sharing_init_status st;
  dkg_round1_status := dkg_round1_status st; dkg_round2_status := dkg_round2_status st;
  re_sharing_round1_status := re_sharing_round1_status st;
  re_sharing_round2_status := re_sharing_round2_status st;
  re_election_check_context := re_election_check_context st |}.
Definition set_election_status v (st : ElectionEngineState) : ElectionEngineState := {|
  self_id := self_id st; relay_node := relay_node st; current_state := current_state st;
  tstar_provers := tstar_provers st; elected_provers := elected_provers st;
  current_threshold := current_threshold st; election_status := v;
  re_election_status := re_election_status st; dkg_init_status := dkg_init_status st;
  re_sharing_init_status := re_sharing_init_status st;
  dkg_round1_status := dkg_round1_status st; dkg_round2_status := dkg_round2_status st;
  re_sharing_round1_status := re_sharing_round1_status st;
  re_sharing_round2_status := re_sharing_round2_status st;
  re_election_check_context := re_election_check_context st |}.
Definition set_re_election_status v (st : ElectionEngineState) : ElectionEngineState := {|
  self_id := self_id st; relay_node := relay_node st; current_state := current_state st;
  tstar_provers := tstar_provers st; elected_provers := elected_provers st;
  current_threshold := current_threshold st; election_status := election_status st;
  re_election_status := v; dkg_init_status := dkg_init_status st;
  re_sharing_init_status := re_sharing_init_status st;
  dkg_round1_status := dkg_round1_status st; dkg_round2_status := dkg_round2_status st;
  re_sharing_round1_status := re_sharing_round1_status st;
  re_sharing_round2_status := re_sharing_round2_status st;
  re_election_check_context := re_election_check_context st |}.
Definition set_dkg_init_status v (st : ElectionEngineState) : ElectionEngineState := {|
  self_id := self_id st; relay_node := relay_node st; current_state := current_state st;
  tstar_provers := tstar_provers st; elected_provers := elected_provers st;
  current_threshold := current_threshold st; election_status := election_status st;
  re_election_status := re_election_status st; dkg_init_status := v;
  re_sharing_init_status := re_sharing_init_status st;
  dkg_round1_status := dkg_round1_status st; dkg_round2_status := dkg_round2_status st;
  re_sharing_round1_status := re_sharing_round1_status st;
  re_sharing_round2_status := re_sharing_round2_status st;
  re_election_check_context := re_election_check_context st |}.
Definition set_re_sharing_init_status v (st : ElectionEngineState) : ElectionEngineState := {|
  self_id := self_id st; relay_node := relay_node st; current_state := current_state st;
  tstar_provers := tstar_provers st; elected_provers := elected_provers st;
  current_threshold := current_threshold st; election_status := election_status st;
  re_election_status := re_election_status st; dkg_init_status := dkg_init_status st;
  re_sharing_init_status := v; dkg_round1_status := dkg_round1_status st;
  dkg_round2_status := dkg_round2_status st;
  re_sharing_round1_status := re_sharing_round1_status st;
  re_sharing_round2_status := re_sharing_round2_status st;
  re_election_check_context := re_election_check_context st |}.
Definition set_dkg_round1_status v (st : ElectionEngineState) : ElectionEngineState := {|
  self_id := self_id st; relay_node := relay_node st; current_state := current_state st;
  tstar_provers := tstar_provers st; elected_provers := elected_provers st;
  current_threshold := current_threshold st; election_status := election_status st;
  re_election_status := re_election_status st; dkg_init_status := dkg_init_status st;
  re_sharing_init_status := re_sharing_init_status st; dkg_round1_status := v;
  dkg_round2_status := dkg_round2_status st;
  re_sharing_round1_status := re_sharing_round1_status st;
  re_sharing_round2_status := re_sharing_round2_status st;
  re_election_check_context := re_election_check_context st |}.
Definition set_dkg_round2_status v (st : ElectionEngineState) : ElectionEngineState := {|
  self_id := self_id st; relay_node := relay_node st; current_state := current_state st;
  tstar_provers := tstar_provers st; elected_provers := elected_provers st;
  current_threshold := current_threshold st; election_status := election_status st;
  re_election_status := re_election_status st; dkg_init_status := dkg_init_status st;
  re_sharing_init_status := re_sharing_init_status st;
  dkg_round1_status := dkg_round1_status st; dkg_round2_status := v;
  re_sharing_round1_status := re_sharing_round1_status st;
  re_sharing_round2_status := re_sharing_round2_status st;
  re_election_check_context := re_election_check_context st |}.
Definition set_re_sharing_round1_status v (st : ElectionEngineState) : ElectionEngineState := {|
  self_id := self_id st; relay_node := relay_node st; current_state := current_state st;
  tstar_provers := tstar_provers st; elected_provers := elected_provers st;
  current_threshold := current_threshold st; election_status := election_status st;
  re_election_status := re_election_status st; dkg_init_status := dkg_init_status st;
  re_sharing_init_status := re_sharing_init_status st;
  dkg_round1_status := dkg_round1_status st; dkg_round2_status := dkg_round2_status st;
  re_sharing_round1_status := v; re_sharing_round2_status := re_sharing_round2_status st;
  re_election_check_context := re_election_check_context st |}.
Definition set_re_sharing_round2_status v (st : ElectionEngineState) : ElectionEngineState := {|
  self_id := self_id st; relay_node := relay_node st; current_state := current_state st;
  tstar_provers := tstar_provers st; elected_provers := elected_provers st;
  current_threshold := current_threshold st; election_status := election_status st;
  re_election_status := re_election_status st; dkg_init_status := dkg_init_status st;
  re_sharing_init_status := re_sharing_init_status st;
  dkg_round1_status := dkg_round1_status st; dkg_round2_status := dkg_round2_status st;
  re_sharing_round1_status := re_sharing_round1_status st; re_sharing_round2_status := v;
  re_election_check_context := re_election_check_context st |}.
Definition set_re_election_check_context v (st : ElectionEngineState) : ElectionEngineState := {|
  self_id := self_id st; relay_node := relay_node st; current_state := current_state st;
  tstar_provers := tstar_provers st; elected_provers := elected_provers st;
  current_threshold := current_threshold st; election_status := election_status st;
  re_election_status := re_election_status st; dkg_init_status := dkg_init_status st;
  re_sharing_init_status := re_sharing_init_status st;
  dkg_round1_status := dkg_round1_status st; dkg_round2_status := dkg_round2_status st;
  re_sharing_round1_status := re_sharing_round1_status st;
  re_sharing_round2_status := re_sharing_round2_status st; re_election_check_context := v |}.

(** The floating-point operations of [calculate_threshold]. *)
Class ThresholdFloat `{F64} := {
  f64_hundred : f64;
  f64_lt : f64 → f64 → bool;
  f64_of_usize : Z → f64;
  f64_mul : f64 → f64 → f64;
  f64_div : f64 → f64 → f64;
  (** [ceil() as u32]. *)
  f64_ceil_u32 : f64 → Z
}.

(** Both classes for IEEE double precision; [ln_1p], the conversion from [BigUint] and the
    random numbers are other libraries'. *)
Section Binary64.
Context `{RG : Rng} (ln_1p : float → float) (of_biguint : Z → option float)
  (gen : float → rng → option (float * rng)).

Definition binary64 : F64 := {|
  f64 := float; f64_zero := float_of_Z 0; f64_add := fadd; f64_sqrt := SFsqrt 53 1024;
  f64_ln_1p := ln_1p; f64_le := fle; f64_eqb := feqb; to_f64 := of_biguint; gen_range_f64 := gen
|}.
Definition binary64_threshold : ThresholdFloat (H0:=binary64) := {|
  f64_hundred := float_of_Z 100 : f64 (F64:=binary64); f64_lt := flt; f64_of_usize := float_of_Z;
  f64_mul := fmul; f64_div := fdiv; f64_ceil_u32 := ceil_u32
|}.
End Binary64.

(** [verify_drand] (drand.rs): the beacon's signature check. *)
Class Drand := { verify_drand : Z → list Z → list Z → bool }.

Definition TOTAL_BOOTSTRAP_RELAY_NODES : nat := 2.
Definition DRAND_ROUND_THRESHOLD_TOLERNACE : Z := 3.

(** What a handler asks for: the successive answers of [fetch_provers_v2], who answers
    each round of pings, the beacon ([None] when the fetch fails), and the bytes of the
    local generator. *)
Record Env := {
  provers_answers : list (list ProverInfo);
  ping_answers : list (ProverInfo → bool);
  drand_answer : option DrandResponse;
  local_random : list Z
}.

Section Engine.
Context `{RG : Rng} `{F : !F64} `{TF : !ThresholdFloat} `{DR : Drand}.

(** The saved state in the node's database. *)
Record Db := {
  db_exclusion : option (gset PeerId);
  db_threshold : option f64;
  db_min_nodes : option Z;
  db_epsilon : option Z
}.

(** The actor's state with the process-wide settings and exclusion list it uses. *)
Record World := {
  engine : ElectionEngineState;
  exclusion_list : gset PeerId;
  settings : Settings;
  db : Db
}.

Definition on_engine (f : ElectionEngineState → ElectionEngineState) (w : World) : World :=
  {| engine := f (engine w); exclusion_list := exclusion_list w; settings := settings w; db := db w |}.

Definition Handled : Type := World * list (Output f64) * HandlerResult.

Definition calculate_threshold (n : Z) (threshold_percentage : f64) : Z :=
  if f64_lt threshold_percentage f64_zero || f64_lt f64_hundred threshold_percentage then 0
  else if n =? 0 then 0
  else
    let intermediate := f64_div (f64_mul (f64_of_usize n) threshold_percentage) f64_hundred in
    let result := f64_ceil_u32 intermediate in
    if (result =? 0) && f64_lt f64_zero intermediate then 0 else result.

(** [pre_start]: the exclusion list and the settings come from the database. *)
Definition pre_start (self relay : PeerId) (st : Settings) (d : Db) : World :=
  let st := match db_threshold d with Some v => set_threshold v st | None => st end in
  let st := match db_min_nodes d with Some v => set_min_nodes v st | None => st end in
  let st := match db_epsilon d with Some v => set_epsilon v st | None => st end in
  {| engine := {| self_id := self; relay_node := relay; current_state := CollectingProposals;
       tstar_provers := []; elected_provers := []; current_threshold := 0;
       election_status := ∅; re_election_status := ∅; dkg_init_status := ∅;
       re_sharing_init_status := ∅; dkg_round1_status := ∅; dkg_round2_status := ∅;
       re_sharing_round1_status := ∅; re_sharing_round2_status := ∅;
       re_election_check_context := None |};
     exclusion_list := default ∅ (db_exclusion d); settings := st; db := d |}.

(** [ping_peers]: those that answer; an error when there are none. *)
Definition ping_peers (answers : ProverInfo → bool) (new_set : list ProverInfo)
    : option (list ProverInfo) :=
  match filter (λ p, answers p = true) new_set with
  | [] => None
  | reachable => Some reachable
  end.

(** [indexed_provers_map.get(prover).unwrap()] for every prover of a quorum, collected
    into a map: [None] when a prover is not in the map. *)
Definition quorum_map (indexed quorum : list ProverInfo) : option QuorumMap :=
  foldr (λ p m, m ← m; if bool_decide (p ∈ indexed) then Some (<[peer_id p := (p, idx p)]> m)
                       else None) (Some ∅) (reverse quorum).

Definition clear_statuses (st : ElectionEngineState) : ElectionEngineState :=
  set_election_status ∅ (set_re_election_status ∅ (set_re_sharing_init_status ∅
  (set_re_sharing_round1_status ∅ (set_re_sharing_round2_status ∅ (set_dkg_init_status ∅
  (set_dkg_round1_status ∅ (set_dkg_round2_status ∅ st))))))).

(** The randomness of a re-election and the beacon's answer that is forwarded with it. *)
Definition election_randomness (env : Env) : outcome string (list Z * DrandResponse) :=
  match drand_answer env with
  | None => Ok (local_random env, DrandResponse_default)
  | Some data =>
      prev_sig ← ok_or (hex_decode (previous_signature data)) "Invalid DRAND previous signature"%string;
      sg ← ok_or (hex_decode (drand_signature data)) "Invalid DRAND signature"%string;
      if verify_drand (round data) prev_sig sg then
        let rand_num :=
          match hex_decode (randomness data) with
          | Some rnd => if (32 <=? length rnd)%nat then take 32 rnd else local_random env
          | None => local_random env
          end in
        Ok (rand_num, data)
      else Ok (local_random env, DrandResponse_default)
  end.

(** The waiting loop at the start of a re-election. *)
Definition wait_provers (answers : list (list ProverInfo)) : option (list ProverInfo) :=
  match filter (λ l, (TOTAL_BOOTSTRAP_RELAY_NODES < length l)%nat) answers with
  | [] => None
  | l :: _ => Some l
  end.

Definition monitor (e : MonitorEvent) : Output f64 := ToAppState (MonitorQuorumFormation e).

(** The part of [TriggerReElection] after a sample was drawn. *)
Definition install_quorum (w : World) (indexed reachable_peers new_set : list ProverInfo)
    (prev_elected_provers : list ProverInfo) (min_nodes : Z) (drand_response : DrandResponse)
    : Handled :=
  let prev_elected_peer_ids := peer_id <$> prev_elected_provers in
  let t_star_quorum := filter (λ p, peer_id p ∈ prev_elected_peer_ids) reachable_peers in
  if current_threshold (engine w) <=? Z.of_nat (length t_star_quorum) then
    let new_quorum := take (Z.to_nat min_nodes) new_set in
    match quorum_map indexed t_star_quorum, quorum_map indexed new_quorum with
    | Some tstar_quorum_map, Some new_quorum_map =>
        let w' := on_engine (λ st, set_elected_provers new_quorum
                                     (set_tstar_provers t_star_quorum st)) w in
        let n := Z.of_nat (length new_quorum) in
        let threshold := calculate_threshold n (get_threshold (settings w)) in
        let info := ElectionInfo_new threshold (get_epsilon (settings w)) (u32 n) in
        (w', [ToAppState AppClearShares;
              ToAppState (UpdateElectedProvers new_quorum true);
              ToAppState (StoreQuorumMap tstar_quorum_map new_quorum_map);
              ToAppState (UpdatedThreshold info);
              ToAppState (ForwardReElectedProvers info tstar_quorum_map new_quorum_map drand_response);
              monitor MonitorResharing], HOk)
    | _, _ => (w, [], HPanic)
    end
  else (w, [], HOk).

(** [ElectionEngineMessage::TriggerReElection]. *)
Definition trigger_re_election (env : Env) (prev_elected_provers : list ProverInfo) (w : World)
    : Handled :=
  let w := on_engine clear_statuses w in
  match wait_provers (provers_answers env) with
  | None => (w, [], HWaiting)
  | Some fetched =>
      let participating := filter (λ p, peer_id p ∉ exclusion_list w) (drop 2 fetched) in
      if (length participating =? 0)%nat then (w, [], HErr "No valid participating provers") else
      let min_nodes := get_min_nodes (settings w) in
      match ping_peers (default (λ _, false) (head (ping_answers env))) participating with
      | None => (w, [], HErr "Peer ping failed")
      | Some reachable_peers =>
          if Z.of_nat (length reachable_peers) <? min_nodes then (w, [], HOk) else
          match election_randomness env with
          | Err e => (w, [], HErr e)
          | Panic => (w, [], HPanic)
          | Ok (rand_num, drand_response) =>
              match weighted_sample_n_no_replace (E:=string) prover_weight (settings w)
                      reachable_peers (Z.to_nat min_nodes) rand_num with
              | Ok (Some new_set) =>
                  install_quorum w participating reachable_peers new_set prev_elected_provers
                    min_nodes drand_response
              | Ok None => (w, [monitor MonitorResharing], HOk)
              | Err e => (w, [], HErr e)
              | Panic => (w, [], HPanic)
              end
          end
      end
  end.

(** The retry loop of the first election: the first round of pings in which enough of
    the provers answer. *)
Fixpoint ping_until (min_nodes : Z) (provers : list ProverInfo) (answers : list (ProverInfo → bool))
    : option (list ProverInfo) :=
  match answers with
  | [] => None
  | a :: answers =>
      match ping_peers a provers with
      | Some reachable =>
          if Z.of_nat (length reachable) <? min_nodes then ping_until min_nodes provers answers
          else Some reachable
      | None => ping_until min_nodes provers answers
      end
  end.

(** [conduct_election] and [handle_trigger_election]. *)
Definition conduct_election (env : Env) (w : World) : World * HandlerResult :=
  let w := on_engine (set_current_state TriggerElection) w in
  match provers_answers env with
  | [] => (w, HWaiting)
  | fetched :: _ =>
      let w := on_engine (set_elected_provers fetched) w in
      if (length fetched <? 2)%nat then (w, HPanic) else
      (on_engine (λ st, set_current_state QuorumElected
                          (set_elected_provers (drop 2 fetched) st)) w, HOk)
  end.

Definition handle_trigger_election (env : Env) (w : World) : Handled :=
  let '(w, r) := conduct_election env w in
  match r with
  | HOk =>
      let w := on_engine (λ st, set_dkg_init_status ∅ (set_dkg_round1_status ∅
                                  (set_dkg_round2_status ∅ st))) w in
      let min_nodes := get_min_nodes (settings w) in
      match ping_until min_nodes (elected_provers (engine w)) (ping_answers env) with
      | None => (w, [], HWaiting)
      | Some reachable_peers =>
          let elected := take (Z.to_nat min_nodes) reachable_peers in
          match quorum_map reachable_peers elected with
          | None => (w, [], HPanic)
          | Some new_quorum_map =>
              let n := Z.of_nat (length elected) in
              let threshold := calculate_threshold n (get_threshold (settings w)) in
              let info := ElectionInfo_new threshold (get_epsilon (settings w)) (u32 n) in
              let w := on_engine (λ st, set_current_threshold threshold
                                          (set_elected_provers elected st)) w in
              (w, [ToAppState (UpdateCachedProversMap new_quorum_map);
                   ToAppState (UpdateElectedProvers elected false);
                   ToAppState (UpdatedThreshold info);
                   Gossip (ElectedProvers info elected);
                   monitor MonitorDKG], HOk)
          end
      end
  | _ => (w, [], r)
  end.

Definition provers_map (l : list ProverInfo) : QuorumMap :=
  foldl (λ m p, <[peer_id p := (p, idx p)]> m) ∅ l.

Definition handle_check_elected_status (peer_ids : list ProverInfo) (w : World) : Handled :=
  let self := self_id (engine w) in
  match filter (λ p, peer_id p = self) peer_ids with
  | prover_info :: _ =>
      (on_engine (set_elected_provers peer_ids) w,
       [ToAppState (UpdateNodeIdx (u32 (idx prover_info)));
        ToAppState (UpdateCachedProversMap (provers_map peer_ids));
        Gossip (ReportElectionNodeStatus self)], HOk)
  | [] => (w, [], HOk)
  end.

Definition handle_check_re_elected_status (election_info : ElectionInfo)
    (tstar new : QuorumMap) (group_keys : KeyMap) (w : World) : Handled :=
  let self := self_id (engine w) in
  let w := on_engine (set_re_election_check_context (Some
    {| ctx_tstar_provers := tstar; ctx_new_provers := new; ctx_group_keys := group_keys;
       ctx_election_info := election_info |})) w in
  let clear := [ToAppState AppClearShares; ToDkg DkgClearShares] in
  let reports :=
    match tstar !! self with
    | Some _ => [Gossip (ReportReElectionNodeStatus self)]
    | None =>
        match new !! self with
        | Some (_, i) => [Gossip (ReportReElectionNodeStatus self);
                          ToAppState (UpdateNodeIdx (u32 i))]
        | None => []
        end
    end in
  (w, clear ++ reports ++ [ToAppState (UpdateCachedProversMap new)], HOk).

(** [ElectionEngineMessage::CheckReElectedStatus]: the freshness check of the beacon
    round that came with the gossip. *)
Definition check_re_elected_status (env : Env) (election_info : ElectionInfo)
    (tstar new : QuorumMap) (group_keys : KeyMap) (drand_response : DrandResponse) (w : World)
    : Handled :=
  let continue := handle_check_re_elected_status election_info tstar new group_keys w in
  match drand_answer env with
  | None => continue
  | Some data =>
      match hex_decode (previous_signature data), hex_decode (drand_signature data) with
      | Some prev_sig, Some sg =>
          if verify_drand (round data) prev_sig sg then
            if DRAND_ROUND_THRESHOLD_TOLERNACE <=? u64 (round data - round drand_response)
            then (w, [], HOk)
            else
              match hex_decode (previous_signature drand_response),
                    hex_decode (drand_signature drand_response) with
              | Some prev_sig', Some sg' =>
                  if verify_drand (round drand_response) prev_sig' sg' then continue
                  else (w, [], HOk)
              | _, _ => (w, [], HPanic)
              end
          else continue
      | _, _ => (w, [], HPanic)
      end
  end.

Definition handle_trigger_init_dkg (w : World) : Handled :=
  let self := self_id (engine w) in
  let peer_ids := elected_provers (engine w) in
  match filter (λ p, peer_id p = self) peer_ids with
  | prover_info :: _ =>
      let threshold := calculate_threshold (Z.of_nat (length peer_ids)) (get_threshold (settings w)) in
      (w, [ToDkg (Init (idx prover_info) self (provers_map peer_ids) threshold)], HOk)
  | [] => (w, [], HOk)
  end.

Definition handle_trigger_init_resharing (w : World) : Handled :=
  let self := self_id (engine w) in
  match re_election_check_context (engine w) with
  | None => (w, [], HOk)
  | Some ctx =>
      let init i := ToDkg (ResharingInit i (ctx_tstar_provers ctx) (ctx_new_provers ctx)
                             (ctx_election_info ctx) self (ctx_group_keys ctx)) in
      match ctx_tstar_provers ctx !! self with
      | Some (_, i) => (w, [init i], HOk)
      | None =>
          match ctx_new_provers ctx !! self with
          | Some (_, i) => (w, [init i; ToAppState (UpdateNodeIdx (u32 i))], HOk)
          | None => (w, [], HOk)
          end
      end
  end.

(** *** Reports and barriers *)

(** [elected_provers.iter().any(|prover| prover.peer_id == peer_id)]. *)
Definition is_elected (st : ElectionEngineState) (peer : PeerId) : bool :=
  existsb (λ p, bool_decide (peer_id p = peer)) (elected_provers st).

(** [RecordElectionNodeStatus]. *)
Definition record_election_status (peer : PeerId) (w : World) : Handled :=
  let st := engine w in
  let elected_peer_ids : gset PeerId := list_to_set (peer_id <$> elected_provers st) in
  let st := if bool_decide (peer ∈ elected_peer_ids)
            then set_election_status ({[peer]} ∪ election_status st) st else st in
  (on_engine (λ _, st) w,
   if (size (election_status st) =? size elected_peer_ids)%nat then [Gossip StartDKGInit] else [],
   HOk).

(** [RecordRelectionNodeStatus]. *)
Definition record_relection_status (peer : PeerId) (w : World) : Handled :=
  let st := engine w in
  if bool_decide (re_election_status st !! peer = Some ReElected) then (w, [], HOk) else
  let list_resharing_init_peers : gset PeerId :=
    list_to_set (peer_id <$> elected_provers st ++ tstar_provers st) in
  let st := if bool_decide (peer ∈ list_resharing_init_peers)
            then set_re_election_status (<[peer := ReElected]> (re_election_status st)) st
            else st in
  (on_engine (λ _, st) w,
   if (size (re_election_status st) =? size list_resharing_init_peers)%nat
   then [Gossip StartResharingInit] else [], HOk).

(** [RecordDKGInitNodeStatus]. *)
Definition record_dkg_init_status (peer : PeerId) (w : World) : Handled :=
  let st := engine w in
  let st := if is_elected st peer
            then set_dkg_init_status ({[peer]} ∪ dkg_init_status st) st else st in
  (on_engine (λ _, st) w,
   if (size (dkg_init_status st) =? length (elected_provers st))%nat
   then [Gossip StartDKGRound1] else [], HOk).

(** The first occurrence of every peer. *)
Fixpoint dedup_peers (seen : gset PeerId) (l : list ProverInfo) : list ProverInfo :=
  match l with
  | [] => []
  | p :: l => if bool_decide (peer_id p ∈ seen) then dedup_peers seen l
              else p :: dedup_peers ({[peer_id p]} ∪ seen) l
  end.

(** [RecordResharingInitNodeStatus]. *)
Definition record_resharing_init_status (peer : PeerId) (w : World) : Handled :=
  let st := engine w in
  if bool_decide (re_sharing_init_status st !! peer = Some StatusResharingInit)
  then (w, [], HOk) else
  let unique_provers := dedup_peers ∅ (tstar_provers st ++ elected_provers st) in
  let st := if existsb (λ p, bool_decide (peer_id p = peer)) unique_provers
            then set_re_sharing_init_status
                   (<[peer := StatusResharingInit]> (re_sharing_init_status st)) st
            else st in
  (on_engine (λ _, st) w,
   if (size (re_sharing_init_status st) =? length unique_provers)%nat
   then [Gossip StartResharingRound1] else [], HOk).

(** [RecordDKGRound1NodeStatus]. *)
Definition record_dkg_round1_status (peer : PeerId) (w : World) : Handled :=
  let st := engine w in
  let st := if is_elected st peer
            then set_dkg_round1_status ({[peer]} ∪ dkg_round1_status st) st else st in
  (on_engine (λ _, st) w,
   if (size (dkg_round1_status st) =? length (elected_provers st))%nat
   then [Gossip StartDKGRound2] else [], HOk).

(** [RecordResharingRound1NodeStatus]. *)
Definition record_resharing_round1_status (peer : PeerId) (w : World) : Handled :=
  let st := engine w in
  if bool_decide (re_sharing_round1_status st !! peer = Some StatusResharingRound1)
  then (w, [], HOk) else
  let st := if is_elected st peer
            then set_re_sharing_round1_status
                   (<[peer := StatusResharingRound1]> (re_sharing_round1_status st)) st
            else st in
  (on_engine (λ _, st) w,
   if (size (re_sharing_round1_status st) =? length (elected_provers st))%nat
   then [Gossip StartResharingRound2] else [], HOk).

(** [RecordDKGRound2NodeStatus]. *)
Definition record_dkg_round2_status (peer : PeerId) (w : World) : Handled :=
  let st := engine w in
  let st := if is_elected st peer
            then set_dkg_round2_status ({[peer]} ∪ dkg_round2_status st) st else st in
  (on_engine (λ _, st) w,
   if (size (dkg_round2_status st) =? length (elected_provers st))%nat
   then [Gossip StartDKGRound3] else [], HOk).

(** [RecordResharingRound2NodeStatus]. *)
Definition record_resharing_round2_status (peer : PeerId) (w : World) : Handled :=
  let st := engine w in
  if bool_decide (re_sharing_round2_status st !! peer = Some StatusResharingRound2)
  then (w, [], HOk) else
  let st := if is_elected st peer
            then set_re_sharing_round2_status
                   (<[peer := StatusResharingRound2]> (re_sharing_round2_status st)) st
            else st in
  (on_engine (λ _, st) w,
   if (size (re_sharing_round2_status st) =? length (elected_provers st))%nat
   then [Gossip StartResharingRound3] else [], HOk).

(** *** Administration: only on the relay node *)
Definition not_a_relay (w : World) : Handled :=
  (w, [Reply (ResponseError "" "Not a relay node")], HErr "Not a relay node").

Definition is_relay (w : World) : bool := bool_decide (self_id (engine w) = relay_node (engine w)).

Definition save_exclusion (l : gset PeerId) (w : World) : World :=
  {| engine := engine w; exclusion_list := l; settings := settings w;
     db := {| db_exclusion := Some l; db_threshold := db_threshold (db w);
              db_min_nodes := db_min_nodes (db w); db_epsilon := db_epsilon (db w) |} |}.

Definition add_to_exclusion_list (peer : PeerId) (w : World) : Handled :=
  if is_relay w then
    (save_exclusion ({[peer]} ∪ exclusion_list w) w, [Reply (AddedToExclusionList peer)], HOk)
  else not_a_relay w.

Definition remove_from_exclusion_list (peer : PeerId) (w : World) : Handled :=
  if is_relay w then
    (save_exclusion (exclusion_list w ∖ {[peer]}) w, [Reply (RemovedFromExclusionList peer)], HOk)
  else not_a_relay w.

Definition get_exclusion_list (w : World) : Handled :=
  if is_relay w then (w, [Reply (CurrentExcludedPeers (exclusion_list w))], HOk)
  else not_a_relay w.

Definition update_election_params (params : ElectionParams f64) (w : World) : Handled :=
  if is_relay w then
    let st := settings w in
    let st := match p_threshold params with Some v => set_threshold v st | None => st end in
    let st := match p_epsilon params with Some v => set_epsilon v st | None => st end in
    let st := match p_min_nodes params with Some v => set_min_nodes v st | None => st end in
    ({| engine := engine w; exclusion_list := exclusion_list w; settings := st;
        db := {| db_exclusion := db_exclusion (db w); db_threshold := Some (get_threshold st);
                 db_min_nodes := Some (get_min_nodes st); db_epsilon := Some (get_epsilon st) |} |},
     [Reply (ElectionParamsResponse (get_min_nodes st) (get_epsilon st) (get_threshold st))], HOk)
  else not_a_relay w.

Definition get_election_params (w : World) : Handled :=
  if is_relay w then
    (w, [Reply (ElectionParamsResponse (get_min_nodes (settings w)) (get_epsilon (settings w))
                  (get_threshold (settings w)))], HOk)
  else not_a_relay w.

(** [Actor::handle]. *)
Definition handle (env : Env) (message : ElectionEngineMessage f64) (w : World) : Handled :=
  match message with
  | TriggerReElection prev => trigger_re_election env prev w
  | FirstElection => handle_trigger_election env w
  | CheckElectedStatus peer_ids => handle_check_elected_status peer_ids w
  | CheckReElectedStatus info tstar new group_keys drand =>
      check_re_elected_status env info tstar new group_keys drand w
  | RecordElectionNodeStatus peer => record_election_status peer w
  | RecordRelectionNodeStatus peer => record_relection_status peer w
  | ElectionStartDKGInit => handle_trigger_init_dkg w
  | ElectionStartResharingInit => handle_trigger_init_resharing w
  | RecordDKGInitNodeStatus peer => record_dkg_init_status peer w
  | RecordResharingInitNodeStatus peer => record_resharing_init_status peer w
  | RecordDKGRound1NodeStatus peer => record_dkg_round1_status peer w
  | RecordResharingRound1NodeStatus peer => record_resharing_round1_status peer w
  | RecordDKGRound2NodeStatus peer => record_dkg_round2_status peer w
  | RecordResharingRound2NodeStatus peer => record_resharing_round2_status peer w
  | AddToExclusionList peer => add_to_exclusion_list peer w
  | RemoveFromExclusionList peer => remove_from_exclusion_list peer w
  | GetExclusionList => get_exclusion_list w
  | UpdateElectionParams params => update_election_params params w
  | GetElectionParams => get_election_params w
  | Participating _ _ => (w, [], HOk)
  end.
End Engine.
