(* ===== verification/ElectionProofs.v ===== *)
(** * Correctness of the election engine

    The eight reports of election_actor.rs are one mechanism: a barrier over a set of
    members.  [record_refines_barrier] is that refinement; the first theorem says when a
    barrier opens over a whole sequence of messages.  The rest of the file treats the
    quorum a (re-)election installs, the threshold it announces, the check of the
    beacon, and what survives a restart. *)
From Stdlib Require Import ZArith Lia.
From stdpp Require Import base list gmap sets strings.
From S2P Require Import Prelude Float64 NodeSelection Serialization Dkg Messages Election.

(** ** Barriers *)
Inductive Barrier :=
  BElection | BReElection | BDkgInit | BResharingInit | BDkgRound1 | BResharingRound1
| BDkgRound2 | BResharingRound2.
#[export] Instance Barrier_eq_dec : EqDecision Barrier.
Proof. solve_decision. Defined.

(** Closes the cases of a message that is a report, given that it is none. *)
Ltac drop_reports H :=
  try (by specialize (H BElection)); try (by specialize (H BReElection));
  try (by specialize (H BDkgInit)); try (by specialize (H BResharingInit));
  try (by specialize (H BDkgRound1)); try (by specialize (H BResharingRound1));
  try (by specialize (H BDkgRound2)); try (by specialize (H BResharingRound2)).

Section Barriers.
Context `{RG : Rng} `{F : !F64} `{TF : !ThresholdFloat} `{DR : Drand}.
Implicit Types (w : World) (st : ElectionEngineState) (p : PeerId).

(** The report that counts for a barrier, and what the relay gossips when it opens. *)
Definition report (b : Barrier) : PeerId → ElectionEngineMessage f64 :=
  match b with
  | BElection => RecordElectionNodeStatus | BReElection => RecordRelectionNodeStatus
  | BDkgInit => RecordDKGInitNodeStatus | BResharingInit => RecordResharingInitNodeStatus
  | BDkgRound1 => RecordDKGRound1NodeStatus | BResharingRound1 => RecordResharingRound1NodeStatus
  | BDkgRound2 => RecordDKGRound2NodeStatus | BResharingRound2 => RecordResharingRound2NodeStatus
  end.
Definition start (b : Barrier) : Message :=
  match b with
  | BElection => StartDKGInit | BReElection => StartResharingInit
  | BDkgInit => StartDKGRound1 | BResharingInit => StartResharingRound1
  | BDkgRound1 => StartDKGRound2 | BResharingRound1 => StartResharingRound2
  | BDkgRound2 => StartDKGRound3 | BResharingRound2 => StartResharingRound3
  end.

(** Who has to report, who has reported. *)
Definition ids (l : list ProverInfo) : gset PeerId := list_to_set (peer_id <$> l).
Definition members (b : Barrier) (st : ElectionEngineState) : gset PeerId :=
  match b with
  | BReElection | BResharingInit => ids (tstar_provers st) ∪ ids (elected_provers st)
  | _ => ids (elected_provers st)
  end.
Definition reported (b : Barrier) (st : ElectionEngineState) : gset PeerId :=
  match b with
  | BElection => election_status st | BReElection => dom (re_election_status st)
  | BDkgInit => dkg_init_status st | BResharingInit => dom (re_sharing_init_status st)
  | BDkgRound1 => dkg_round1_status st | BResharingRound1 => dom (re_sharing_round1_status st)
  | BDkgRound2 => dkg_round2_status st | BResharingRound2 => dom (re_sharing_round2_status st)
  end.

(** The resharing's barriers ignore a report they already have; the others answer it. *)
Definition silent_on_repeat (b : Barrier) : bool :=
  match b with
  | BReElection | BResharingInit | BResharingRound1 | BResharingRound2 => true
  | _ => false
  end.

(** The abstract barrier. *)
Definition barrier_step (b : Barrier) (M R : gset PeerId) (p : PeerId) : gset PeerId * bool :=
  if silent_on_repeat b && bool_decide (p ∈ R) then (R, false) else
  let R' := if bool_decide (p ∈ M) then {[p]} ∪ R else R in
  (R', bool_decide (size R' = size M)).

(** The maps of the resharing hold one value each. *)
Definition tagged (m : gmap PeerId RelectionStatus) (v : RelectionStatus) : Prop :=
  map_Forall (λ _ x, x = v) m.
Definition well_tagged (st : ElectionEngineState) : Prop :=
  tagged (re_election_status st) ReElected ∧
  tagged (re_sharing_init_status st) StatusResharingInit ∧
  tagged (re_sharing_round1_status st) StatusResharingRound1 ∧
  tagged (re_sharing_round2_status st) StatusResharingRound2.

(** *** Sizes *)
Lemma elem_of_ids l p : p ∈ ids l ↔ ∃ q, q ∈ l ∧ peer_id q = p.
Proof. unfold ids. rewrite elem_of_list_to_set, list_elem_of_fmap. naive_solver. Qed.

Lemma ids_app l1 l2 : ids (l1 ++ l2) = ids l1 ∪ ids l2.
Proof. unfold ids. by rewrite fmap_app, list_to_set_app_L. Qed.

Lemma ids_app_comm l1 l2 : ids (l1 ++ l2) = ids l2 ∪ ids l1.
Proof. rewrite ids_app. set_solver. Qed.

Lemma size_ids l : NoDup (peer_id <$> l) → size (ids l) = length l.
Proof. intros H. unfold ids. by rewrite size_list_to_set, length_fmap. Qed.

Lemma existsb_peer l p :
  existsb (λ q, bool_decide (peer_id q = p)) l = bool_decide (p ∈ ids l).
Proof.
  apply eq_true_iff_eq. rewrite bool_decide_eq_true, existsb_exists, elem_of_ids.
  setoid_rewrite bool_decide_eq_true. setoid_rewrite list_elem_of_In. done.
Qed.

Lemma dedup_peers_spec (seen : gset PeerId) l :
  ids (dedup_peers seen l) = ids l ∖ seen ∧ NoDup (peer_id <$> dedup_peers seen l).
Proof.
  revert seen. induction l as [|q l IH]; intros seen; simpl.
  { split; [set_solver|constructor]. }
  case_bool_decide as Hq.
  - destruct (IH seen) as [IH1 IH2]. split; [|done]. unfold ids in *. rewrite IH1. set_solver.
  - destruct (IH ({[peer_id q]} ∪ seen)) as [IH1 IH2]. split.
    + unfold ids in *. cbn. rewrite IH1. apply set_eq. intros x.
      destruct (decide (x = peer_id q)); set_solver.
    + cbn. constructor; [|done]. intros Hin.
      assert (peer_id q ∈ ids (dedup_peers ({[peer_id q]} ∪ seen) l)) as Hin'.
      { unfold ids. by apply elem_of_list_to_set. }
      rewrite IH1 in Hin'. set_solver.
Qed.

Lemma size_dedup l : length (dedup_peers ∅ l) = size (ids l) ∧ ids (dedup_peers ∅ l) = ids l.
Proof.
  destruct (dedup_peers_spec ∅ l) as [H1 H2].
  assert (ids (dedup_peers ∅ l) = ids l) as H by (rewrite H1; set_solver).
  split; [|done]. by rewrite <- size_ids, H.
Qed.

Lemma tagged_lookup m v p : tagged m v →
  bool_decide (m !! p = Some v) = bool_decide (p ∈ dom m).
Proof.
  intros H. apply bool_decide_ext. rewrite elem_of_dom. split; [by intros ->|].
  intros [x Hx]. rewrite Hx. f_equal. by eapply H.
Qed.

Lemma tagged_insert m v p : tagged m v → tagged (<[p:=v]> m) v.
Proof. intros H. by apply map_Forall_insert_2. Qed.

(** *** One report *)

(** Two engine states that differ in the reports of [b] only. *)
Definition same_but (b : Barrier) (st st' : ElectionEngineState) : Prop :=
  self_id st' = self_id st ∧ relay_node st' = relay_node st ∧
  elected_provers st' = elected_provers st ∧ tstar_provers st' = tstar_provers st ∧
  current_threshold st' = current_threshold st ∧
  ∀ b', b' ≠ b → reported b' st' = reported b' st.

Lemma same_but_members b b' st st' : same_but b st st' → members b' st' = members b' st.
Proof. intros (_ & _ & H1 & H2 & _). destruct b'; cbn; by rewrite ?H1, ?H2. Qed.

Lemma size_status (m : gmap PeerId RelectionStatus) : size m = size (dom m).
Proof. by rewrite size_dom. Qed.

Lemma eqb_decide a b : (a =? b)%nat = bool_decide (a = b).
Proof. destruct (Nat.eqb_spec a b); by case_bool_decide. Qed.

Ltac open_barrier elected tstar Hlen :=
  unfold barrier_step; cbn [handle report start silent_on_repeat andb members reported];
  unfold record_election_status, record_relection_status, record_dkg_init_status,
    record_resharing_init_status, record_dkg_round1_status, record_resharing_round1_status,
    record_dkg_round2_status, record_resharing_round2_status, is_elected;
  rewrite ?existsb_peer, ?tagged_lookup by done;
  rewrite ?(proj1 (size_dedup _)), ?(proj2 (size_dedup _));
  change (list_to_set (peer_id <$> elected)) with (ids elected);
  change (list_to_set (peer_id <$> elected ++ tstar)) with (ids (elected ++ tstar));
  rewrite ?(ids_app_comm elected tstar), ?(ids_app tstar elected);
  repeat match goal with
  | |- context [bool_decide (?p ∈ ?M)] => destruct (decide (p ∈ M)) as [?|?];
      rewrite ?(bool_decide_true (p ∈ M)) by done; rewrite ?(bool_decide_false (p ∈ M)) by done
  end;
  cbn [andb];
  (eexists; split;
   [cbn; rewrite ?eqb_decide; f_equal; f_equal;
    rewrite ?size_status, ?dom_insert_L, ?Hlen; congruence
   |unfold same_but, well_tagged; cbn; rewrite ?dom_insert_L;
    repeat split; auto using tagged_insert; try (by intros [])]).

(** Every [Record...NodeStatus] handler implements the barrier step. *)
Lemma record_refines_barrier (b : Barrier) env p w :
  well_tagged (engine w) → NoDup (peer_id <$> elected_provers (engine w)) →
  let '(R', fires) := barrier_step b (members b (engine w)) (reported b (engine w)) p in
  ∃ w', handle env (report b p) w = (w', if fires then [Gossip (start b)] else [], HOk) ∧
    reported b (engine w') = R' ∧ same_but b (engine w) (engine w') ∧
    well_tagged (engine w') ∧ settings w' = settings w ∧ exclusion_list w' = exclusion_list w ∧
    db w' = db w.
Proof.
  intros (T1 & T2 & T3 & T4) Hnd. pose proof (size_ids _ Hnd) as Hlen.
  destruct b; open_barrier (elected_provers (engine w)) (tstar_provers (engine w)) Hlen.
Qed.

(** *** A run of the actor *)

(** Messages are handled one after the other, until one does not end normally. *)
Fixpoint run (l : list (Env * ElectionEngineMessage f64)) (w : World) : Handled :=
  match l with
  | [] => (w, [], HOk)
  | (env, m) :: l =>
      match handle env m w with
      | (w', out, HOk) => let '(w'', out', r) := run l w' in (w'', out ++ out', r)
      | stopped => stopped
      end
  end.

(** Messages that leave the quorum alone: no election, and no gossiped quorum that
    names the node itself. *)
Definition between_elections (self : PeerId) (m : ElectionEngineMessage f64) : Prop :=
  match m with
  | FirstElection | TriggerReElection _ => False
  | CheckElectedStatus l => self ∉ ids l
  | _ => True
  end.

(** What a barrier needs of the state: one entry per elected prover, the reports come
    from members, and the maps hold the status they are for. *)
Definition barrier_inv (st : ElectionEngineState) : Prop :=
  NoDup (peer_id <$> elected_provers st) ∧ well_tagged st.

Definition report_dec (b : Barrier) (m : ElectionEngineMessage f64) : option PeerId :=
  match b, m with
  | BElection, RecordElectionNodeStatus p | BReElection, RecordRelectionNodeStatus p
  | BDkgInit, RecordDKGInitNodeStatus p | BResharingInit, RecordResharingInitNodeStatus p
  | BDkgRound1, RecordDKGRound1NodeStatus p | BResharingRound1, RecordResharingRound1NodeStatus p
  | BDkgRound2, RecordDKGRound2NodeStatus p | BResharingRound2, RecordResharingRound2NodeStatus p
      => Some p
  | _, _ => None
  end.

Lemma report_dec_Some b m p : report_dec b m = Some p ↔ m = report b p.
Proof. destruct b, m; cbn; naive_solver. Qed.

(** Everything but the pending resharing is the same. *)
Definition same_barriers (st st' : ElectionEngineState) : Prop :=
  st' = st ∨ ∃ c, st' = set_re_election_check_context c st.

Lemma same_barriers_facts st st' b : same_barriers st st' → barrier_inv st →
  members b st' = members b st ∧ reported b st' = reported b st ∧ barrier_inv st' ∧
  self_id st' = self_id st.
Proof. intros [->|[c ->]]; destruct b; done. Qed.

Definition no_start (out : list (Output f64)) : Prop := ∀ b, Gossip (start b) ∉ out.

Lemma no_start_nil : no_start [].
Proof. intros b. apply not_elem_of_nil. Qed.
Lemma no_start_cons o out : (∀ b, o ≠ Gossip (start b)) → no_start out → no_start (o :: out).
Proof. intros Ho Hout b. rewrite not_elem_of_cons. split; [|apply Hout]. intros H. by eapply Ho. Qed.
Lemma no_start_app o1 o2 : no_start o1 → no_start o2 → no_start (o1 ++ o2).
Proof. intros H1 H2 b. rewrite not_elem_of_app. by split. Qed.

Lemma check_re_elected_quiet info tstar new gk w w' out r :
  handle_check_re_elected_status info tstar new gk w = (w', out, r) →
  same_barriers (engine w) (engine w') ∧ no_start out.
Proof.
  unfold handle_check_re_elected_status. intros [= <- <- <-]. split; [right; by eexists|].
  repeat case_match; repeat (apply no_start_cons; [by intros []|]); apply no_start_nil.
Qed.

(** The messages other than reports, between two elections. *)
Lemma quiet_message env m w w' out r :
  (∀ b, report_dec b m = None) → between_elections (self_id (engine w)) m →
  handle env m w = (w', out, r) →
  same_barriers (engine w) (engine w') ∧ no_start out.
Proof.
  intros Hrep Hquiet Hh.
  destruct m; drop_reports Hrep;
    try done; cbn [handle] in Hh.
  all: try (unfold check_re_elected_status in Hh;
    repeat (case_match; try (eapply check_re_elected_quiet; eassumption))).
  all: unfold handle_check_elected_status, handle_trigger_init_dkg,
    handle_trigger_init_resharing, add_to_exclusion_list, remove_from_exclusion_list,
    get_exclusion_list, update_election_params, get_election_params, not_a_relay in Hh.
  all: repeat case_match; simplify_eq; try (split; [by left|]);
    repeat (apply no_start_cons; [by intros []|]); try apply no_start_nil.
  exfalso. apply Hquiet, elem_of_ids.
  assert (p ∈ filter (λ p : ProverInfo, peer_id p = self_id (engine w)) provers) as Hp
    by (rewrite H; left).
  apply list_elem_of_filter in Hp as [? ?]. by exists p.
Qed.

Lemma report_or_not m : (∃ b p, m = report b p) ∨ ∀ b, report_dec b m = None.
Proof.
  destruct m as [| | | | |p|p| | |p|p|p|p|p|p| | | | |];
    try (right; by intros []); left.
  - by exists BElection, p.
  - by exists BReElection, p.
  - by exists BDkgInit, p.
  - by exists BResharingInit, p.
  - by exists BDkgRound1, p.
  - by exists BResharingRound1, p.
  - by exists BDkgRound2, p.
  - by exists BResharingRound2, p.
Qed.

(** A message that is no report for [b] neither opens [b] nor changes its members or
    its reports. *)
Lemma other_message (b : Barrier) env m w w' out :
  report_dec b m = None → between_elections (self_id (engine w)) m → barrier_inv (engine w) →
  handle env m w = (w', out, HOk) →
  (Gossip (start b) ∉ out) ∧ members b (engine w') = members b (engine w) ∧
  reported b (engine w') = reported b (engine w) ∧ barrier_inv (engine w') ∧
  self_id (engine w') = self_id (engine w).
Proof.
  intros Hb Hq Hinv Hh.
  destruct (report_or_not m) as [(b' & p & ->)|Hno].
  - assert (b' ≠ b) as Hne.
    { intros ->. assert (report_dec b (report b p) = Some p) by by apply report_dec_Some.
      congruence. }
    pose proof (record_refines_barrier b' env p w (proj2 Hinv) (proj1 Hinv)) as Href.
    destruct (barrier_step _ _ _ _) as [R' fires].
    destruct Href as (w1 & Hh1 & _ & Hsame & Htag & _). rewrite Hh1 in Hh. simplify_eq.
    split_and!.
    + destruct fires; [|apply not_elem_of_nil]. rewrite list_elem_of_singleton.
      intros [= Heq]. apply Hne. by destruct b, b'.
    + by eapply same_but_members.
    + by apply Hsame.
    + split; [|done]. destruct Hsame as (_ & _ & -> & _). apply Hinv.
    + apply Hsame.
  - destruct (quiet_message env m w w' out HOk) as [Hs Hn]; [done..|].
    split; [apply Hn|]. by apply same_barriers_facts.
Qed.

Lemma barrier_step_spec b (M R R' : gset PeerId) p fires :
  R ⊆ M → barrier_step b M R p = (R', fires) →
  R ⊆ R' ∧ R' ⊆ M ∧ R' ⊆ {[p]} ∪ R ∧ (p ∈ M → p ∈ R') ∧ (fires = true → R' = M) ∧
  (R ≠ M → R' = M → fires = true).
Proof.
  intros HRM. unfold barrier_step.
  destruct (silent_on_repeat b && bool_decide (p ∈ R)) eqn:Hsil.
  - apply andb_true_iff in Hsil as [_ Hp%bool_decide_eq_true]. intros [= <- <-].
    split_and!; [done..|set_solver|set_solver|done|naive_solver].
  - clear Hsil. intros [= <- <-].
    set (R1 := if bool_decide (p ∈ M) then {[p]} ∪ R else R).
    assert (R ⊆ R1 ∧ R1 ⊆ M ∧ R1 ⊆ {[p]} ∪ R ∧ (p ∈ M → p ∈ R1)) as (H1 & H2 & H3 & H4).
    { subst R1. case_bool_decide; set_solver. }
    split_and!; [done..| |].
    + intros Hsz%bool_decide_eq_true. apply set_eq. intros x. split; [apply H2|].
      intros Hx. destruct (decide (x ∈ R1)); [done|].
      assert (R1 ⊂ M) as Hss%subset_size by set_solver. lia.
    + intros _ ->. by apply bool_decide_eq_true.
Qed.

(** *** When a barrier opens *)
Lemma run_barrier (b : Barrier) l w w' out :
  barrier_inv (engine w) → reported b (engine w) ⊆ members b (engine w) →
  Forall (λ m, between_elections (self_id (engine w)) m.2) l → run l w = (w', out, HOk) →
  let M := members b (engine w) in
  let R := reported b (engine w) in
  (Gossip (start b) ∈ out → ∀ p, p ∈ M → p ∈ R ∨ report b p ∈ l.*2) ∧
  (R ≠ M → (∀ p, p ∈ M → p ∈ R ∨ report b p ∈ l.*2) → Gossip (start b) ∈ out).
Proof.
  revert w out. induction l as [|[env m] l IH]; intros w out Hinv Hsub Hq Hrun; cbn in Hrun.
  { simplify_eq. split; [by intros ?%not_elem_of_nil|]. intros Hne Hall. exfalso.
    apply Hne, set_eq. intros x. split; [apply Hsub|]. intros Hx.
    destruct (Hall x Hx) as [?|H]; [done|by apply not_elem_of_nil in H]. }
  destruct (handle env m w) as [[w1 out1] [| | |]] eqn:Hh; simplify_eq.
  destruct (run l w1) as [[w2 out2] r] eqn:Hl. simplify_eq.
  apply Forall_cons in Hq as [Hq1 Hq]. cbn in Hq1. cbn zeta. setoid_rewrite elem_of_app.
  setoid_rewrite fmap_cons. cbn [snd]. setoid_rewrite elem_of_cons.
  destruct (report_dec b m) as [p|] eqn:Hm.
  - apply report_dec_Some in Hm as ->.
    pose proof (record_refines_barrier b env p w (proj2 Hinv) (proj1 Hinv)) as Href.
    destruct (barrier_step b _ _ _) as [R' fires] eqn:Hst.
    destruct Href as (w1' & Hh1 & HR & Hsame & Htag & _). rewrite Hh1 in Hh. simplify_eq.
    pose proof (same_but_members _ b _ _ Hsame) as HM.
    apply barrier_step_spec in Hst as (S1 & S2 & S3 & S4 & S5 & S6); [|done].
    assert (barrier_inv (engine w1)) as Hinv1.
    { split; [|done]. destruct Hsame as (_ & _ & -> & _). apply Hinv. }
    destruct (IH w1 out2) as [IH1 IH2]; try done.
    { by rewrite HM. }
    { by rewrite (proj1 Hsame). }
    rewrite HM in IH1, IH2. split.
    + intros [Hf|Hf] q Hq'.
      * destruct fires; [|by apply not_elem_of_nil in Hf]. rewrite (S5 eq_refl) in S3.
        apply S3 in Hq'. set_solver.
      * destruct (IH1 Hf q Hq') as [HqR|?]; [|by auto]. apply S3 in HqR. set_solver.
    + intros Hne Hall.
      destruct (decide (reported b (engine w1) = members b (engine w))) as [He|He].
      * rewrite (S6 Hne He). left. left.
      * right. apply IH2; [done|]. intros q Hq'.
        destruct (Hall q Hq') as [?|[Heq|?]]; [left; by apply S1| |by right].
        assert (q = p) as ->; [|left; by apply S4].
        destruct b; cbn in Heq; congruence.
  - destruct (other_message b env m w w1 out1) as (Hn & HM & HR & Hinv1 & Hself); try done.
    destruct (IH w1 out2) as [IH1 IH2]; try done; [by rewrite HM, HR|by rewrite Hself|].
    rewrite HM, HR in IH1, IH2.
    assert (∀ q, m ≠ report b q) as Hnr.
    { intros q ->. assert (report_dec b (report b q) = Some q) by by apply report_dec_Some.
      congruence. }
    split.
    + intros [?|Hf] q Hq'; [done|]. destruct (IH1 Hf q Hq'); auto.
    + intros Hne Hall. right. apply IH2; [done|]. intros q Hq'.
      destruct (Hall q Hq') as [?|[Heq|?]]; auto. by destruct (Hnr q).
Qed.

(** C14: A round starts exactly when everyone has reported the previous one.  From a state
    in which nobody has reported yet, over any sequence of messages that does not hold a
    new election, the relay gossips the start of the next round (of the key generation
    or of the resharing) if and only if every member of the quorum (with the old one,
    where the resharing needs it) sent its report. *)
Theorem barrier_opens_iff_all_reported (b : Barrier) l w w' out :
  barrier_inv (engine w) → reported b (engine w) = ∅ → members b (engine w) ≠ ∅ →
  Forall (λ m, between_elections (self_id (engine w)) m.2) l → run l w = (w', out, HOk) →
  (Gossip (start b) ∈ out ↔ ∀ p, p ∈ members b (engine w) → report b p ∈ l.*2).
Proof.
  intros Hinv HR HM Hq Hrun.
  destruct (run_barrier b l w w' out Hinv) as [H1 H2]; [rewrite HR; set_solver|done..|].
  rewrite HR in H1, H2. split.
  - intros Hf p Hp. destruct (H1 Hf p Hp) as [?|?]; [set_solver|done].
  - intros Hall. apply H2; [congruence|]. auto.
Qed.

(** A round can be started again by anyone.  Once every member has reported, a report
    in the name of a peer that is no member makes the relay gossip the start of the
    round once more, at every one of the eight barriers. *)
Theorem outsider_report_restarts_round (b : Barrier) env p w :
  barrier_inv (engine w) → reported b (engine w) = members b (engine w) →
  p ∉ members b (engine w) →
  ∃ w', handle env (report b p) w = (w', [Gossip (start b)], HOk) ∧
        reported b (engine w') = members b (engine w').
Proof.
  intros [Hnd Htag] HR Hp.
  pose proof (record_refines_barrier b env p w Htag Hnd) as Href.
  unfold barrier_step in Href. rewrite HR in Href.
  rewrite !(bool_decide_false (p ∈ _)), andb_false_r, bool_decide_true in Href by done.
  destruct Href as (w' & Hh & HR' & Hsame & _). exists w'. split; [done|].
  rewrite HR'. symmetry. by eapply same_but_members.
Qed.
End Barriers.

(** ** Elections *)
Section Elections.
Context `{RG : Rng} `{F : !F64} `{TF : !ThresholdFloat} `{DR : Drand}.
Implicit Types (w : World) (st : ElectionEngineState) (l : list ProverInfo).

(** Every prover of a quorum is announced with its index. *)
Lemma quorum_map_Some indexed l : l ⊆ indexed → quorum_map indexed l = Some (provers_map l).
Proof.
  unfold quorum_map, provers_map. induction l as [|p l IH] using rev_ind; intros Hl; [done|].
  rewrite reverse_snoc, foldl_snoc. cbn [foldr]. rewrite IH by set_solver. cbn.
  rewrite bool_decide_true; [done|]. set_solver.
Qed.

Lemma ping_peers_Some a l l' : ping_peers a l = Some l' →
  l' = filter (λ p, a p = true) l ∧ l' ≠ [].
Proof. unfold ping_peers. case_match; [done|]. by intros [= <-]. Qed.

Lemma wait_provers_Some ls l : wait_provers ls = Some l →
  l ∈ ls ∧ (TOTAL_BOOTSTRAP_RELAY_NODES < length l)%nat.
Proof.
  unfold wait_provers. case_match eqn:Hf; [done|]. intros [= ->].
  assert (l ∈ filter (λ l, (TOTAL_BOOTSTRAP_RELAY_NODES < length l)%nat) ls) as Hl
    by (rewrite Hf; left).
  apply list_elem_of_filter in Hl as [? ?]. done.
Qed.

(** The candidates of a re-election: neither the two bootstrap entries nor excluded, and
    reachable. *)
Definition candidates (env : Env) (excluded : gset PeerId) (fetched : list ProverInfo)
    : list ProverInfo :=
  filter (λ p, default (λ _, false) (head (ping_answers env)) p = true)
    (filter (λ p, peer_id p ∉ excluded) (drop 2 fetched)).

Lemma sample_size (st : Settings) l res seed :
  weighted_sample_n_no_replace (E:=string) prover_weight st l (Z.to_nat (get_min_nodes st)) seed
    = Ok (Some res) →
  (∃ rest, l ≡ₚ res ++ rest) ∧ length res = Z.to_nat (get_min_nodes st).
Proof.
  unfold weighted_sample_n_no_replace. case_match; [done|].
  intros (xs & rest & -> & Hp & Hlen & Hmin)%sample_loop_min_perm. cbn in *.
  split; [by eexists|]. lia.
Qed.

Lemma NoDup_fmap_perm_prefix {A B} (f : A → B) (l res rest : list A) :
  l ≡ₚ res ++ rest → NoDup (f <$> l) → NoDup (f <$> res).
Proof. intros ->. rewrite fmap_app, NoDup_app. naive_solver. Qed.

Lemma NoDup_fmap_filter {A B} (f : A → B) (P : A → Prop) `{∀ x, Decision (P x)} (l : list A) :
  NoDup (f <$> l) → NoDup (f <$> filter P l).
Proof.
  intros Hl. eapply sublist_NoDup; [exact Hl|]. apply fmap_sublist, sublist_filter.
Qed.

Lemma candidates_ids env X fetched : NoDup (peer_id <$> fetched) →
  NoDup (peer_id <$> candidates env X fetched).
Proof.
  intros H. do 2 apply NoDup_fmap_filter. eapply sublist_NoDup; [exact H|].
  apply fmap_sublist, sublist_drop.
Qed.

Lemma candidates_elem env X fetched p : p ∈ candidates env X fetched →
  p ∈ drop 2 fetched ∧ (peer_id p ∉ X) ∧
  default (λ _, false) (head (ping_answers env)) p = true.
Proof. unfold candidates. rewrite !list_elem_of_filter. naive_solver. Qed.

(** The state and the announcement of an election that succeeded. *)
Definition elected_quorum (env : Env) (prev : list ProverInfo) (w w' : World)
    (fetched : list ProverInfo) (info : ElectionInfo) (tstar new : QuorumMap) : Prop :=
  let E := elected_provers (engine w') in
  let n := Z.of_nat (length E) in
  (∃ rest, candidates env (exclusion_list w) fetched ≡ₚ E ++ rest) ∧
  length E = Z.to_nat (get_min_nodes (settings w)) ∧
  tstar_provers (engine w') =
    filter (λ p, peer_id p ∈ peer_id <$> prev) (candidates env (exclusion_list w) fetched) ∧
  current_threshold (engine w) ≤ Z.of_nat (length (tstar_provers (engine w'))) ∧
  new = provers_map E ∧ tstar = provers_map (tstar_provers (engine w')) ∧
  info = ElectionInfo_new (calculate_threshold n (get_threshold (settings w)))
           (get_epsilon (settings w)) (u32 n) ∧
  (∀ b, reported b (engine w') = ∅) ∧
  (NoDup (peer_id <$> fetched) → barrier_inv (engine w')).

Lemma cleared_statuses st b : reported b (clear_statuses st) = ∅ ∧ well_tagged (clear_statuses st).
Proof.
  split; [by destruct b|]. repeat split; apply map_Forall_empty.
Qed.

Lemma install_quorum_spec env prev w fetched participating new_set seed drand0 w' out r :
  participating = filter (λ p, peer_id p ∉ exclusion_list w) (drop 2 fetched) →
  weighted_sample_n_no_replace (E:=string) prover_weight (settings w)
    (candidates env (exclusion_list w) fetched) (Z.to_nat (get_min_nodes (settings w)))
    seed = Ok (Some new_set) →
  (∀ b, reported b (engine w) = ∅) → well_tagged (engine w) →
  install_quorum w participating (candidates env (exclusion_list w) fetched) new_set prev
    (get_min_nodes (settings w)) drand0 = (w', out, r) →
  r = HOk ∧
  ((engine w' = engine w ∧ out = []) ∨
   ∃ info tstar new, elected_quorum env prev w w' fetched info tstar new ∧
     out = [ToAppState AppClearShares;
            ToAppState (UpdateElectedProvers (elected_provers (engine w')) true);
            ToAppState (StoreQuorumMap tstar new); ToAppState (UpdatedThreshold info);
            ToAppState (ForwardReElectedProvers info tstar new drand0);
            monitor MonitorResharing]).
Proof.
  intros Hpart [[rest Hperm] Hlen]%sample_size Hrep Htag. unfold install_quorum.
  case_match eqn:Hthr; [|intros [= <- <- <-]; by auto].
  apply Z.leb_le in Hthr.
  assert (candidates env (exclusion_list w) fetched ⊆ participating) as Hsub.
  { intros p. unfold candidates. rewrite <- Hpart, list_elem_of_filter. naive_solver. }
  rewrite (take_ge new_set) by lia.
  rewrite !quorum_map_Some.
  2: { intros p Hp. apply Hsub. rewrite Hperm. set_solver. }
  2: { intros p [_ Hp]%list_elem_of_filter. by apply Hsub. }
  intros [= <- <- <-]. split; [done|]. right. do 3 eexists. split; [|reflexivity].
  unfold elected_quorum. cbn.
  split_and!; try done; [by eexists|].
  intros Hnd. split; [|done]. cbn. eapply NoDup_fmap_perm_prefix; [exact Hperm|].
  by apply candidates_ids.
Qed.

(** C23: What a re-election installs.  If the relay announces a new quorum, it consists of
    [MIN_NODES] distinct provers among those registered (the two bootstrap entries
    apart), not excluded and reachable; the old quorum that will reshare is every such
    prover that was elected before, and has at least the current threshold; the
    announced maps, sizes and thresholds are those of the installed lists; and every
    report of an earlier round is forgotten, so the barriers start afresh.  Otherwise
    nothing is announced and the quorum stays as it was. *)
Theorem re_election_quorum env prev w w' out :
  trigger_re_election env prev w = (w', out, HOk) →
  (∃ fetched info tstar new drand,
     fetched ∈ provers_answers env ∧ (2 < length fetched)%nat ∧
     elected_quorum env prev w w' fetched info tstar new ∧
     ToAppState (ForwardReElectedProvers info tstar new drand) ∈ out) ∨
  (elected_provers (engine w') = elected_provers (engine w) ∧
   tstar_provers (engine w') = tstar_provers (engine w) ∧
   ∀ info tstar new drand, ToAppState (ForwardReElectedProvers info tstar new drand) ∉ out).
Proof.
  unfold trigger_re_election. destruct (wait_provers _) as [fetched|] eqn:Hwait; [|done].
  apply wait_provers_Some in Hwait as [Hin Hlen].
  case_match; [done|]. cbn [exclusion_list settings on_engine].
  destruct (ping_peers _ _) as [reachable|] eqn:Hping; [|done].
  apply ping_peers_Some in Hping as [-> _].
  case_match; [intros [= <- <-]; right; cbn; split_and!; [done..|set_solver]|].
  destruct (election_randomness env) as [[seed drand0]|e|]; [|done..].
  destruct (weighted_sample_n_no_replace _ _ _ _ _) as [[new_set|]|e|] eqn:Hs; [|..|done|done].
  2: { intros [= <- <-]. right. cbn. split_and!; [done..|].
       intros. rewrite list_elem_of_singleton. done. }
  intros Hinst.
  apply (install_quorum_spec env prev (on_engine clear_statuses w) fetched _ new_set seed drand0
    w' out HOk eq_refl Hs) in Hinst as [_ Hinst].
  2-3: cbn; try intros b; apply cleared_statuses; exact BElection.
  destruct Hinst as [[Heng ->]|(info & tstar & new & Hq & ->)].
  - right. rewrite Heng. cbn. split_and!; [done..|set_solver].
  - left. exists fetched, info, tstar, new, drand0. split_and!; [done..|].
    rewrite !elem_of_cons. tauto.
Qed.

(** A re-election cannot panic when the generator and the floats behave as documented:
    sampling stays in bounds and every prover of a quorum has an index. *)
Lemma re_election_no_panic {RL : RngLaws RG} {FL : F64Laws F} env prev w :
  (trigger_re_election env prev w).2 ≠ HPanic.
Proof.
  unfold trigger_re_election. destruct (wait_provers _) as [fetched|]; [|done].
  case_match; [done|]. cbn [exclusion_list settings on_engine].
  destruct (ping_peers _ _) as [reachable|] eqn:Hping; [|done].
  apply ping_peers_Some in Hping as [-> _]. case_match; [done|].
  destruct (election_randomness env) as [[seed drand0]|e|] eqn:Hr; [|done|].
  - destruct (weighted_sample_n_no_replace _ _ _ _ _) as [[new_set|]|e|] eqn:Hs; [|done..|].
    + destruct (install_quorum _ _ _ _ _ _ _) as [[w' out] r] eqn:Hinst.
      apply (install_quorum_spec env prev (on_engine clear_statuses w) fetched _ new_set seed
        drand0 w' out r eq_refl Hs) in Hinst as [-> _]; [done|..];
        cbn; try intros b; apply cleared_statuses; exact BElection.
    + destruct (sampling_total (E:=string) prover_weight (settings w)
        (candidates env (exclusion_list w) fetched) (Z.to_nat (get_min_nodes (settings w))) seed
        prover_weight_nonneg) as [Hn _]. by destruct Hn.
  - unfold election_randomness in Hr.
    destruct (drand_answer env) as [data|]; [|done].
    destruct (hex_decode (previous_signature data)); [|done].
    destruct (hex_decode (drand_signature data)); [|done]. cbn in Hr. by case_match.
Qed.

(** *** The first election *)
Lemma ping_until_Some min_nodes l answers l' : ping_until min_nodes l answers = Some l' →
  min_nodes ≤ Z.of_nat (length l') ∧ ∃ a, a ∈ answers ∧ l' = filter (λ p, a p = true) l.
Proof.
  induction answers as [|a answers IH]; cbn; [done|].
  destruct (ping_peers a l) as [l1|] eqn:Hp.
  - apply ping_peers_Some in Hp as [-> _]. case_match eqn:Hlen.
    + intros (Hm & a' & Ha & ->)%IH. split; [done|]. exists a'. set_solver.
    + intros [= <-]. apply Z.ltb_ge in Hlen. split; [done|]. exists a. set_solver.
  - intros (Hm & a' & Ha & ->)%IH. split; [done|]. exists a'. set_solver.
Qed.

(** What the first election installs.  When it completes, the quorum is the first
    [MIN_NODES] provers that answered one round of pings, in the registry's order and
    without the two bootstrap entries; its threshold becomes the current one; the
    application state and the network are told the same quorum, map and threshold; and
    the reports of the three key-generation barriers are forgotten. *)
Theorem first_election_quorum env w w' out :
  0 ≤ get_min_nodes (settings w) →
  handle_trigger_election env w = (w', out, HOk) →
  let E := elected_provers (engine w') in
  let n := Z.of_nat (length E) in
  let info := ElectionInfo_new (current_threshold (engine w')) (get_epsilon (settings w)) (u32 n) in
  ∃ fetched a,
    fetched ∈ provers_answers env ∧ a ∈ ping_answers env ∧
    E = take (Z.to_nat (get_min_nodes (settings w))) (filter (λ p, a p = true) (drop 2 fetched)) ∧
    n = get_min_nodes (settings w) ∧
    current_state (engine w') = QuorumElected ∧
    current_threshold (engine w') = calculate_threshold n (get_threshold (settings w)) ∧
    out = [ToAppState (UpdateCachedProversMap (provers_map E));
           ToAppState (UpdateElectedProvers E false); ToAppState (UpdatedThreshold info);
           Gossip (ElectedProvers info E); monitor MonitorDKG] ∧
    (∀ b, b ∈ [BDkgInit; BDkgRound1; BDkgRound2] → reported b (engine w') = ∅) ∧
    (NoDup (peer_id <$> fetched) → well_tagged (engine w) → barrier_inv (engine w')).
Proof.
  intros Hmin. unfold handle_trigger_election, conduct_election.
  destruct (provers_answers env) as [|fetched rest]; [done|].
  destruct (length fetched <? 2)%nat; [done|].
  cbn [settings on_engine engine elected_provers set_current_state
    set_elected_provers set_dkg_init_status set_dkg_round1_status set_dkg_round2_status].
  destruct (ping_until _ _ _) as [reachable|] eqn:Hping; [|done].
  apply ping_until_Some in Hping as (Hlen & a & Ha & ->).
  rewrite quorum_map_Some by apply subseteq_take.
  intros [= <- <-]. cbn zeta. exists fetched, a.
  cbn [engine on_engine elected_provers set_current_threshold set_elected_provers
    current_threshold current_state].
  assert (Z.of_nat (length (take (Z.to_nat (get_min_nodes (settings w)))
    (filter (λ p, a p = true) (drop 2 fetched)))) = get_min_nodes (settings w)) as Hn.
  { rewrite length_take. lia. }
  split_and!; try done.
  - left.
  - intros b Hb. rewrite !elem_of_cons, elem_of_nil in Hb. by destruct Hb as [->|[->|[->|[]]]].
  - intros Hnd Htag. split; [|exact Htag]. cbn.
    eapply sublist_NoDup; [exact Hnd|]. apply fmap_sublist.
    etrans; [apply sublist_take|]. etrans; [apply sublist_filter|]. apply sublist_drop.
Qed.

(** *** What the other handlers keep *)

(** A report changes the engine's reports only. *)
Lemma record_keeps b env p w w' out r : handle env (report b p) w = (w', out, r) →
  current_threshold (engine w') = current_threshold (engine w) ∧
  self_id (engine w') = self_id (engine w) ∧
  settings w' = settings w ∧ exclusion_list w' = exclusion_list w ∧ db w' = db w.
Proof.
  destruct b; cbn [handle report]; intros Hh;
    unfold record_election_status, record_relection_status, record_dkg_init_status,
      record_resharing_init_status, record_dkg_round1_status, record_resharing_round1_status,
      record_dkg_round2_status, record_resharing_round2_status in Hh;
    repeat case_match; simplify_eq; by cbn.
Qed.

Lemma re_election_keeps env prev w w' out r : trigger_re_election env prev w = (w', out, r) →
  current_threshold (engine w') = current_threshold (engine w) ∧
  settings w' = settings w ∧ exclusion_list w' = exclusion_list w ∧ db w' = db w.
Proof.
  unfold trigger_re_election, install_quorum. intros Hh.
  repeat (case_match; simplify_eq/=; try done).
Qed.

Lemma first_election_keeps env w w' out r : handle_trigger_election env w = (w', out, r) →
  settings w' = settings w ∧ exclusion_list w' = exclusion_list w ∧ db w' = db w.
Proof.
  unfold handle_trigger_election, conduct_election. intros Hh.
  repeat (case_match; simplify_eq/=; try done).
Qed.

(** Opens a handler that neither elects nor records, on every branch. *)
Ltac open_handler Hh :=
  cbn [handle] in Hh;
  unfold handle_check_elected_status, check_re_elected_status,
    handle_check_re_elected_status, handle_trigger_init_dkg,
    handle_trigger_init_resharing, add_to_exclusion_list, remove_from_exclusion_list,
    get_exclusion_list, update_election_params, get_election_params, not_a_relay in Hh;
  simplify_eq/=; try done; repeat (case_match; simplify_eq/=; try done).

Lemma handle_keeps_threshold env m w w' out r : m ≠ FirstElection →
  handle env m w = (w', out, r) →
  current_threshold (engine w') = current_threshold (engine w).
Proof.
  intros Hm Hh. destruct (report_or_not m) as [(b & p & ->)|Hno]; [by eapply record_keeps|].
  destruct m; try done; try (by eapply re_election_keeps);
    drop_reports Hno;
    open_handler Hh.
Qed.

(** The threshold that guards a re-election comes from a first election of the same
    process and from nothing else.  No other message changes it: a re-election announces
    the threshold of the new quorum but keeps comparing later T* quorums with the old
    one, and after a restart the comparison is with 0, that is with nothing, until a
    first election is held again. *)
Theorem guard_threshold_is_stale ms w w' out r :
  Forall (λ m, m.2 ≠ FirstElection) ms → run ms w = (w', out, r) →
  current_threshold (engine w') = current_threshold (engine w) ∧
  ∀ self relay (st0 : Settings) d, current_threshold (engine (pre_start self relay st0 d)) = 0.
Proof.
  intros Hl Hrun. split; [|done]. revert w out Hrun.
  induction Hl as [|[env m] ms Hm Hl IH]; intros w out Hrun; cbn in Hrun; [by simplify_eq|].
  destruct (handle env m w) as [[w1 out1] r1] eqn:Hh.
  pose proof (handle_keeps_threshold env m w w1 out1 r1 Hm Hh) as H1.
  destruct r1; simplify_eq; try done.
  destruct (run ms w1) as [[w2 out2] r2] eqn:Hl2. simplify_eq.
  rewrite <- H1. by eapply IH.
Qed.

(** *** What survives a restart *)

(** Restarting from the saved state gives back the exclusion list and the settings;
    [st0] are the settings a process starts with. *)
Definition persisted (st0 : Settings) (w : World) : Prop :=
  ∀ self relay, exclusion_list (pre_start self relay st0 (db w)) = exclusion_list w ∧
                settings (pre_start self relay st0 (db w)) = settings w.

Lemma persisted_same (st0 : Settings) w w' : persisted st0 w →
  settings w' = settings w → exclusion_list w' = exclusion_list w → db w' = db w →
  persisted st0 w'.
Proof. intros H H1 H2 H3 self relay. rewrite H1, H2, H3. apply H. Qed.

Lemma handle_persisted (st0 : Settings) env m w w' out r : persisted st0 w →
  handle env m w = (w', out, r) → persisted st0 w'.
Proof.
  intros Hp Hh. destruct (report_or_not m) as [(b & p & ->)|Hno].
  { apply record_keeps in Hh as (_ & _ & H1 & H2 & H3). by eapply persisted_same. }
  destruct m; drop_reports Hno.
  2: { apply first_election_keeps in Hh as (H1 & H2 & H3). by eapply persisted_same. }
  2: { apply re_election_keeps in Hh as (_ & H1 & H2 & H3). by eapply persisted_same. }
  all: open_handler Hh; intros self relay; specialize (Hp self relay) as [Hp1 Hp2]; cbn in *.
  all: try (split; [done|]; try (rewrite <- Hp2); by destruct (settings _)).
  all: split; [done|]. all: by destruct params, (settings w).
Qed.

(** Parameters survive a restart.  Whatever sequence of messages a node has handled
    since it started, starting it again from its database gives the exclusion list and
    the election parameters it had. *)
Theorem parameters_survive_restart (st0 : Settings) ms w0 w out r self relay d :
  w0 = pre_start self relay st0 d → run ms w0 = (w, out, r) → persisted st0 w.
Proof.
  intros -> Hrun. assert (persisted st0 (pre_start self relay st0 d)) as Hp by by split.
  revert out Hrun Hp. generalize (pre_start self relay st0 d).
  induction ms as [|[env m] ms IH]; intros w0 out Hrun Hp; cbn in Hrun; [by simplify_eq|].
  destruct (handle env m w0) as [[w1 out1] r1] eqn:Hh.
  pose proof (handle_persisted st0 env m w0 w1 out1 r1 Hp Hh) as H1.
  destruct r1; simplify_eq; try done.
  destruct (run ms w1) as [[w2 out2] r2] eqn:Hl2. simplify_eq. by eapply IH.
Qed.

(** *** The check of a gossiped re-election *)

(** A beacon answer whose signatures decode and verify. *)
Definition authentic (d : DrandResponse) : bool :=
  match hex_decode (previous_signature d), hex_decode (drand_signature d) with
  | Some prev_sig, Some sg => verify_drand (round d) prev_sig sg
  | _, _ => false
  end.

(** When a node follows a gossiped re-election.  If the node gets an authentic beacon
    answer itself, it takes over the announced quorums exactly when the announcement
    carries an authentic answer of the same round or of one of the two before; with an
    older or a later round, or a forged one, it does nothing (or panics on malformed
    text).  If the node cannot fetch the beacon it takes them over unchecked. *)
Theorem re_election_gossip_check env info tstar new gk d w w' out :
  (∀ data, drand_answer env = Some data → 0 ≤ round data < 2 ^ 63) → 0 ≤ round d < 2 ^ 63 →
  check_re_elected_status env info tstar new gk d w = (w', out, HOk) →
  let taken_over := (w', out, HOk) = handle_check_re_elected_status info tstar new gk w in
  let ignored := w' = w ∧ out = [] in
  match drand_answer env with
  | None => taken_over
  | Some data =>
      if authentic data then
        (taken_over ∧ round data - 2 ≤ round d ≤ round data ∧ authentic d = true) ∨
        (ignored ∧ ¬ (round data - 2 ≤ round d ≤ round data ∧ authentic d = true))
      else taken_over
  end.
Proof.
  intros Hdata Hd. unfold check_re_elected_status. destruct (drand_answer env) as [data|]; [|done].
  specialize (Hdata data eq_refl). unfold authentic.
  destruct (hex_decode (previous_signature data)) as [p|]; [|done].
  destruct (hex_decode (drand_signature data)) as [s|]; [|done].
  destruct (verify_drand (round data) p s); [|done].
  assert ((DRAND_ROUND_THRESHOLD_TOLERNACE <=? u64 (round data - round d)) =
          negb (bool_decide (round data - 2 ≤ round d ≤ round data))) as ->.
  { unfold DRAND_ROUND_THRESHOLD_TOLERNACE, u64. case_bool_decide.
    - rewrite wrap_small by lia. apply Z.leb_gt. lia.
    - apply Z.leb_le. destruct (decide (round d ≤ round data)).
      + rewrite wrap_small by lia. lia.
      + unfold wrap. replace (round data - round d)
          with ((round data - round d + 2 ^ 64) + (-1) * 2 ^ 64) by lia.
        rewrite Z_mod_plus_full, Z.mod_small; lia. }
  case_bool_decide as Hr; cbn [negb]; [|intros [= <- <-]; right; naive_solver].
  destruct (hex_decode (previous_signature d)) as [p'|]; [|done].
  destruct (hex_decode (drand_signature d)) as [s'|]; [|done].
  destruct (verify_drand (round d) p' s'); [naive_solver|].
  intros [= <- <-]. right. naive_solver.
Qed.
End Elections.

(** ** The threshold of a quorum *)

(** Double precision does not round the threshold of whole percentages and of quorums that
    fit 32 bits: the product is exact, and the quotient keeps its ceiling. *)
Lemma calculate_threshold_binary64 `{RG : Rng} ln_1p of_biguint gen (n k : Z) :
  0 < n < 2 ^ 32 → 0 ≤ k ≤ 100 →
  calculate_threshold (TF:=binary64_threshold ln_1p of_biguint gen) n (float_of_Z k)
  = - (- (n * k) / 100).
Proof.
  intros Hn Hk. unfold calculate_threshold.
  cbn [f64_lt f64_zero f64_hundred f64_of_usize f64_mul f64_div f64_ceil_u32 binary64_threshold binary64].
  rewrite !flt_Z, (proj2 (Z.ltb_ge k 0)), (proj2 (Z.ltb_ge 100 k)) by lia. cbn [orb].
  rewrite (proj2 (Z.eqb_neq n 0)), fmul_Z, ceil_hundredth by nia.
  destruct (_ =? 0) eqn:H0; cbn [andb]; [|done]. apply Z.eqb_eq in H0. rewrite H0. by case_match.
Qed.

(** C24: The threshold of a quorum of [n] provers at [k] percent, computed in double
    precision, is the least [t] with [t] at least [k] percent of [n]: it is at most [n],
    positive for a positive percentage, and a strict majority above 50 percent.  The key
    generation accepts the quorum with it exactly when [n] is at least 3 and the percentage
    leaves one prover out, [n * k <= 100 * (n - 1)]. *)
Theorem election_threshold `{RS : Rsa} `{RG : Rng} ln_1p of_biguint gen (n k : Z) :
  0 < n < 2 ^ 32 → 0 ≤ k ≤ 100 →
  let t := calculate_threshold (TF:=binary64_threshold ln_1p of_biguint gen) n (float_of_Z k) in
  0 ≤ t ≤ n ∧ n * k ≤ 100 * t ∧ 100 * (t - 1) < n * k ∧ (1 ≤ k → 1 ≤ t) ∧ (50 < k → n < 2 * t) ∧
  (is_Ok (Network_new (Z.to_nat t) (Z.to_nat n) false) = true ↔
     3 ≤ n ∧ 1 ≤ k ∧ n * k ≤ 100 * (n - 1)).
Proof.
  intros Hn Hk. cbn zeta. rewrite calculate_threshold_binary64 by done.
  set (t := - (- (n * k) / 100)).
  assert (100 * (t - 1) < n * k ≤ 100 * t) as Ht.
  { pose proof (Z.mul_div_le (- (n * k)) 100). pose proof (Z.mul_succ_div_gt (- (n * k)) 100). lia. }
  split_and!; try nia.
  destruct (Network_new_spec (Z.to_nat t) (Z.to_nat n) false) as [[Hv ->]|[Hv [msg ->]]]; cbn; nia.
Qed.

(** ** The claims on a small network

    Six registered provers, the first two being the bootstrap entries; integer floats
    (a quotient by a hundred is kept in hundredths); a beacon that signs round [r] with
    the byte [r]. *)
Module ElectionExamples.
#[local] Existing Instance NodeSelection.Examples.toy_rng.
#[local] Existing Instance NodeSelection.Examples.toy_f64.
#[local] Instance toy_threshold : ThresholdFloat := {|
  f64_hundred := (100 : f64 (F64:=NodeSelection.Examples.toy_f64));
  f64_lt := Z.ltb; f64_of_usize := λ n, n; f64_mul := Z.mul; f64_div := λ a _, a;
  f64_ceil_u32 := λ a, - ((- a) / 100)
|}.
#[local] Instance toy_drand : Drand := {|
  verify_drand r _ sg := bool_decide (sg = [r mod 256])
|}.
#[local] Instance no_rsa : Rsa := {|
  RsaPublicKey := unit; RsaPrivateKey := unit; Rand := unit; rsa_new _ := Ok tt;
  rsa_public _ := tt; encrypt _ _ m := Ok m; decrypt _ m := Ok m
|}.

Definition prover (i : Z) : ProverInfo := {|
  evm_address := []; peer_id := 100 + i; address := ""; rpcaddr := ""; human_pub_key := [];
  rsa_pub_key := ""; voting_power := [4 * i; 0; 0; 0]; idx := i
|}.
Definition registry : list ProverInfo := prover <$> [1; 2; 3; 4; 5; 6].
Definition beacon (r : Z) (sg : string) : DrandResponse :=
  {| round := r; randomness := "07"; drand_signature := sg; previous_signature := "00" |}.
Definition env0 : Env := {|
  provers_answers := [registry];
  ping_answers := [(λ p, negb (idx p =? 4)); (λ _, true)];
  drand_answer := Some (beacon 9 "09"); local_random := [5]
|}.
Definition defaults : Settings := {| MIN_NODES := 3; EPSILON := 1; THRESHOLD := (60 : f64) |}.
Definition empty_db : Db :=
  {| db_exclusion := None; db_threshold := None; db_min_nodes := None; db_epsilon := None |}.
Definition w_start : World := pre_start 101 101 defaults empty_db.
Definition w_elected : World := (handle_trigger_election env0 w_start).1.1.

Definition reports : list (Env * ElectionEngineMessage f64) :=
  (λ m, (env0, m)) <$> [RecordDKGInitNodeStatus 103; RecordDKGInitNodeStatus 777;
    RecordDKGInitNodeStatus 106; ElectionStartDKGInit; RecordDKGInitNodeStatus 105].

Ltac ends_ok h :=
  let H := fresh in
  assert (h.2 = HOk) as H by (vm_compute; reflexivity); revert H;
  destruct h as [[? ?] ?]; cbn [fst snd]; intros ->; reflexivity.

Lemma barrier_opens_iff_all_reported_witness :
  Gossip (start BDkgInit) ∈ (run reports w_elected).1.2 ∧
  ∀ p, p ∈ [103; 105; 106] → RecordDKGInitNodeStatus p ∈ reports.*2.
Proof.
  assert (∀ p, p ∈ [103; 105; 106] → RecordDKGInitNodeStatus p ∈ reports.*2) as Hall.
  { intros p Hp. rewrite !elem_of_cons, elem_of_nil in Hp.
    destruct Hp as [->|[->|[->|[]]]]; vm_compute; repeat constructor. }
  split; [|exact Hall].
  apply (barrier_opens_iff_all_reported BDkgInit reports w_elected
    (run reports w_elected).1.1 (run reports w_elected).1.2).
  - split; [by apply (bool_decide_unpack _)|]. repeat split; by apply map_Forall_empty.
  - reflexivity.
  - by apply (bool_decide_unpack _).
  - repeat constructor; done.
  - ends_ok (run reports w_elected).
  - intros p Hp. apply Hall.
    assert (members BDkgInit (engine w_elected) = list_to_set [103; 105; 106]) as Hm
      by by apply (bool_decide_unpack _).
    rewrite Hm in Hp. by apply elem_of_list_to_set in Hp.
Defined.

(** The relay after all three provers reported; peer 777 is none of them. *)
Definition w_reported : World := (run reports w_elected).1.1.
Lemma outsider_report_restarts_round_witness :
  ∃ w', handle env0 (RecordDKGInitNodeStatus 777) w_reported = (w', [Gossip StartDKGRound1], HOk).
Proof.
  destruct (outsider_report_restarts_round BDkgInit env0 777 w_reported) as (w' & H & _).
  - split; [by apply (bool_decide_unpack _)|]. repeat split; by apply map_Forall_empty.
  - by apply (bool_decide_unpack _).
  - by apply (bool_decide_unpack _).
  - by exists w'.
Defined.

(** A second election in which prover 4 is unreachable and prover 3 was elected before. *)
Definition re_elected : Handled := trigger_re_election env0 [prover 3; prover 4] w_start.
Lemma re_election_quorum_witness :
  length (elected_provers (engine re_elected.1.1)) = 3%nat ∧
  tstar_provers (engine re_elected.1.1) = [prover 3].
Proof.
  destruct (re_election_quorum env0 [prover 3; prover 4] w_start re_elected.1.1 re_elected.1.2)
    as [(fetched & info & tstar & new & d & Hin & _ & (_ & Hlen & Ht & _) & _)|(_ & _ & Hno)].
  - unfold re_elected. ends_ok (trigger_re_election env0 [prover 3; prover 4] w_start).
  - apply list_elem_of_singleton in Hin as ->. rewrite Ht, Hlen. split; vm_compute; reflexivity.
  - split; vm_compute; reflexivity.
Defined.

Lemma first_election_quorum_witness :
  elected_provers (engine w_elected) = prover <$> [3; 5; 6] ∧
  current_threshold (engine w_elected) = 2.
Proof.
  destruct (first_election_quorum env0 w_start w_elected (handle_trigger_election env0 w_start).1.2)
    as (fetched & a & _ & _ & _ & _ & _ & Ht & _).
  - cbn. lia.
  - unfold w_elected. ends_ok (handle_trigger_election env0 w_start).
  - split; [vm_compute; reflexivity|]. rewrite Ht. vm_compute. reflexivity.
Defined.

Lemma guard_threshold_is_stale_witness :
  current_threshold (engine (run [(env0, TriggerReElection [prover 3])] w_elected).1.1) = 2.
Proof.
  refine (eq_trans (proj1 (guard_threshold_is_stale [(env0, TriggerReElection [prover 3])]
    w_elected _ (run [(env0, TriggerReElection [prover 3])] w_elected).1.2
    (run [(env0, TriggerReElection [prover 3])] w_elected).2 _ _)) _).
  - by repeat constructor.
  - rewrite <- !surjective_pairing. reflexivity.
  - vm_compute. reflexivity.
Defined.

Definition updates : list (Env * ElectionEngineMessage f64) :=
  (λ m, (env0, m)) <$> [AddToExclusionList 104; UpdateElectionParams
    {| p_threshold := Some (70 : f64); p_epsilon := None; p_min_nodes := Some 4 |}].
Lemma parameters_survive_restart_witness :
  settings (pre_start 101 101 defaults (db (run updates w_start).1.1))
    = {| MIN_NODES := 4; EPSILON := 1; THRESHOLD := (70 : f64) |} ∧
  exclusion_list (pre_start 101 101 defaults (db (run updates w_start).1.1)) = {[104]}.
Proof.
  destruct (parameters_survive_restart defaults updates w_start (run updates w_start).1.1
    (run updates w_start).1.2 (run updates w_start).2 101 101 empty_db eq_refl) with 101 101
    as [-> ->].
  - rewrite <- !surjective_pairing. reflexivity.
  - split; [reflexivity|]. by apply (bool_decide_unpack _).
Defined.

(** A round four behind the node's own is not followed. *)
Lemma re_election_gossip_check_witness :
  (check_re_elected_status env0 (ElectionInfo_new 2 1 3) ∅ ∅ ∅ (beacon 5 "05") w_start).1.2 = [].
Proof.
  pose proof (re_election_gossip_check env0 (ElectionInfo_new 2 1 3) ∅ ∅ ∅ (beacon 5 "05") w_start
    (check_re_elected_status env0 (ElectionInfo_new 2 1 3) ∅ ∅ ∅ (beacon 5 "05") w_start).1.1
    (check_re_elected_status env0 (ElectionInfo_new 2 1 3) ∅ ∅ ∅ (beacon 5 "05") w_start).1.2) as H.
  destruct H as [(_ & H & _)|[[_ H] _]].
  - intros data [= <-]. cbn. lia.
  - cbn. lia.
  - ends_ok (check_re_elected_status env0 (ElectionInfo_new 2 1 3) ∅ ∅ ∅ (beacon 5 "05") w_start).
  - cbn in H. lia.
  - exact H.
Defined.

(** Three provers at 67 percent need all three: the key generation refuses them. *)
Lemma election_threshold_witness :
  is_Ok (Network_new (Z.to_nat (calculate_threshold
    (TF:=binary64_threshold (λ x, x) (λ z, Some (float_of_Z z)) (λ x g, Some (x, g))) 3 (float_of_Z 67)))
    (Z.to_nat 3) false) = false.
Proof.
  destruct (election_threshold (λ x, x) (λ z, Some (float_of_Z z)) (λ x g, Some (x, g)) 3 67)
    as (_ & _ & _ & _ & _ & H); [lia..|].
  destruct (is_Ok _); [|done]. destruct (proj1 H eq_refl) as (_ & _ & Hc). lia.
Defined.
End ElectionExamples.
