(* ===== verification/DkgEngine.v ===== *)
(** * The DKG engine (crates/actors/src/dkg_engine_actor.rs)

    The actor that runs the key generation and the resharing on a node: four key pairs,
    two on each curve, taken through the rounds of [Dkg] and [Resharing] in step.

    A handler returns the new state, what it emits in order, and how it ended; a handler
    that fails keeps the changes it made before.  The random values a handler draws, the
    actor's RSA key and the saved key shares come in an [Env]. *)
From Stdlib Require Import ZArith Lia Ascii String.
From stdpp Require Import base list gmap sets strings pretty.
From S2P Require Import Prelude PrimeField Curve Polynomial Dkg Resharing Messages.

(** The [Debug] and [Display] texts of errors, and PKCS#1 decoding. *)
Class EngineTexts `{R : Rsa} := {
  show_error : Error → string;
  show_dkg : DKGError → string;
  from_pkcs1_pem : string → outcome string RsaPublicKey
}.

(** ** One key pair on one curve *)
Section OneCurve.
Context `{C : Curve} `{HO : HashOrder} `{R : Rsa} `{ET : !EngineTexts}.

Record NodeData := {
  input_y : gmap Z (list Z);
  input_v : gmap Z (list Point);
  other_pubshares : gmap Z Point;
  node : Node
}.

(** The random values of one run: the secret and the coefficients of the polynomial, the
    padding of the encryptions, and the two values a fresh node is filled with. *)
Record Coins := {
  coin_secret : FieldEl;
  coin_poly : nat → FieldEl;
  coin_rsa : Z → Rand;
  coin_share0 : FieldEl;
  coin_share1 : FieldEl
}.

Definition set_node (n : Node) (nd : NodeData) : NodeData :=
  {| input_y := input_y nd; input_v := input_v nd; other_pubshares := other_pubshares nd; node := n |}.
Definition set_inputs (y : gmap Z (list Z)) (v : gmap Z (list Point)) (nd : NodeData) : NodeData :=
  {| input_y := y; input_v := v; other_pubshares := other_pubshares nd; node := node nd |}.
Definition set_pubshares (p : gmap Z Point) (nd : NodeData) : NodeData :=
  {| input_y := input_y nd; input_v := input_v nd; other_pubshares := p; node := node nd |}.

(** [new_node!] and [restore_node_with_share!]. *)
Definition new_node (c : Coins) (sk : RsaPrivateKey) (i : Z) : outcome string NodeData :=
  n ← map_err (λ e, "Error initializing node for DKG: " +:+ show_dkg e)
        (Node_with_rsa_key (coin_share0 c) (coin_share1 c) i sk);
  Ok {| input_y := ∅; input_v := ∅; other_pubshares := ∅; node := n |}.

Definition restore_node_with_share (c : Coins) (sk : RsaPrivateKey) (i : Z)
    (keyshare net_pubkey : list Z) : outcome string NodeData :=
  n ← map_err (λ e, "Error initializing node for resharing: " +:+ show_dkg e)
        (Node_with_rsa_key_and_keyshare show_error (coin_share1 c) i sk keyshare net_pubkey);
  Ok {| input_y := ∅; input_v := ∅; other_pubshares := ∅; node := n |}.

(** [encode_v_values]; encoding has no error value, only a panic. *)
Definition encode_v_values {E} (v : list Point) : outcome E (list (list Z)) :=
  unwrap_res (mapM encode v).

Definition own_y_value_bytes (y : FieldEl) : list Z := scalar_to_bytes (scalar_of_field y).

(** A result next to the node data as the call left it. *)
Definition Effect (E A : Type) : Type := NodeData * outcome E A.

(** [process_dkg_round_1]. *)
Definition process_dkg_round_1 (c : Coins) (network : Network) (nd : NodeData)
    : Effect DKGError Round1Output :=
  match dkg_round_1 (coin_secret c) (coin_poly c) (coin_rsa c) (node nd) network with
  | Ok (encrypted_y_values, v_values, own_y_value) =>
      match v_values !! 0%nat with
      | None => (nd, Panic)
      | Some v0 =>
          let n := {| id := id (node nd); rsa_pubkey := rsa_pubkey (node nd);
                      rsa_seckey := rsa_seckey (node nd); init_pub_share := v0;
                      private_share := private_share (node nd);
                      network_pubkey := network_pubkey (node nd);
                      own_partial_share := own_y_value |} in
          (set_node n nd,
           vs ← encode_v_values v_values;
           Ok (encrypted_y_values, vs, own_y_value_bytes own_y_value))
      end
  | Err e => (nd, Err e)
  | Panic => (nd, Panic)
  end.

(** [process_resharing_round_1]. *)
Definition process_resharing_round_1 (c : Coins) (network new_network : Network) (nd : NodeData)
    : Effect DKGError ResharingRound1Output :=
  (nd, '(encrypted_y_values, v_values) ←
         map_err DkgResharingError
           (resharing_round_1 (coin_poly c) (coin_rsa c) (node nd) network new_network);
       vs ← encode_v_values v_values;
       Ok (encrypted_y_values, vs)).

(** [process_round_1] and [process_resharing_round_1] of the two [register_...]: the
    commitments are decoded, this node's ciphertext is picked out, both are stored under
    the sender's index.  [missing] is the text of the second error. *)
Definition register_result (missing : string) (my_node_id other_node_idx : Z)
    (y_values : gmap Z (list Z)) (vs : list (list Z)) (nd : NodeData) : Effect string () :=
  match mapM from_encoded vs with
  | Panic => (nd, Panic)
  | Err _ => (nd, Err "Error decoding points")
  | Ok v_values =>
      match y_values !! my_node_id with
      | None => (nd, Err missing)
      | Some y_value =>
          (set_inputs (<[other_node_idx := y_value]> (input_y nd))
                      (<[other_node_idx := v_values]> (input_v nd)) nd, Ok tt)
      end
  end.

(** What the second rounds store in the node, and the encoded public share they return. *)
Definition finish_round_2 {E} (res : FieldEl * Point * Point) (nd : NodeData)
    : Effect E (list Z) :=
  let '(priv_share, pub_share, net_pubkey) := res in
  let n := {| id := id (node nd); rsa_pubkey := rsa_pubkey (node nd);
              rsa_seckey := rsa_seckey (node nd); init_pub_share := init_pub_share (node nd);
              private_share := priv_share; network_pubkey := net_pubkey;
              own_partial_share := own_partial_share (node nd) |} in
  (set_pubshares (<[id n := pub_share]> (other_pubshares nd)) (set_node n nd),
   unwrap_res (encode pub_share)).

Definition nd_dkg_round_2 (network : Network) (nd : NodeData) : Effect DKGError (list Z) :=
  match dkg_round_2 (node nd) network (input_y nd) (input_v nd) with
  | Ok res => finish_round_2 res nd
  | Err e => (nd, Err e)
  | Panic => (nd, Panic)
  end.

(** [kind] names the point type in the error's text. *)
Definition nd_resharing_round_2 (kind : string) (tstar_network new_network : Network)
    (k_dkg : list Z) (nd : NodeData) : Effect DKGError (list Z) :=
  match from_encoded k_dkg with
  | Panic => (nd, Panic)
  | Err e => (nd, Err (DkgOther ("Error encoding group public key to " +:+ kind +:+ ": "
                                 +:+ show_error e)))
  | Ok k_dkg =>
      match resharing_round_2 (node nd) tstar_network new_network (input_y nd) (input_v nd) k_dkg with
      | Ok res => finish_round_2 res nd
      | Err e => (nd, Err (DkgResharingError e))
      | Panic => (nd, Panic)
      end
  end.

Definition process_round_3 (network : Network) (is_resharing is_elected : bool) (nd : NodeData)
    : outcome DKGError () :=
  if is_resharing && is_elected
  then _ ← map_err DkgResharingError (resharing_round_3 (node nd) network (other_pubshares nd)); Ok tt
  else _ ← dkg_round_3 (node nd) network (other_pubshares nd); Ok tt.

Definition nd_store_pubshare (i : Z) (pubshare : list Z) (nd : NodeData) : Effect Error () :=
  match from_encoded pubshare with
  | Ok point => (set_pubshares (<[i := point]> (other_pubshares nd)) nd, Ok tt)
  | Err e => (nd, Err e)
  | Panic => (nd, Panic)
  end.

Definition nd_priv_share (nd : NodeData) : list Z :=
  scalar_to_bytes (scalar_of_field (private_share (node nd))).

Definition nd_pub_share {E} (nd : NodeData) : outcome E (list Z) :=
  unwrap_res (encode (scalar_mul base_point_or_generator
                        (scalar_of_field (private_share (node nd))))).

Definition nd_network_key {E} (nd : NodeData) : outcome E (list Z) :=
  unwrap_res (encode (network_pubkey (node nd))).

Definition nd_no_of_inputs (nd : NodeData) : nat * nat := (size (input_v nd), size (input_y nd)).

Definition nd_clear_inputs (nd : NodeData) : NodeData :=
  {| input_y := ∅; input_v := ∅; other_pubshares := ∅; node := node nd |}.
End OneCurve.
Arguments NodeData C {R}.
Arguments Coins C {R}.

(** ** The four key pairs *)
Section Engine.
Context (CS CB : Curve) `{HO : HashOrder} `{R : Rsa} `{ET : !EngineTexts} {F : Type}.

Inductive NodeDataVariant :=
  | VSecp256k1 (n : NodeData CS)
  | VBabyJubJub (n : NodeData CB).

(** The random values, by key name. *)
Record AllCoins := { coins_s : string → Coins CS; coins_b : string → Coins CB }.

Section Methods.
Context {E A : Type}.
(** [match self { Self::Secp256k1(node) => ..., Self::BabyJubJub(node) => ... }] for a
    body that may change the node. *)
Definition on_variant (fs : NodeData CS → NodeData CS * outcome E A)
    (fb : NodeData CB → NodeData CB * outcome E A) (self : NodeDataVariant)
    : NodeDataVariant * outcome E A :=
  match self with
  | VSecp256k1 n => let '(n', r) := fs n in (VSecp256k1 n', r)
  | VBabyJubJub n => let '(n', r) := fb n in (VBabyJubJub n', r)
  end.
End Methods.

(** [DKGEngineState::parse_rsa_keys]: [replace] turns a backslash followed by an [r] into
    a newline. *)
Fixpoint replace_cr (s : string) : string :=
  match s with
  | String c1 ((String c2 rest) as s') =>
      if (c1 =? "\")%char && (c2 =? "r")%char then String "010" (replace_cr rest)
      else String c1 (replace_cr s')
  | s => s
  end.

Definition parse_rsa_keys (elected_peers : QuorumMap) : outcome string (gmap Z RsaPublicKey) :=
  foldM (λ keys '(peer, (prover, i)),
    key ← map_err (λ e, "Failed to parse RSA public key for peer " +:+ pretty peer +:+ ": " +:+ e)
            (from_pkcs1_pem (replace_cr (rsa_pub_key prover)));
    Ok (<[i := key]> keys)) ∅ (hm_iter elected_peers).

Definition set_keys (keys : gmap Z RsaPublicKey) (n : Network) : Network :=
  {| Dkg.threshold := Dkg.threshold n; total_nodes := total_nodes n; public_keys := keys |}.

Definition quorum_network (t : Z) (provers : QuorumMap) (is_tstar : bool) : outcome DKGError Network :=
  new_network ← map_err (λ e, DkgOther ("Error initializing network for Resharing: " +:+ show_error e))
                  (Network_new (Z.to_nat t) (size provers) is_tstar);
  keys ← map_err (λ e, DkgOther
            ("Error occurred while parsing pub keys for resharing, details: " +:+ e))
          (parse_rsa_keys provers);
  Ok (set_keys keys new_network).

(** The methods of [NodeDataVariant]. *)
Definition v_dkg_round_1 (c : AllCoins) (key : string) (network : Network)
    : NodeDataVariant → NodeDataVariant * outcome DKGError Round1Output :=
  on_variant (process_dkg_round_1 (coins_s c key) network) (process_dkg_round_1 (coins_b c key) network).

Definition v_resharing_round_1 (c : AllCoins) (key : string) (t : Z) (network : Network)
    (new_provers : QuorumMap) (self : NodeDataVariant)
    : NodeDataVariant * outcome DKGError ResharingRound1Output :=
  match quorum_network t new_provers false with
  | Ok new_network =>
      on_variant (process_resharing_round_1 (coins_s c key) network new_network)
                 (process_resharing_round_1 (coins_b c key) network new_network) self
  | Err e => (self, Err e)
  | Panic => (self, Panic)
  end.

Definition register_round_1_result_from_other_node (my_node_id other_node_idx : Z)
    (out : Round1Output) : NodeDataVariant → NodeDataVariant * outcome string () :=
  let '(y_values, vs, _) := out in
  on_variant
    (register_result "Error finding round 1 output for node" my_node_id other_node_idx y_values vs)
    (register_result "Error finding round 1 output for node" my_node_id other_node_idx y_values vs).

Definition register_resharing_round_1_result_from_other_node (my_node_id other_node_idx : Z)
    (out : ResharingRound1Output) : NodeDataVariant → NodeDataVariant * outcome string () :=
  let '(y_values, vs) := out in
  let missing := "Error finding resharing round 1 output for node from node "
                 +:+ pretty other_node_idx +:+ ", my node id " +:+ pretty my_node_id in
  on_variant (register_result missing my_node_id other_node_idx y_values vs)
             (register_result missing my_node_id other_node_idx y_values vs).

Definition v_dkg_round_2 (network : Network)
    : NodeDataVariant → NodeDataVariant * outcome DKGError (list Z) :=
  on_variant (nd_dkg_round_2 network) (nd_dkg_round_2 network).

Definition v_resharing_round_2 (tstar_network new_network : Network) (k_dkg : list Z)
    : NodeDataVariant → NodeDataVariant * outcome DKGError (list Z) :=
  on_variant (nd_resharing_round_2 "affine point" tstar_network new_network k_dkg)
             (nd_resharing_round_2 "edwards affine point" tstar_network new_network k_dkg).

Definition v_round_3 (network : Network) (is_resharing is_elected : bool) (self : NodeDataVariant)
    : NodeDataVariant * outcome DKGError () :=
  (self, match self with
         | VSecp256k1 n => process_round_3 network is_resharing is_elected n
         | VBabyJubJub n => process_round_3 network is_resharing is_elected n
         end).

Definition store_pubshare_for_node (i : Z) (pubshare : list Z)
    : NodeDataVariant → NodeDataVariant * outcome Error () :=
  on_variant (nd_store_pubshare i pubshare) (nd_store_pubshare i pubshare).

Definition get_priv_share (self : NodeDataVariant) : list Z :=
  match self with VSecp256k1 n => nd_priv_share n | VBabyJubJub n => nd_priv_share n end.

Definition get_pub_share {E} (self : NodeDataVariant) : outcome E (list Z) :=
  match self with VSecp256k1 n => nd_pub_share n | VBabyJubJub n => nd_pub_share n end.

Definition get_network_key {E} (self : NodeDataVariant) : outcome E (list Z) :=
  match self with VSecp256k1 n => nd_network_key n | VBabyJubJub n => nd_network_key n end.

Definition get_no_of_inputs (self : NodeDataVariant) : nat * nat :=
  match self with VSecp256k1 n => nd_no_of_inputs n | VBabyJubJub n => nd_no_of_inputs n end.

Definition clear_inputs (self : NodeDataVariant) : NodeDataVariant :=
  match self with
  | VSecp256k1 n => VSecp256k1 (nd_clear_inputs n)
  | VBabyJubJub n => VBabyJubJub (nd_clear_inputs n)
  end.

Definition get_no_of_other_pub_shares (self : NodeDataVariant) : nat :=
  match self with
  | VSecp256k1 n => size (other_pubshares n)
  | VBabyJubJub n => size (other_pubshares n)
  end.

(** [get_received_y_v_from] and [pub_shares_received_from] (used in log lines). *)
Definition get_received_y_v_from (self : NodeDataVariant) : gset Z :=
  match self with
  | VSecp256k1 n => dom (input_v n) ∪ dom (input_y n)
  | VBabyJubJub n => dom (input_v n) ∪ dom (input_y n)
  end.
Definition pub_shares_received_from (self : NodeDataVariant) : gset Z :=
  match self with
  | VSecp256k1 n => dom (other_pubshares n)
  | VBabyJubJub n => dom (other_pubshares n)
  end.

(** ** The state *)
Record ResharingInitContext := {
  rsa_private_key : RsaPrivateKey;
  c_election_info : ElectionInfo;
  node_peer_id : PeerId;
  c_group_keys : KeyMap
}.

(** [struct DKGEngineState]. *)
Record DKGEngineState := {
  st_idx : Z;
  st_peer_id : PeerId;
  st_network : Network;
  dkg_nodes : gmap string NodeDataVariant;
  st_tstar_provers : QuorumMap;
  st_new_provers : QuorumMap;
  st_election_info : ElectionInfo;
  finalized_group_public_keys : KeyMap;
  resharing_round2_triggered : bool;
  resharing_round1_context : option ResharingInitContext
}.

Definition set_nodes (nodes : gmap string NodeDataVariant) (st : DKGEngineState) : DKGEngineState :=
  {| st_idx := st_idx st; st_peer_id := st_peer_id st; st_network := st_network st;
     dkg_nodes := nodes; st_tstar_provers := st_tstar_provers st;
     st_new_provers := st_new_provers st; st_election_info := st_election_info st;
     finalized_group_public_keys := finalized_group_public_keys st;
     resharing_round2_triggered := resharing_round2_triggered st;
     resharing_round1_context := resharing_round1_context st |}.
Definition set_network (n : Network) (st : DKGEngineState) : DKGEngineState :=
  {| st_idx := st_idx st; st_peer_id := st_peer_id st; st_network := n;
     dkg_nodes := dkg_nodes st; st_tstar_provers := st_tstar_provers st;
     st_new_provers := st_new_provers st; st_election_info := st_election_info st;
     finalized_group_public_keys := finalized_group_public_keys st;
     resharing_round2_triggered := resharing_round2_triggered st;
     resharing_round1_context := resharing_round1_context st |}.
Definition set_context (c : option ResharingInitContext) (triggered : bool) (st : DKGEngineState)
    : DKGEngineState :=
  {| st_idx := st_idx st; st_peer_id := st_peer_id st; st_network := st_network st;
     dkg_nodes := dkg_nodes st; st_tstar_provers := st_tstar_provers st;
     st_new_provers := st_new_provers st; st_election_info := st_election_info st;
     finalized_group_public_keys := finalized_group_public_keys st;
     resharing_round2_triggered := triggered; resharing_round1_context := c |}.
Definition set_quorums (tstar new : QuorumMap) (info : ElectionInfo) (keys : KeyMap)
    (st : DKGEngineState) : DKGEngineState :=
  {| st_idx := st_idx st; st_peer_id := st_peer_id st; st_network := st_network st;
     dkg_nodes := dkg_nodes st; st_tstar_provers := tstar; st_new_provers := new;
     st_election_info := info; finalized_group_public_keys := keys;
     resharing_round2_triggered := resharing_round2_triggered st;
     resharing_round1_context := resharing_round1_context st |}.

Definition is_new_prover (st : DKGEngineState) : bool :=
  bool_decide (is_Some (st_new_provers st !! st_peer_id st)).
Definition is_tstar_prover (st : DKGEngineState) : bool :=
  bool_decide (is_Some (st_tstar_provers st !! st_peer_id st)).

(** [DKGEngineState::dkg_init]. *)
Definition dkg_init (c : AllCoins) (sk : RsaPrivateKey) (peer : PeerId) (i : Z)
    (elected_peers : QuorumMap) (t : Z) : outcome string DKGEngineState :=
  n1 ← new_node (coins_s c "OPRFSecp256k1") sk i;
  n2 ← new_node (coins_b c "OPRFBabyJubJub") sk i;
  n3 ← new_node (coins_s c "JWTPRFSecp256k1") sk i;
  n4 ← new_node (coins_b c "DecryptBabyJubjub") sk i;
  network ← map_err (λ e, "Error initializing network for DKG: " +:+ show_error e)
              (Network_new (Z.to_nat t) (size elected_peers) false);
  keys ← parse_rsa_keys elected_peers;
  Ok {| st_idx := i; st_peer_id := peer; st_network := set_keys keys network;
        dkg_nodes := {[ "OPRFSecp256k1" := VSecp256k1 n1; "OPRFBabyJubJub" := VBabyJubJub n2;
                        "JWTPRFSecp256k1" := VSecp256k1 n3; "DecryptBabyJubjub" := VBabyJubJub n4 ]};
        st_tstar_provers := ∅; st_new_provers := elected_peers;
        st_election_info := ElectionInfo_new 0 0 0; finalized_group_public_keys := ∅;
        resharing_round2_triggered := false; resharing_round1_context := None |}.

(** [DKGEngineState::restore_old_resharing_state]. *)
Definition restore_old_resharing_state (c : AllCoins) (sk : RsaPrivateKey) (peer : PeerId) (i : Z)
    (elected_peers : QuorumMap) (t : Z) (private_keyshares : KeyMap) (tstar : QuorumMap)
    (group_keys : KeyMap) : outcome string DKGEngineState :=
  let share k := ok_or (private_keyshares !! k) ("Missing private key share for " +:+ k) in
  let group k := ok_or (group_keys !! k) ("Missing group key for " +:+ k) in
  s1 ← share "OPRFSecp256k1"; s2 ← share "OPRFBabyJubJub";
  s3 ← share "JWTPRFSecp256k1"; s4 ← share "DecryptBabyJubjub";
  g1 ← group "OPRFSecp256k1"; g2 ← group "OPRFBabyJubJub";
  g3 ← group "JWTPRFSecp256k1"; g4 ← group "DecryptBabyJubjub";
  n1 ← restore_node_with_share (coins_s c "OPRFSecp256k1") sk i s1 g1;
  n2 ← restore_node_with_share (coins_b c "OPRFBabyJubJub") sk i s2 g2;
  n3 ← restore_node_with_share (coins_s c "JWTPRFSecp256k1") sk i s3 g3;
  n4 ← restore_node_with_share (coins_b c "DecryptBabyJubjub") sk i s4 g4;
  network ← map_err (λ e, "Failed to initialize network for DKG: " +:+ show_error e)
              (Network_new (Z.to_nat t) (size elected_peers) false);
  keys ← parse_rsa_keys elected_peers;
  Ok {| st_idx := i; st_peer_id := peer; st_network := set_keys keys network;
        dkg_nodes := {[ "OPRFSecp256k1" := VSecp256k1 n1; "OPRFBabyJubJub" := VBabyJubJub n2;
                        "JWTPRFSecp256k1" := VSecp256k1 n3; "DecryptBabyJubjub" := VBabyJubJub n4 ]};
        st_tstar_provers := tstar; st_new_provers := elected_peers;
        st_election_info := ElectionInfo_new t (u32 (Z.of_nat (size elected_peers))) 1;
        finalized_group_public_keys := group_keys;
        resharing_round2_triggered := false; resharing_round1_context := None |}.

(** A loop [for (key, node) in state.dkg_nodes.iter_mut()] that collects a result per key
    and stops at the first failure: the nodes as the loop left them, and the results. *)
Fixpoint each_node {E A} (f : string → NodeDataVariant → NodeDataVariant * outcome E A)
    (l : list (string * NodeDataVariant)) (nodes : gmap string NodeDataVariant) (acc : gmap string A)
    : gmap string NodeDataVariant * outcome E (gmap string A) :=
  match l with
  | [] => (nodes, Ok acc)
  | (key, nd) :: l =>
      let '(nd', r) := f key nd in
      let nodes := <[key := nd']> nodes in
      match r with
      | Ok a => each_node f l nodes (<[key := a]> acc)
      | Err e => (nodes, Err e)
      | Panic => (nodes, Panic)
      end
  end.

Definition for_nodes {E A} (f : string → NodeDataVariant → NodeDataVariant * outcome E A)
    (st : DKGEngineState) : DKGEngineState * outcome E (gmap string A) :=
  let '(nodes, r) := each_node f (hm_iter (dkg_nodes st)) (dkg_nodes st) ∅ in
  (set_nodes nodes st, r).

(** [run_round] with the two closures it is called with, [round1] and
    [resharing_round1]. *)
Definition round1 (c : AllCoins) (st : DKGEngineState)
    : DKGEngineState * outcome DKGError (gmap string Round1Output) :=
  for_nodes (λ key, v_dkg_round_1 c key (st_network st)) st.

Definition resharing_round1 (c : AllCoins) (info : ElectionInfo) (st : DKGEngineState)
    : DKGEngineState * outcome DKGError (gmap string ResharingRound1Output) :=
  match quorum_network (Messages.threshold info) (st_tstar_provers st) true with
  | Ok tstar_network =>
      for_nodes (λ key, v_resharing_round_1 c key (Messages.threshold info) tstar_network
                          (st_new_provers st)) st
  | Err e => (st, Err e)
  | Panic => (st, Panic)
  end.

(** ** The handlers *)
Record DkgEnv := {
  env_coins : AllCoins;
  (** [DKGEngineActor.0]. *)
  env_rsa_key : RsaPrivateKey;
  (** [get_state(.., "private_keyshares")]. *)
  env_saved_shares : option KeyMap
}.

(** [DkgStateWrapper]. *)
Definition Wrapper : Type := option DKGEngineState.
Definition DkgHandled : Type := Wrapper * list (Output F) * HandlerResult.

Definition skip (w : Wrapper) : DkgHandled := (w, [], HOk).

(** Ends a handler that met an error or a panic in state [st]. *)
Definition stop {E A} (show : E → string) (w : Wrapper) (r : outcome E A) : DkgHandled :=
  match r with
  | Err e => (w, [], HErr (show e))
  | _ => (w, [], HPanic)
  end.

Definition all_nodes (p : NodeDataVariant → bool) (st : DKGEngineState) : bool :=
  forallb p (hm_values (dkg_nodes st)).

(** Both inputs of every key are there: from all the other nodes, or from all of T*. *)
Definition dkg_inputs_ready (st : DKGEngineState) : bool :=
  all_nodes (λ n, let '(i, j) := get_no_of_inputs n in
                  let wanted := u64 (Z.of_nat (total_nodes (st_network st)) - 1) in
                  (Z.of_nat i =? wanted) && (Z.of_nat j =? wanted)) st.
Definition resharing_inputs_ready (st : DKGEngineState) : bool :=
  all_nodes (λ n, let '(i, j) := get_no_of_inputs n in
                  (i =? size (st_tstar_provers st))%nat && (j =? size (st_tstar_provers st))%nat &&
                  is_new_prover st) st.
Definition pubshares_ready (n : nat) (st : DKGEngineState) : bool :=
  all_nodes (λ nd, (get_no_of_other_pub_shares nd =? n)%nat) st.

Definition handle_dkg_init (env : DkgEnv) (i : Z) (peer : PeerId) (peers : QuorumMap) (t : Z)
    (w : Wrapper) : DkgHandled :=
  match dkg_init (env_coins env) (env_rsa_key env) peer i peers t with
  | Ok st => (Some st, [Gossip (DKGInitCompleted peer)], HOk)
  | r => stop (λ e, e) w r
  end.

(** [handle_resharing_init] on the state the node already has (or has just restored):
    [network] is the network of T*, still without keys. *)
Definition resharing_init_existing (context : ResharingInitContext) (network : Network)
    (tstar new : QuorumMap) (st : DKGEngineState) : DkgHandled :=
  let info := c_election_info context in
  let st := set_context None false st in
  let st := set_nodes (clear_inputs <$> dkg_nodes st) st in
  let peer := st_peer_id st in
  let completed := [Gossip (ResharingInitCompleted peer)] in
  if bool_decide (is_Some (tstar !! peer)) then
    match parse_rsa_keys tstar with
    | Ok keys =>
        let st := set_network (set_keys keys network) st in
        let st := set_context (Some context) false st in
        (Some (set_quorums tstar new info (c_group_keys context) st), completed, HOk)
    | r => stop (λ e, e) (Some st) r
    end
  else
    (Some (set_quorums tstar new info (c_group_keys context) st),
     if bool_decide (is_Some (new !! peer)) then completed else [], HOk).

(** ... and on a node without state that joins the new quorum. *)
Definition resharing_init_joining (env : DkgEnv) (context : ResharingInitContext) (i : Z)
    (tstar new : QuorumMap) (w : Wrapper) : DkgHandled :=
  let info := c_election_info context in
  let peer := node_peer_id context in
  match dkg_init (env_coins env) (rsa_private_key context) peer i new (Messages.threshold info) with
  | Ok st =>
      match Network_new (Z.to_nat (Messages.threshold info)) (size new) false with
      | Ok network =>
          let st := set_network network (set_quorums tstar new info (c_group_keys context) st) in
          let st := set_nodes (clear_inputs <$> dkg_nodes st) st in
          (Some st, [Gossip (ResharingInitCompleted peer)], HOk)
      | r => stop (λ e, "Failed to initialize network for resharing: " +:+ show_error e) (Some st) r
      end
  | r => stop (λ e, e) w r
  end.

Definition handle_resharing_init (env : DkgEnv) (context : ResharingInitContext) (i : Z)
    (tstar new : QuorumMap) (w : Wrapper) : DkgHandled :=
  let info := c_election_info context in
  let peer := node_peer_id context in
  match Network_new (Z.to_nat (Messages.threshold info)) (size tstar) true with
  | Ok network =>
      match w with
      | Some st => resharing_init_existing context network tstar new st
      | None =>
          if bool_decide (is_Some (tstar !! peer)) then
            match restore_old_resharing_state (env_coins env) (rsa_private_key context) peer i new
                    (Messages.threshold info) (default ∅ (env_saved_shares env)) tstar
                    (c_group_keys context) with
            | Ok st => resharing_init_existing context network tstar new st
            | r => stop (λ e, e) w r
            end
          else if bool_decide (is_Some (new !! peer)) then
            resharing_init_joining env context i tstar new w
          else skip w
      end
  | r => stop (λ e, "Failed to initialize network for resharing: " +:+ show_error e) w r
  end.

(** The six [handle_start_...]. *)
Definition start_if (eligible : DKGEngineState → bool) (m : DkgEngineMessage) (w : Wrapper)
    : DkgHandled :=
  match w with
  | Some st => if eligible st then (w, [ToDkg m], HOk) else skip w
  | None => skip w
  end.
Definition handle_start_dkg_round_1 : Wrapper → DkgHandled := start_if is_new_prover Round1.
Definition handle_start_dkg_round_2 : Wrapper → DkgHandled := start_if is_new_prover Round2.
Definition handle_start_dkg_round_3 : Wrapper → DkgHandled := start_if is_new_prover Round3.
Definition handle_start_resharing_round_2 : Wrapper → DkgHandled :=
  start_if is_new_prover ResharingRound2.
Definition handle_start_resharing_round_3 : Wrapper → DkgHandled :=
  start_if is_new_prover ResharingRound3.
Definition handle_start_resharing_round_1 (w : Wrapper) : DkgHandled :=
  match w with
  | Some st =>
      match resharing_round1_context st with
      | Some context =>
          if is_tstar_prover st then
            (w, [ToDkg (ResharingRound1 (c_election_info context)
                   (bool_decide (is_Some (st_new_provers st !! node_peer_id context))))], HOk)
          else skip w
      | None => skip w
      end
  | None => skip w
  end.

Definition handle_round1 (env : DkgEnv) (w : Wrapper) : DkgHandled :=
  match w with
  | None => skip w
  | Some st =>
      match round1 (env_coins env) st with
      | (st, Ok out) =>
          (Some st,
           Gossip (Round1Out (st_idx st) out) ::
           (if dkg_inputs_ready st then [Gossip (DKGRound1Completed (st_peer_id st))] else []), HOk)
      | (st, Err _) => skip (Some st)
      | (st, Panic) => (Some st, [], HPanic)
      end
  end.

(** A dealer of the resharing that is in the new quorum too keeps its own share. *)
Definition store_own_output (my_idx : Z) (out : ResharingRound1Output)
    : NodeDataVariant → NodeDataVariant * outcome string () :=
  let '(y_values, vs) := out in
  let own (C : Curve) (name : string) (nd : NodeData C) : NodeData C * outcome string () :=
    match y_values !! my_idx with
    | None => (nd, Err ("Missing resharing Round 1 output for index " +:+ pretty my_idx))
    | Some y =>
        match mapM from_encoded vs with
        | Ok v => (set_inputs (<[my_idx := y]> (input_y nd)) (<[my_idx := v]> (input_v nd)) nd, Ok tt)
        | Err _ => (nd, Err ("Error decoding " +:+ name +:+ " points"))
        | Panic => (nd, Panic)
        end
    end in
  on_variant (own CS "Secp256k1") (own CB "BabyJubJub").

(** [for (key, x) in outputs.iter() { if let Some(node) = nodes.get_mut(key) { .. } }],
    stopping at a failure. *)
Definition each_output {E A} (f : A → NodeDataVariant → NodeDataVariant * outcome E ())
    (outputs : gmap string A) (st : DKGEngineState) : DKGEngineState * outcome E () :=
  foldl (λ '(st, r) '(key, x),
    match r with
    | Ok _ =>
        match dkg_nodes st !! key with
        | Some nd => let '(nd', r') := f x nd in (set_nodes (<[key := nd']> (dkg_nodes st)) st, r')
        | None => (st, r)
        end
    | _ => (st, r)
    end) (st, Ok tt) (hm_iter outputs).

(** An error that is only logged. *)
Definition log_error {E} (r : NodeDataVariant * outcome E ()) : NodeDataVariant * outcome E () :=
  match r with (nd, Err _) => (nd, Ok tt) | _ => r end.

Definition handle_resharing_round1 (env : DkgEnv) (info : ElectionInfo) (is_relected : bool)
    (w : Wrapper) : DkgHandled :=
  match w with
  | None => skip w
  | Some st =>
      if is_tstar_prover st then
        match resharing_round1 (env_coins env) info st with
        | (st, Ok out) =>
            let gossip := Gossip (ResharingRound1Out (st_idx st) out) in
            let '(st, r) := if is_relected then each_output (store_own_output (st_idx st)) out st
                            else (st, Ok tt) in
            match r with
            | Ok _ =>
                (Some st,
                 gossip ::
                 (if resharing_inputs_ready st && is_new_prover st
                  then [Gossip (ResharingRound1Completed (st_peer_id st))] else []), HOk)
            | Err e => (Some st, [gossip], HErr e)
            | Panic => (Some st, [gossip], HPanic)
            end
        | (st, Err _) => skip (Some st)
        | (st, Panic) => (Some st, [], HPanic)
        end
      else skip w
  end.

Definition handle_round1_output (i : Z) (outputs : gmap string Round1Output) (w : Wrapper)
    : DkgHandled :=
  match w with
  | None => skip w
  | Some st =>
      let '(st, r) := each_output (λ out nd,
        log_error (register_round_1_result_from_other_node (st_idx st) i out nd)) outputs st in
      match r with
      | Ok _ =>
          (Some st, if dkg_inputs_ready st then [Gossip (DKGRound1Completed (st_peer_id st))] else [],
           HOk)
      | _ => (Some st, [], HPanic)
      end
  end.

Definition handle_resharing_round1_output (i : Z) (outputs : gmap string ResharingRound1Output)
    (w : Wrapper) : DkgHandled :=
  match w with
  | None => skip w
  | Some st =>
      if is_new_prover st then
        let idx_match := existsb (λ '(_, tstar_idx), tstar_idx =? u64 i)
                           (hm_values (st_tstar_provers st)) in
        if negb idx_match then skip w else
        let '(st, r) := each_output (λ out nd,
          log_error (register_resharing_round_1_result_from_other_node (st_idx st) i out nd))
          outputs st in
        match r with
        | Ok _ =>
            (Some st, if resharing_inputs_ready st
                      then [Gossip (ResharingRound1Completed (st_peer_id st))] else [], HOk)
        | _ => (Some st, [], HPanic)
        end
      else skip w
  end.

Definition handle_round2 (w : Wrapper) : DkgHandled :=
  match w with
  | None => skip w
  | Some st =>
      if negb (is_new_prover st) then skip w else
      match for_nodes (λ _, v_dkg_round_2 (st_network st)) st with
      | (st, Ok out) =>
          (Some st, Gossip (Round2Out (st_idx st) out) ::
                    (if pubshares_ready (size (st_new_provers st)) st
                     then [Gossip (DKGRound2Completed (st_peer_id st))] else []), HOk)
      | (st, r) => stop show_dkg (Some st) r
      end
  end.

Definition handle_resharing_round2 (w : Wrapper) : DkgHandled :=
  match w with
  | None => skip w
  | Some st =>
      if negb (is_new_prover st) then skip w else
      let t := Messages.threshold (st_election_info st) in
      match quorum_network t (st_new_provers st) false with
      | Ok new_network =>
          match quorum_network t (st_tstar_provers st) true with
          | Ok tstar_network =>
              let body key nd :=
                match finalized_group_public_keys st !! key with
                | None => (nd, Err ("Missing finalized group public key for node " +:+ key))
                | Some k_dkg =>
                    let '(nd', r) := v_resharing_round_2 tstar_network new_network k_dkg nd in
                    (nd', map_err show_dkg r)
                end in
              match for_nodes body st with
              | (st, Ok out) =>
                  (Some st, Gossip (ResharingRound2Out (st_idx st) out) ::
                            (if pubshares_ready (size (st_new_provers st)) st
                             then [Gossip (ResharingRound2Completed (st_peer_id st))] else []), HOk)
              | (st, r) => stop (λ e, e) (Some st) r
              end
          | r => stop show_dkg w r
          end
      | r => stop show_dkg w r
      end
  end.

(** The common part of the two [handle_store_...]: [n] is the number of shares expected. *)
Definition store_pubshares (i : Z) (pubshares : KeyMap) (n : nat) (completed : PeerId → Message)
    (st : DKGEngineState) : DkgHandled :=
  let valid_node := existsb (λ '(_, node_idx), node_idx =? i) (hm_values (st_new_provers st)) in
  if negb valid_node then skip (Some st) else
  match each_output (store_pubshare_for_node i) pubshares st with
  | (st, Ok _) =>
      (Some st, if pubshares_ready n st then [Gossip (completed (st_peer_id st))] else [], HOk)
  | (st, r) => stop show_error (Some st) r
  end.

Definition handle_store_received_pubshare (i : Z) (pubshares : KeyMap) (w : Wrapper) : DkgHandled :=
  match w with
  | None => skip w
  | Some st =>
      if st_idx st =? i then skip w
      else store_pubshares i pubshares (total_nodes (st_network st)) DKGRound2Completed st
  end.

Definition handle_store_reshared_received_pubshare (i : Z) (pubshares : KeyMap) (w : Wrapper)
    : DkgHandled :=
  match w with
  | None => skip w
  | Some st =>
      if st_idx st =? i then skip w
      else if negb (is_new_prover st) then skip w
      else store_pubshares i pubshares (size (st_new_provers st)) ResharingRound2Completed st
  end.

(** The announcement at the end of round 3. *)
Definition announce (is_resharing : bool) (st : DKGEngineState) : outcome string (list (Output F)) :=
  let shares := get_priv_share <$> dkg_nodes st in
  let collect (f : NodeDataVariant → outcome string (list Z)) :=
    (each_node (λ _ nd, (nd, f nd)) (hm_iter (dkg_nodes st)) (dkg_nodes st) ∅).2 in
  if is_resharing && is_new_prover st then
    pubs ← collect get_pub_share;
    Ok [ToAppState (StoreKeyShares shares);
        Gossip (ResharingPrepared (st_idx st) (st_peer_id st) pubs); ResetApiToken]
  else if negb is_resharing && bool_decide (st_tstar_provers st = ∅) then
    keys ← collect get_network_key;
    pubs ← collect get_pub_share;
    Ok [ToAppState (StoreKeyShares shares);
        Gossip (Ready (st_idx st) (st_peer_id st) pubs keys)]
  else Ok [].

Definition handle_round3 (is_resharing : bool) (w : Wrapper) : DkgHandled :=
  match w with
  | None => skip w
  | Some st =>
      let network := if is_resharing
                     then quorum_network (Messages.threshold (st_election_info st))
                            (st_new_provers st) false
                     else Ok (st_network st) in
      match network with
      | Ok network =>
          match for_nodes (λ _, v_round_3 network is_resharing (is_new_prover st)) st with
          | (st, Ok _) =>
              let st := if is_resharing then set_network network st else st in
              match announce is_resharing st with
              | Ok out => (Some st, out, HOk)
              | _ => (Some st, [ToAppState (StoreKeyShares (get_priv_share <$> dkg_nodes st))], HPanic)
              end
          | (st, r) => stop show_dkg (Some st) r
          end
      | r => stop show_dkg w r
      end
  end.

Definition handle_clear_shares (w : Wrapper) : DkgHandled :=
  ((λ st, set_nodes (clear_inputs <$> dkg_nodes st) st) <$> w, [], HOk).

(** [Actor::handle]. *)
Definition handle_dkg (env : DkgEnv) (m : DkgEngineMessage) (w : Wrapper) : DkgHandled :=
  match m with
  | Init i peer peers t => handle_dkg_init env i peer peers t w
  | Round1 => handle_round1 env w
  | DkgRound1Out node_id out => handle_round1_output node_id out w
  | Round2 => handle_round2 w
  | StoreReceivedPublicKey i pubshares => handle_store_received_pubshare i pubshares w
  | StoreResharedReceivedPublicKey i pubshares =>
      handle_store_reshared_received_pubshare i pubshares w
  | Round3 => handle_round3 false w
  | ResharingInit i tstar new info peer group_keys =>
      handle_resharing_init env {| rsa_private_key := env_rsa_key env; c_election_info := info;
        node_peer_id := peer; c_group_keys := group_keys |} i tstar new w
  | ResharingRound1 info is_relected => handle_resharing_round1 env info is_relected w
  | DkgResharingRound1Out node_id out => handle_resharing_round1_output node_id out w
  | ResharingRound2 => handle_resharing_round2 w
  | ResharingRound3 => handle_round3 true w
  | DkgClearShares => handle_clear_shares w
  | DkgStartDKGRound1 => handle_start_dkg_round_1 w
  | DkgStartDKGRound2 => handle_start_dkg_round_2 w
  | DkgStartDKGRound3 => handle_start_dkg_round_3 w
  | DkgStartResharingRound1 => handle_start_resharing_round_1 w
  | DkgStartResharingRound2 => handle_start_resharing_round_2 w
  | DkgStartResharingRound3 => handle_start_resharing_round_3 w
  end.
End Engine.

Arguments VSecp256k1 {CS CB R} n.
Arguments VBabyJubJub {CS CB R} n.
Arguments coins_s {CS CB R} a _.
Arguments coins_b {CS CB R} a _.
Arguments st_idx {CS CB R} d.
Arguments st_peer_id {CS CB R} d.
Arguments st_network {CS CB R} d.
Arguments dkg_nodes {CS CB R} d.
Arguments st_tstar_provers {CS CB R} d.
Arguments st_new_provers {CS CB R} d.
Arguments st_election_info {CS CB R} d.
Arguments finalized_group_public_keys {CS CB R} d.
Arguments resharing_round2_triggered {CS CB R} d.
Arguments resharing_round1_context {CS CB R} d.
Arguments set_nodes {CS CB R} nodes st.
Arguments set_network {CS CB R} n st.
Arguments set_context {CS CB R} c triggered st.
Arguments set_quorums {CS CB R} tstar new info keys st.
Arguments env_coins {CS CB R} d.
Arguments env_rsa_key {CS CB R} d.
Arguments each_node {CS CB R E A} f l nodes acc.
Arguments for_nodes {CS CB HO R E A} f st.
Arguments each_output {CS CB HO R E A} f outputs st.
Arguments on_variant {CS CB R E A} fs fb self.
