(* ===== verification/DkgEngineProofs.v ===== *)
(** * Correctness of the DKG engine

    First how the loops over the four key pairs act on each of them, then what the
    engine's round 1 reveals and whose messages it accepts. *)
From Stdlib Require Import ZArith Lia String.
From stdpp Require Import base list gmap sets strings pretty.
From S2P Require Import Prelude PrimeField Curve Polynomial Dkg Resharing DkgProtocol Messages DkgEngine.

(** ** Loops over the key pairs *)
Section Loops.
Context {CS CB : Curve} `{HO : HashOrder} `{R : Rsa} `{ET : !EngineTexts}.
Implicit Types (nodes : gmap string (NodeDataVariant CS CB)) (st : DKGEngineState CS CB).

Lemma each_node_Ok {E A} (f : string → NodeDataVariant CS CB → NodeDataVariant CS CB * outcome E A)
    g h l nodes acc :
  NoDup l.*1 → (∀ key nd, (key, nd) ∈ l → nodes !! key = Some nd) →
  (∀ key nd, (key, nd) ∈ l → f key nd = (g key nd, Ok (h key nd))) →
  ∃ nodes' acc', each_node f l nodes acc = (nodes', Ok acc') ∧
    (∀ key, nodes' !! key = if decide (key ∈ l.*1) then g key <$> nodes !! key else nodes !! key) ∧
    (∀ key, acc' !! key = if decide (key ∈ l.*1) then h key <$> nodes !! key else acc !! key).
Proof.
  revert nodes acc. induction l as [|[key nd] l IH]; intros nodes acc Hnd Hin Hf; cbn [each_node].
  { eexists _, _. split; [done|]. split; intros key; by rewrite decide_False by set_solver. }
  rewrite fmap_cons in Hnd. apply NoDup_cons in Hnd as [Hfresh Hnd]. cbn in Hfresh.
  rewrite (Hf key nd) by left.
  destruct (IH (<[key:=g key nd]> nodes) (<[key:=h key nd]> acc)) as (nodes' & acc' & -> & Hn & Ha).
  - done.
  - intros key' nd' Hin'. rewrite lookup_insert_ne; [apply Hin; by right|].
    intros ->. apply Hfresh. apply list_elem_of_fmap. by exists (key', nd').
  - intros key' nd' Hin'. apply Hf. by right.
  - exists nodes', acc'. split; [done|].
    assert (nodes !! key = Some nd) as Hkey by (apply Hin; left).
    split; intros key'; [rewrite Hn|rewrite Ha]; rewrite fmap_cons; cbn [fst].
    all: destruct (decide (key' = key)) as [->|Hne];
      [rewrite decide_False by done; rewrite (decide_True (P:=key ∈ key :: l.*1)) by left;
       by rewrite lookup_insert_eq, Hkey|].
    all: destruct (decide (key' ∈ l.*1)) as [Hk|Hk];
      [rewrite (decide_True (P:=key' ∈ key :: l.*1)) by (by right)
      |rewrite (decide_False (P:=key' ∈ key :: l.*1)) by (rewrite elem_of_cons; naive_solver)];
      by rewrite lookup_insert_ne.
Qed.

(** A round in which every key pair succeeds. *)
Lemma for_nodes_Ok {E A} (f : string → NodeDataVariant CS CB → NodeDataVariant CS CB * outcome E A)
    g h st :
  (∀ key nd, dkg_nodes st !! key = Some nd → f key nd = (g key nd, Ok (h key nd))) →
  for_nodes f st =
    (set_nodes (map_imap (λ key nd, Some (g key nd)) (dkg_nodes st)) st,
     Ok (map_imap (λ key nd, Some (h key nd)) (dkg_nodes st))).
Proof.
  intros Hf. unfold for_nodes.
  destruct (each_node_Ok f g h (hm_iter (dkg_nodes st)) (dkg_nodes st) ∅)
    as (nodes' & acc' & -> & Hn & Ha).
  - apply NoDup_hm_keys.
  - intros key nd. by rewrite elem_of_hm_iter.
  - intros key nd. rewrite elem_of_hm_iter. apply Hf.
  - assert (∀ key, key ∈ (hm_iter (dkg_nodes st)).*1 ↔ is_Some (dkg_nodes st !! key))
      as Hk by apply elem_of_hm_keys.
    do 2 f_equal.
    + f_equal. apply map_eq. intros key. rewrite map_lookup_imap, Hn.
      destruct (decide _) as [H|H]; rewrite Hk in H; [by destruct H as [nd ->]|].
      apply eq_None_not_Some in H. by rewrite H.
    + apply map_eq. intros key. rewrite map_lookup_imap, Ha.
      destruct (decide _) as [H|H]; rewrite Hk in H; [by destruct H as [nd ->]|].
      apply eq_None_not_Some in H. by rewrite H, lookup_empty.
Qed.

(** A received map whose entries are all taken in. *)
Lemma each_output_Ok {E A} (f : A → NodeDataVariant CS CB → NodeDataVariant CS CB * outcome E ())
    g (outputs : gmap string A) st :
  (∀ key x nd, outputs !! key = Some x → dkg_nodes st !! key = Some nd →
     f x nd = (g x nd, Ok tt)) →
  each_output f outputs st =
    (set_nodes (map_imap (λ key nd,
       Some (match outputs !! key with Some x => g x nd | None => nd end)) (dkg_nodes st)) st,
     Ok tt).
Proof.
  intros Hf. unfold each_output.
  assert (∀ l nodes, NoDup l.*1 → (∀ key x, (key, x) ∈ l → outputs !! key = Some x) →
    (∀ key, key ∈ l.*1 → nodes !! key = dkg_nodes st !! key) →
    foldl (λ '(st, r) '(key, x),
      match r with
      | Ok _ =>
          match dkg_nodes st !! key with
          | Some nd => let '(nd', r') := f x nd in
                       (set_nodes (<[key := nd']> (dkg_nodes st)) st, r')
          | None => (st, r)
          end
      | _ => (st, r)
      end) (set_nodes nodes st, Ok (E:=E) tt) l =
    (set_nodes (map_imap (λ key nd, Some (if decide (key ∈ l.*1)
       then match outputs !! key with Some x => g x nd | None => nd end else nd)) nodes) st, Ok tt))
    as Hfold.
  { induction l as [|[key x] l IH]; intros nodes Hnd Hl Hnodes; cbn [foldl].
    - do 2 f_equal. apply map_eq. intros key. rewrite map_lookup_imap.
      destruct (nodes !! key); cbn; [|done]. by rewrite decide_False by set_solver.
    - rewrite fmap_cons in Hnd. apply NoDup_cons in Hnd as [Hfresh Hnd]. cbn in Hfresh.
      assert (outputs !! key = Some x) as Hx by (apply Hl; left).
      cbn [dkg_nodes set_nodes]. destruct (nodes !! key) as [nd|] eqn:Hkey.
      + rewrite (Hf key x nd) by (done || (rewrite <- Hnodes by left; done)).
        change (set_nodes ?a (set_nodes ?b st)) with (set_nodes a st).
        rewrite IH.
        * do 2 f_equal. apply map_eq. intros key'. rewrite !map_lookup_imap.
          destruct (decide (key' = key)) as [->|Hne].
          -- rewrite lookup_insert_eq, Hkey. cbn. rewrite decide_False by done.
             rewrite decide_True by left. by rewrite Hx.
          -- rewrite lookup_insert_ne by done. destruct (nodes !! key'); cbn; [|done].
             destruct (decide (key' ∈ l.*1)).
             ++ rewrite decide_True by (by right). done.
             ++ rewrite decide_False by (rewrite elem_of_cons; naive_solver). done.
        * done.
        * intros key' x' Hin. apply Hl. by right.
        * intros key' Hin. rewrite lookup_insert_ne by (by intros ->). apply Hnodes. by right.
      + rewrite IH.
        * do 2 f_equal. apply map_eq. intros key'. rewrite !map_lookup_imap.
          destruct (nodes !! key') eqn:Hk'; cbn; [|done].
          assert (key' ≠ key) by congruence. destruct (decide (key' ∈ l.*1)).
          -- rewrite decide_True by (by right). done.
          -- rewrite decide_False by (rewrite elem_of_cons; naive_solver). done.
        * done.
        * intros key' x' Hin. apply Hl. by right.
        * intros key' Hin. apply Hnodes. by right. }
  specialize (Hfold (hm_iter outputs) (dkg_nodes st)).
  assert (set_nodes (dkg_nodes st) st = st) as Hst by by destruct st.
  rewrite Hst in Hfold. rewrite Hfold.
  - do 2 f_equal. apply map_eq. intros key. rewrite !map_lookup_imap.
    destruct (dkg_nodes st !! key); cbn; [|done].
    destruct (decide _) as [H|H]; [done|]. change ((hm_iter outputs).*1) with (hm_keys outputs) in H.
    rewrite elem_of_hm_keys in H. apply eq_None_not_Some in H. by rewrite H.
  - apply NoDup_hm_keys.
  - intros key x. by rewrite elem_of_hm_iter.
  - done.
Qed.
End Loops.

(** ** What round 1 reveals *)
Section OwnShare.
Context `{C : Curve} {CL : CurveLaws C} `{HO : HashOrder} `{R : Rsa} {RL : RsaLaws R}
  `{ET : !EngineTexts}.

(** C33: Round 1 of the engine gossips the dealer's own share in clear, so a coalition one
    short of the threshold recovers the dealer's secret.  Take any [threshold - 1] other
    members [l] with their RSA keys: Lagrange interpolation of the shares they decrypt
    and of the share that is in the gossiped message (its third part) is the secret
    coefficient of the dealer's polynomial. *)
Theorem own_share_is_public (c : Coins C) (network : Network) (nd nd' : NodeData C)
    (y : gmap Z (list Z)) (vs : list (list Z)) (own : list Z) (l : list Z) (sk : Z → RsaPrivateKey) :
  (0 < Dkg.threshold network)%nat →
  (∀ k pk x, public_keys network !! k = Some pk → is_Ok (encrypt (coin_rsa c k) pk (to_repr x))) →
  process_dkg_round_1 c network nd = (nd', Ok (y, vs, own)) →
  good_indices (F:=FieldEl) (id (node nd) :: l) → length l = (Dkg.threshold network - 1)%nat →
  (∀ j, j ∈ l → public_keys network !! j = Some (rsa_public (sk j))) →
  ∃ (s : Scalar) (x : Z → FieldEl),
    scalar_from_bytes own = Ok s ∧
    (∀ j, j ∈ l → y !! j ≫= decode_share (sk j) = Some (x j)) ∧
    let share j := if decide (j = id (node nd)) then field_of_scalar s else x j in
    coin_secret c =
      f_sum ((λ j, share j * lambda_at_0 (id (node nd) :: l) j)%F <$> id (node nd) :: l).
Proof.
  intros Ht Henc Hr Hg Hlen Hsk. unfold process_dkg_round_1, dkg_round_1 in Hr.
  rewrite sharing_polynomial_Ok in Hr by done. cbn [mbind outcome_bind] in Hr.
  destruct (deal_honest RsaError DkgOther (coin_poly c) (coin_rsa c) (Some (id (node nd)))
    (Dkg.threshold network) (coin_secret c) (public_keys network) Ht Henc)
    as (ys & v & y_ct & Hf & Hct & (Hv & _ & Hdec) & Hys).
  rewrite Hf in Hr. cbn [mbind outcome_bind] in Hr. rewrite Hct in Hr. cbn [mbind outcome_bind] in Hr.
  set (cs := dealer_poly (coin_poly c) (Dkg.threshold network) (coin_secret c)) in *.
  rewrite Hys in Hr. destruct (public_keys network !! id (node nd)) as [pk|]; [|done].
  cbn [ok_or fmap option_fmap option_map mbind outcome_bind] in Hr.
  destruct (v !! 0%nat) as [v0|]; [|done].
  injection Hr as <- Hr. inv_ok. simplify_eq. unfold own_y_value_bytes.
  exists (scalar_of_field (peval cs (f_of_Z (id (node nd))))), (λ j, peval cs (f_of_Z j)).
  split; [apply scalar_bytes|]. split.
  - intros j Hj. destruct Hg as [[Hnin _]%NoDup_cons _].
    destruct (Hdec j (sk j)) as (ct & Hy & Hx); [auto|intros [= ->]; done|].
    by rewrite Hy.
  - cbn zeta. symmetry.
    rewrite (lambda_reconstruct cs _ (id (node nd) :: l)); [apply dealer_poly_0|done| |].
    + unfold cs. rewrite dealer_poly_length by done. rewrite length_cons. lia.
    + intros j Hj. destruct (decide _) as [->|]; [|done]. apply scalar_field_inv.
Qed.
End OwnShare.

(** ** Whose round-1 messages count *)
Section Senders.
Context {CS CB : Curve} {CLS : CurveLaws CS} {CLB : CurveLaws CB} `{HO : HashOrder} `{R : Rsa}
  `{ET : !EngineTexts} {F : Type}.
Implicit Types st : DKGEngineState CS CB.

(** The indices from which a key pair has inputs. *)
Definition senders (nd : NodeDataVariant CS CB) : gset Z := get_received_y_v_from CS CB nd.

(** An entry of a round-1 message that the key pair [nd] takes in: its commitments
    decode and it has a ciphertext for [me]. *)
Definition acceptable (me : Z) (y : gmap Z (list Z)) (vs : list (list Z))
    (nd : NodeDataVariant CS CB) : Prop :=
  is_Some (y !! me) ∧
  match nd with
  | VSecp256k1 _ => ∃ v : list (Point (Curve:=CS)), mapM from_encoded vs = Ok v
  | VBabyJubJub _ => ∃ v : list (Point (Curve:=CB)), mapM from_encoded vs = Ok v
  end.

(** A key pair with the inputs of sender [i] added. *)
Definition register_variant (missing : string) (me i : Z) (y : gmap Z (list Z)) (vs : list (list Z))
    (nd : NodeDataVariant CS CB) : NodeDataVariant CS CB :=
  (on_variant (register_result missing me i y vs) (register_result missing me i y vs) nd).1.

Lemma register_acceptable missing me i y vs (nd : NodeDataVariant CS CB) : acceptable me y vs nd →
  on_variant (register_result missing me i y vs) (register_result missing me i y vs) nd
    = (register_variant missing me i y vs nd, Ok tt) ∧
  senders (register_variant missing me i y vs nd) = {[i]} ∪ senders nd.
Proof.
  intros [[ct Hct] Hv]. unfold register_variant, on_variant, register_result, senders,
    get_received_y_v_from.
  destruct nd as [nd|nd]; destruct Hv as [v Hv]; rewrite Hv, Hct; cbn; (split; [done|]);
    rewrite !dom_insert_L; set_solver.
Qed.

(** Anyone's round-1 message counts.  The handler of a key-generation round-1 output
    does not compare the sender's index with the quorum: a well-formed message under any
    index [i] is registered for every key pair it names, and so counts as one of the
    [total_nodes - 1] inputs the round waits for. *)
Theorem round1_output_unchecked_sender (i : Z) (outputs : gmap string Round1Output) st w' (out : list (Output F)) r :
  (∀ key y vs own nd, outputs !! key = Some (y, vs, own) → dkg_nodes st !! key = Some nd →
     acceptable (st_idx st) y vs nd) →
  handle_round1_output CS CB i outputs (Some st) = (w', out, r) →
  r = HOk ∧ ∃ st', w' = Some st' ∧
    ∀ key nd, dkg_nodes st !! key = Some nd → is_Some (outputs !! key) →
      ∃ nd', dkg_nodes st' !! key = Some nd' ∧ senders nd' = {[i]} ∪ senders nd.
Proof.
  intros Hacc. unfold handle_round1_output.
  set (missing := "Error finding round 1 output for node").
  rewrite (each_output_Ok _ (λ '(y, vs, _) nd, register_variant missing (st_idx st) i y vs nd)).
  - intros [= <- <- <-]. split; [done|]. eexists. split; [done|]. intros key nd Hnd [[[y vs] own] Ho].
    cbn [dkg_nodes set_nodes]. rewrite map_lookup_imap, Hnd. cbn. rewrite Ho.
    eexists. split; [done|]. by eapply register_acceptable, Hacc.
  - intros key [[y vs] own] nd Ho Hnd. cbn.
    destruct (register_acceptable missing (st_idx st) i y vs nd) as [Hreg _]; [by eapply Hacc|].
    fold missing. by rewrite Hreg.
Qed.

(** The T* check of the resharing truncates the sender's index.  A well-formed
    resharing message under the index [i + 2^64], where [i] is the index of a member of
    T* and no member has that index, is registered like one of [i]: one dealer can fill
    the place of another. *)
Theorem resharing_output_aliased_sender (i : Z) (peer : PeerId) (p : ProverInfo)
    (outputs : gmap string ResharingRound1Output) st w' (out : list (Output F)) r :
  is_new_prover CS CB st = true → st_tstar_provers st !! peer = Some (p, i) → 0 ≤ i < 2 ^ 64 →
  (∀ key y vs nd, outputs !! key = Some (y, vs) → dkg_nodes st !! key = Some nd →
     acceptable (st_idx st) y vs nd) →
  handle_resharing_round1_output CS CB (i + 2 ^ 64) outputs (Some st) = (w', out, r) →
  r = HOk ∧ ∃ st', w' = Some st' ∧
    ∀ key nd, dkg_nodes st !! key = Some nd → is_Some (outputs !! key) →
      ∃ nd', dkg_nodes st' !! key = Some nd' ∧ senders nd' = {[i + 2 ^ 64]} ∪ senders nd.
Proof.
  intros Hnew Hp Hi Hacc. unfold handle_resharing_round1_output. rewrite Hnew.
  assert (existsb (λ '(_, tstar_idx), tstar_idx =? u64 (i + 2 ^ 64))
            (hm_values (st_tstar_provers st)) = true) as Hm.
  { apply existsb_exists. exists (p, i). split.
    - apply list_elem_of_In. unfold hm_values. apply list_elem_of_fmap.
      exists (peer, (p, i)). by rewrite elem_of_hm_iter.
    - apply Z.eqb_eq. unfold u64, wrap. rewrite <- (Z.mul_1_l (2 ^ 64)) at 1.
      rewrite Z_mod_plus_full, Z.mod_small; lia. }
  rewrite Hm. cbn [negb].
  set (missing := "Error finding resharing round 1 output for node from node "
                  +:+ pretty (i + 2 ^ 64) +:+ ", my node id " +:+ pretty (st_idx st)).
  rewrite (each_output_Ok _ (λ '(y, vs) nd, register_variant missing (st_idx st) (i + 2 ^ 64) y vs nd)).
  - intros [= <- <- <-]. split; [done|]. eexists. split; [done|]. intros key nd Hnd [[y vs] Ho].
    cbn [dkg_nodes set_nodes]. rewrite map_lookup_imap, Hnd. cbn. rewrite Ho.
    eexists. split; [done|]. by eapply register_acceptable, Hacc.
  - intros key [y vs] nd Ho Hnd. cbn.
    destruct (register_acceptable missing (st_idx st) (i + 2 ^ 64) y vs nd) as [Hreg _];
      [by eapply Hacc|].
    fold missing. by rewrite Hreg.
Qed.
End Senders.
