(* ===== verification/EngineRun.v ===== *)
(** * A key generation run by the engines

    The engines of all members of a quorum, driven by the messages of
    dkg_engine_actor.rs in any order the network allows, carry out the key generation of
    [DkgProtocol]: first one key pair at a time, then the four key pairs of a node
    together. *)
From Stdlib Require Import ZArith Lia String.
From stdpp Require Import base list gmap sets strings pretty.
From S2P Require Import Prelude PrimeField Curve ModelCurve Polynomial Dkg DkgProtocol Messages DkgEngine DkgEngineProofs.

(** ** Maps restricted to a set of keys *)
Lemma filter_insert_in {A} (m : gmap Z A) j x (J : gset Z) : m !! j = Some x →
  <[j:=x]> (filter (λ p, p.1 ∈ J) m) = filter (λ p, p.1 ∈ {[j]} ∪ J) m.
Proof.
  intros Hj. apply map_eq. intros i. destruct (decide (i = j)) as [->|Hne].
  - rewrite lookup_insert_eq. symmetry. apply map_lookup_filter_Some. split; [done|]. cbn. set_solver.
  - rewrite lookup_insert_ne by done. apply option_eq. intros z.
    rewrite !map_lookup_filter_Some. cbn. set_solver.
Qed.

Lemma filter_in_empty {A} (J : gset Z) (m : gmap Z A) : J = ∅ → filter (λ p, p.1 ∈ J) m = ∅.
Proof. intros ->. apply map_empty. intros j. apply map_lookup_filter_None. right. cbn. set_solver. Qed.

(** Sets of senders that grow by one list. *)
Lemma union_nil (J : gset Z) : list_to_set [] ∪ J = J.
Proof. set_solver. Qed.
Lemma union_cons j l (J : gset Z) : list_to_set l ∪ ({[j]} ∪ J) = list_to_set (j :: l) ∪ J.
Proof. set_solver. Qed.
Lemma union_one j (J : gset Z) : list_to_set [j] ∪ J ⊆ {[j]} ∪ J.
Proof. set_solver. Qed.
Lemma union_members l1 l2 (X : gset Z) j : j ∈ l1 ++ l2 →
  j ∈ (list_to_set l2 ∪ (list_to_set l1 ∪ ∅) : gset Z) ∧
  j ∈ (list_to_set l2 ∪ (X ∪ (list_to_set l1 ∪ ∅)) : gset Z).
Proof. set_solver. Qed.

(** ** One key pair *)
Section OneKey.
Context {C : Curve} {CL : CurveLaws C} `{HO : HashOrder} `{R : Rsa} {RL : RsaLaws R}
  `{ET : !EngineTexts}.
Context (network : Network) (cc : Z → Coins C) (sk : Z → RsaPrivateKey).

(** Member [k] as [new_node!] makes it. *)
Definition start_node (k : Z) : Node :=
  {| id := k; rsa_pubkey := rsa_public (sk k); rsa_seckey := sk k; init_pub_share := ZERO;
     private_share := coin_share0 (cc k); network_pubkey := ZERO;
     own_partial_share := coin_share1 (cc k) |}.

Let ai0 k := coin_secret (cc k).
Let rnd k := coin_poly (cc k).
Let rng k := coin_rsa (cc k).
Let t := Dkg.threshold network.
Let keys := public_keys network.

(** The shares, the secret and the messages of the run. *)
Definition run_share (k : Z) : FieldEl := dkg_share network ai0 rnd k.
Definition run_secret : FieldEl := dkg_secret network ai0.

(** The bytes of a point that has an encoding. *)
Definition enc (P : Point) : list Z := match encode P with Ok bs => bs | _ => [] end.

Definition run_message (k : Z) : Round1Output :=
  match dkg_messages network start_node ai0 rnd rng !! k with
  | Some (y, v, own) => (y, enc <$> v, own_y_value_bytes own)
  | None => (∅, [], [])
  end.

Hypothesis H_t : (0 < t ≤ size keys)%nat.
Hypothesis H_total : total_nodes network = size keys ∧ Z.of_nat (size keys) < 2 ^ 64.
Hypothesis H_keys : ∀ k, is_Some (keys !! k) → keys !! k = Some (rsa_public (sk k)).
Hypothesis H_ids : good_ids (C:=C) keys.
Hypothesis H_exp : ∀ k, is_Some (keys !! k) → k ^ Z.of_nat (t - 1) < 2 ^ 128.
Hypothesis H_enc : ∀ j k pk x, keys !! k = Some pk → is_Ok (encrypt (rng j k) pk (to_repr x)).

(** No value that is sent as a point is zero (the identity has no encoding on one of
    the curves). *)
Definition nonzero_run : Prop :=
  (∀ k, is_Some (keys !! k) → Forall (λ a, a ≠ 0%F) (dealer_poly (rnd k) t (ai0 k))) ∧
  (∀ k, is_Some (keys !! k) → run_share k ≠ 0%F) ∧ run_secret ≠ 0%F.
Hypothesis H_nonzero : nonzero_run.

Lemma start_nodes k : is_Some (keys !! k) →
  id (start_node k) = k ∧ keys !! k = Some (rsa_public (rsa_seckey (start_node k))).
Proof. intros Hk. split; [done|]. by apply H_keys. Qed.

Lemma enc_base (a : FieldEl) : a ≠ 0%F →
  encode (fmul_point G a) = Ok (enc (fmul_point G a)) ∧
  from_encoded (enc (fmul_point G a)) = Ok (fmul_point G a).
Proof.
  intros Ha. assert (in_subgroup (fmul_point G a)) as Hsub by auto with subgroup.
  assert (fmul_point G a ≠ ZERO) as Hnz.
  { intros H0. apply Ha, fmul_base_inj. by rewrite H0, fmul_zero by auto with subgroup. }
  pose proof (encode_total _ Hsub Hnz) as He. unfold enc.
  destruct (encode (fmul_point G a)) as [bs| |] eqn:Hbs; [|done..].
  split; [done|]. by apply encode_decode.
Qed.

Lemma enc_commitments cs : Forall (λ a : FieldEl, a ≠ 0%F) cs →
  mapM encode (commit_poly cs) = Ok (enc <$> commit_poly cs) ∧
  mapM from_encoded (enc <$> commit_poly cs) = Ok (commit_poly cs).
Proof.
  induction 1 as [|a cs Ha _ [IH1 IH2]]; [done|].
  unfold commit_poly in *. rewrite !fmap_cons.
  destruct (enc_base a Ha) as [H1 H2]. cbn [mapM].
  rewrite H1, H2. cbn [mbind outcome_bind]. rewrite IH1, IH2. done.
Qed.

(** What member [j] sends. *)
Lemma run_message_spec j : is_Some (keys !! j) →
  ∃ y own, dkg_messages network start_node ai0 rnd rng !! j
             = Some (y, commit_poly (dealer_poly (rnd j) t (ai0 j)), own) ∧
    dkg_round_1 (ai0 j) (rnd j) (rng j) (start_node j) network
      = Ok (y, commit_poly (dealer_poly (rnd j) t (ai0 j)), own) ∧
    run_message j = (y, enc <$> commit_poly (dealer_poly (rnd j) t (ai0 j)), own_y_value_bytes own) ∧
    ∀ k, is_Some (keys !! k) → k ≠ j → is_Some (y !! k).
Proof.
  intros Hj.
  destruct (dkg_message network start_node ai0 rnd rng H_t H_total start_nodes H_enc j Hj)
    as (y & v & own & Hm & Hr & (-> & _ & Hd) & _).
  exists y, own. split; [done|]. split; [done|]. split; [unfold run_message; by rewrite Hm|].
  intros k Hk Hne. destruct (Hd k (sk k)) as (ct & -> & _); [by apply H_keys|congruence|by eexists].
Qed.

(** The node data of member [k] in the first round: the inputs of the senders [J] are
    in, and [dealt] says whether its own round 1 is done. *)
Definition nd1 (k : Z) (J : gset Z) (dealt : bool) : NodeData C := {|
  input_y := filter (λ p, p.1 ∈ J) (dkg_input_y network start_node ai0 rnd rng k);
  input_v := filter (λ p, p.1 ∈ J) (dkg_input_v network start_node ai0 rnd rng k);
  other_pubshares := ∅;
  node := if dealt then dkg_node_1 network start_node ai0 rnd rng k else start_node k |}.

Lemma nd1_fresh k : new_node (cc k) (sk k) k = Ok (nd1 k ∅ false).
Proof using Type.
  unfold nd1. rewrite !filter_in_empty by done.
  unfold new_node, start_node, Node_with_rsa_key. done.
Qed.

Lemma nd1_round1 k J : is_Some (keys !! k) →
  process_dkg_round_1 (cc k) network (nd1 k J false) = (nd1 k J true, Ok (run_message k)).
Proof.
  intros Hk. destruct (run_message_spec k Hk) as (y & own & Hm & Hr & -> & _).
  unfold process_dkg_round_1. cbn [node nd1]. fold (ai0 k) (rnd k) (rng k). rewrite Hr.
  pose proof (dealer_poly_length (rnd k) t (ai0 k)) as Hlen.
  destruct (dealer_poly (rnd k) t (ai0 k)) as [|a cs] eqn:Hcs; [cbn in Hlen; lia|].
  unfold commit_poly at 1. cbn [fmap list_fmap lookup list_lookup].
  f_equal.
  - unfold set_node, nd1, dkg_node_1. cbn [input_y input_v other_pubshares]. rewrite Hm.
    unfold after_round_1. cbn. done.
  - unfold encode_v_values. destruct H_nonzero as [Hnz _]. specialize (Hnz k Hk).
    fold t in Hnz. rewrite Hcs in Hnz.
    destruct (enc_commitments (a :: cs) Hnz) as [-> _]. done.
Qed.

Lemma nd1_register missing k j J d : is_Some (keys !! k) → is_Some (keys !! j) → j ≠ k →
  register_result missing k j (run_message j).1.1 (run_message j).1.2 (nd1 k J d)
    = (nd1 k ({[j]} ∪ J) d, Ok tt).
Proof.
  intros Hk Hj Hne. destruct (run_message_spec j Hj) as (y & own & Hm & Hr & -> & Hy).
  unfold register_result. cbn [fst snd]. destruct H_nonzero as [Hnz _].
  destruct (enc_commitments _ (Hnz j Hj)) as [_ ->]. destruct (Hy k Hk) as [ct Hct]; [done|].
  rewrite Hct. unfold set_inputs, nd1. cbn [input_y input_v other_pubshares node].
  rewrite !(filter_insert_in _ j).
  - done.
  - unfold dkg_input_v. rewrite lookup_fmap, lookup_delete_ne, Hm by done. done.
  - unfold dkg_input_y. rewrite lookup_omap, lookup_delete_ne, Hm by done. done.
Qed.

(** The other members. *)
Definition others (k : Z) : gset Z := dom keys ∖ {[k]}.

Lemma nd1_full k J d : is_Some (keys !! k) → others k ⊆ J →
  input_y (nd1 k J d) = dkg_input_y network start_node ai0 rnd rng k ∧
  input_v (nd1 k J d) = dkg_input_v network start_node ai0 rnd rng k ∧
  nd_no_of_inputs (nd1 k J d) = (size keys - 1, size keys - 1)%nat.
Proof.
  intros Hk HJ. unfold nd_no_of_inputs, nd1. cbn [input_y input_v].
  set (msgs := dkg_messages network start_node ai0 rnd rng).
  assert (∀ j, is_Some (msgs !! j) ↔ is_Some (keys !! j)) as Hdom.
  { intros j. rewrite <- !not_eq_None_Some. unfold msgs.
    by rewrite (dkg_messages_dom network start_node ai0 rnd rng H_t H_total start_nodes H_enc). }
  assert (dom (dkg_input_y network start_node ai0 rnd rng k) = others k) as Hy.
  { apply set_eq. intros j. unfold dkg_input_y, others.
    rewrite elem_of_dom, lookup_omap, lookup_delete, elem_of_difference, elem_of_dom.
    case_decide as Hj; [subst; rewrite is_Some_alt; set_solver|]. fold msgs.
    destruct (keys !! j) eqn:Hkj.
    - destruct (run_message_spec j) as (y & own & Hm & _ & _ & Hct); [eauto|].
      fold msgs in Hm. rewrite Hm. cbn. split; [intros _; split; [eauto|set_solver]|].
      intros _. by apply Hct.
    - assert (msgs !! j = None) as ->.
      { apply eq_None_not_Some. rewrite Hdom, Hkj. by intros []. }
      cbn. rewrite !is_Some_alt. tauto. }
  assert (dom (dkg_input_v network start_node ai0 rnd rng k) = others k) as Hv.
  { apply set_eq. intros j. unfold dkg_input_v, others. rewrite dom_fmap_L, dom_delete_L.
    fold msgs. rewrite !elem_of_difference, !elem_of_dom, Hdom. done. }
  rewrite !map_filter_id.
  - split; [done|]. split; [done|]. rewrite <- !size_dom, Hy, Hv. unfold others.
    rewrite size_difference by (apply singleton_subseteq_l, elem_of_dom, Hk).
    by rewrite size_singleton, !size_dom.
  - intros j x Hj. cbn. apply HJ. rewrite <- Hv. apply elem_of_dom. eauto.
  - intros j x Hj. cbn. apply HJ. rewrite <- Hy. apply elem_of_dom. eauto.
Qed.

(** The node data in the second round: the public shares of [P] are in, and [shared]
    says whether its own round 2 is done. *)
Definition nd2 (k : Z) (P : gset Z) (shared : bool) : NodeData C := {|
  input_y := dkg_input_y network start_node ai0 rnd rng k;
  input_v := dkg_input_v network start_node ai0 rnd rng k;
  other_pubshares := filter (λ p, p.1 ∈ P) (public_shares keys run_share);
  node := let n := dkg_node_1 network start_node ai0 rnd rng k in
          if shared then after_round_2 n (run_share k, fmul_point G (run_share k),
                                          fmul_point G run_secret) else n |}.

Definition run_pubshare (k : Z) : list Z := enc (fmul_point G (run_share k)).
Definition run_group_key : list Z := enc (fmul_point G run_secret).

Lemma nd1_nd2 k J : is_Some (keys !! k) → others k ⊆ J → nd1 k J true = nd2 k ∅ false.
Proof.
  intros Hk HJ. destruct (nd1_full k J true Hk HJ) as (H1 & H2 & _). unfold nd1, nd2 in *.
  cbn [input_y input_v] in H1, H2. by rewrite H1, H2, filter_in_empty by done.
Qed.

Lemma public_share_lookup k : is_Some (keys !! k) →
  public_shares keys run_share !! k = Some (fmul_point G (run_share k)).
Proof. intros [pk Hk]. rewrite public_shares_lookup. by rewrite Hk. Qed.

Lemma nd2_round2 k P : is_Some (keys !! k) →
  nd_dkg_round_2 network (nd2 k P false) = (nd2 k ({[k]} ∪ P) true, Ok (run_pubshare k)).
Proof.
  intros Hk. unfold nd_dkg_round_2. cbn [node input_y input_v nd2].
  rewrite (dkg_round_2_honest network start_node ai0 rnd rng H_t H_total start_nodes H_ids H_exp
    H_enc k Hk).
  unfold finish_round_2. destruct H_nonzero as (_ & Hnz & _).
  destruct (enc_base (run_share k) (Hnz k Hk)) as [Henc _].
  change (dkg_share network ai0 rnd k) with (run_share k).
  change (dkg_secret network ai0) with run_secret.
  f_equal; [|by rewrite Henc].
  unfold set_pubshares, set_node, nd2, after_round_2. cbn [input_y input_v other_pubshares node id fst snd].
  f_equal. destruct (dkg_node_1_spec network start_node ai0 rnd rng H_t H_total start_nodes H_enc k Hk)
    as [-> _].
  apply filter_insert_in. by apply public_share_lookup.
Qed.

Lemma nd2_store k j P d : is_Some (keys !! j) →
  nd_store_pubshare j (run_pubshare j) (nd2 k P d) = (nd2 k ({[j]} ∪ P) d, Ok tt).
Proof.
  intros Hj. unfold nd_store_pubshare, run_pubshare. destruct H_nonzero as (_ & Hnz & _).
  destruct (enc_base (run_share j) (Hnz j Hj)) as [_ ->].
  unfold set_pubshares, nd2. cbn [other_pubshares]. f_equal. f_equal.
  apply filter_insert_in. by apply public_share_lookup.
Qed.

Lemma nd2_full k P d : dom keys ⊆ P →
  other_pubshares (nd2 k P d) = public_shares keys run_share ∧
  size (other_pubshares (nd2 k P d)) = size keys.
Proof.
  intros HP. cbn [other_pubshares nd2]. rewrite map_filter_id.
  - split; [done|]. apply public_shares_size.
  - intros j x. rewrite public_shares_lookup. intros Hj. cbn. apply HP, elem_of_dom.
    destruct (keys !! j); [by eexists|done].
Qed.

(** The third round accepts, and the announced values are those of the run. *)
Lemma nd2_round3 k P elected : is_Some (keys !! k) → dom keys ⊆ P →
  process_round_3 network false elected (nd2 k P true) = Ok tt ∧
  nd_priv_share (nd2 k P true) = scalar_to_bytes (scalar_of_field (run_share k)) ∧
  nd_pub_share (E:=string) (nd2 k P true) = Ok (run_pubshare k) ∧
  nd_network_key (E:=string) (nd2 k P true) = Ok run_group_key.
Proof.
  intros Hk HP. destruct (nd2_full k P true HP) as [Hsh _]. split_and!.
  - unfold process_round_3. cbn [andb]. rewrite Hsh. cbn [node nd2].
    unfold run_share, run_secret.
    by rewrite (dkg_round_3_honest network start_node ai0 rnd rng H_t H_total H_ids k Hk).
  - done.
  - unfold nd_pub_share. cbn [node nd2 after_round_2 private_share fst]. destruct H_nonzero as (_ & Hnz & _).
    change (scalar_mul ?X (scalar_of_field ?x)) with (fmul_point X x).
    by destruct (enc_base (run_share k) (Hnz k Hk)) as [-> _].
  - unfold nd_network_key. cbn [node nd2 after_round_2 network_pubkey snd]. destruct H_nonzero as (_ & _ & Hnz).
    by destruct (enc_base run_secret Hnz) as [-> _].
Qed.
End OneKey.

(** ** The four key pairs of a node *)
Section Keyed.
Context {A : Type}.
Implicit Types fs fb : string → A.

(** A value per key name: [fs] for the two keys on Secp256k1, [fb] for those on BabyJubJub. *)
Definition keyed fs fb : gmap string A :=
  {[ "OPRFSecp256k1" := fs "OPRFSecp256k1"; "OPRFBabyJubJub" := fb "OPRFBabyJubJub";
     "JWTPRFSecp256k1" := fs "JWTPRFSecp256k1"; "DecryptBabyJubjub" := fb "DecryptBabyJubjub" ]}.

Definition on_secp (q : string) : bool :=
  bool_decide (q = "OPRFSecp256k1" ∨ q = "JWTPRFSecp256k1").
Definition on_bjj (q : string) : bool :=
  bool_decide (q = "OPRFBabyJubJub" ∨ q = "DecryptBabyJubjub").

Lemma keyed_lookup fs fb q :
  keyed fs fb !! q = if on_secp q then Some (fs q) else if on_bjj q then Some (fb q) else None.
Proof.
  unfold keyed, on_secp, on_bjj.
  destruct (decide (q = "OPRFSecp256k1")) as [->|H1]; [done|].
  destruct (decide (q = "OPRFBabyJubJub")) as [->|H2]; [done|].
  destruct (decide (q = "JWTPRFSecp256k1")) as [->|H3]; [done|].
  destruct (decide (q = "DecryptBabyJubjub")) as [->|H4]; [done|].
  rewrite !bool_decide_false by naive_solver.
  by rewrite !lookup_insert_ne, lookup_singleton_ne by congruence.
Qed.
End Keyed.

Section EngineLoops.
Context {CS CB : Curve} `{HO : HashOrder} `{R : Rsa} `{ET : !EngineTexts}.
Implicit Types (fs : string → NodeData CS) (fb : string → NodeData CB).
Implicit Types st : DKGEngineState CS CB.

Definition keyed_nodes fs fb : gmap string (NodeDataVariant CS CB) :=
  keyed (λ q, VSecp256k1 (fs q)) (λ q, VBabyJubJub (fb q)).

(** A loop over the key pairs, given what its body does on each of them. *)
Lemma for_nodes_keyed {E A} (f : string → NodeDataVariant CS CB → NodeDataVariant CS CB * outcome E A)
    fs fb fs' fb' (hs hb : string → A) st :
  (∀ q, f q (VSecp256k1 (fs q)) = (VSecp256k1 (fs' q), Ok (hs q))) →
  (∀ q, f q (VBabyJubJub (fb q)) = (VBabyJubJub (fb' q), Ok (hb q))) →
  dkg_nodes st = keyed_nodes fs fb →
  for_nodes f st = (set_nodes (keyed_nodes fs' fb') st, Ok (keyed hs hb)).
Proof.
  intros Hs Hb Hst.
  rewrite (for_nodes_Ok f (λ q nd, default nd (keyed_nodes fs' fb' !! q))
             (λ q _, default (hs "") (keyed hs hb !! q))).
  - f_equal; [f_equal|f_equal]; apply map_eq; intros q; rewrite map_lookup_imap, Hst;
      unfold keyed_nodes; rewrite !keyed_lookup; destruct (on_secp q); [done| |done|];
      by destruct (on_bjj q).
  - intros q nd. rewrite Hst. unfold keyed_nodes. rewrite !keyed_lookup.
    destruct (on_secp q); [intros [= <-]; apply Hs|].
    destruct (on_bjj q); [intros [= <-]; apply Hb|done].
Qed.

Lemma collect_keyed {E A} (f : NodeDataVariant CS CB → outcome E A) fs fb (hs hb : string → A) st :
  (∀ q, f (VSecp256k1 (fs q)) = Ok (hs q)) → (∀ q, f (VBabyJubJub (fb q)) = Ok (hb q)) →
  dkg_nodes st = keyed_nodes fs fb →
  (each_node (λ _ nd, (nd, f nd)) (hm_iter (dkg_nodes st)) (dkg_nodes st) ∅).2 = Ok (keyed hs hb).
Proof.
  intros Hs Hb Hst.
  pose proof (for_nodes_keyed (λ _ nd, (nd, f nd)) fs fb fs fb hs hb st) as Hf.
  unfold for_nodes in Hf. destruct (each_node _ _ _ _) as [nodes r].
  assert ((set_nodes nodes st, r) = (set_nodes (keyed_nodes fs fb) st, Ok (keyed hs hb))) as He.
  { apply Hf; [intros q; by rewrite Hs|intros q; by rewrite Hb|done]. }
  by injection He.
Qed.

Lemma each_output_keyed {E A} (f : A → NodeDataVariant CS CB → NodeDataVariant CS CB * outcome E ())
    fs fb fs' fb' (os ob : string → A) st :
  (∀ q, f (os q) (VSecp256k1 (fs q)) = (VSecp256k1 (fs' q), Ok tt)) →
  (∀ q, f (ob q) (VBabyJubJub (fb q)) = (VBabyJubJub (fb' q), Ok tt)) →
  dkg_nodes st = keyed_nodes fs fb →
  each_output f (keyed os ob) st = (set_nodes (keyed_nodes fs' fb') st, Ok tt).
Proof.
  intros Hs Hb Hst. rewrite (each_output_Ok f (λ x nd, (f x nd).1)).
  - do 2 f_equal. apply map_eq. intros q. rewrite map_lookup_imap, Hst.
    unfold keyed_nodes. rewrite !keyed_lookup.
    destruct (on_secp q); cbn; [by rewrite Hs|]. destruct (on_bjj q); cbn; [by rewrite Hb|done].
  - intros q x nd. rewrite Hst. unfold keyed_nodes. rewrite !keyed_lookup.
    destruct (on_secp q); [intros [= <-] [= <-]; by rewrite Hs|].
    destruct (on_bjj q); [intros [= <-] [= <-]; by rewrite Hb|done].
Qed.

Lemma all_nodes_keyed (p : NodeDataVariant CS CB → bool) fs fb st :
  (∀ q, p (VSecp256k1 (fs q)) = true) → (∀ q, p (VBabyJubJub (fb q)) = true) →
  dkg_nodes st = keyed_nodes fs fb → all_nodes CS CB p st = true.
Proof.
  intros Hs Hb Hst. unfold all_nodes. apply forallb_forall. intros nd Hin.
  apply list_elem_of_In in Hin. unfold hm_values in Hin. apply list_elem_of_fmap in Hin as ([q nd'] & -> & Hin).
  apply elem_of_hm_iter in Hin. rewrite Hst in Hin. unfold keyed_nodes in Hin.
  rewrite keyed_lookup in Hin. cbn.
  destruct (on_secp q); [by injection Hin as <-|]. destruct (on_bjj q); [by injection Hin as <-|done].
Qed.
End EngineLoops.

(** ** The engines of a quorum *)
Section Quorum.
Context {CS CB : Curve} {CLS : CurveLaws CS} {CLB : CurveLaws CB} `{HO : HashOrder}
  `{R : Rsa} {RL : RsaLaws R} `{ET : !EngineTexts} {F : Type}.
Context (peers : QuorumMap) (t : Z) (keys : gmap Z RsaPublicKey)
  (c : Z → AllCoins CS CB) (sk : Z → RsaPrivateKey) (peer : Z → PeerId).

Definition quorum : Network :=
  {| Dkg.threshold := Z.to_nat t; total_nodes := size peers; public_keys := keys |}.
Definition cs_of (q : string) (k : Z) : Coins CS := coins_s (c k) q.
Definition cb_of (q : string) (k : Z) : Coins CB := coins_b (c k) q.

(** The assumptions on a key of one curve: indices that fit, encryption that works, and
    no zero among the values sent as points. *)
Definition key_ok {C : Curve} (cc : Z → Coins C) : Prop :=
  good_ids (C:=C) keys ∧
  (∀ j k pk (x : FieldEl (Curve:=C)), keys !! k = Some pk →
     is_Ok (encrypt (coin_rsa (cc j) k) pk (to_repr x))) ∧
  nonzero_run quorum cc.

Hypothesis H_parse : parse_rsa_keys peers = Ok keys.
Hypothesis H_size : size keys = size peers ∧ Z.of_nat (size peers) < 2 ^ 64.
Hypothesis H_t : 0 < t < Z.of_nat (size peers) ∧ (3 ≤ size peers)%nat.
Hypothesis H_member : ∀ k, is_Some (keys !! k) →
  (∃ p, peers !! peer k = Some (p, k)) ∧ keys !! k = Some (rsa_public (sk k)).
Hypothesis H_exp : ∀ k, is_Some (keys !! k) → k ^ (t - 1) < 2 ^ 128.
Hypothesis H_secp : ∀ q, key_ok (cs_of q).
Hypothesis H_bjj : ∀ q, key_ok (cb_of q).

Let member k := is_Some (keys !! k).

Lemma q_t : (0 < Dkg.threshold quorum ≤ size (public_keys quorum))%nat.
Proof. cbn. destruct H_size, H_t. lia. Qed.
Lemma q_total : total_nodes quorum = size (public_keys quorum) ∧
  Z.of_nat (size (public_keys quorum)) < 2 ^ 64.
Proof. cbn. destruct H_size as [-> ?]. done. Qed.
Lemma q_keys k : is_Some (public_keys quorum !! k) → public_keys quorum !! k = Some (rsa_public (sk k)).
Proof. apply H_member. Qed.
Lemma q_exp k : is_Some (public_keys quorum !! k) →
  k ^ Z.of_nat (Dkg.threshold quorum - 1) < 2 ^ 128.
Proof.
  intros Hk. cbn. replace (Z.of_nat (Z.to_nat t - 1)) with (t - 1) by lia. by apply H_exp.
Qed.

(** An engine of member [k] with the given key pairs. *)
Definition engine_of (k : Z) (fs : string → NodeData CS) (fb : string → NodeData CB)
    : DKGEngineState CS CB := {|
  st_idx := k; st_peer_id := peer k; st_network := quorum; dkg_nodes := keyed_nodes fs fb;
  st_tstar_provers := ∅; st_new_provers := peers; st_election_info := ElectionInfo_new 0 0 0;
  finalized_group_public_keys := ∅; resharing_round2_triggered := false;
  resharing_round1_context := None |}.

Definition engine1 (k : Z) (J : gset Z) (d : bool) : DKGEngineState CS CB :=
  engine_of k (λ q, nd1 quorum (cs_of q) sk k J d) (λ q, nd1 quorum (cb_of q) sk k J d).
Definition engine2 (k : Z) (P : gset Z) (d : bool) : DKGEngineState CS CB :=
  engine_of k (λ q, nd2 quorum (cs_of q) sk k P d) (λ q, nd2 quorum (cb_of q) sk k P d).

(** What the members send and store. *)
Definition out1 (k : Z) : gmap string Round1Output :=
  keyed (λ q, run_message quorum (cs_of q) sk k) (λ q, run_message quorum (cb_of q) sk k).
Definition out2 (k : Z) : KeyMap :=
  keyed (λ q, run_pubshare quorum (cs_of q) k) (λ q, run_pubshare quorum (cb_of q) k).
Definition group_keys : KeyMap :=
  keyed (λ q, run_group_key quorum (cs_of q)) (λ q, run_group_key quorum (cb_of q)).
Definition share_bytes {C : Curve} (cc : Z → Coins C) (k : Z) : list Z :=
  scalar_to_bytes (scalar_of_field (run_share quorum cc k)).
Definition shares (k : Z) : KeyMap := keyed (λ q, share_bytes (cs_of q) k) (λ q, share_bytes (cb_of q) k).

Definition env_of (k : Z) : DkgEnv CS CB :=
  {| env_coins := c k; env_rsa_key := sk k; env_saved_shares := None |}.

(** *** The steps of an engine *)
Lemma step_init k w : member k →
  handle_dkg CS CB (F:=F) (env_of k) (Init k (peer k) peers t) w
    = (Some (engine1 k ∅ false), [Gossip (DKGInitCompleted (peer k))], HOk).
Proof.
  intros Hk. cbn [handle_dkg]. unfold handle_dkg_init, dkg_init.
  cbn [env_of env_coins env_rsa_key].
  change (coins_s (c k) ?q) with (cs_of q k). change (coins_b (c k) ?q) with (cb_of q k).
  rewrite !(nd1_fresh quorum). cbn [mbind outcome_bind].
  destruct (Network_new_spec (Z.to_nat t) (size peers) false) as [[_ ->]|[Hv _]]; [|lia].
  cbn [map_err mbind outcome_bind]. rewrite H_parse. done.
Qed.

Lemma engine_new_prover k fs fb : member k → is_new_prover CS CB (engine_of k fs fb) = true.
Proof.
  intros Hk. destruct (H_member k Hk) as [[p Hp] _]. unfold is_new_prover. cbn.
  rewrite Hp. by apply bool_decide_eq_true.
Qed.

Lemma engine1_ready k J d : member k → others quorum k ⊆ J →
  dkg_inputs_ready CS CB (engine1 k J d) = true.
Proof.
  intros Hk HJ. destruct H_size as [Hs1 Hs2].
  assert ((Z.of_nat (size keys - 1) =? u64 (Z.of_nat (size peers) - 1)) = true) as Hn.
  { apply Z.eqb_eq. unfold u64. rewrite wrap_small by lia. lia. }
  assert (∀ (C : Curve) (CL : CurveLaws C) (cc : Z → Coins C), key_ok cc →
    nd_no_of_inputs (nd1 quorum cc sk k J d) = (size keys - 1, size keys - 1)%nat) as Hin.
  { intros C CL cc (H1 & H2 & H3).
    apply (nd1_full quorum cc sk); auto using q_t, q_total, q_keys, q_exp. }
  unfold dkg_inputs_ready. cbn [engine1 engine_of st_network quorum total_nodes].
  eapply all_nodes_keyed; [| |reflexivity]; intros q; cbn [get_no_of_inputs];
    rewrite Hin by auto; by rewrite Hn.
Qed.

Lemma step_round1 k J : member k →
  ∃ out, handle_dkg CS CB (F:=F) (env_of k) Round1 (Some (engine1 k J false))
    = (Some (engine1 k J true), Gossip (Round1Out k (out1 k)) :: out, HOk) ∧
  (others quorum k ⊆ J → Gossip (DKGRound1Completed (peer k)) ∈ out).
Proof.
  intros Hk. cbn [handle_dkg]. unfold handle_round1, round1.
  assert (∀ (C : Curve) (CL : CurveLaws C) (cc : Z → Coins C), key_ok cc →
    process_dkg_round_1 (cc k) quorum (nd1 quorum cc sk k J false)
      = (nd1 quorum cc sk k J true, Ok (run_message quorum cc sk k))) as Hr.
  { intros C CL cc (H1 & H2 & H3). apply (nd1_round1 quorum cc sk);
    auto using q_t, q_total, q_keys, q_exp. }
  rewrite (for_nodes_keyed _ _ _ (λ q, nd1 quorum (cs_of q) sk k J true)
    (λ q, nd1 quorum (cb_of q) sk k J true) (λ q, run_message quorum (cs_of q) sk k)
    (λ q, run_message quorum (cb_of q) sk k) (engine1 k J false)) by
    (reflexivity || (intros q; cbn [v_dkg_round_1 on_variant env_of env_coins engine1 engine_of st_network];
       fold (cs_of q k) (cb_of q k); by rewrite Hr)).
  eexists. split; [reflexivity|]. intros HJ.
  change (set_nodes _ (engine1 k J false)) with (engine1 k J true).
  rewrite (engine1_ready k J true Hk HJ). left.
Qed.

Lemma step_deliver1 k j J d : member k → member j → j ≠ k →
  ∃ out, handle_dkg CS CB (F:=F) (env_of k) (DkgRound1Out j (out1 j)) (Some (engine1 k J d))
    = (Some (engine1 k ({[j]} ∪ J) d), out, HOk) ∧
  (others quorum k ⊆ {[j]} ∪ J → Gossip (DKGRound1Completed (peer k)) ∈ out).
Proof.
  intros Hk Hj Hne. cbn [handle_dkg]. unfold handle_round1_output.
  assert (∀ missing (C : Curve) (CL : CurveLaws C) (cc : Z → Coins C), key_ok cc →
    register_result missing k j (run_message quorum cc sk j).1.1 (run_message quorum cc sk j).1.2
      (nd1 quorum cc sk k J d) = (nd1 quorum cc sk k ({[j]} ∪ J) d, Ok tt)) as Hr.
  { intros missing C CL cc (H1 & H2 & H3). apply (nd1_register quorum cc sk);
      auto using q_t, q_total, q_keys, q_exp. }
  unfold out1.
  rewrite (each_output_keyed _ (λ q, nd1 quorum (cs_of q) sk k J d) (λ q, nd1 quorum (cb_of q) sk k J d)
    (λ q, nd1 quorum (cs_of q) sk k ({[j]} ∪ J) d)
    (λ q, nd1 quorum (cb_of q) sk k ({[j]} ∪ J) d) _ _ (engine1 k J d));
    [|intros q; cbn [engine1 engine_of st_idx]; unfold register_round_1_result_from_other_node;
      rewrite (surjective_pairing (run_message _ _ _ _)), (surjective_pairing (run_message _ _ _ _).1);
      cbn [on_variant]; by rewrite Hr..|reflexivity].
  eexists. split; [reflexivity|]. intros HJ.
  change (set_nodes _ (engine1 k J d)) with (engine1 k ({[j]} ∪ J) d).
  rewrite (engine1_ready k _ d Hk HJ). left.
Qed.

Lemma engine1_engine2 k J : member k → others quorum k ⊆ J → engine1 k J true = engine2 k ∅ false.
Proof.
  intros Hk HJ. unfold engine1, engine2, engine_of. f_equal.
  assert (∀ (C : Curve) (CL : CurveLaws C) (cc : Z → Coins C), key_ok cc →
    nd1 quorum cc sk k J true = nd2 quorum cc sk k ∅ false) as Hr.
  { intros C CL cc (H1 & H2 & H3). apply (nd1_nd2 quorum cc sk);
      auto using q_t, q_total, q_keys, q_exp. }
  unfold keyed_nodes, keyed. by rewrite !Hr by auto.
Qed.

Lemma engine2_ready k P d n : member k → dom keys ⊆ P → n = size peers →
  pubshares_ready CS CB n (engine2 k P d) = true.
Proof.
  intros Hk HP ->. unfold pubshares_ready.
  assert (∀ (C : Curve) (CL : CurveLaws C) (cc : Z → Coins C), key_ok cc →
    size (other_pubshares (nd2 quorum cc sk k P d)) = size peers) as Hr.
  { intros C CL cc (H1 & H2 & H3). rewrite <- (proj1 H_size).
    apply (nd2_full quorum cc sk); auto using q_t, q_total, q_keys, q_exp. }
  eapply all_nodes_keyed; [| |reflexivity]; intros q; cbn [get_no_of_other_pub_shares];
    rewrite Hr by auto; apply Nat.eqb_refl.
Qed.

Lemma step_round2 k P : member k →
  ∃ out, handle_dkg CS CB (F:=F) (env_of k) Round2 (Some (engine2 k P false))
    = (Some (engine2 k ({[k]} ∪ P) true), Gossip (Round2Out k (out2 k)) :: out, HOk) ∧
  (dom keys ⊆ {[k]} ∪ P → Gossip (DKGRound2Completed (peer k)) ∈ out).
Proof.
  intros Hk. cbn [handle_dkg]. unfold handle_round2, engine2 at 1.
  rewrite engine_new_prover by done. cbn [negb].
  assert (∀ (C : Curve) (CL : CurveLaws C) (cc : Z → Coins C), key_ok cc →
    nd_dkg_round_2 quorum (nd2 quorum cc sk k P false)
      = (nd2 quorum cc sk k ({[k]} ∪ P) true, Ok (run_pubshare quorum cc k))) as Hr.
  { intros C CL cc (H1 & H2 & H3). apply (nd2_round2 quorum cc sk);
      auto using q_t, q_total, q_keys, q_exp. }
  rewrite (for_nodes_keyed _ (λ q, nd2 quorum (cs_of q) sk k P false) (λ q, nd2 quorum (cb_of q) sk k P false)
    (λ q, nd2 quorum (cs_of q) sk k ({[k]} ∪ P) true)
    (λ q, nd2 quorum (cb_of q) sk k ({[k]} ∪ P) true) (λ q, run_pubshare quorum (cs_of q) k)
    (λ q, run_pubshare quorum (cb_of q) k) (engine2 k P false));
    [|intros q; cbn [v_dkg_round_2 on_variant engine2 engine_of st_network]; by rewrite Hr..
     |reflexivity].
  eexists. split; [reflexivity|]. intros HP.
  change (set_nodes _ (engine2 k P false)) with (engine2 k ({[k]} ∪ P) true).
  rewrite (engine2_ready k _ true _ Hk HP) by done. left.
Qed.

Lemma step_deliver2 k j P d : member k → member j → j ≠ k →
  ∃ out, handle_dkg CS CB (F:=F) (env_of k) (StoreReceivedPublicKey j (out2 j)) (Some (engine2 k P d))
    = (Some (engine2 k ({[j]} ∪ P) d), out, HOk) ∧
  (dom keys ⊆ {[j]} ∪ P → Gossip (DKGRound2Completed (peer k)) ∈ out).
Proof.
  intros Hk Hj Hne. cbn [handle_dkg]. unfold handle_store_received_pubshare, store_pubshares.
  cbn [st_idx engine2 engine_of]. rewrite (proj2 (Z.eqb_neq k j)) by done.
  assert (existsb (λ '(_, node_idx), node_idx =? j) (hm_values (st_new_provers (engine2 k P d))) = true)
    as ->.
  { destruct (H_member j Hj) as [[p Hp] _]. apply existsb_exists. exists (p, j).
    split; [|apply Z.eqb_refl]. apply list_elem_of_In. unfold hm_values. apply list_elem_of_fmap.
    exists (peer j, (p, j)). split; [done|]. by apply elem_of_hm_iter. }
  cbn [negb].
  assert (∀ (C : Curve) (CL : CurveLaws C) (cc : Z → Coins C), key_ok cc →
    nd_store_pubshare j (run_pubshare quorum cc j) (nd2 quorum cc sk k P d)
      = (nd2 quorum cc sk k ({[j]} ∪ P) d, Ok tt)) as Hr.
  { intros C CL cc (H1 & H2 & H3). apply (nd2_store quorum cc sk);
      auto using q_t, q_total, q_keys, q_exp. }
  unfold out2. change (engine_of k _ _) with (engine2 k P d).
  rewrite (each_output_keyed _ (λ q, nd2 quorum (cs_of q) sk k P d) (λ q, nd2 quorum (cb_of q) sk k P d)
    (λ q, nd2 quorum (cs_of q) sk k ({[j]} ∪ P) d)
    (λ q, nd2 quorum (cb_of q) sk k ({[j]} ∪ P) d) _ _ (engine2 k P d));
    [|intros q; cbn [store_pubshare_for_node on_variant]; by rewrite Hr..|reflexivity].
  eexists. split; [reflexivity|]. intros HP.
  change (set_nodes _ (engine2 k P d)) with (engine2 k ({[j]} ∪ P) d).
  rewrite (engine2_ready k _ d _ Hk HP) by done. left.
Qed.

Lemma step_round3 k P : member k → dom keys ⊆ P →
  handle_dkg CS CB (F:=F) (env_of k) Round3 (Some (engine2 k P true))
    = (Some (engine2 k P true),
       [ToAppState (StoreKeyShares (shares k)); Gossip (Ready k (peer k) (out2 k) group_keys)], HOk).
Proof.
  intros Hk HP. cbn [handle_dkg]. unfold handle_round3.
  assert (∀ (C : Curve) (CL : CurveLaws C) (cc : Z → Coins C) e, key_ok cc →
    process_round_3 quorum false e (nd2 quorum cc sk k P true) = Ok tt ∧
    nd_priv_share (nd2 quorum cc sk k P true) = share_bytes cc k ∧
    nd_pub_share (E:=string) (nd2 quorum cc sk k P true) = Ok (run_pubshare quorum cc k) ∧
    nd_network_key (E:=string) (nd2 quorum cc sk k P true) = Ok (run_group_key quorum cc)) as Hr.
  { intros C CL cc e (H1 & H2 & H3). apply (nd2_round3 quorum cc sk);
      auto using q_t, q_total, q_keys, q_exp. }
  rewrite (for_nodes_keyed _ (λ q, nd2 quorum (cs_of q) sk k P true) (λ q, nd2 quorum (cb_of q) sk k P true)
    (λ q, nd2 quorum (cs_of q) sk k P true)
    (λ q, nd2 quorum (cb_of q) sk k P true) (λ _, tt) (λ _, tt) (engine2 k P true));
    [|intros q; unfold v_round_3; cbn [engine2 engine_of st_network]; f_equal; by apply Hr..
     |reflexivity].
  change (set_nodes _ (engine2 k P true)) with (engine2 k P true).
  unfold announce. cbn [andb negb].
  rewrite bool_decide_true by done.
  rewrite (collect_keyed (get_network_key CS CB) _ _ (λ q, run_group_key quorum (cs_of q))
    (λ q, run_group_key quorum (cb_of q)) (engine2 k P true)) by
    (reflexivity || (intros q; by apply (Hr _ _ _ true))).
  cbn [mbind outcome_bind].
  rewrite (collect_keyed (get_pub_share CS CB) _ _ (λ q, run_pubshare quorum (cs_of q) k)
    (λ q, run_pubshare quorum (cb_of q) k) (engine2 k P true)) by
    (reflexivity || (intros q; by apply (Hr _ _ _ true))).
  cbn [mbind outcome_bind]. do 5 f_equal.
Qed.

(** *** The run of one engine *)
Fixpoint drun (env : DkgEnv CS CB) (ms : list DkgEngineMessage) (w : Wrapper CS CB)
    : DkgHandled CS CB (F:=F) :=
  match ms with
  | [] => (w, [], HOk)
  | m :: ms =>
      match handle_dkg CS CB env m w with
      | (w', out, HOk) => let '(w'', out', r) := drun env ms w' in (w'', out ++ out', r)
      | stopped => stopped
      end
  end.

Lemma drun_cons env m ms w w1 out1 w2 out2 r : handle_dkg CS CB env m w = (w1, out1, HOk) →
  drun env ms w1 = (w2, out2, r) → drun env (m :: ms) w = (w2, out1 ++ out2, r).
Proof. intros H1 H2. cbn [drun]. by rewrite H1, H2. Qed.

Lemma drun_app env ms1 ms2 w w1 o1 w2 o2 r : drun env ms1 w = (w1, o1, HOk) →
  drun env ms2 w1 = (w2, o2, r) → drun env (ms1 ++ ms2) w = (w2, o1 ++ o2, r).
Proof.
  revert w o1. induction ms1 as [|m ms1 IH]; intros w o1 H1 H2; cbn [drun app] in *.
  { by simplify_eq. }
  destruct (handle_dkg CS CB env m w) as [[w' o'] [| | |]] eqn:Hm; simplify_eq.
  destruct (drun env ms1 w') as [[w'' o''] r'] eqn:Hr. simplify_eq.
  rewrite (IH w' o'' Hr H2). by rewrite app_assoc.
Qed.

Definition deliver1 (j : Z) : DkgEngineMessage := DkgRound1Out j (out1 j).
Definition deliver2 (j : Z) : DkgEngineMessage := StoreReceivedPublicKey j (out2 j).

Lemma run_deliver1 k l J d : member k → Forall (λ j, member j ∧ j ≠ k) l →
  ∃ out, drun (env_of k) (deliver1 <$> l) (Some (engine1 k J d))
    = (Some (engine1 k (list_to_set l ∪ J) d), out, HOk) ∧
  (l ≠ [] → others quorum k ⊆ list_to_set l ∪ J → Gossip (DKGRound1Completed (peer k)) ∈ out).
Proof.
  intros Hk Hl. revert J. induction Hl as [|j l [Hj Hne] Hl IH]; intros J.
  { exists []. split; [|done]. by rewrite union_nil. }
  destruct (step_deliver1 k j J d Hk Hj Hne) as (o1 & H1 & Hc1).
  destruct (IH ({[j]} ∪ J)) as (o2 & H2 & Hc2).
  rewrite union_cons in H2, Hc2. exists (o1 ++ o2). split; [by eapply drun_cons|].
  intros _ HJ. apply elem_of_app. destruct l as [|j' l].
  - left. apply Hc1. etrans; [exact HJ|]. apply union_one.
  - right. by apply Hc2.
Qed.

Lemma run_deliver2 k l P d : member k → Forall (λ j, member j ∧ j ≠ k) l →
  ∃ out, drun (env_of k) (deliver2 <$> l) (Some (engine2 k P d))
    = (Some (engine2 k (list_to_set l ∪ P) d), out, HOk) ∧
  (l ≠ [] → dom keys ⊆ list_to_set l ∪ P → Gossip (DKGRound2Completed (peer k)) ∈ out).
Proof.
  intros Hk Hl. revert P. induction Hl as [|j l [Hj Hne] Hl IH]; intros P.
  { exists []. split; [|done]. by rewrite union_nil. }
  destruct (step_deliver2 k j P d Hk Hj Hne) as (o1 & H1 & Hc1).
  destruct (IH ({[j]} ∪ P)) as (o2 & H2 & Hc2).
  rewrite union_cons in H2, Hc2. exists (o1 ++ o2). split; [by eapply drun_cons|].
  intros _ HP. apply elem_of_app. destruct l as [|j' l].
  - left. apply Hc1. etrans; [exact HP|]. apply union_one.
  - right. by apply Hc2.
Qed.

(** The first round: the deliveries [a] before and [b] after the node's own message. *)
Lemma run_first_round k a b : member k → a ++ b ≡ₚ elements (others quorum k) →
  ∃ out, drun (env_of k) ((deliver1 <$> a) ++ Round1 :: (deliver1 <$> b)) (Some (engine1 k ∅ false))
    = (Some (engine2 k ∅ false), out, HOk) ∧
  Gossip (Round1Out k (out1 k)) ∈ out ∧ Gossip (DKGRound1Completed (peer k)) ∈ out.
Proof.
  intros Hk Hp.
  assert (∀ j, j ∈ a ++ b ↔ member j ∧ j ≠ k) as Hab.
  { intros j. rewrite Hp, elem_of_elements. unfold others. cbn. by rewrite elem_of_difference, elem_of_dom, not_elem_of_singleton. }
  assert (Forall (λ j, member j ∧ j ≠ k) a ∧ Forall (λ j, member j ∧ j ≠ k) b) as [Ha Hb].
  { apply Forall_app, Forall_forall. intros j. apply Hab. }
  destruct (run_deliver1 k a ∅ false Hk Ha) as (o1 & H1 & _).
  destruct (step_round1 k (list_to_set a ∪ ∅) Hk) as (o2 & H2 & Hc2).
  destruct (run_deliver1 k b (list_to_set a ∪ ∅) true Hk Hb) as (o3 & H3 & Hc3).
  assert (others quorum k ⊆ list_to_set b ∪ (list_to_set a ∪ ∅)) as Hfull.
  { intros j Hj. apply elem_of_elements in Hj. rewrite <- Hp in Hj. by apply (union_members a b ∅). }
  rewrite (engine1_engine2 k _ Hk Hfull) in H3.
  eexists. split; [eapply drun_app; [exact H1|eapply drun_cons; [exact H2|exact H3]]|].
  rewrite !elem_of_app, !elem_of_cons. split; [tauto|].
  destruct b as [|j b].
  - right. left. right. apply Hc2. by rewrite union_nil in Hfull.
  - right. right. by apply Hc3.
Qed.

Lemma run_second_round k a b : member k → a ++ b ≡ₚ elements (others quorum k) →
  ∃ out P, drun (env_of k) ((deliver2 <$> a) ++ Round2 :: (deliver2 <$> b)) (Some (engine2 k ∅ false))
    = (Some (engine2 k P true), out, HOk) ∧ dom keys ⊆ P ∧
  Gossip (Round2Out k (out2 k)) ∈ out ∧ Gossip (DKGRound2Completed (peer k)) ∈ out.
Proof.
  intros Hk Hp.
  assert (∀ j, j ∈ a ++ b ↔ member j ∧ j ≠ k) as Hab.
  { intros j. rewrite Hp, elem_of_elements. unfold others. cbn. by rewrite elem_of_difference, elem_of_dom, not_elem_of_singleton. }
  assert (Forall (λ j, member j ∧ j ≠ k) a ∧ Forall (λ j, member j ∧ j ≠ k) b) as [Ha Hb].
  { apply Forall_app, Forall_forall. intros j. apply Hab. }
  destruct (run_deliver2 k a ∅ false Hk Ha) as (o1 & H1 & _).
  destruct (step_round2 k (list_to_set a ∪ ∅) Hk) as (o2 & H2 & Hc2).
  destruct (run_deliver2 k b ({[k]} ∪ (list_to_set a ∪ ∅)) true Hk Hb) as (o3 & H3 & Hc3).
  assert (dom keys ⊆ list_to_set b ∪ ({[k]} ∪ (list_to_set a ∪ ∅))) as Hfull.
  { intros j Hj%elem_of_dom. destruct (decide (j = k)) as [->|Hne].
    - apply elem_of_union_r, elem_of_union_l. by apply elem_of_singleton.
    - assert (j ∈ a ++ b) as Hin by by apply Hab. by apply (union_members a b {[k]}). }
  eexists _, _. split; [eapply drun_app; [exact H1|eapply drun_cons; [exact H2|exact H3]]|].
  split; [exact Hfull|]. rewrite !elem_of_app, !elem_of_cons. split; [tauto|].
  destruct b as [|j b].
  - right. left. right. apply Hc2. by rewrite union_nil in Hfull.
  - right. right. by apply Hc3.
Qed.

(** *** The whole key generation *)

(** The key of one key pair is shared: its announced public key is the public point of a
    secret, and the stored shares of any [t] members interpolate to that secret. *)
Definition key_shared {C : Curve} (cc : Z → Coins C) : Prop :=
  ∃ secret : FieldEl,
    from_encoded (run_group_key quorum cc)
      = Ok (scalar_mul base_point_or_generator (scalar_of_field secret)) ∧
    ∀ l, NoDup l → Forall (λ i, is_Some (keys !! i)) l → t ≤ Z.of_nat (length l) →
      ∃ lam x, (∀ i, i ∈ l → lagrange_basis_at_0 (E:=Error) i l = Ok (lam i)) ∧
        (∀ i, field_of_scalar <$> scalar_from_bytes (share_bytes cc i) = Ok (x i)) ∧
        f_sum ((λ i, x i * lam i)%F <$> l) = secret.

Lemma key_ok_shared {C : Curve} {CL : CurveLaws C} (cc : Z → Coins C) : key_ok cc → key_shared cc.
Proof.
  intros (Hids & Henc & Hnz). exists (run_secret quorum cc). split.
  { destruct Hnz as (_ & _ & Hnz). by destruct (enc_base (run_secret quorum cc) Hnz) as [_ He]. }
  intros l Hnd Hl Hlen.
  destruct (dkg_reconstruct quorum (λ k, coin_secret (cc k)) (λ k, coin_poly (cc k)) q_t q_total Hids l)
    as (lam & Hlam & Hsum); [done..|cbn; lia|].
  exists lam, (run_share quorum cc). split; [done|]. split; [|done].
  intros i. unfold share_bytes. rewrite scalar_bytes. cbn. f_equal. apply scalar_field_inv.
Qed.

(** C1: The engines generate the keys.  In a quorum whose members have distinct indices in
    range, each engine that is initialised and then handles, in any order within a
    round, the round-1 messages and the public shares of the other members along with
    its own rounds 1, 2 and 3, ends without error: it gossips its messages and reports
    rounds 1 and 2 completed, stores its four key shares and announces [Ready] with its
    public shares and the same four group keys as everyone.  Each group key is the
    public point of a secret that the stored shares of any [t] members interpolate to. *)
Theorem engines_generate_keys k a b a' b' :
  is_Some (keys !! k) →
  a ++ b ≡ₚ elements (others quorum k) → a' ++ b' ≡ₚ elements (others quorum k) →
  (∃ st out,
    drun (env_of k)
      (Init k (peer k) peers t ::
       ((deliver1 <$> a) ++ Round1 :: (deliver1 <$> b)) ++
       ((deliver2 <$> a') ++ Round2 :: (deliver2 <$> b')) ++ [Round3]) None
      = (Some st, out, HOk) ∧
    Gossip (Round1Out k (out1 k)) ∈ out ∧ Gossip (DKGRound1Completed (peer k)) ∈ out ∧
    Gossip (Round2Out k (out2 k)) ∈ out ∧ Gossip (DKGRound2Completed (peer k)) ∈ out ∧
    ToAppState (StoreKeyShares (shares k)) ∈ out ∧
    Gossip (Ready k (peer k) (out2 k) group_keys) ∈ out) ∧
  (∀ q, key_shared (cs_of q) ∧ key_shared (cb_of q)).
Proof.
  intros Hk Hp Hp'. split; [|intros q; split; by apply key_ok_shared].
  destruct (run_first_round k a b Hk Hp) as (o1 & H1 & Hm1 & Hc1).
  destruct (run_second_round k a' b' Hk Hp') as (o2 & P & H2 & HP & Hm2 & Hc2).
  eexists _, _. split.
  { eapply drun_cons; [by apply step_init|]. eapply drun_app; [exact H1|].
    eapply drun_app; [exact H2|]. eapply drun_cons; [by apply step_round3|reflexivity]. }
  rewrite !elem_of_app, !elem_of_cons. tauto.
Qed.
End Quorum.

(** ** A quorum of three *)
Module EngineExamples.
Import ModelCurve.ModelInstances.
#[local] Existing Instance DkgProtocol.model_rsa.
#[local] Existing Instance DkgProtocol.model_rsa_laws.
#[local] Instance model_texts : EngineTexts := {|
  show_error _ := ""; show_dkg _ := "";
  from_pkcs1_pem s := Ok (Z.of_nat (String.length s) : RsaPublicKey)
|}.

(** Member [i] has a public key text of length [i]. *)
Definition prover3 (i : Z) (text : string) : ProverInfo := {|
  evm_address := []; Messages.peer_id := 100 + i; address := ""; rpcaddr := ""; human_pub_key := [];
  rsa_pub_key := text; voting_power := []; idx := i
|}.
Definition peers3 : QuorumMap :=
  {[ 103 := (prover3 3 "aaa", 3); 104 := (prover3 4 "aaaa", 4); 105 := (prover3 5 "aaaaa", 5) ]}.
Definition keys3 : gmap Z (RsaPublicKey (Rsa:=model_rsa)) := {[ 3 := 3; 4 := 4; 5 := 5 ]}.
Definition coins3 (k : Z) : Coins model_curve := {|
  coin_secret := f_of_Z (k + 10); coin_poly := λ i, f_of_Z (k * 5 + Z.of_nat i);
  coin_rsa := λ _, tt; coin_share0 := 0%F; coin_share1 := 0%F
|}.
Definition all_coins3 (k : Z) : AllCoins model_curve model_curve :=
  {| coins_s := λ _, coins3 k; coins_b := λ _, coins3 k |}.

Lemma members3 (P : Z → Prop) : P 3 → P 4 → P 5 → ∀ k, is_Some (keys3 !! k) → P k.
Proof.
  intros H1 H2 H3 k Hk. assert (k ∈ ({[ 3; 4; 5 ]} : gset Z)) as Hin.
  { apply elem_of_dom in Hk. revert Hk. unfold keys3. set_solver. }
  set_solver.
Qed.

Lemma coins3_ok : key_ok peers3 2 keys3 coins3.
Proof.
  split; [|split].
  - unfold good_ids. apply members3; vm_compute; repeat split; discriminate || reflexivity.
  - done.
  - unfold nonzero_run. split; [|split].
    + apply members3; repeat constructor; vm_compute; discriminate.
    + apply members3; vm_compute; discriminate.
    + vm_compute; discriminate.
Qed.

Lemma engines_generate_keys_witness :
  ∃ st out, drun (F:=unit) (env_of all_coins3 (λ k, k) 4)
    (Init 4 104 peers3 2 ::
     ((deliver1 peers3 2 keys3 all_coins3 (λ k, k) <$> [3]) ++ Round1 ::
      (deliver1 peers3 2 keys3 all_coins3 (λ k, k) <$> [5])) ++
     ((deliver2 peers3 2 keys3 all_coins3 <$> [5; 3]) ++ Round2 :: []) ++ [Round3]) None
    = (Some st, out, HOk).
Proof.
  destruct (engines_generate_keys (F:=unit) peers3 2 keys3 all_coins3 (λ k, k) (λ k, 100 + k))
    with (k := 4) (a := [3]) (b := [5]) (a' := [5; 3]) (b' := @nil Z)
    as [(st & out & H & _) _].
  - vm_compute. reflexivity.
  - split; [reflexivity|vm_compute; reflexivity].
  - split; vm_compute; [split; reflexivity|repeat constructor].
  - apply members3; (split; [eexists; reflexivity|reflexivity]).
  - apply members3; vm_compute; reflexivity.
  - intros q. exact coins3_ok.
  - intros q. exact coins3_ok.
  - eexists. reflexivity.
  - vm_compute. apply perm_swap.
  - vm_compute. reflexivity.
  - exists st, out. exact H.
Defined.

(** Member 4 deals, threshold 2: its gossiped message and the share of member 3 alone
    give its secret. *)
Definition dealer4 : NodeData model_curve :=
  nd1 (quorum peers3 2 keys3) coins3 (λ k, k) 4 ∅ false.
Lemma own_share_is_public_witness :
  ∃ y vs own s x,
    (process_dkg_round_1 (coins3 4) (quorum peers3 2 keys3) dealer4).2 = Ok (y, vs, own) ∧
    scalar_from_bytes own = Ok s ∧ (y !! 3 ≫= decode_share (3 : RsaPrivateKey)) = Some (x 3) ∧
    coin_secret (coins3 4) = f_sum ((λ j, (if decide (j = 4) then field_of_scalar s else x j) *
                                          lambda_at_0 [4; 3] j)%F <$> [4; 3]).
Proof.
  assert (is_Ok (process_dkg_round_1 (coins3 4) (quorum peers3 2 keys3) dealer4).2 = true) as Hok
    by (vm_compute; reflexivity).
  destruct (process_dkg_round_1 (coins3 4) (quorum peers3 2 keys3) dealer4)
    as [nd' [[[y vs] own]|e|]] eqn:Hr; [|discriminate Hok..].
  destruct (own_share_is_public (coins3 4) (quorum peers3 2 keys3) dealer4 nd' y vs own [3] (λ k, k))
    as (s & x & Hs & Hx & Hsum).
  - cbn. lia.
  - done.
  - exact Hr.
  - split; [by apply (bool_decide_unpack _)|]. repeat constructor; vm_compute; reflexivity.
  - reflexivity.
  - intros j ->%list_elem_of_singleton. reflexivity.
  - exists y, vs, own, s, x. split; [reflexivity|]. split; [exact Hs|]. split; [|exact Hsum].
    apply Hx. left.
Defined.

(** Member 4, waiting for the messages of the others, takes in one from index 99. *)
Definition waiting4 : DKGEngineState model_curve model_curve :=
  engine1 peers3 2 keys3 all_coins3 (λ k, k) (λ k, 100 + k) 4 ∅ true.
Definition forged : Round1Output := ({[ 4 := [4; 77] ]}, [[5]; [6]], []).
Lemma round1_output_unchecked_sender_witness :
  ∃ st', (handle_round1_output model_curve model_curve (F:=unit) 99
            {[ "OPRFSecp256k1" := forged ]} (Some waiting4)).1.1 = Some st' ∧
    ∃ nd', dkg_nodes st' !! "OPRFSecp256k1" = Some nd' ∧ 99 ∈ senders nd'.
Proof.
  destruct (handle_round1_output model_curve model_curve (F:=unit) 99
            {[ "OPRFSecp256k1" := forged ]} (Some waiting4)) as [[w' out] r] eqn:Hh.
  destruct (round1_output_unchecked_sender 99 {[ "OPRFSecp256k1" := forged ]} waiting4 w' out r)
    as (_ & st' & -> & Hst).
  - intros key y vs own nd Hk Hnd. apply lookup_singleton_Some in Hk as [<- [= <- <- <-]].
    split; [by eexists|]. destruct nd; eexists; reflexivity.
  - exact Hh.
  - exists st'. split; [reflexivity|].
    destruct (Hst "OPRFSecp256k1" _ eq_refl) as (nd' & Hnd' & Hs); [by eexists|].
    exists nd'. split; [exact Hnd'|]. rewrite Hs. set_solver.
Defined.

(** The same member in a resharing from members 3 and 5: a message under [3 + 2^64]. *)
Definition resharing4 : DKGEngineState model_curve model_curve :=
  set_quorums {[ 103 := (prover3 3 "aaa", 3); 105 := (prover3 5 "aaaaa", 5) ]} peers3
    (ElectionInfo_new 2 1 3) ∅ waiting4.
Lemma resharing_output_aliased_sender_witness :
  ∃ st', (handle_resharing_round1_output model_curve model_curve (F:=unit) (3 + 2 ^ 64)
            {[ "OPRFSecp256k1" := forged.1 ]} (Some resharing4)).1.1 = Some st' ∧
    ∃ nd', dkg_nodes st' !! "OPRFSecp256k1" = Some nd' ∧ 3 + 2 ^ 64 ∈ senders nd'.
Proof.
  destruct (handle_resharing_round1_output model_curve model_curve (F:=unit) (3 + 2 ^ 64)
            {[ "OPRFSecp256k1" := forged.1 ]} (Some resharing4)) as [[w' out] r] eqn:Hh.
  destruct (resharing_output_aliased_sender 3 103 (prover3 3 "aaa") {[ "OPRFSecp256k1" := forged.1 ]}
    resharing4 w' out r) as (_ & st' & -> & Hst).
  - reflexivity.
  - reflexivity.
  - lia.
  - intros key y vs nd Hk Hnd. apply lookup_singleton_Some in Hk as [<- [= <- <-]].
    split; [by eexists|]. destruct nd; eexists; reflexivity.
  - exact Hh.
  - exists st'. split; [reflexivity|].
    destruct (Hst "OPRFSecp256k1" _ eq_refl) as (nd' & Hnd' & Hs); [by eexists|].
    exists nd'. split; [exact Hnd'|]. rewrite Hs. set_solver.
Defined.
End EngineExamples.
