(* ===== verification/ReshareRun.v ===== *)
(** * A resharing run by the engines

    The engines of the members of T* and of the new quorum, driven by the messages of
    dkg_engine_actor.rs in any order the network allows, carry out the resharing of
    [DkgProtocol]: first one key pair at a time, then the four key pairs of a node
    together. *)
From Stdlib Require Import ZArith Lia String.
From stdpp Require Import base list gmap sets strings pretty.
From S2P Require Import Prelude PrimeField Curve ModelCurve Polynomial Dkg Resharing DkgProtocol Messages DkgEngine.
From S2P Require Import DkgEngineProofs EngineRun.

(** ** One key pair *)
Section OneReshare.
Context {C : Curve} {CL : CurveLaws C} `{HO : HashOrder} `{R : Rsa} {RL : RsaLaws R}
  `{ET : !EngineTexts}.
(** [nodes k] is the node member [k] holds when the resharing starts; those of T* hold shares
    of the polynomial [old]. *)
Context (t_star new_quorum : Network) (nodes : Z → Node (C:=C)) (cc : Z → Coins C) (old : list (FieldEl (Curve:=C))).

Let rnd k := coin_poly (cc k).
Let rng k := coin_rsa (cc k).
Let t := Dkg.threshold new_quorum.
Let star := public_keys t_star.
Let keys := public_keys new_quorum.

(** The old secret, the additive share that dealer [k] shares again, and the new shares. *)
Definition old_secret : FieldEl := peval old 0%F.
Definition additive_share (k : Z) : FieldEl := (peval old (f_of_Z k) * lambda_at_0 (hm_keys star) k)%F.
Definition new_share (k : Z) : FieldEl := re_share t_star new_quorum rnd old k.
Definition new_pubshare (k : Z) : list Z := enc (fmul_point G (new_share k)).
Definition re_output (k : Z) : ResharingRound1Output :=
  match re_messages t_star new_quorum nodes rnd rng !! k with
  | Some (y, v) => (y, enc <$> v)
  | None => (∅, [])
  end.

Hypothesis H_t : (0 < t ≤ size keys)%nat.
Hypothesis H_star : total_nodes t_star = size star.
Hypothesis H_new : total_nodes new_quorum = size keys.
Hypothesis H_old : (length old ≤ size star)%nat ∧ ∀ k, is_Some (star !! k) →
  id (nodes k) = k ∧ private_share (nodes k) = peval old (f_of_Z k).
Hypothesis H_nodes : ∀ k, is_Some (keys !! k) →
  id (nodes k) = k ∧ keys !! k = Some (rsa_public (rsa_seckey (nodes k))).
Hypothesis H_ids : good_ids (C:=C) star ∧ good_ids (C:=C) keys.
Hypothesis H_exp : ∀ k, is_Some (keys !! k) → k ^ Z.of_nat (t - 1) < 2 ^ 128.
Hypothesis H_enc : ∀ j k pk x, keys !! k = Some pk → is_Ok (encrypt (rng j k) pk (to_repr x)).

(** No value that is sent as a point is zero. *)
Definition nonzero_resharing : Prop :=
  (∀ k, is_Some (star !! k) → Forall (λ a, a ≠ 0%F) (dealer_poly (rnd k) t (additive_share k))) ∧
  (∀ k, is_Some (keys !! k) → new_share k ≠ 0%F) ∧ old_secret ≠ 0%F.
Hypothesis H_nonzero : nonzero_resharing.

Abbreviation messages := (re_messages t_star new_quorum nodes rnd rng).
Abbreviation inputs_y := (re_input_y t_star new_quorum nodes rnd rng).
Abbreviation inputs_v := (re_input_v t_star new_quorum nodes rnd rng).

(** What dealer [j] sends. *)
Lemma re_output_spec j : is_Some (star !! j) →
  ∃ y, messages !! j = Some (y, commit_poly (dealer_poly (rnd j) t (additive_share j))) ∧
    resharing_round_1 (rnd j) (rng j) (nodes j) t_star new_quorum
      = Ok (y, commit_poly (dealer_poly (rnd j) t (additive_share j))) ∧
    re_output j = (y, enc <$> commit_poly (dealer_poly (rnd j) t (additive_share j))) ∧
    ∀ k, is_Some (keys !! k) → is_Some (y !! k).
Proof.
  intros Hj.
  destruct (re_message t_star new_quorum nodes rnd rng old H_t H_star H_new H_old H_ids H_enc j Hj)
    as (y & v & Hm & (-> & _ & Hd)). exists y. split; [done|]. split; [|split].
  - pose proof Hm as Hm'. unfold re_messages in Hm'. rewrite map_lookup_imap in Hm'. fold star in Hm'.
    destruct Hj as [pk Hj]. rewrite Hj in Hm'. cbn in Hm'. destruct (resharing_round_1 _ _ _ _ _); [|done..].
    by injection Hm' as ->.
  - unfold re_output. by rewrite Hm.
  - intros k Hk. destruct (H_nodes k Hk) as [_ Hpk].
    destruct (Hd k _ Hpk) as (ct & -> & _); [done|by eexists].
Qed.

(** The node data in the first round: the inputs of the dealers [J] are in. *)
Definition ndr1 (k : Z) (J : gset Z) : NodeData C := {|
  input_y := filter (λ p, p.1 ∈ J) (inputs_y k); input_v := filter (λ p, p.1 ∈ J) inputs_v;
  other_pubshares := ∅; node := nodes k |}.

Lemma ndr1_clear k nd : node nd = nodes k → nd_clear_inputs nd = ndr1 k ∅.
Proof. intros Hn. unfold nd_clear_inputs, ndr1. by rewrite !filter_in_empty, Hn by done. Qed.

Lemma ndr1_round1 k nd : is_Some (star !! k) → node nd = nodes k →
  process_resharing_round_1 (cc k) t_star new_quorum nd = (nd, Ok (re_output k)).
Proof.
  intros Hk Hn. destruct (re_output_spec k Hk) as (y & Hm & Hr & -> & _).
  unfold process_resharing_round_1. rewrite Hn. fold (rnd k) (rng k). rewrite Hr. cbn [map_err mbind outcome_bind].
  unfold encode_v_values. destruct H_nonzero as [Hnz _].
  destruct (enc_commitments _ (Hnz k Hk)) as [-> _]. done.
Qed.

Lemma ndr1_inputs j k : is_Some (star !! j) → is_Some (keys !! k) →
  ∃ ct, (re_output j).1 !! k = Some ct ∧ inputs_y k !! j = Some ct ∧
    mapM from_encoded (re_output j).2 = Ok (commit_poly (dealer_poly (rnd j) t (additive_share j))) ∧
    inputs_v !! j = Some (commit_poly (dealer_poly (rnd j) t (additive_share j))).
Proof.
  intros Hj Hk. destruct (re_output_spec j Hj) as (y & Hm & _ & -> & Hy). destruct (Hy k Hk) as [ct Hct].
  exists ct. cbn [fst snd]. destruct H_nonzero as [Hnz _]. destruct (enc_commitments _ (Hnz j Hj)) as [_ ->].
  split_and!; [done| |done|].
  - unfold re_input_y. rewrite lookup_omap, Hm. done.
  - unfold re_input_v. rewrite lookup_fmap, Hm. done.
Qed.

Lemma ndr1_register missing k j J : is_Some (keys !! k) → is_Some (star !! j) →
  register_result missing k j (re_output j).1 (re_output j).2 (ndr1 k J) = (ndr1 k ({[j]} ∪ J), Ok tt).
Proof.
  intros Hk Hj. destruct (ndr1_inputs j k Hj Hk) as (ct & H1 & H2 & H3 & H4).
  unfold register_result. rewrite H1, H3. unfold set_inputs, ndr1. cbn [input_y input_v other_pubshares node].
  by rewrite !(filter_insert_in _ j) by done.
Qed.

Lemma ndr1_full k J : is_Some (keys !! k) → dom star ⊆ J →
  input_y (ndr1 k J) = inputs_y k ∧ input_v (ndr1 k J) = inputs_v ∧
  nd_no_of_inputs (ndr1 k J) = (size star, size star).
Proof.
  intros Hk HJ. unfold nd_no_of_inputs, ndr1. cbn [input_y input_v].
  assert (dom (inputs_y k) = dom star ∧ dom inputs_v = dom star) as [Hy Hv].
  { split; apply set_eq; intros j; rewrite !elem_of_dom.
    - destruct (star !! j) as [pk|] eqn:Hj.
      + destruct (ndr1_inputs j k) as (ct & _ & -> & _); [by eexists|done|]. split; by eexists.
      + unfold re_input_y, re_messages. rewrite lookup_omap, map_lookup_imap. fold star. rewrite Hj. cbn. split; by intros [].
    - destruct (star !! j) as [pk|] eqn:Hj.
      + destruct (ndr1_inputs j k) as (ct & _ & _ & _ & ->); [by eexists|done|]. split; by eexists.
      + unfold re_input_v, re_messages. rewrite lookup_fmap, map_lookup_imap. fold star. rewrite Hj. cbn. split; by intros []. }
  rewrite !map_filter_id.
  - split; [done|]. split; [done|]. by rewrite <- !size_dom, Hy, Hv, !size_dom.
  - intros j x Hj. cbn. apply HJ. rewrite <- Hv. by apply elem_of_dom_2 in Hj.
  - intros j x Hj. cbn. apply HJ. rewrite <- Hy. by apply elem_of_dom_2 in Hj.
Qed.

(** The node data in the second round. *)
Definition ndr2 (k : Z) (P : gset Z) (shared : bool) : NodeData C := {|
  input_y := inputs_y k; input_v := inputs_v;
  other_pubshares := filter (λ p, p.1 ∈ P) (public_shares keys new_share);
  node := if shared then after_round_2 (nodes k) (new_share k, fmul_point G (new_share k), fmul_point G old_secret)
          else nodes k |}.

Lemma ndr1_ndr2 k J : is_Some (keys !! k) → dom star ⊆ J → ndr1 k J = ndr2 k ∅ false.
Proof.
  intros Hk HJ. destruct (ndr1_full k J Hk HJ) as (H1 & H2 & _). unfold ndr1, ndr2 in *.
  cbn [input_y input_v] in H1, H2. by rewrite H1, H2, filter_in_empty by done.
Qed.

Lemma new_share_lookup k : is_Some (keys !! k) →
  public_shares keys new_share !! k = Some (fmul_point G (new_share k)).
Proof. intros [pk Hk]. rewrite public_shares_lookup. by rewrite Hk. Qed.

Lemma ndr2_round2 kind k P key : is_Some (keys !! k) → from_encoded key = Ok (fmul_point G old_secret) →
  nd_resharing_round_2 kind t_star new_quorum key (ndr2 k P false)
    = (ndr2 k ({[k]} ∪ P) true, Ok (new_pubshare k)).
Proof.
  intros Hk Hkey. unfold nd_resharing_round_2. rewrite Hkey. cbn [node input_y input_v ndr2].
  unfold old_secret.
  rewrite (re_round_2_honest t_star new_quorum nodes nodes rnd rng old H_t H_star H_new H_old H_nodes H_ids H_exp H_enc k Hk).
  unfold finish_round_2. destruct H_nonzero as (_ & Hnz & _).
  destruct (enc_base (new_share k) (Hnz k Hk)) as [Henc _].
  change (re_share t_star new_quorum rnd old k) with (new_share k).
  f_equal; [|by rewrite Henc].
  unfold set_pubshares, set_node, ndr2, after_round_2. cbn [input_y input_v other_pubshares node id fst snd].
  f_equal. destruct (H_nodes k Hk) as [-> _]. apply filter_insert_in. by apply new_share_lookup.
Qed.

Lemma ndr2_store k j P d : is_Some (keys !! j) →
  nd_store_pubshare j (new_pubshare j) (ndr2 k P d) = (ndr2 k ({[j]} ∪ P) d, Ok tt).
Proof.
  intros Hj. unfold nd_store_pubshare, new_pubshare. destruct H_nonzero as (_ & Hnz & _).
  destruct (enc_base (new_share j) (Hnz j Hj)) as [_ ->].
  unfold set_pubshares, ndr2. cbn [other_pubshares]. f_equal. f_equal.
  apply filter_insert_in. by apply new_share_lookup.
Qed.

Lemma ndr2_full k P d : dom keys ⊆ P →
  other_pubshares (ndr2 k P d) = public_shares keys new_share ∧
  size (other_pubshares (ndr2 k P d)) = size keys.
Proof.
  intros HP. cbn [other_pubshares ndr2]. rewrite map_filter_id.
  - split; [done|]. apply public_shares_size.
  - intros j x. rewrite public_shares_lookup. intros Hj. cbn. apply HP, elem_of_dom.
    destruct (keys !! j); [by eexists|done].
Qed.

Lemma ndr2_round3 k P : is_Some (keys !! k) → dom keys ⊆ P →
  process_round_3 new_quorum true true (ndr2 k P true) = Ok tt ∧
  nd_priv_share (ndr2 k P true) = scalar_to_bytes (scalar_of_field (new_share k)) ∧
  nd_pub_share (E:=string) (ndr2 k P true) = Ok (new_pubshare k).
Proof.
  intros Hk HP. destruct (ndr2_full k P true HP) as [Hsh _]. split_and!.
  - unfold process_round_3. cbn [andb]. rewrite Hsh. cbn [node ndr2]. unfold new_share, old_secret.
    by rewrite (re_round_3_honest t_star new_quorum nodes nodes rnd old H_t H_star H_new H_old H_ids k).
  - done.
  - unfold nd_pub_share. cbn [node ndr2 after_round_2 private_share fst]. destruct H_nonzero as (_ & Hnz & _).
    change (scalar_mul ?X (scalar_of_field ?x)) with (fmul_point X x).
    by destruct (enc_base (new_share k) (Hnz k Hk)) as [-> _].
Qed.
End OneReshare.

(** What a key generation leaves: the shares are values of one polynomial of [t] coefficients
    whose value at 0 is the secret, as the resharing needs them. *)
Lemma generated_shares {C : Curve} {CL : CurveLaws C} `{HO : HashOrder} `{R : Rsa} (network : Network) (cc : Z → Coins C) :
  (0 < Dkg.threshold network)%nat →
  ∃ old, (length old ≤ Dkg.threshold network)%nat ∧ run_secret network cc = old_secret old ∧
    ∀ k, run_share network cc k = peval old (f_of_Z k).
Proof.
  intros Ht. destruct (dealt_poly (public_keys network) (Dkg.threshold network) (λ k, coin_poly (cc k))
    (λ k, coin_secret (cc k))) as (fs & Hfs & Hs); [lia|]. exists fs. split; [lia|]. split.
  - unfold run_secret, old_secret. rewrite <- Hs. symmetry. apply dkg_secret_css.
  - intros k. unfold run_share. rewrite dkg_share_css. apply Hs.
Qed.

(** A loop over the key pairs whose body depends on the key's name. *)
Lemma for_nodes_named {CS CB : Curve} `{HO : HashOrder} `{R : Rsa} {E A}
    (f : string → NodeDataVariant CS CB → NodeDataVariant CS CB * outcome E A)
    (fs fs' : string → NodeData CS) (fb fb' : string → NodeData CB) (hs hb : string → A) (st : DKGEngineState CS CB) :
  (∀ q, on_secp q = true → f q (VSecp256k1 (fs q)) = (VSecp256k1 (fs' q), Ok (hs q))) →
  (∀ q, on_secp q = false → on_bjj q = true → f q (VBabyJubJub (fb q)) = (VBabyJubJub (fb' q), Ok (hb q))) →
  dkg_nodes st = keyed_nodes fs fb →
  for_nodes f st = (set_nodes (keyed_nodes fs' fb') st, Ok (keyed hs hb)).
Proof.
  intros Hs Hb Hst.
  rewrite (for_nodes_Ok f (λ q nd, default nd (keyed_nodes fs' fb' !! q))
             (λ q _, default (hs "") (keyed hs hb !! q))).
  - f_equal; [f_equal|f_equal]; apply map_eq; intros q; rewrite map_lookup_imap, Hst;
      unfold keyed_nodes; rewrite !keyed_lookup; destruct (on_secp q); [done| |done|];
      by destruct (on_bjj q).
  - intros q nd. rewrite Hst. unfold keyed_nodes. rewrite !keyed_lookup.
    destruct (on_secp q) eqn:Hq; [intros [= <-]; by apply Hs|].
    destruct (on_bjj q) eqn:Hq'; [intros [= <-]; by apply Hb|done].
Qed.

(** ** The engines of T* and of the new quorum *)
Section Reshare.
Context {CS CB : Curve} {CLS : CurveLaws CS} {CLB : CurveLaws CB} `{HO : HashOrder}
  `{R : Rsa} {RL : RsaLaws R} `{ET : !EngineTexts} {F : Type}.
Context (tstar new : QuorumMap) (info : ElectionInfo) (star keys : gmap Z RsaPublicKey)
  (c : Z → AllCoins CS CB) (sk : Z → RsaPrivateKey) (peer : Z → PeerId) (saved : Z → option KeyMap).
(** For each key pair: the node that member [k] holds, the polynomial that is shared and the
    group key. *)
Context (node_s : string → Z → Node (C:=CS)) (node_b : string → Z → Node (C:=CB))
  (old_s : string → list (FieldEl (Curve:=CS))) (old_b : string → list (FieldEl (Curve:=CB)))
  (key_s key_b : string → list Z).

Abbreviation t := (Messages.threshold info).
Definition star_network : Network :=
  {| Dkg.threshold := Z.to_nat t; total_nodes := size tstar; public_keys := star |}.
Definition new_network : Network :=
  {| Dkg.threshold := Z.to_nat t; total_nodes := size new; public_keys := keys |}.
Abbreviation cs_of := (cs_of c).
Abbreviation cb_of := (cb_of c).
Definition old_keys : KeyMap := keyed key_s key_b.

(** The assumptions on a key of one curve: indices that fit, T* holds shares of the old key,
    encryption works, and no zero is sent as a point. *)
Record reshare_ok {C : Curve} (nodes : Z → Node (C:=C)) (cc : Z → Coins C) (old : list (FieldEl (Curve:=C)))
    (key : list Z) : Prop := {
  ro_ids : good_ids (C:=C) star ∧ good_ids (C:=C) keys;
  ro_old : (length old ≤ size star)%nat ∧ ∀ k, is_Some (star !! k) →
    id (nodes k) = k ∧ private_share (nodes k) = peval old (f_of_Z k);
  ro_nodes : ∀ k, is_Some (keys !! k) → id (nodes k) = k ∧ rsa_seckey (nodes k) = sk k;
  ro_enc : ∀ j k pk (x : FieldEl (Curve:=C)), keys !! k = Some pk →
    is_Ok (encrypt (coin_rsa (cc j) k) pk (to_repr x));
  ro_nonzero : nonzero_resharing star_network new_network cc old;
  ro_key : from_encoded key = Ok (fmul_point G (old_secret old))
}.

Hypothesis H_star_parse : parse_rsa_keys tstar = Ok star.
Hypothesis H_new_parse : parse_rsa_keys new = Ok keys.
Hypothesis H_size : size star = size tstar ∧ size keys = size new.
Hypothesis H_t : 0 < t < Z.of_nat (size new) ∧ (3 ≤ size new)%nat ∧
  t ≤ Z.of_nat (size tstar) ∧ (2 ≤ size tstar)%nat.
Hypothesis H_star_peer : ∀ k, is_Some (star !! k) ↔ ∃ p, tstar !! peer k = Some (p, k).
Hypothesis H_new_peer : ∀ k, is_Some (keys !! k) ↔ ∃ p, new !! peer k = Some (p, k).
Hypothesis H_index : ∀ k p i, tstar !! peer k = Some (p, i) ∨ new !! peer k = Some (p, i) → i = k.
Hypothesis H_rsa : ∀ k, is_Some (keys !! k) → keys !! k = Some (rsa_public (sk k)).
Hypothesis H_exp : ∀ k, is_Some (keys !! k) → k ^ (t - 1) < 2 ^ 128.
Hypothesis H_secp : ∀ q, reshare_ok (node_s q) (cs_of q) (old_s q) (key_s q).
Hypothesis H_bjj : ∀ q, reshare_ok (node_b q) (cb_of q) (old_b q) (key_b q).

Let dealer k := is_Some (star !! k).
Let member k := is_Some (keys !! k).

Lemma r_t : (0 < Dkg.threshold new_network ≤ size (public_keys new_network))%nat.
Proof. cbn. destruct H_size, H_t as (? & ? & ?). lia. Qed.
Lemma r_star : total_nodes star_network = size (public_keys star_network).
Proof. cbn. by destruct H_size as [-> _]. Qed.
Lemma r_new : total_nodes new_network = size (public_keys new_network).
Proof. cbn. by destruct H_size as [_ ->]. Qed.
Lemma r_nodes {C : Curve} nodes cc old key : reshare_ok (C:=C) nodes cc old key →
  ∀ k, is_Some (public_keys new_network !! k) →
  id (nodes k) = k ∧ public_keys new_network !! k = Some (rsa_public (rsa_seckey (nodes k))).
Proof. intros H k Hk. destruct (ro_nodes _ _ _ _ H k Hk) as [-> ->]. split; [done|]. by apply H_rsa. Qed.
Lemma r_exp k : is_Some (public_keys new_network !! k) → k ^ Z.of_nat (Dkg.threshold new_network - 1) < 2 ^ 128.
Proof. intros Hk. cbn. replace (Z.of_nat (Z.to_nat t - 1)) with (t - 1) by lia. by apply H_exp. Qed.

Lemma star_net : quorum_network t tstar true = Ok star_network.
Proof.
  unfold quorum_network. destruct H_t as (? & ? & ? & ?). unfold Network_new.
  rewrite (proj2 (Nat.ltb_ge _ _)), (proj2 (Nat.ltb_ge _ _)), (proj2 (Nat.eqb_neq _ _)) by lia.
  cbn [orb map_err mbind outcome_bind]. by rewrite H_star_parse.
Qed.
Lemma new_net : quorum_network t new false = Ok new_network.
Proof.
  unfold quorum_network. destruct H_t as (? & ? & ? & ?). unfold Network_new.
  rewrite (proj2 (Nat.leb_gt _ _)), (proj2 (Nat.leb_gt _ _)), (proj2 (Nat.eqb_neq _ _)) by lia.
  cbn [orb map_err mbind outcome_bind]. by rewrite H_new_parse.
Qed.
Lemma in_star k : bool_decide (is_Some (tstar !! peer k)) = bool_decide (dealer k).
Proof.
  apply bool_decide_ext. unfold dealer. rewrite H_star_peer. split.
  - intros [[p i] Hp]. assert (i = k) as -> by (eapply H_index; by left). eauto.
  - intros [p Hp]. eauto.
Qed.
Lemma in_new k : bool_decide (is_Some (new !! peer k)) = bool_decide (member k).
Proof.
  apply bool_decide_ext. unfold member. rewrite H_new_peer. split.
  - intros [[p i] Hp]. assert (i = k) as -> by (eapply H_index; by right). eauto.
  - intros [p Hp]. eauto.
Qed.

(** An engine of node [k] during the resharing. *)
Definition context_of (k : Z) : ResharingInitContext :=
  {| rsa_private_key := sk k; c_election_info := info; node_peer_id := peer k; c_group_keys := old_keys |}.
Definition re_engine (k : Z) (net : Network) (fs : string → NodeData CS) (fb : string → NodeData CB)
    : DKGEngineState CS CB := {|
  st_idx := k; st_peer_id := peer k; st_network := net; dkg_nodes := keyed_nodes fs fb;
  st_tstar_provers := tstar; st_new_provers := new; st_election_info := info;
  finalized_group_public_keys := old_keys; resharing_round2_triggered := false;
  resharing_round1_context := if bool_decide (dealer k) then Some (context_of k) else None |}.
Abbreviation ndr1s q := (ndr1 star_network new_network (node_s q) (cs_of q)).
Abbreviation ndr1b q := (ndr1 star_network new_network (node_b q) (cb_of q)).
Abbreviation ndr2s q := (ndr2 star_network new_network (node_s q) (cs_of q) (old_s q)).
Abbreviation ndr2b q := (ndr2 star_network new_network (node_b q) (cb_of q) (old_b q)).
Definition re_engine1 (k : Z) (net : Network) (J : gset Z) : DKGEngineState CS CB :=
  re_engine k net (λ q, ndr1s q k J) (λ q, ndr1b q k J).
Definition re_engine2 (k : Z) (net : Network) (P : gset Z) (d : bool) : DKGEngineState CS CB :=
  re_engine k net (λ q, ndr2s q k P d) (λ q, ndr2b q k P d).

(** What the nodes send and store. *)
Definition re_out1 (k : Z) : gmap string ResharingRound1Output :=
  keyed (λ q, re_output star_network new_network (node_s q) (cs_of q) k)
        (λ q, re_output star_network new_network (node_b q) (cb_of q) k).
Definition re_out2 (k : Z) : KeyMap :=
  keyed (λ q, new_pubshare star_network new_network (cs_of q) (old_s q) k)
        (λ q, new_pubshare star_network new_network (cb_of q) (old_b q) k).
Definition re_share_bytes {C : Curve} (cc : Z → Coins C) (old : list (FieldEl (Curve:=C))) (k : Z) : list Z :=
  scalar_to_bytes (scalar_of_field (new_share star_network new_network cc old k)).
Definition re_shares (k : Z) : KeyMap :=
  keyed (λ q, re_share_bytes (cs_of q) (old_s q) k) (λ q, re_share_bytes (cb_of q) (old_b q) k).

Definition re_env (k : Z) : DkgEnv CS CB :=
  {| env_coins := c k; env_rsa_key := sk k; env_saved_shares := saved k |}.

(** Where node [k] starts: an engine that holds the nodes; no engine, and the saved shares
    restore one; or no engine on a node that joins. *)
Definition holds (k : Z) (st : DKGEngineState CS CB) : Prop :=
  st_idx st = k ∧ st_peer_id st = peer k ∧ ∃ fs fb, dkg_nodes st = keyed_nodes fs fb ∧
    ∀ q, node (fs q) = node_s q k ∧ node (fb q) = node_b q k.
Definition starts (k : Z) (w : Wrapper CS CB) : Prop :=
  match w with
  | Some st => holds k st
  | None =>
      if bool_decide (dealer k)
      then ∃ st, restore_old_resharing_state CS CB (c k) (sk k) (peer k) k new t (default ∅ (saved k)) tstar old_keys
                   = Ok st ∧ holds k st
      else ∀ q, node_s q k = start_node (cs_of q) sk k ∧ node_b q k = start_node (cb_of q) sk k
  end.

Lemma clear_keyed fs fb : clear_inputs CS CB <$> keyed_nodes fs fb
  = keyed_nodes (λ q, nd_clear_inputs (fs q)) (λ q, nd_clear_inputs (fb q)).
Proof.
  apply map_eq. intros q. rewrite lookup_fmap. unfold keyed_nodes. rewrite !keyed_lookup.
  destruct (on_secp q); [done|]. by destruct (on_bjj q).
Qed.

Lemma cleared_keyed k fs fb : (∀ q, node (fs q) = node_s q k ∧ node (fb q) = node_b q k) →
  clear_inputs CS CB <$> keyed_nodes fs fb = keyed_nodes (λ q, ndr1s q k ∅) (λ q, ndr1b q k ∅).
Proof.
  intros Hq. rewrite clear_keyed. unfold keyed_nodes, keyed.
  rewrite !(λ q, ndr1_clear star_network new_network (node_s q) (cs_of q) k (fs q) (proj1 (Hq q))).
  by rewrite !(λ q, ndr1_clear star_network new_network (node_b q) (cb_of q) k (fb q) (proj2 (Hq q))).
Qed.

Lemma step_existing k st : dealer k ∨ member k → holds k st →
  ∃ net, resharing_init_existing CS CB (F:=F) (context_of k)
           {| Dkg.threshold := Z.to_nat t; total_nodes := size tstar; public_keys := ∅ |} tstar new st
    = (Some (re_engine1 k net ∅), [Gossip (ResharingInitCompleted (peer k))], HOk).
Proof.
  intros Hk (Hi & Hp & fs & fb & Hn & Hq). unfold resharing_init_existing. cbn [c_election_info context_of c_group_keys].
  destruct st as [i p net nodes ts nw inf fin trig ctx]. cbn in Hi, Hp, Hn. subst i p nodes.
  cbn -[keyed_nodes]. rewrite (cleared_keyed k fs fb Hq), in_star, in_new.
  unfold re_engine1, re_engine. destruct (bool_decide_reflect (dealer k)) as [Hd|Hd].
  - rewrite H_star_parse. eexists. reflexivity.
  - rewrite bool_decide_eq_true_2 by (by destruct Hk). eexists. reflexivity.
Qed.

Lemma joining_engine k : member k → ¬ dealer k →
  (∀ q, node_s q k = start_node (cs_of q) sk k ∧ node_b q k = start_node (cb_of q) sk k) →
  ∃ net, resharing_init_joining CS CB (F:=F) (re_env k) (context_of k) k tstar new None
    = (Some (re_engine1 k net ∅), [Gossip (ResharingInitCompleted (peer k))], HOk).
Proof.
  intros Hk Hd Hq. unfold resharing_init_joining, dkg_init. cbn [c_election_info context_of node_peer_id rsa_private_key re_env env_coins c_group_keys].
  change (coins_s (c k) ?q) with (cs_of q k). change (coins_b (c k) ?q) with (cb_of q k).
  rewrite !(nd1_fresh new_network). cbn [mbind outcome_bind].
  destruct (Network_new_spec (Z.to_nat t) (size new) false) as [[_ ->]|[Hv _]]; [|destruct H_t as (? & ? & ?); lia].
  cbn [map_err mbind outcome_bind]. rewrite H_new_parse. cbn [mbind outcome_bind].
  eexists. apply (f_equal (λ st, (Some st, [Gossip (ResharingInitCompleted (peer k))], HOk))).
  unfold re_engine1, re_engine. rewrite bool_decide_eq_false_2 by done.
  unfold set_nodes, set_network, set_quorums. cbn [st_idx st_peer_id st_network dkg_nodes st_tstar_provers st_new_provers
    st_election_info finalized_group_public_keys resharing_round2_triggered resharing_round1_context].
  f_equal.
  rewrite <- (cleared_keyed k (λ q, nd1 new_network (cs_of q) sk k ∅ false) (λ q, nd1 new_network (cb_of q) sk k ∅ false)).
  - reflexivity.
  - intros q. destruct (Hq q) as [-> ->]. done.
Qed.

(** *** The steps of an engine *)
Definition re_init (k : Z) : DkgEngineMessage := ResharingInit k tstar new info (peer k) old_keys.
Lemma step_re_init k w : dealer k ∨ member k → starts k w →
  ∃ net, handle_dkg CS CB (F:=F) (re_env k) (re_init k) w
    = (Some (re_engine1 k net ∅), [Gossip (ResharingInitCompleted (peer k))], HOk).
Proof.
  intros Hk Hw. cbn [handle_dkg re_init]. unfold handle_resharing_init. cbn [re_env env_rsa_key].
  change {| rsa_private_key := sk k; c_election_info := info; node_peer_id := peer k; c_group_keys := old_keys |}
    with (context_of k). cbn [context_of c_election_info node_peer_id].
  destruct (Network_new_spec (Z.to_nat t) (size tstar) true) as [[_ ->]|[Hv _]]; [|destruct H_t as (? & ? & ? & ?); lia].
  destruct w as [st|]; [by apply step_existing|]. cbn [starts] in Hw. rewrite in_star, in_new.
  destruct (bool_decide_reflect (dealer k)) as [Hd|Hd].
  - destruct Hw as (st & Hr & Hh). cbn [re_env rsa_private_key c_group_keys env_coins env_saved_shares].
    change (rsa_private_key (context_of k)) with (sk k). change (c_group_keys (context_of k)) with old_keys. rewrite Hr. by apply step_existing.
  - destruct Hk as [Hk|Hk]; [done|]. rewrite bool_decide_eq_true_2 by done. by apply joining_engine.
Qed.

Lemma re_new_prover k net fs fb : is_new_prover CS CB (re_engine k net fs fb) = bool_decide (member k).
Proof. apply in_new. Qed.
Lemma re_tstar_prover k net fs fb : is_tstar_prover CS CB (re_engine k net fs fb) = bool_decide (dealer k).
Proof. apply in_star. Qed.

Lemma re_engine1_ready k net J : member k → dom star ⊆ J →
  resharing_inputs_ready CS CB (re_engine1 k net J) = true.
Proof.
  intros Hk HJ.
  assert (∀ (C : Curve) (CL : CurveLaws C) nodes (cc : Z → Coins C) old key, reshare_ok nodes cc old key →
    nd_no_of_inputs (ndr1 star_network new_network nodes cc k J) = (size tstar, size tstar)) as Hin.
  { intros C CL nodes cc old key H. rewrite <- (proj1 H_size).
    eapply (ndr1_full star_network new_network nodes cc old); eauto using r_t, r_star, r_new, r_nodes, r_exp, ro_ids, ro_old, ro_enc, ro_nonzero. }
  unfold resharing_inputs_ready. eapply all_nodes_keyed; [| |reflexivity]; intros q; cbn [get_no_of_inputs];
    erewrite Hin by eauto; unfold re_engine1; rewrite re_new_prover; cbn [re_engine st_tstar_provers];
    rewrite Nat.eqb_refl; by rewrite bool_decide_eq_true_2.
Qed.

(** A dealer's first round; a dealer that stays keeps its own message. *)
Lemma re_round1_Ok k net fs fb : dealer k → (∀ q, node (fs q) = node_s q k ∧ node (fb q) = node_b q k) →
  resharing_round1 CS CB (c k) info (re_engine k net fs fb) = (re_engine k net fs fb, Ok (re_out1 k)).
Proof.
  intros Hk Hq. unfold resharing_round1. cbn [re_engine st_tstar_provers st_new_provers]. rewrite star_net.
  assert (∀ (C : Curve) (CL : CurveLaws C) nodes (cc : Z → Coins C) old key nd, reshare_ok nodes cc old key → node nd = nodes k →
    process_resharing_round_1 (cc k) star_network new_network nd
      = (nd, Ok (re_output star_network new_network nodes cc k))) as Hr.
  { intros C CL nodes cc old key nd H Hn. eapply (ndr1_round1 star_network new_network nodes cc old);
      eauto using r_t, r_star, r_new, r_nodes, r_exp, ro_ids, ro_old, ro_enc, ro_nonzero. }
  rewrite (for_nodes_keyed _ fs fb fs fb (λ q, re_output star_network new_network (node_s q) (cs_of q) k)
    (λ q, re_output star_network new_network (node_b q) (cb_of q) k) (re_engine k net fs fb)).
  - reflexivity.
  - intros q. unfold v_resharing_round_1. rewrite new_net. cbn [on_variant].
    erewrite (Hr _ _ (node_s q) (cs_of q)); [done|by eauto|apply Hq].
  - intros q. unfold v_resharing_round_1. rewrite new_net. cbn [on_variant].
    erewrite (Hr _ _ (node_b q) (cb_of q)); [done|by eauto|apply Hq].
  - reflexivity.
Qed.

Lemma step_re_round1_leaving k net J : dealer k → ¬ member k →
  handle_dkg CS CB (F:=F) (re_env k) (ResharingRound1 info false) (Some (re_engine1 k net J))
    = (Some (re_engine1 k net J), [Gossip (ResharingRound1Out k (re_out1 k))], HOk).
Proof.
  intros Hk Hm. cbn [handle_dkg]. unfold handle_resharing_round1, re_engine1.
  rewrite re_tstar_prover, bool_decide_eq_true_2 by done. cbn [re_env env_coins].
  rewrite re_round1_Ok by done. cbn [st_idx re_engine].
  change (is_new_prover CS CB _) with (is_new_prover CS CB (re_engine1 k net J)). unfold re_engine1.
  rewrite re_new_prover, bool_decide_eq_false_2 by done. by rewrite andb_false_r.
Qed.

Lemma step_re_round1 k net J : dealer k → member k →
  ∃ out, handle_dkg CS CB (F:=F) (re_env k) (ResharingRound1 info true) (Some (re_engine1 k net J))
    = (Some (re_engine1 k net ({[k]} ∪ J)), Gossip (ResharingRound1Out k (re_out1 k)) :: out, HOk) ∧
  (dom star ⊆ {[k]} ∪ J → Gossip (ResharingRound1Completed (peer k)) ∈ out).
Proof.
  intros Hk Hm. cbn [handle_dkg]. unfold handle_resharing_round1, re_engine1 at 1.
  rewrite re_tstar_prover, bool_decide_eq_true_2 by done. cbn [re_env env_coins].
  unfold re_engine1 at 1. rewrite re_round1_Ok by done. cbn [st_idx re_engine].
  assert (∀ (C : Curve) (CL : CurveLaws C) nodes (cc : Z → Coins C) old key, reshare_ok nodes cc old key →
    ∃ ct v, (re_output star_network new_network nodes cc k).1 !! k = Some ct ∧
      mapM from_encoded (re_output star_network new_network nodes cc k).2 = Ok v ∧
      set_inputs (<[k := ct]> (input_y (ndr1 star_network new_network nodes cc k J)))
                 (<[k := v]> (input_v (ndr1 star_network new_network nodes cc k J))) (ndr1 star_network new_network nodes cc k J)
        = ndr1 star_network new_network nodes cc k ({[k]} ∪ J)) as Hr.
  { intros C CL nodes cc old key H.
    destruct (ndr1_inputs star_network new_network nodes cc old r_t r_star r_new (ro_old _ _ _ _ H) (r_nodes _ _ _ _ H)
      (ro_ids _ _ _ _ H) (ro_enc _ _ _ _ H) (ro_nonzero _ _ _ _ H) k k Hk Hm) as (ct & H1 & H2 & H3 & H4).
    eexists ct, _. split; [done|]. split; [done|]. unfold set_inputs, ndr1. cbn [input_y input_v other_pubshares node].
    by rewrite !(filter_insert_in _ k) by done. }
  unfold re_out1 at 1. change (re_engine k net _ _) with (re_engine1 k net J).
  rewrite (each_output_keyed _ (λ q, ndr1s q k J) (λ q, ndr1b q k J) (λ q, ndr1s q k ({[k]} ∪ J))
    (λ q, ndr1b q k ({[k]} ∪ J)) _ _ (re_engine1 k net J)); [| | |reflexivity].
  - eexists. split; [reflexivity|]. intros HJ.
    change (set_nodes _ (re_engine1 k net J)) with (re_engine1 k net ({[k]} ∪ J)).
    rewrite (re_engine1_ready k net _ Hm HJ). unfold re_engine1. rewrite re_new_prover, bool_decide_eq_true_2 by done. left.
  - intros q. destruct (Hr _ _ _ _ _ _ (H_secp q)) as (ct & v & H1 & H2 & H3). unfold store_own_output.
    rewrite (surjective_pairing (re_output _ _ _ _ _)). cbn [on_variant]. by rewrite H1, H2, H3.
  - intros q. destruct (Hr _ _ _ _ _ _ (H_bjj q)) as (ct & v & H1 & H2 & H3). unfold store_own_output.
    rewrite (surjective_pairing (re_output _ _ _ _ _)). cbn [on_variant]. by rewrite H1, H2, H3.
Qed.

Lemma step_re_deliver1 k j net J : member k → dealer j →
  ∃ out, handle_dkg CS CB (F:=F) (re_env k) (DkgResharingRound1Out j (re_out1 j)) (Some (re_engine1 k net J))
    = (Some (re_engine1 k net ({[j]} ∪ J)), out, HOk) ∧
  (dom star ⊆ {[j]} ∪ J → Gossip (ResharingRound1Completed (peer k)) ∈ out).
Proof.
  intros Hk Hj. cbn [handle_dkg]. unfold handle_resharing_round1_output, re_engine1 at 1.
  rewrite re_new_prover, bool_decide_eq_true_2 by done. cbn [st_tstar_provers re_engine re_engine1].
  assert (existsb (λ '(_, tstar_idx), tstar_idx =? u64 j) (hm_values tstar) = true) as ->.
  { destruct (proj1 (H_star_peer j) Hj) as [p Hp]. apply existsb_exists. exists (p, j). split.
    - apply list_elem_of_In. unfold hm_values. apply list_elem_of_fmap. exists (peer j, (p, j)). split; [done|]. by apply elem_of_hm_iter.
    - destruct (proj1 (ro_ids _ _ _ _ (H_secp "")) j Hj) as [Hr _]. apply Z.eqb_eq. unfold u64. by rewrite wrap_small by lia. }
  cbn [negb].
  assert (∀ missing (C : Curve) (CL : CurveLaws C) nodes (cc : Z → Coins C) old key, reshare_ok nodes cc old key →
    register_result missing k j (re_output star_network new_network nodes cc j).1 (re_output star_network new_network nodes cc j).2
      (ndr1 star_network new_network nodes cc k J) = (ndr1 star_network new_network nodes cc k ({[j]} ∪ J), Ok tt)) as Hr.
  { intros missing C CL nodes cc old key H. eapply (ndr1_register star_network new_network nodes cc old);
      eauto using r_t, r_star, r_new, r_nodes, r_exp, ro_ids, ro_old, ro_enc, ro_nonzero. }
  unfold re_out1. change (re_engine k net _ _) with (re_engine1 k net J).
  rewrite (each_output_keyed _ (λ q, ndr1s q k J) (λ q, ndr1b q k J) (λ q, ndr1s q k ({[j]} ∪ J))
    (λ q, ndr1b q k ({[j]} ∪ J)) _ _ (re_engine1 k net J));
    [|intros q; cbn [re_engine1 re_engine st_idx]; unfold register_resharing_round_1_result_from_other_node;
      rewrite (surjective_pairing (re_output _ _ _ _ _)); cbn [on_variant]; erewrite Hr by eauto; reflexivity..|reflexivity].
  eexists. split; [reflexivity|]. intros HJ.
  change (set_nodes _ (re_engine1 k net J)) with (re_engine1 k net ({[j]} ∪ J)).
  rewrite (re_engine1_ready k net _ Hk HJ). left.
Qed.

Lemma re_engine1_engine2 k net J : member k → dom star ⊆ J → re_engine1 k net J = re_engine2 k net ∅ false.
Proof.
  intros Hk HJ. unfold re_engine1, re_engine2, re_engine. f_equal.
  assert (∀ (C : Curve) (CL : CurveLaws C) nodes (cc : Z → Coins C) old key, reshare_ok nodes cc old key →
    ndr1 star_network new_network nodes cc k J = ndr2 star_network new_network nodes cc old k ∅ false) as Hr.
  { intros C CL nodes cc old key H. eapply (ndr1_ndr2 star_network new_network nodes cc old);
      eauto using r_t, r_star, r_new, r_nodes, r_exp, ro_ids, ro_old, ro_enc, ro_nonzero. }
  unfold keyed_nodes, keyed. by rewrite !(λ q, Hr _ _ _ _ _ _ (H_secp q)), !(λ q, Hr _ _ _ _ _ _ (H_bjj q)).
Qed.

Lemma re_engine2_ready k net P d : dom keys ⊆ P → pubshares_ready CS CB (size new) (re_engine2 k net P d) = true.
Proof.
  intros HP. unfold pubshares_ready.
  eapply all_nodes_keyed; [| |reflexivity]; intros q; cbn [get_no_of_other_pub_shares];
    rewrite (proj2 (ndr2_full star_network new_network _ _ _ k P d HP)); cbn [public_keys new_network];
    rewrite (proj2 H_size); apply Nat.eqb_refl.
Qed.

Lemma old_keys_lookup q : old_keys !! q = if on_secp q then Some (key_s q) else if on_bjj q then Some (key_b q) else None.
Proof. apply keyed_lookup. Qed.

Lemma step_re_round2 k net P : member k →
  ∃ out, handle_dkg CS CB (F:=F) (re_env k) ResharingRound2 (Some (re_engine2 k net P false))
    = (Some (re_engine2 k net ({[k]} ∪ P) true), Gossip (ResharingRound2Out k (re_out2 k)) :: out, HOk) ∧
  (dom keys ⊆ {[k]} ∪ P → Gossip (ResharingRound2Completed (peer k)) ∈ out).
Proof.
  intros Hk. cbn [handle_dkg]. unfold handle_resharing_round2, re_engine2 at 1.
  rewrite re_new_prover, bool_decide_eq_true_2 by done. cbn [negb].
  change (st_election_info (re_engine2 k net P false)) with info.
  change (st_new_provers (re_engine2 k net P false)) with new.
  change (st_tstar_provers (re_engine2 k net P false)) with tstar. rewrite new_net, star_net.
  assert (∀ kind (C : Curve) (CL : CurveLaws C) nodes (cc : Z → Coins C) old key, reshare_ok nodes cc old key →
    nd_resharing_round_2 kind star_network new_network key (ndr2 star_network new_network nodes cc old k P false)
      = (ndr2 star_network new_network nodes cc old k ({[k]} ∪ P) true, Ok (new_pubshare star_network new_network cc old k))) as Hr.
  { intros kind C CL nodes cc old key H. eapply (ndr2_round2 star_network new_network nodes cc old);
      eauto using r_t, r_star, r_new, r_nodes, r_exp, ro_ids, ro_old, ro_enc, ro_nonzero, ro_key. }
  rewrite (for_nodes_named _ (λ q, ndr2s q k P false) (λ q, ndr2s q k ({[k]} ∪ P) true) (λ q, ndr2b q k P false)
    (λ q, ndr2b q k ({[k]} ∪ P) true) (λ q, new_pubshare star_network new_network (cs_of q) (old_s q) k)
    (λ q, new_pubshare star_network new_network (cb_of q) (old_b q) k) (re_engine2 k net P false)).
  - eexists. split; [reflexivity|]. intros HP.
    change (set_nodes _ (re_engine2 k net P false)) with (re_engine2 k net ({[k]} ∪ P) true).
    change (size (st_new_provers _)) with (size new). rewrite (re_engine2_ready k net _ true HP). left.
  - intros q Hq. cbn [re_engine2 re_engine finalized_group_public_keys]. rewrite old_keys_lookup, Hq.
    cbn [v_resharing_round_2 on_variant]. by rewrite (Hr _ _ _ _ _ _ _ (H_secp q)).
  - intros q Hq Hq'. cbn [re_engine2 re_engine finalized_group_public_keys]. rewrite old_keys_lookup, Hq, Hq'.
    cbn [v_resharing_round_2 on_variant]. by rewrite (Hr _ _ _ _ _ _ _ (H_bjj q)).
  - reflexivity.
Qed.

Lemma step_re_deliver2 k j net P d : member k → member j → j ≠ k →
  ∃ out, handle_dkg CS CB (F:=F) (re_env k) (StoreResharedReceivedPublicKey j (re_out2 j)) (Some (re_engine2 k net P d))
    = (Some (re_engine2 k net ({[j]} ∪ P) d), out, HOk) ∧
  (dom keys ⊆ {[j]} ∪ P → Gossip (ResharingRound2Completed (peer k)) ∈ out).
Proof.
  intros Hk Hj Hne. cbn [handle_dkg]. unfold handle_store_reshared_received_pubshare, store_pubshares.
  change (st_idx (re_engine2 k net P d)) with k. rewrite (proj2 (Z.eqb_neq k j)) by done.
  unfold re_engine2 at 1. rewrite re_new_prover, bool_decide_eq_true_2 by done. cbn [negb].
  change (st_new_provers (re_engine2 k net P d)) with new.
  assert (existsb (λ '(_, node_idx), node_idx =? j) (hm_values new) = true) as ->.
  { destruct (proj1 (H_new_peer j) Hj) as [p Hp]. apply existsb_exists. exists (p, j).
    split; [|apply Z.eqb_refl]. apply list_elem_of_In. unfold hm_values. apply list_elem_of_fmap.
    exists (peer j, (p, j)). split; [done|]. by apply elem_of_hm_iter. }
  cbn [negb].
  assert (∀ (C : Curve) (CL : CurveLaws C) nodes (cc : Z → Coins C) old key, reshare_ok nodes cc old key →
    nd_store_pubshare j (new_pubshare star_network new_network cc old j) (ndr2 star_network new_network nodes cc old k P d)
      = (ndr2 star_network new_network nodes cc old k ({[j]} ∪ P) d, Ok tt)) as Hr.
  { intros C CL nodes cc old key H. eapply (ndr2_store star_network new_network nodes cc old);
      eauto using r_t, r_star, r_new, r_nodes, r_exp, ro_ids, ro_old, ro_enc, ro_nonzero. }
  unfold re_out2.
  rewrite (each_output_keyed _ (λ q, ndr2s q k P d) (λ q, ndr2b q k P d) (λ q, ndr2s q k ({[j]} ∪ P) d)
    (λ q, ndr2b q k ({[j]} ∪ P) d) _ _ (re_engine2 k net P d));
    [|intros q; cbn [store_pubshare_for_node on_variant]; erewrite Hr by eauto; reflexivity..|reflexivity].
  eexists. split; [reflexivity|]. intros HP.
  change (set_nodes _ (re_engine2 k net P d)) with (re_engine2 k net ({[j]} ∪ P) d).
  rewrite (re_engine2_ready k net _ d HP). left.
Qed.

Lemma step_re_round3 k net P : member k → dom keys ⊆ P →
  handle_dkg CS CB (F:=F) (re_env k) ResharingRound3 (Some (re_engine2 k net P true))
    = (Some (re_engine2 k new_network P true),
       [ToAppState (StoreKeyShares (re_shares k)); Gossip (ResharingPrepared k (peer k) (re_out2 k)); ResetApiToken], HOk).
Proof.
  intros Hk HP. cbn [handle_dkg]. unfold handle_round3.
  change (st_election_info (re_engine2 k net P true)) with info.
  change (st_new_provers (re_engine2 k net P true)) with new. rewrite new_net.
  assert (∀ (C : Curve) (CL : CurveLaws C) nodes (cc : Z → Coins C) old key, reshare_ok nodes cc old key →
    process_round_3 new_network true true (ndr2 star_network new_network nodes cc old k P true) = Ok tt ∧
    nd_priv_share (ndr2 star_network new_network nodes cc old k P true) = re_share_bytes cc old k ∧
    nd_pub_share (E:=string) (ndr2 star_network new_network nodes cc old k P true)
      = Ok (new_pubshare star_network new_network cc old k)) as Hr.
  { intros C CL nodes cc old key H. eapply (ndr2_round3 star_network new_network nodes cc old);
      eauto using r_t, r_star, r_new, r_nodes, r_exp, ro_ids, ro_old, ro_enc, ro_nonzero. }
  unfold re_engine2 at 1. rewrite re_new_prover, bool_decide_eq_true_2 by done.
  rewrite (for_nodes_keyed _ (λ q, ndr2s q k P true) (λ q, ndr2b q k P true) (λ q, ndr2s q k P true)
    (λ q, ndr2b q k P true) (λ _, tt) (λ _, tt) (re_engine2 k net P true));
    [|intros q; unfold v_round_3; f_equal; eapply Hr; eauto..|reflexivity].
  change (set_network new_network (set_nodes _ (re_engine2 k net P true))) with (re_engine2 k new_network P true).
  unfold announce. unfold re_engine2 at 1. rewrite re_new_prover, bool_decide_eq_true_2 by done. cbn [andb].
  rewrite (collect_keyed (get_pub_share CS CB) _ _ (λ q, new_pubshare star_network new_network (cs_of q) (old_s q) k)
    (λ q, new_pubshare star_network new_network (cb_of q) (old_b q) k) (re_engine2 k new_network P true)) by
    (reflexivity || (intros q; eapply Hr; eauto)).
  cbn [mbind outcome_bind]. do 5 f_equal.
Qed.

(** *** The run of one engine *)
Definition re_deliver1 (j : Z) : DkgEngineMessage := DkgResharingRound1Out j (re_out1 j).
Definition re_deliver2 (j : Z) : DkgEngineMessage := StoreResharedReceivedPublicKey j (re_out2 j).

Lemma run_re_deliver1 k l net J : member k → Forall dealer l →
  ∃ out, drun (F:=F) (re_env k) (re_deliver1 <$> l) (Some (re_engine1 k net J))
    = (Some (re_engine1 k net (list_to_set l ∪ J)), out, HOk) ∧
  (l ≠ [] → dom star ⊆ list_to_set l ∪ J → Gossip (ResharingRound1Completed (peer k)) ∈ out).
Proof.
  intros Hk Hl. revert J. induction Hl as [|j l Hj Hl IH]; intros J.
  { exists []. split; [|done]. by rewrite union_nil. }
  destruct (step_re_deliver1 k j net J Hk Hj) as (o1 & H1 & Hc1).
  destruct (IH ({[j]} ∪ J)) as (o2 & H2 & Hc2).
  rewrite union_cons in H2, Hc2. exists (o1 ++ o2). split; [by eapply drun_cons|].
  intros _ HJ. apply elem_of_app. destruct l as [|j' l].
  - left. apply Hc1. etrans; [exact HJ|]. apply union_one.
  - right. by apply Hc2.
Qed.
Lemma run_re_deliver2 k l net P d : member k → Forall (λ j, member j ∧ j ≠ k) l →
  ∃ out, drun (F:=F) (re_env k) (re_deliver2 <$> l) (Some (re_engine2 k net P d))
    = (Some (re_engine2 k net (list_to_set l ∪ P) d), out, HOk) ∧
  (l ≠ [] → dom keys ⊆ list_to_set l ∪ P → Gossip (ResharingRound2Completed (peer k)) ∈ out).
Proof.
  intros Hk Hl. revert P. induction Hl as [|j l [Hj Hne] Hl IH]; intros P.
  { exists []. split; [|done]. by rewrite union_nil. }
  destruct (step_re_deliver2 k j net P d Hk Hj Hne) as (o1 & H1 & Hc1).
  destruct (IH ({[j]} ∪ P)) as (o2 & H2 & Hc2).
  rewrite union_cons in H2, Hc2. exists (o1 ++ o2). split; [by eapply drun_cons|].
  intros _ HP. apply elem_of_app. destruct l as [|j' l].
  - left. apply Hc1. etrans; [exact HP|]. apply union_one.
  - right. by apply Hc2.
Qed.

(** The first round: the deliveries [a] before and [b] after the node's own dealing, if it
    is a dealer. *)
Definition own_deal (k : Z) : list DkgEngineMessage :=
  if bool_decide (dealer k) then [ResharingRound1 info true] else [].
Lemma run_re_first k net a b : member k → a ++ b ≡ₚ elements (dom star ∖ {[k]} : gset Z) →
  ∃ out, drun (F:=F) (re_env k) ((re_deliver1 <$> a) ++ own_deal k ++ (re_deliver1 <$> b)) (Some (re_engine1 k net ∅))
    = (Some (re_engine2 k net ∅ false), out, HOk) ∧
  (dealer k → Gossip (ResharingRound1Out k (re_out1 k)) ∈ out) ∧ Gossip (ResharingRound1Completed (peer k)) ∈ out.
Proof.
  intros Hk Hp.
  assert (∀ j, j ∈ a ++ b ↔ dealer j ∧ j ≠ k) as Hab.
  { intros j. rewrite Hp, elem_of_elements. by rewrite elem_of_difference, elem_of_dom, not_elem_of_singleton. }
  assert (Forall dealer a ∧ Forall dealer b) as [Ha Hb].
  { apply Forall_app, Forall_forall. intros j. by intros [? _]%Hab. }
  unfold own_deal. destruct (bool_decide_reflect (dealer k)) as [Hd|Hd]; cbn [app].
  - destruct (run_re_deliver1 k a net ∅ Hk Ha) as (o1 & H1 & _).
    destruct (step_re_round1 k net (list_to_set a ∪ ∅) Hd Hk) as (o2 & H2 & Hc2).
    destruct (run_re_deliver1 k b net ({[k]} ∪ (list_to_set a ∪ ∅)) Hk Hb) as (o3 & H3 & Hc3).
    assert (dom star ⊆ list_to_set b ∪ ({[k]} ∪ (list_to_set a ∪ ∅))) as Hfull.
    { intros j Hj%elem_of_dom. destruct (decide (j = k)) as [->|Hne].
      - apply elem_of_union_r, elem_of_union_l. by apply elem_of_singleton.
      - assert (j ∈ a ++ b) as Hin by by apply Hab. by apply (union_members a b {[k]}). }
    rewrite (re_engine1_engine2 k net _ Hk Hfull) in H3.
    eexists. split; [eapply drun_app; [exact H1|eapply drun_cons; [exact H2|exact H3]]|].
    rewrite !elem_of_app, !elem_of_cons. split; [tauto|]. destruct b as [|j b].
    + right. left. right. apply Hc2. by rewrite union_nil in Hfull.
    + right. right. by apply Hc3.
  - rewrite <- fmap_app. assert (Forall dealer (a ++ b)) as Hall by (by apply Forall_app).
    destruct (run_re_deliver1 k (a ++ b) net ∅ Hk Hall) as (o & H & Hc).
    assert (dom star ⊆ list_to_set (a ++ b) ∪ ∅) as Hfull.
    { intros j Hj. apply elem_of_union_l, elem_of_list_to_set, Hab. split; [by apply elem_of_dom in Hj|].
      intros ->. apply Hd. by apply elem_of_dom in Hj. }
    rewrite (re_engine1_engine2 k net _ Hk Hfull) in H. exists o. split; [done|]. split; [done|]. apply Hc; [|done].
    intros Hnil. rewrite Hnil in Hfull. assert (size (dom star) = 0)%nat as H0 by (apply size_empty_iff; set_solver).
    rewrite size_dom in H0. destruct H_size, H_t as (? & ? & ? & ?). lia.
Qed.
Lemma run_re_second k net a b : member k → a ++ b ≡ₚ elements (dom keys ∖ {[k]} : gset Z) →
  ∃ out P, drun (F:=F) (re_env k) ((re_deliver2 <$> a) ++ ResharingRound2 :: (re_deliver2 <$> b)) (Some (re_engine2 k net ∅ false))
    = (Some (re_engine2 k net P true), out, HOk) ∧ dom keys ⊆ P ∧
  Gossip (ResharingRound2Out k (re_out2 k)) ∈ out ∧ Gossip (ResharingRound2Completed (peer k)) ∈ out.
Proof.
  intros Hk Hp.
  assert (∀ j, j ∈ a ++ b ↔ member j ∧ j ≠ k) as Hab.
  { intros j. rewrite Hp, elem_of_elements. by rewrite elem_of_difference, elem_of_dom, not_elem_of_singleton. }
  assert (Forall (λ j, member j ∧ j ≠ k) a ∧ Forall (λ j, member j ∧ j ≠ k) b) as [Ha Hb].
  { apply Forall_app, Forall_forall. intros j. apply Hab. }
  destruct (run_re_deliver2 k a net ∅ false Hk Ha) as (o1 & H1 & _).
  destruct (step_re_round2 k net (list_to_set a ∪ ∅) Hk) as (o2 & H2 & Hc2).
  destruct (run_re_deliver2 k b net ({[k]} ∪ (list_to_set a ∪ ∅)) true Hk Hb) as (o3 & H3 & Hc3).
  assert (dom keys ⊆ list_to_set b ∪ ({[k]} ∪ (list_to_set a ∪ ∅))) as Hfull.
  { intros j Hj%elem_of_dom. destruct (decide (j = k)) as [->|Hne].
    - apply elem_of_union_r, elem_of_union_l. by apply elem_of_singleton.
    - assert (j ∈ a ++ b) as Hin by by apply Hab. by apply (union_members a b {[k]}). }
  eexists _, _. split; [eapply drun_app; [exact H1|eapply drun_cons; [exact H2|exact H3]]|].
  split; [exact Hfull|]. rewrite !elem_of_app, !elem_of_cons. split; [tauto|].
  destruct b as [|j b].
  - right. left. right. apply Hc2. by rewrite union_nil in Hfull.
  - right. right. by apply Hc3.
Qed.

(** *** The whole resharing *)

(** The key is reshared: the old group key is the public point of a secret, and the shares
    stored by any [t] members of the new quorum interpolate to that secret. *)
Definition key_reshared {C : Curve} (cc : Z → Coins C) (old : list (FieldEl (Curve:=C))) (key : list Z) : Prop :=
  from_encoded key = Ok (scalar_mul base_point_or_generator (scalar_of_field (old_secret old))) ∧
  ∀ l, NoDup l → Forall (λ i, is_Some (keys !! i)) l → t ≤ Z.of_nat (length l) →
    ∃ lam x, (∀ i, i ∈ l → lagrange_basis_at_0 (E:=Error) i l = Ok (lam i)) ∧
      (∀ i, field_of_scalar <$> scalar_from_bytes (re_share_bytes cc old i) = Ok (x i)) ∧
      f_sum ((λ i, x i * lam i)%F <$> l) = old_secret old.
Lemma reshare_ok_reshared {C : Curve} {CL : CurveLaws C} nodes cc old key :
  reshare_ok (C:=C) nodes cc old key → key_reshared cc old key.
Proof.
  intros H. split; [apply (ro_key _ _ _ _ H)|]. intros l Hnd Hl Hlen.
  destruct (re_reconstruct star_network new_network nodes (λ k, coin_poly (cc k)) old r_t r_star r_new
    (ro_old _ _ _ _ H) (ro_ids _ _ _ _ H) l) as (lam & Hlam & Hsum); [done..|cbn; lia|].
  exists lam, (new_share star_network new_network cc old). split; [done|]. split; [|done].
  intros i. unfold re_share_bytes. rewrite scalar_bytes. cbn. f_equal. apply scalar_field_inv.
Qed.

(** C2: The engines reshare the keys.  When the members of T* hold shares of the four keys, in
    their engines or saved, then each member of the new quorum, whether it comes from T*, has an
    engine from before or joins without one, that handles the start, the messages of the dealers
    and the public shares of the other members in any order within a round, along with its own
    rounds, ends without error: it reports every round completed, deals if it is in T*, stores four
    new key shares and announces its public shares.  A dealer that leaves deals and does nothing
    else.  The new shares of any [t] members interpolate to the secrets of the unchanged group
    keys. *)
Theorem engines_reshare_keys k w a b a' b' :
  starts k w →
  (is_Some (keys !! k) →
   a ++ b ≡ₚ elements (dom star ∖ {[k]} : gset Z) → a' ++ b' ≡ₚ elements (dom keys ∖ {[k]} : gset Z) →
   ∃ st out,
    drun (F:=F) (re_env k)
      (re_init k :: ((re_deliver1 <$> a) ++ own_deal k ++ (re_deliver1 <$> b)) ++
       ((re_deliver2 <$> a') ++ ResharingRound2 :: (re_deliver2 <$> b')) ++ [ResharingRound3]) w
      = (Some st, out, HOk) ∧
    Gossip (ResharingInitCompleted (peer k)) ∈ out ∧
    (is_Some (star !! k) → Gossip (ResharingRound1Out k (re_out1 k)) ∈ out) ∧
    Gossip (ResharingRound1Completed (peer k)) ∈ out ∧
    Gossip (ResharingRound2Out k (re_out2 k)) ∈ out ∧ Gossip (ResharingRound2Completed (peer k)) ∈ out ∧
    ToAppState (StoreKeyShares (re_shares k)) ∈ out ∧
    Gossip (ResharingPrepared k (peer k) (re_out2 k)) ∈ out ∧ st_network st = new_network) ∧
  (is_Some (star !! k) → ¬ is_Some (keys !! k) →
   ∃ st, drun (F:=F) (re_env k) [re_init k; ResharingRound1 info false] w
     = (Some st, [Gossip (ResharingInitCompleted (peer k)); Gossip (ResharingRound1Out k (re_out1 k))], HOk)) ∧
  (∀ q, key_reshared (cs_of q) (old_s q) (key_s q) ∧ key_reshared (cb_of q) (old_b q) (key_b q)).
Proof.
  intros Hw. split_and!; [| |intros q; split; by eapply reshare_ok_reshared].
  - intros Hk Hp Hp'. destruct (step_re_init k w (or_intror Hk) Hw) as [net H0].
    destruct (run_re_first k net a b Hk Hp) as (o1 & H1 & Hm1 & Hc1).
    destruct (run_re_second k net a' b' Hk Hp') as (o2 & P & H2 & HP & Hm2 & Hc2).
    eexists _, _. split.
    { eapply drun_cons; [exact H0|]. eapply drun_app; [exact H1|].
      eapply drun_app; [exact H2|]. eapply drun_cons; [by apply step_re_round3|reflexivity]. }
    rewrite !elem_of_app, !elem_of_cons. split_and!; [tauto|intros Hd; specialize (Hm1 Hd); tauto|tauto..|done].
  - intros Hd Hm. destruct (step_re_init k w (or_introl Hd) Hw) as [net H0]. eexists.
    eapply (drun_cons _ _ _ _ _ [_]); [exact H0|]. eapply (drun_cons _ _ _ _ _ [_] _ []); [by apply step_re_round1_leaving|reflexivity].
Qed.
End Reshare.

(** ** From three members to three others

    The quorum of [EngineExamples] has generated its keys; T* is 3 and 4, the new quorum 4, 5
    and 6.  Member 3 leaves, 5 has an engine but does not deal, 6 joins. *)
Module ReshareExamples.
Import ModelCurve.ModelInstances EngineExamples.
#[local] Existing Instance DkgProtocol.model_rsa.
#[local] Existing Instance DkgProtocol.model_rsa_laws.
#[local] Existing Instance model_texts.
Abbreviation mc := model_curve.

Definition tstar : QuorumMap := {[ 103 := (prover3 3 "aaa", 3); 104 := (prover3 4 "aaaa", 4) ]}.
Definition new : QuorumMap :=
  {[ 104 := (prover3 4 "aaaa", 4); 105 := (prover3 5 "aaaaa", 5); 106 := (prover3 6 "aaaaaa", 6) ]}.
Definition star : gmap Z (RsaPublicKey (Rsa:=model_rsa)) := {[ 3 := 3; 4 := 4 ]}.
Definition keys : gmap Z (RsaPublicKey (Rsa:=model_rsa)) := {[ 4 := 4; 5 := 5; 6 := 6 ]}.
Definition info : ElectionInfo := ElectionInfo_new 2 0 3.
(** The node of a member after the key generation. *)
Definition held (k : Z) : Node (C:=mc) :=
  if k =? 6 then start_node (R:=model_rsa) coins3 (λ k, k) k
  else node (nd2 (quorum peers3 2 keys3) coins3 (λ k, k) k (dom keys3) true).
Definition shared : list (FieldEl (Curve:=mc)) := [f_of_Z 42; f_of_Z 63].
Definition key : list Z := run_group_key (quorum peers3 2 keys3) coins3.

Lemma star_members (P : Z → Prop) : P 3 → P 4 → ∀ k, is_Some (star !! k) → P k.
Proof.
  intros H1 H2 k Hk. assert (k ∈ ({[ 3; 4 ]} : gset Z)) by (apply elem_of_dom in Hk; revert Hk; unfold star; set_solver).
  set_solver.
Qed.
Lemma new_members (P : Z → Prop) : P 4 → P 5 → P 6 → ∀ k, is_Some (keys !! k) → P k.
Proof.
  intros H1 H2 H3 k Hk. assert (k ∈ ({[ 4; 5; 6 ]} : gset Z)) by (apply elem_of_dom in Hk; revert Hk; unfold keys; set_solver).
  set_solver.
Qed.
Lemma held_ok : reshare_ok tstar new info star keys (λ k, k) held coins3 shared key.
Proof.
  split.
  - split; unfold good_ids; [apply star_members|apply new_members]; vm_compute; repeat split; discriminate || reflexivity.
  - split; [vm_compute; lia|]. apply star_members; split; vm_compute; reflexivity.
  - apply new_members; split; vm_compute; reflexivity.
  - done.
  - unfold nonzero_resharing. split; [|split].
    + apply star_members; repeat constructor; vm_compute; discriminate.
    + apply new_members; vm_compute; discriminate.
    + vm_compute; discriminate.
  - vm_compute. reflexivity.
Qed.
Lemma star_peers k : is_Some (star !! k) ↔ ∃ p, tstar !! (100 + k) = Some (p, k).
Proof.
  destruct (decide (k = 3)) as [->|H3]; [split; intros _; eexists; reflexivity|].
  destruct (decide (k = 4)) as [->|H4]; [split; intros _; eexists; reflexivity|].
  unfold star, tstar. rewrite !lookup_insert_ne, !lookup_singleton_ne by lia. split; [by intros []|by intros [? ?]].
Qed.
Lemma new_peers k : is_Some (keys !! k) ↔ ∃ p, new !! (100 + k) = Some (p, k).
Proof.
  destruct (decide (k = 4)) as [->|H4]; [split; intros _; eexists; reflexivity|].
  destruct (decide (k = 5)) as [->|H5]; [split; intros _; eexists; reflexivity|].
  destruct (decide (k = 6)) as [->|H6]; [split; intros _; eexists; reflexivity|].
  unfold keys, new. rewrite !lookup_insert_ne, !lookup_singleton_ne by lia. split; [by intros []|by intros [? ?]].
Qed.
Lemma indices k p i : tstar !! (100 + k) = Some (p, i) ∨ new !! (100 + k) = Some (p, i) → i = k.
Proof.
  destruct (decide (k = 3)) as [->|H3]; [by intros [H|H]; vm_compute in H; simplify_eq|].
  destruct (decide (k = 4)) as [->|H4]; [by intros [H|H]; vm_compute in H; simplify_eq|].
  destruct (decide (k = 5)) as [->|H5]; [by intros [H|H]; vm_compute in H; simplify_eq|].
  destruct (decide (k = 6)) as [->|H6]; [by intros [H|H]; vm_compute in H; simplify_eq|].
  unfold tstar, new. rewrite !lookup_insert_ne, !lookup_singleton_ne by lia. by intros [?|?].
Qed.

(** Member 4 starts with the engine the key generation left; member 6 with none. *)
Definition engine4 : DKGEngineState mc mc := engine2 peers3 2 keys3 all_coins3 (λ k, k) (λ k, 100 + k) 4 (dom keys3) true.
Lemma engines_reshare_keys_witness :
  (∃ st out, drun (F:=unit) (re_env all_coins3 (λ k, k) (λ _, None) 4)
    (re_init tstar new info (λ k, 100 + k) (λ _, key) (λ _, key) 4 ::
     ((re_deliver1 tstar new info star keys all_coins3 (λ _, held) (λ _, held) <$> []) ++ [ResharingRound1 info true] ++
      (re_deliver1 tstar new info star keys all_coins3 (λ _, held) (λ _, held) <$> [3])) ++
     ((re_deliver2 tstar new info star keys all_coins3 (λ _, shared) (λ _, shared) <$> [6]) ++ ResharingRound2 ::
      (re_deliver2 tstar new info star keys all_coins3 (λ _, shared) (λ _, shared) <$> [5])) ++ [ResharingRound3])
    (Some engine4) = (Some st, out, HOk)) ∧
  from_encoded key = Ok (scalar_mul base_point_or_generator (scalar_of_field (old_secret shared))).
Proof.
  destruct (engines_reshare_keys (CS:=mc) (CB:=mc) (F:=unit) tstar new info star keys all_coins3 (λ k, k) (λ k, 100 + k) (λ _, None)
    (λ _, held) (λ _, held) (λ _, shared) (λ _, shared) (λ _, key) (λ _, key))
    with (k := 4) (w := Some engine4) (a := @nil Z) (b := [3]) (a' := [6]) (b' := [5])
    as (H & _ & Hk).
  - vm_compute. reflexivity.
  - vm_compute. reflexivity.
  - split; reflexivity.
  - vm_compute. repeat split; discriminate || reflexivity || lia.
  - apply star_peers.
  - apply new_peers.
  - apply indices.
  - apply new_members; reflexivity.
  - apply new_members; vm_compute; reflexivity.
  - intros q. exact held_ok.
  - intros q. exact held_ok.
  - split; [reflexivity|]. split; [reflexivity|].
    exists (λ q, nd2 (quorum peers3 2 keys3) coins3 (λ k, k) 4 (dom keys3) true),
      (λ q, nd2 (quorum peers3 2 keys3) coins3 (λ k, k) 4 (dom keys3) true). split; [reflexivity|]. intros q. split; reflexivity.
  - destruct H as (st & out & H & _); [by eexists|vm_compute; reflexivity|vm_compute; apply perm_swap|].
    split; [exists st, out; exact H|]. exact (proj1 (proj1 (Hk ""%string))).
Defined.
End ReshareExamples.
