(* ===== verification/AppState.v ===== *)
(** * The application state (crates/actors/src/app_state_actor.rs)

    The actor that serves requests.  On the relay it accounts and forwards a request,
    collects the nodes' proofs and combines them, keeps the public key shares, and saves
    or rolls back the state around a resharing.  On a prover it holds the private key
    shares and answers requests.

    A handler returns the new state, what it emits in order, and how it ended.  The
    caches ([LruCache]) are maps: an entry that has expired is one that is no longer in
    the map.  What a handler asks the outside world for comes in an [AppEnv]. *)
From Stdlib Require Import ZArith Lia Ascii String.
From stdpp Require Import base list gmap sets strings pretty sorting.
From coqutil Require Import Datatypes.RecordSettersUsingExistingGetters.
Import RecordSetNotations.
From S2P Require Import Prelude PrimeField Curve Reconstruct Dleq NodeSelection Serialization Request ConcreteCurves Messages.

Global Open Scope Z_scope.

(** network/src/utils.rs, [enum NodeType]. *)
Inductive NodeType := NodeBootstrap | NodeRelay | NodeProver | NodeVerifier.
#[export] Instance NodeType_eq_dec : EqDecision NodeType.
Proof. solve_decision. Defined.

(** actors/src/lib.rs, task_proofs.rs. *)
Definition DKG_RESHARING_WAIT_TIME : nat := 120.
Definition MAX_RESHARING_ATTEMPTS_AT_A_TIME : Z := 3.
Definition TASK_SIZE : Z := 1000.

Inductive TxState := Submitted | ConstructedProof | Verified.
#[export] Instance TxState_eq_dec : EqDecision TxState.
Proof. solve_decision. Defined.

Definition tx_state_debug (s : TxState) : string :=
  match s with
  | Submitted => "Submitted" | ConstructedProof => "ConstructedProof" | Verified => "Verified"
  end.

(** [struct StoredMultResult]: the verified answers to a request. *)
Record StoredMultResult := {
  num_nodes : Z;
  mul_results : list (Z * list Z);
  reconstructed_point : option (list Z);
  res_curve : string
}.

(** A component of a [Multiaddr], as far as the code looks at it; an IPv4 address is its
    four octets. *)
Inductive Protocol :=
  | Ip4 (octets : list Z) | Ip6 (a : string) | Dns (a : string) | Dns4 (a : string)
  | Dns6 (a : string) | Dnsaddr (a : string) | Tcp (port : Z) | Udp (port : Z) | OtherProtocol.

(** types.rs: [StateResponse], [Response], [ElectionResponse]. *)
Inductive StateResponse :=
  | StateSuccess (epoch : Z) (m : Method) (requests_from_user : Z)
  | StateError (message : string).
Record Response := { resp_data : option string; success : bool; resp_message : string }.
Definition Response_new (data : option string) (success : bool) (message : string) : Response :=
  {| resp_data := data; success := success; resp_message := message |}.
Record ElectionResponse := {
  er_peers : list PeerId; er_n : Z; er_t : Z; is_peer_elected : bool; er_status : bool;
  er_message : string
}.
Definition ElectionResponse_new (peers : list PeerId) (n t : Z) (elected status : bool)
    (message : string) : ElectionResponse :=
  {| er_peers := peers; er_n := n; er_t := t; is_peer_elected := elected; er_status := status;
     er_message := message |}.
Definition err_response (message : string) : ElectionResponse :=
  {| er_peers := []; er_n := 0; er_t := 0; is_peer_elected := false; er_status := false;
     er_message := message |}.

(** What is kept in the node's database. *)
Record AppDb := {
  db_n : option Z; db_t : option Z; db_app_epsilon : option Z; db_idx : option Z;
  db_new_provers : option QuorumMap; db_tstar_provers : option QuorumMap;
  db_pubkey_shares : option (gmap PeerId KeyMap);
  db_finalized : option KeyMap; db_private_keyshares : option KeyMap;
  db_epoch : option Z; db_peer_id : option PeerId; db_relay_peer_id : option PeerId
}.
Definition empty_db : AppDb := {|
  db_n := None; db_t := None; db_app_epsilon := None; db_idx := None; db_new_provers := None;
  db_tstar_provers := None; db_pubkey_shares := None; db_finalized := None;
  db_private_keyshares := None; db_epoch := None; db_peer_id := None; db_relay_peer_id := None |}.

(** The Redis commands whose failure the code handles, and where. *)
Inductive RedisCmd := GetProofs | SetProofs | GetForBatch | PushBatch | DelRequest | RangeBatch | DelBatch.

(** Text and JSON forms of values that appear in replies and hashes. *)
Class AppTexts `{Eth} := {
  peer_to_string : PeerId → string;
  address_to_string : Address → string;
  request_to_json : RequestToNetwork → option (list Z);
  proof_to_json : ∀ C : Curve, DLEQProof (C:=C) → option (list Z)
}.

(** [ping_nodes]: the indices of the nodes that answer; an error when there are none. *)
Definition ping_nodes `{HashOrder} (ping : ProverInfo → bool) (new_set : QuorumMap)
    : option (gset Z) :=
  let reachable_nodes : gset Z :=
    list_to_set (snd <$> filter (λ '(p, _), ping p = true) (hm_values new_set)) in
  if bool_decide (reachable_nodes = ∅) then None else Some reachable_nodes.

(** [check_memory_usage]: an error at the first entry that is too long. *)
Definition check_memory_usage `{HashOrder} (data : KeyMap) (max_memory_usage : nat)
    (data_type : string) : outcome string unit :=
  foldM (λ _ '(_, value),
    if (max_memory_usage <? length value)%nat then
      Err ("A " +:+ data_type +:+ " entry exceeds the maximum allowed size (" +:+
           pretty (length value) +:+ " > " +:+ pretty max_memory_usage +:+ " bytes).")
    else Ok tt) tt (hm_iter data).

(** [resolve_conflicts_between_group_keys]: for each key the value received most often.
    [max_by_key] takes the last of the maxima in the order of the map. *)
Definition count_one (value_count : gmap string (gmap (list Z) Z)) (kv : string * list Z)
    : gmap string (gmap (list Z) Z) :=
  let entry := default ∅ (value_count !! kv.1) in
  <[kv.1 := <[kv.2 := default 0 (entry !! kv.2) + 1]> entry]> value_count.

Definition count_values `{HashOrder} (group_public_keys : list KeyMap)
    : gmap string (gmap (list Z) Z) :=
  foldl (λ value_count keys_map, foldl count_one value_count (hm_iter keys_map))
    ∅ group_public_keys.

Definition max_by_count (best : option (list Z * Z)) (vc : list Z * Z) : option (list Z * Z) :=
  match best with
  | Some (v, c) => if c <=? vc.2 then Some vc else Some (v, c)
  | None => Some vc
  end.

Definition resolve_conflicts_between_group_keys `{HashOrder} (group_public_keys : list KeyMap)
    : KeyMap :=
  omap (λ counts, fst <$> foldl max_by_count None (hm_iter counts)) (count_values group_public_keys).

Section Types.
Context {CS CB : Curve} `{E : Eth} {F : Type}.

(** network_utils.rs, [RequestToNetworkWithProofs]; a proof is four texts: the proof, the
    public key share, the masked point and the peer. *)
Record RequestToNetworkWithProofs := {
  base : RequestToNetwork;
  proofs : list (string * string * string * string)
}.

Record RequestRecord := { rec_request : RequestToNetwork; rec_status : TxState }.

(** Redis: the counters of [Request], the proofs by request hash, and the batch. *)
Record RedisStore := {
  counters : Redis;
  stored_proofs : gmap string RequestToNetworkWithProofs;
  request_batch : list RequestToNetworkWithProofs
}.

Record CommonState := {
  cm_peer_id : PeerId;
  cm_relay_peer_id : PeerId;
  current_epoch : Z;
  redis : RedisStore
}.

(** [NodeState::Relay]; wallets, clients and producers are not data.  [pubsub_cache] is
    the set of requests somebody waits for. *)
Record RelayState := {
  rl_common : CommonState;
  active_provers : list ProverInfo;
  rl_n : Z; rl_t : Z; rl_epsilon : Z;
  batch_size : Z;
  req_cache : gmap string RequestRecord;
  res_cache : gmap string StoredMultResult;
  pubkey_shares : gmap PeerId KeyMap;
  ready : bool;
  ready_nodes : gset Z;
  new_cached_elected_provers : list ProverInfo;
  rl_tstar_provers : QuorumMap;
  rl_new_provers : QuorumMap;
  finalized_group_public_keys : KeyMap;
  received_group_public_keys : list KeyMap;
  no_of_shares_received : Z;
  monitor_request_queue : list string;
  batch_cache : gset string;
  pubsub_cache : gset string;
  all_provers_cache : gmap PeerId ProverInfo;
  is_resharing_enabled : bool;
  resharing_failure_count : Z
}.

(** [NodeState::Prover]. *)
Record ProverState := {
  pv_common : CommonState;
  my_node_idx : Z;
  pv_n : Z; pv_t : Z; pv_epsilon : Z;
  private_keyshares : KeyMap;
  pv_new_provers : QuorumMap;
  relay_multi_addr : list Protocol
}.

Inductive NodeState :=
  | Relay (r : RelayState)
  | Prover (p : ProverState)
  | Verifier (common : CommonState) (ipfs_host : string).

(** [AppEngineState] with the database of the process. *)
Record AppWorld := { node_type : NodeType; node_state : option NodeState; app_db : AppDb }.

(** types.rs, [NodeResponse]: the variants of this actor. *)
Inductive AppResponse :=
  | ConstructedProofSecp256k1 (node_idx : Z) (peer : PeerId) (request_id : string)
      (proof : DLEQProof (C:=CS)) (m : Method)
  | ConstructedProofBabyJubJub (node_idx : Z) (peer : PeerId) (request_id : string)
      (proof : DLEQProof (C:=CB)) (m : Method)
  | VerifiedProofSecp256k1 (request_id : string) (reconstructed : Point (Curve:=CS))
  | VerifiedProofBabyJubJub (request_id : string)
      (reconstructed : BabyJubJub.EncodedBabyJubJubPoint)
  | ErrorResponse (request_id message : string)
  | Keyshare (shares : gmap string string)
  | Restored
  | ElectionStateResponse (node_idx n t epsilon : Z) (new_provers : QuorumMap)
  | VotingPower (node_idx : Z) (voting_power : string) (peer : PeerId)
  | UpdatedIsResharingEnabled.

(** [enum AppStateChangeMessage]: a request's reply channel is the handler's output. *)
Inductive AppMessage :=
  | Plain (m : AppStateChangeMessage)
  | StateRequest (user : Address) (m : Method)
  | MulRequest (request : RequestToNetwork) (request_id : string)
  | ProcessMulRequest (request_id : string) (request : RequestToNetwork)
  | ProcessReceivedProofSecp256k1 (node_idx : Z) (peer : PeerId) (request_id : string)
      (proof : DLEQProof (C:=CS)) (m : Method)
  | ProcessReceivedProofBabyJubJub (node_idx : Z) (peer : PeerId) (request_id : string)
      (proof : DLEQProof (C:=CB)) (m : Method)
  | FetchReconstructedPoint (request_id : string)
  | FetchKeyShare
  | RestoreKeyShare (keyshares : gmap string string)
  | FetchElectionState (peer : PeerId)
  | RestoreElectionState
  | SyncPeerData
  | FetchElectionInfo (peer : PeerId)
  | QuicPing (peer : PeerId)
  | FetchVotingPower (peer : PeerId)
  | ForwardErrorResponse (request_id : string) (response : AppResponse)
  | SetResharingEnabled (value : bool)
  | FetchFinalizedGroupPubkeys.

(** What a handler emits: messages to the other actors, an answer to the subscriber of a
    request or on the request's own channel, Kafka records, a batch for IPFS, and the
    start of a monitoring task. *)
Inductive AppOutput :=
  | ToElection (m : ElectionEngineMessage F)
  | ToSelf (m : AppStateChangeMessage)
  | GossipOut (m : Message)
  | ForwardRequest (request_id : string) (request : RequestToNetwork)
      (peers : list (PeerId * string))
  | PingPeer (peer : PeerId) (addr : string)
  | Publish (request_id : string) (response : AppResponse)
  | ReplyNode (response : AppResponse)
  | ReplyState (response : StateResponse)
  | ReplyResponse (response : Response)
  | ReplyElection (response : ElectionResponse)
  | KafkaRequestInfo (request_id : string) (m : Method) (user : Address)
      (served_by_multipliers : list PeerId)
  | KafkaCredit (c : KafkaCredits)
  | KafkaQuorum (success : bool) (multipliers : list ProverInfo)
  | SubmitBatch (data : list RequestToNetworkWithProofs) (performers : list Address)
  | SpawnMonitor (no_of_shares_to_monitor : nat) (event : MonitorEvent)
  (** A resharing attempt that a monitor schedules after [RESHARING_REATTEMPT_WAIT_TIME]. *)
  | ScheduleResharing.

(** What a handler asks for: who answers an HTTP ping, the registered provers, the relay's
    answer to [fetch_election_state], the nonces of the proofs, which Redis commands
    succeed, whether [Runtime::block_on] returns when it is called inside a runtime
    (tokio documents that it panics), and whether the receiver of the reply channel is
    still there. *)
Record AppEnv := {
  ae_ping : ProverInfo → bool;
  ae_provers : list ProverInfo;
  ae_relay_answer : string → option AppResponse;
  ae_nonce_s : Scalar (Curve:=CS);
  ae_nonce_b : Scalar (Curve:=CB);
  ae_redis : RedisCmd → bool;
  ae_nested_block_on : bool;
  ae_receiver : bool
}.

Definition AppHandled : Type := AppWorld * list AppOutput * HandlerResult.
End Types.

Arguments AppResponse : clear implicits.
Arguments AppMessage : clear implicits.
Arguments AppMessage CS CB {E}.
Arguments AppOutput : clear implicits.
Arguments AppOutput CS CB {E} F.
Arguments AppEnv : clear implicits.
Arguments AppHandled : clear implicits.
Arguments AppHandled CS CB {E} F.

(** ** Requests on the relay *)
Section Handlers.
Context (CS CB : Curve) `{HH : Hashes} `{HO : HashOrder} `{E : Eth} `{J : !Jwt}
  `{RC : !RequestCodec CB CS} `{RG : Rng} `{AT : !AppTexts} {F : Type}.
Implicit Types (env : AppEnv CS CB) (r : RelayState) (p : ProverState) (w : AppWorld).
Abbreviation out := (list (AppOutput CS CB F)).

Definition with_state (s : NodeState) w : AppWorld := w <| node_state := Some s |>.

(** The names of the curves ([Curve::NAME]) and the answer with a reconstructed point. *)
Definition SECP256K1_NAME : string := "Secp256k1".
Definition BABYJUBJUB_NAME : string := "BabyJubJub".

Definition point_response (unknown : string → string) (request_id curve : string)
    (point : list Z) : outcome string (AppResponse CS CB) :=
  if bool_decide (curve = SECP256K1_NAME) then
    pt ← unwrap_res (from_encoded (Curve:=CS) point);
    Ok (VerifiedProofSecp256k1 request_id pt)
  else if bool_decide (curve = BABYJUBJUB_NAME) then
    pt ← unwrap (BabyJubJub.bincode_deserialize point);
    Ok (VerifiedProofBabyJubJub request_id pt)
  else Ok (ErrorResponse request_id (unknown curve)).

(** [fetch_reconstructed_point_v2]: the answer that is published. *)
Definition fetch_reconstructed_point_v2 (data : RequestRecord) (res : StoredMultResult)
    (request_id : string) : outcome string (AppResponse CS CB) :=
  match rec_status data with
  | Verified =>
      match reconstructed_point res with
      | Some point =>
          point_response (λ curve, "Unsupported curve type: " +:+ curve) request_id
            (res_curve res) point
      | None => Ok (ErrorResponse request_id "Point reconstruction not available")
      end
  | s => Ok (ErrorResponse request_id
               ("Request not yet verified (status: " +:+ tx_state_debug s +:+ ")"))
  end.

(** [process_batch]: the request with its proofs moves to the batch, and a full batch is
    submitted.  The result says how the handler goes on. *)
Definition process_batch env (request_hash : string) (current_elected_provers : list ProverInfo)
    r : RelayState * out * HandlerResult :=
  let db := redis (rl_common r) in
  let batch :=
    match ae_redis env GetForBatch, stored_proofs db !! request_hash with
    | true, Some value =>
        if ae_redis env PushBatch then request_batch db ++ [value] else request_batch db
    | _, _ => request_batch db
    end in
  let proofs := if ae_redis env DelRequest then delete request_hash (stored_proofs db)
                else stored_proofs db in
  let db := db <| request_batch := batch |> <| stored_proofs := proofs |> in
  let r := r <| rl_common := (rl_common r) <| redis := db |> |> in
  if TASK_SIZE <=? batch_size r then
    if ae_redis env RangeBatch then
      if ae_nested_block_on env then
        let db' := if ae_redis env DelBatch then db <| request_batch := [] |> else db in
        (r <| rl_common := (rl_common r) <| redis := db' |> |> <| batch_size := 0 |>,
         [SubmitBatch batch (evm_address <$> current_elected_provers)], HOk)
      else (r, [], HPanic)
    else (r, [], HOk)
  else (r, [], HOk).

(** [StoredMultResult::process_verification] on the entry of [request_id] in the result
    cache and the record in the request cache. *)
Definition process_verification {C : Curve} env (request_id request_hash : string)
    (data : RequestRecord) (res : StoredMultResult) r : RelayState * out * HandlerResult :=
  if rl_t r <=? num_nodes res then
    match mapM (λ ip, from_encoded (Curve:=C) ip.2) (mul_results res) with
    | Ok points =>
        let indices := (mul_results res).*1 in
        match (point ← threshold_unchecked points indices; encode point) with
        | Ok encoded =>
            let res := res <| reconstructed_point := Some encoded |> in
            let data := data <| rec_status := Verified |> in
            let r := r <| res_cache ::= <[request_id := res]> |>
                       <| req_cache ::= <[request_id := data]> |> in
            let '(r, o, h) :=
              if bool_decide (request_id ∈ pubsub_cache r) then
                match fetch_reconstructed_point_v2 data res request_id with
                | Ok response =>
                    let served := omap (λ i, peer_id <$>
                      head (filter (λ prover, idx prover = i) (active_provers r))) indices in
                    let user := match recover CB CS (rec_request data) with
                                | Ok a => a | _ => replicate 20 0 end in
                    (r <| pubsub_cache ::= (λ s, s ∖ {[request_id]}) |>,
                     [Publish request_id response;
                      KafkaRequestInfo request_id (method (rec_request data)) user served], HOk)
                | _ => (r, [], HPanic)
                end
              else (r, [], HOk) in
            match h with
            | HOk =>
                if bool_decide (request_hash ∈ batch_cache r) then (r, o, HOk) else
                let r := r <| batch_cache ::= (λ s, {[request_hash]} ∪ s) |> in
                let '(r, o', h) := process_batch env request_hash (active_provers r) r in
                (r, o ++ o', h)
            | _ => (r, o, h)
            end
        | _ => (r, [], HPanic)
        end
    | Err _ => (r, [], HOk)
    | Panic => (r, [], HPanic)
    end
  else (r, [], HOk).

(** The name a method's key share has in the maps of shares. *)
Definition share_name (m : Method) : string :=
  match m with
  | OPRFSecp256k1 => "OPRFSecp256k1"
  | OPRFBabyJubJub => "OPRFBabyJubJub"
  | JWTPRFSecp256k1 => "JWTPRFSecp256k1"
  | DecryptBabyJubJub => "DecryptBabyJubjub"
  end.

Definition request_hash_of (request : RequestToNetwork) : option string :=
  (λ json, hex_encode (hash256 json)) <$> request_to_json request.

(** The Redis part of [process_received_proof]: the proof is appended to what is stored
    under the request's hash; [None] when the [SET] fails. *)
Definition store_proof env (request_hash : string) (request : RequestToNetwork)
    (entry : string * string * string * string) r : option RelayState :=
  let db := redis (rl_common r) in
  if ae_redis env SetProofs then
    let value :=
      match stored_proofs db !! request_hash with
      | Some existing => existing <| proofs ::= (λ l, l ++ [entry]) |>
      | None => {| base := request; proofs := [entry] |}
      end in
    Some (r <| rl_common :=
              (rl_common r) <| redis := db <| stored_proofs ::= <[request_hash := value]> |> |> |>)
  else None.

(** The verified result joins the others of the request. *)
Definition push_result (curve : string) (node_idx : Z) (encoded : list Z)
    (collection : option StoredMultResult) : StoredMultResult :=
  let collection := default {| num_nodes := 0; mul_results := []; reconstructed_point := None;
                               res_curve := curve |} collection in
  collection <| num_nodes := u32 (num_nodes collection + 1) |>
             <| mul_results ::= (λ l, l ++ [(node_idx, encoded)]) |>.

(** What [process_received_proof] finds before it changes anything: the record, the
    public key share and the masked point of the request, and the verified output. *)
Definition check_proof {C : Curve} (peer : PeerId) (request_id : string)
    (proof : DLEQProof (C:=C)) (m : Method) r
    : outcome Error (RequestRecord * Point (Curve:=C) * Point (Curve:=C) * Point (Curve:=C)) :=
  data ← ok_or (req_cache r !! request_id) InvalidInput;
  shares ← ok_or (pubkey_shares r !! peer) InvalidInput;
  pub_key_share ← ok_or (shares !! share_name m) InvalidInput;
  masked_point ← from_encoded (Curve:=C) (Request.point (rec_request data));
  pub_key_share_point ← from_encoded (Curve:=C) pub_key_share;
  result ← verify_and_get_output proof pub_key_share_point masked_point;
  Ok (data, pub_key_share_point, masked_point, result).

Definition process_received_proof {C : Curve} (curve : string) env (node_idx : Z)
    (peer : PeerId) (request_id : string) (proof : DLEQProof (C:=C)) (m : Method) w
    : AppHandled CS CB F :=
  match node_state w with
  | Some (Relay r) =>
      match check_proof peer request_id proof m r with
      | Panic => (w, [], HPanic)
      | Err _ => (w, [], HOk)
      | Ok (data, pub_key_share_point, masked_point, result) =>
          match encode result with
          | Ok encoded =>
              let collection := push_result curve node_idx encoded (res_cache r !! request_id) in
              let r := r <| res_cache ::= <[request_id := collection]> |> in
              match proof_to_json C proof, request_hash_of (rec_request data) with
              | Some serialized_proof, Some request_hash =>
                  if bool_decide (request_hash ∈ batch_cache r) then
                    let data := data <| rec_status := Verified |> in
                    (with_state (Relay (r <| req_cache ::= <[request_id := data]> |>)) w, [], HOk)
                  else
                    let data := data <| rec_status := ConstructedProof |> in
                    let r := r <| req_cache ::= <[request_id := data]> |> in
                    if negb (ae_redis env GetProofs) then (with_state (Relay r) w, [], HOk) else
                    match (pk ← encode pub_key_share_point; mp ← encode masked_point; Ok (pk, mp)) with
                    | Ok (pk, mp) =>
                        let entry := (hex_encode serialized_proof, hex_encode pk, hex_encode mp,
                                      peer_to_string peer) in
                        match store_proof env request_hash (rec_request data) entry r with
                        | Some r =>
                            let '(r, o, h) :=
                              process_verification (C:=C) env request_id request_hash data collection r in
                            (with_state (Relay r) w, o, h)
                        | None => (with_state (Relay r) w, [], HOk)
                        end
                    | _ => (with_state (Relay r) w, [], HPanic)
                    end
              | _, _ => (with_state (Relay r) w, [], HOk)
              end
          | _ => (w, [], HPanic)
          end
      end
  | _ => (w, [], HOk)
  end.

(** [handle_state_request]. *)
Definition handle_state_request (user : Address) (m : Method) w : AppHandled CS CB F :=
  match node_state w with
  | Some (Relay r) =>
      let requests_from_user :=
        match redis_get_u32 (counters (redis (rl_common r))) (count_key m user) with
        | Ok (Some v) => v
        | _ => 0
        end in
      (w, [ReplyState (StateSuccess (current_epoch (rl_common r)) m requests_from_user)], HOk)
  | _ => (w, [ReplyState (StateError "Queried to invalid node ")], HOk)
  end.

(** The nodes a request goes to: the active provers whose index was chosen, and all of
    them when these are not more than the threshold. *)
Definition select_nodes (indices : list Z) r : list (PeerId * string) :=
  let addr prover := (peer_id prover, address prover) in
  let selected := filter (λ prover,
    u32 (match rl_new_provers r !! peer_id prover with Some v => v.2 | None => 0 end) ∈ indices)
    (active_provers r) in
  if Z.of_nat (length selected) <=? rl_t r then addr <$> active_provers r else addr <$> selected.

(** The accounting of a signed request; an unsigned one passes without it. *)
Definition account_signed (request_id : string) (request : RequestToNetwork) r
    : outcome string (RelayState * out) :=
  match recover CB CS request with
  | Ok usr =>
      let db := redis (rl_common r) in
      match account_request_from_signer CB CS request true (counters db) with
      | Ok (incr_by, counters', credits) =>
          Ok (r <| rl_common := (rl_common r) <| redis := db <| counters := counters' |> |> |>
                <| batch_size ::= (λ b, u32 (b + incr_by)) |>, KafkaCredit <$> credits)
      | Err err => Err ("Usr: " +:+ address_to_string usr +:+ " Error: " +:+ err)
      | Panic => Panic
      end
  | Err _ => Ok (r, [])
  | Panic => Panic
  end.

Definition handle_multiplication_request env (request : RequestToNetwork)
    (forward_to_indexes : list Z) (request_id : string) w : AppHandled CS CB F :=
  match node_state w with
  | Some (Relay r) =>
      let short r := (Z.of_nat (size (ready_nodes r)) <? rl_t r) in
      let r :=
        if short r && bool_decide (rl_new_provers r ≠ ∅) then
          r <| ready_nodes := default ∅ (ping_nodes (ae_ping env) (rl_new_provers r)) |>
        else r in
      let r := r <| pubsub_cache ::= (λ s, {[request_id]} ∪ s) |> in
      let error r message :=
        (with_state (Relay r) w, [Publish request_id (ErrorResponse request_id message)], HOk) in
      if short r then
        error r ("Network is not ready. Total ready nodes " +:+ pretty (size (ready_nodes r)))
      else if negb (epoch request =? current_epoch (rl_common r)) then error r "Invalid Epoch"
      else
        match account_signed request_id request r with
        | Err message => error r message
        | Panic => (with_state (Relay r) w, [], HPanic)
        | Ok (r, credits) =>
            let new_prover_idxes := merge_sort Z.le (hm_values (rl_new_provers r)).*2 in
            match (if bool_decide (forward_to_indexes = []) then
                     get_nodes (Err:=string) request (u32 (rl_t r + rl_epsilon r)) new_prover_idxes
                   else Ok forward_to_indexes) with
            | Ok indices =>
                let forward := ForwardRequest request_id request (select_nodes indices r) in
                let record := {| rec_request := request; rec_status := Submitted |} in
                let r := r <| req_cache ::= partial_alter
                                (λ o, Some (default record o)) request_id |>
                           <| monitor_request_queue ::= (λ l, l ++ [request_id]) |> in
                (with_state (Relay r) w, credits ++ [forward], HOk)
            | _ => (with_state (Relay r) w, credits, HPanic)
            end
        end
  | _ => (w, [], HOk)
  end.

(** ** The state of an election *)

(** [update_threshold]: the values are stored before they are looked at, and what the
    checks find is only logged. *)
Definition update_threshold (election_info : ElectionInfo) w : AppWorld :=
  match node_state w with
  | Some (Relay r) =>
      with_state (Relay (r <| rl_n := total_provers election_info |>
                           <| rl_t := Messages.threshold election_info |>
                           <| rl_epsilon := epsilon election_info |>)) w
  | Some (Prover p) =>
      with_state (Prover (p <| pv_n := total_provers election_info |>
                            <| pv_t := Messages.threshold election_info |>
                            <| pv_epsilon := epsilon election_info |>)) w
  | _ => w
  end.

(** What [update_threshold] logs as accepted. *)
Definition threshold_accepted (election_info : ElectionInfo) : bool :=
  let n := total_provers election_info in
  let t := Messages.threshold election_info in
  (t <? n) && (2 <=? t) && (3 <=? n) && (epsilon election_info <=? n - t).

Definition on_relay (f : RelayState → RelayState) w : AppWorld :=
  match node_state w with
  | Some (Relay r) => with_state (Relay (f r)) w
  | _ => w
  end.

Definition update_elected_provers (request : list ProverInfo) (is_cache_prover : bool) w
    : AppWorld :=
  on_relay (λ r, if is_cache_prover then r <| new_cached_elected_provers := request |>
                 else r <| active_provers := request |>) w.

Definition update_node_idx (i : Z) w : AppWorld :=
  match node_state w with
  | Some (Prover p) => with_state (Prover (p <| my_node_idx := i |>)) w
  | _ => w
  end.

Definition is_peer (peer : PeerId) (provers : list ProverInfo) : bool :=
  existsb (λ prover, bool_decide (peer_id prover = peer)) provers.

Definition store_kset (peer : PeerId) (pubkey_shares_to_store : KeyMap) (i : Z)
    (group_public_keys : KeyMap) w : AppWorld :=
  on_relay (λ r,
    if is_peer peer (active_provers r)
       && is_Ok (check_memory_usage pubkey_shares_to_store 100 "pubkey_shares")
       && is_Ok (check_memory_usage group_public_keys 200 "group_public_keys")
    then
      let r := r <| pubkey_shares ::= <[peer := pubkey_shares_to_store]> |>
                 <| ready_nodes ::= (λ s, {[i]} ∪ s) |>
                 <| received_group_public_keys ::= (λ l, l ++ [group_public_keys]) |> in
      let r :=
        if u32 (Z.of_nat (size (ready_nodes r))) =? rl_n r then
          r <| finalized_group_public_keys :=
                 resolve_conflicts_between_group_keys (received_group_public_keys r) |>
        else r in
      r <| no_of_shares_received := Z.of_nat (size (pubkey_shares r)) |>
    else r) w.

Definition store_quorum_map (received_tstar received_new : QuorumMap) w : AppWorld :=
  on_relay (λ r, r <| rl_tstar_provers := received_tstar |> <| rl_new_provers := received_new |>) w.

Definition store_resharing_kset (peer : PeerId) (pubkey_shares_to_store : KeyMap) (i : Z) w
    : AppWorld :=
  on_relay (λ r,
    if is_Ok (check_memory_usage pubkey_shares_to_store 100 "pubkey_shares") then
      let r :=
        if is_peer peer (new_cached_elected_provers r) then
          let r := r <| pubkey_shares ::= <[peer := pubkey_shares_to_store]> |>
                     <| ready_nodes ::= (λ s, {[i]} ∪ s) |> in
          if u32 (Z.of_nat (size (ready_nodes r))) =? rl_n r then
            r <| active_provers := new_cached_elected_provers r |>
          else r
        else r in
      r <| no_of_shares_received := Z.of_nat (size (pubkey_shares r)) |>
    else r) w.

(** ** Answers *)

(** [fetch_reconstructed_point]: the answer to a poll. *)
Definition fetch_reconstructed_point (request_id : string) w : AppHandled CS CB F :=
  let error message := (w, [ReplyNode (ErrorResponse request_id message)], HOk) in
  match node_state w with
  | Some (Relay r) =>
      match req_cache r !! request_id with
      | Some data =>
          match rec_status data, res_cache r !! request_id with
          | Verified, None => error "Internal server error"
          | Verified, Some res =>
              match reconstructed_point res with
              | Some point =>
                  match point_response (λ curve, "Error: Curve '" +:+ curve +:+ "' not recognized")
                          request_id (res_curve res) point with
                  | Ok response => (w, [ReplyNode response], HOk)
                  | _ => (w, [], HPanic)
                  end
              | None => error "Error: Point is not reconstructed"
              end
          | _, _ => error "Not yet verified"
          end
      | None => error "Request ID not found"
      end
  | _ => error "Only Relay nodes can process this request"
  end.

(** The [Debug] text of a string and of an [Error]. *)
Definition char_debug (c : ascii) : string :=
  let n := nat_of_ascii c in
  let bs := String (ascii_of_nat 92) EmptyString in
  if bool_decide (n = 34 ∨ n = 92)%nat then bs +:+ String c EmptyString
  else if (n =? 0)%nat then bs +:+ "0"
  else if (n =? 9)%nat then bs +:+ "t"
  else if (n =? 10)%nat then bs +:+ "n"
  else if (n =? 13)%nat then bs +:+ "r"
  else if (n <? 32)%nat || (n =? 127)%nat then
    let digits := hex_encode [Z.of_nat n] in
    bs +:+ "u{" +:+ (if (n <? 16)%nat then String.substring 1 1 digits else digits) +:+ "}"
  else String c EmptyString.
Fixpoint chars_debug (s : string) : string :=
  match s with
  | EmptyString => EmptyString
  | String c s => char_debug c +:+ chars_debug s
  end.
Definition string_debug (s : string) : string :=
  let quote := String (ascii_of_nat 34) EmptyString in quote +:+ chars_debug s +:+ quote.

Definition error_debug (e : Error) : string :=
  match e with
  | InvalidInput => "InvalidInput"
  | InvalidSignature => "InvalidSignature"
  | ExtremelyRareErrorInputUnhashableToCurve => "ExtremelyRareErrorInputUnhashableToCurve"
  | InvalidDLEQProof => "InvalidDLEQProof"
  | UnknownError => "UnknownError"
  | Other data => "Other(" +:+ string_debug data +:+ ")"
  end.

(** The [handle_request!] macro: a proof with the node's share, an error when the point
    does not decode or the proof cannot be made, and no answer when the share does not
    decode. *)
Definition handle_request {C : Curve} (nonce : Scalar (Curve:=C))
    (constructed : DLEQProof (C:=C) → AppResponse CS CB) (keyshare : option (list Z))
    (request_id : string) (request : RequestToNetwork) : outcome string (list (AppResponse CS CB)) :=
  keyshare ← unwrap keyshare;
  match scalar_from_bytes (Curve:=C) keyshare with
  | Panic => Panic
  | Err _ => Ok []
  | Ok partial_share =>
      match from_encoded (Curve:=C) (Request.point request) with
      | Panic => Panic
      | Err e => Ok [ErrorResponse request_id
                       ("Error decoding masked point for Secp256k1. Error: " +:+ error_debug e)]
      | Ok masked_point =>
          match DLEQProof_new (C:=C) nonce masked_point partial_share with
          | Panic => Panic
          | Err e => Ok [ErrorResponse request_id
                           ("Error constructing DLEQ proof for Secp256k1. Error: " +:+ error_debug e)]
          | Ok proof => Ok [constructed proof]
          end
      end
  end.

(** [process_request] on a prover. *)
Definition process_request env (request_id : string) (request : RequestToNetwork) w
    : AppHandled CS CB F :=
  let error message := (w, [ReplyNode (ErrorResponse request_id message)], HOk) in
  match node_state w with
  | Some (Prover p) =>
      let new_provers_idxes := (hm_values (pv_new_provers p)).*2 in
      match is_for_my_node (Err:=string) request (u32 (pv_t p + pv_epsilon p)) (my_node_idx p)
              new_provers_idxes with
      | Ok false => error "Request not for this node"
      | Ok true =>
          if negb (epoch request =? current_epoch (pv_common p)) then error "Invalid epoch" else
          let share := private_keyshares p !! share_name (method request) in
          let me := cm_peer_id (pv_common p) in
          let secp proof := ConstructedProofSecp256k1 (my_node_idx p) me request_id proof
                              (method request) in
          let bjj proof := ConstructedProofBabyJubJub (my_node_idx p) me request_id proof
                              (method request) in
          match (match method request with
                 | OPRFSecp256k1 | JWTPRFSecp256k1 =>
                     handle_request (C:=CS) (ae_nonce_s env) secp share request_id request
                 | OPRFBabyJubJub | DecryptBabyJubJub =>
                     handle_request (C:=CB) (ae_nonce_b env) bjj share request_id request
                 end) with
          | Ok responses => (w, ReplyNode <$> responses, HOk)
          | _ => (w, [], HPanic)
          end
      | _ => (w, [], HPanic)
      end
  | _ => (w, [], HOk)
  end.

(** ** The database *)

(** [BackupState]. *)
Definition save_common (common : CommonState) (new_provers : QuorumMap) (n t epsilon : Z)
    (db : AppDb) : AppDb :=
  db <| db_new_provers := Some new_provers |> <| db_peer_id := Some (cm_peer_id common) |>
     <| db_relay_peer_id := Some (cm_relay_peer_id common) |>
     <| db_epoch := Some (current_epoch common) |>
     <| db_n := Some n |> <| db_t := Some t |> <| db_app_epsilon := Some epsilon |>.

Definition backup_state w : AppWorld :=
  match node_state w with
  | Some (Prover p) =>
      w <| app_db ::= (λ db, (save_common (pv_common p) (pv_new_provers p) (pv_n p) (pv_t p)
                               (pv_epsilon p) db)
             <| db_private_keyshares := Some (private_keyshares p) |>
             <| db_idx := Some (my_node_idx p) |>) |>
  | Some (Relay r) =>
      w <| app_db ::= (λ db, (save_common (rl_common r) (rl_new_provers r) (rl_n r) (rl_t r)
                               (rl_epsilon r) db)
             <| db_finalized := Some (finalized_group_public_keys r) |>
             <| db_pubkey_shares := Some (pubkey_shares r) |>) |>
  | _ => w
  end.

Definition save_current_state w : AppWorld :=
  match node_state w with
  | Some (Relay r) =>
      w <| app_db ::= (λ db, db
             <| db_n := Some (rl_n r) |> <| db_t := Some (rl_t r) |>
             <| db_app_epsilon := Some (rl_epsilon r) |>
             <| db_finalized := Some (finalized_group_public_keys r) |>
             <| db_pubkey_shares := Some (pubkey_shares r) |>
             <| db_new_provers := Some (rl_new_provers r) |>
             <| db_tstar_provers := Some (rl_tstar_provers r) |>) |>
  | Some (Prover p) =>
      w <| app_db ::= (λ db, db
             <| db_n := Some (pv_n p) |> <| db_t := Some (pv_t p) |>
             <| db_app_epsilon := Some (pv_epsilon p) |> <| db_idx := Some (my_node_idx p) |>
             <| db_new_provers := Some (pv_new_provers p) |>
             <| db_private_keyshares := Some (private_keyshares p) |>) |>
  | _ => w
  end.

(** [RollbackToPreviousState]; the readiness is computed from the set of ready nodes
    before it is replaced. *)
Definition rollback_to_previous_state env w : AppWorld :=
  let db := app_db w in
  match node_state w with
  | Some (Relay r) =>
      let saved_new_provers := default ∅ (db_new_provers db) in
      let saved_t := default 0 (db_t db) in
      let '(ready_nodes_set, ready_status) :=
        if bool_decide (saved_new_provers = ∅) then (∅, false) else
        match ping_nodes (ae_ping env) saved_new_provers with
        | Some nodes => (nodes, saved_t <=? Z.of_nat (size (ready_nodes r)))
        | None => (∅, false)
        end in
      with_state (Relay (r
        <| rl_n := default 0 (db_n db) |> <| rl_t := saved_t |>
        <| rl_epsilon := default 0 (db_app_epsilon db) |>
        <| rl_new_provers := saved_new_provers |>
        <| rl_tstar_provers := default ∅ (db_tstar_provers db) |>
        <| pubkey_shares := default ∅ (db_pubkey_shares db) |>
        <| finalized_group_public_keys := default ∅ (db_finalized db) |>
        <| active_provers := (hm_values saved_new_provers).*1 |>
        <| ready_nodes := ready_nodes_set |> <| ready := ready_status |>)) w
  | Some (Prover p) =>
      with_state (Prover (p
        <| pv_n := default 0 (db_n db) |> <| pv_t := default 0 (db_t db) |>
        <| pv_epsilon := default 0 (db_app_epsilon db) |>
        <| my_node_idx := default 0 (db_idx db) |>
        <| private_keyshares := default ∅ (db_private_keyshares db) |>
        <| pv_new_provers := default ∅ (db_new_provers db) |>)) w
  | _ => w
  end.

(** [pre_start] for a node of the given type, with a database that may hold an earlier
    state. *)
Definition pre_start env (peer relay_peer : PeerId) (ty : NodeType) (relay_addr : list Protocol)
    (db : AppDb) (rd : RedisStore) : AppWorld :=
  let db := db <| db_peer_id := Some peer |> <| db_relay_peer_id := Some relay_peer |>
               <| db_epoch := Some 0 |> in
  let common := {| cm_peer_id := peer; cm_relay_peer_id := relay_peer; current_epoch := 0;
                   redis := rd |} in
  let n := default 0 (db_n db) in
  let t := default 0 (db_t db) in
  let eps := default 0 (db_app_epsilon db) in
  let new_provers := default ∅ (db_new_provers db) in
  let state :=
    match ty with
    | NodeRelay =>
        let nodes := if bool_decide (new_provers = ∅) then None
                     else ping_nodes (ae_ping env) new_provers in
        Some (Relay {|
          rl_common := common; active_provers := (hm_values new_provers).*1;
          rl_n := n; rl_t := t; rl_epsilon := eps; batch_size := 0; req_cache := ∅;
          res_cache := ∅; pubkey_shares := default ∅ (db_pubkey_shares db);
          ready := match nodes with Some nodes => t <=? Z.of_nat (size nodes) | None => false end;
          ready_nodes := default ∅ nodes; new_cached_elected_provers := [];
          rl_tstar_provers := default ∅ (db_tstar_provers db); rl_new_provers := new_provers;
          finalized_group_public_keys := default ∅ (db_finalized db);
          received_group_public_keys := []; no_of_shares_received := 0;
          monitor_request_queue := []; batch_cache := ∅; pubsub_cache := ∅;
          all_provers_cache := ∅; is_resharing_enabled := true; resharing_failure_count := 0 |})
    | NodeProver =>
        Some (Prover {|
          pv_common := common; my_node_idx := default 0 (db_idx db); pv_n := n; pv_t := t;
          pv_epsilon := eps; private_keyshares := default ∅ (db_private_keyshares db);
          pv_new_provers := new_provers; relay_multi_addr := relay_addr |})
    | NodeVerifier => Some (Verifier common "")
    | NodeBootstrap => None
    end in
  {| node_type := ty; node_state := state; app_db := db |}.

(** ** The remaining messages *)

(** [RestoreElectionState]: the relay's answer replaces the parameters; the first two
    components of the relay's address must be a host and a port. *)
Definition ip4_to_string (octets : list Z) : string := String.concat "." (pretty <$> octets).

Definition relay_rpc_url (addr : list Protocol) : outcome string string :=
  host ← match head addr with
         | Some (Ip4 octets) => Ok (ip4_to_string octets)
         | Some (Ip6 h) | Some (Dns h) | Some (Dns4 h) | Some (Dns6 h) | Some (Dnsaddr h) => Ok h
         | _ => Panic
         end;
  port ← match addr !! 1%nat with
         | Some (Tcp port) | Some (Udp port) => Ok port
         | _ => Panic
         end;
  Ok ("http://" +:+ host +:+ ":" +:+ pretty port).

Definition restore_election_state env w : AppHandled CS CB F :=
  match node_state w with
  | Some (Prover p) =>
      match relay_rpc_url (relay_multi_addr p) with
      | Ok url =>
          match ae_relay_answer env url with
          | Some (ElectionStateResponse i n t eps received) =>
              let p := p <| pv_n := n |> <| pv_t := t |> <| pv_epsilon := eps |>
                         <| my_node_idx := u32 i |> <| pv_new_provers := received |> in
              let db := (app_db w) <| db_n := Some n |> <| db_t := Some t |>
                                 <| db_app_epsilon := Some eps |> <| db_idx := Some (u32 i) |> in
              ((with_state (Prover p) w) <| app_db := db |>, [ReplyNode Restored], HOk)
          | _ => (w, [], HOk)
          end
      | _ => (w, [], HPanic)
      end
  | _ => (w, [], HOk)
  end.

Definition hex_map (shares : KeyMap) : gmap string string := hex_encode <$> shares.

Definition fetch_key_share w : AppHandled CS CB F :=
  match node_state w with
  | Some (Prover p) =>
      (w, [ReplyNode (Keyshare (hex_map (default ∅ (db_private_keyshares (app_db w)))))], HOk)
  | _ => (w, [], HOk)
  end.

Definition restore_key_share (keyshares : gmap string string) w : AppHandled CS CB F :=
  match node_state w with
  | Some (Prover p) =>
      let restored := omap hex_decode keyshares in
      ((with_state (Prover (p <| private_keyshares := restored |>)) w)
         <| app_db ::= (λ db, db <| db_private_keyshares := Some restored |>) |>,
       [ReplyNode Restored], HOk)
  | _ => (w, [], HOk)
  end.

Definition fetch_finalized_group_pubkeys w : AppHandled CS CB F :=
  match node_state w with
  | Some (Relay r) => (w, [ReplyNode (Keyshare (hex_map (finalized_group_public_keys r)))], HOk)
  | _ => (w, [ReplyNode (ErrorResponse "" "Not a relay node or pubkeys not yet finalized")], HOk)
  end.

Definition fetch_election_state (peer : PeerId) w : AppHandled CS CB F :=
  match node_state w with
  | Some (Relay r) =>
      match rl_new_provers r !! peer with
      | Some (_, i) =>
          (w, [ReplyNode (ElectionStateResponse i (rl_n r) (rl_t r) (rl_epsilon r)
                            (rl_new_provers r))], HOk)
      | None => (w, [], HOk)
      end
  | _ => (w, [], HOk)
  end.

(** A reply whose failure is the handler's error. *)
Definition send_or_fail env (o : AppOutput CS CB F) w : AppHandled CS CB F :=
  if ae_receiver env then (w, [o], HOk)
  else (w, [], HErr "Error occurred in app engine: Failed to send response").

(** [SyncPeerData]. *)
Definition update_prover (provers : list ProverInfo) (prover : ProverInfo) : ProverInfo :=
  match head (filter (λ new, peer_id new = peer_id prover) provers) with
  | Some new_prover => prover <| rsa_pub_key := rsa_pub_key new_prover |>
                              <| address := address new_prover |>
  | None => prover
  end.

Definition provers_by_peer (provers : list ProverInfo) (cache : gmap PeerId ProverInfo)
    : gmap PeerId ProverInfo :=
  foldl (λ m prover, <[peer_id prover := prover]> m) cache provers.

Definition sync_peer_data env w : AppHandled CS CB F :=
  match node_state w with
  | Some (Relay r) =>
      let f := update_prover (ae_provers env) in
      let r := r <| active_provers ::= fmap f |> <| new_cached_elected_provers ::= fmap f |>
                 <| rl_tstar_provers ::= fmap (prod_map f id) |>
                 <| rl_new_provers ::= fmap (prod_map f id) |>
                 <| all_provers_cache := provers_by_peer (ae_provers env) ∅ |> in
      send_or_fail env (ReplyResponse (Response_new (Some "Peer data synced successfully") true
                                         "Peer data synced successfully")) (with_state (Relay r) w)
  | Some _ => send_or_fail env (ReplyResponse (Response_new None false "Not a relay node")) w
  | None => send_or_fail env (ReplyResponse (Response_new None false "Node state not initialized")) w
  end.

Definition fetch_election_info env (peer : PeerId) w : AppHandled CS CB F :=
  match node_state w with
  | Some (Relay r) =>
      send_or_fail env (ReplyElection (ElectionResponse_new (hm_keys (rl_new_provers r)) (rl_n r)
        (rl_t r) (bool_decide (is_Some (rl_new_provers r !! peer))) true "")) w
  | Some _ => send_or_fail env (ReplyElection (err_response "Not a relay node")) w
  | None => send_or_fail env (ReplyElection (err_response "Node state not initialized")) w
  end.

(** The cache of provers that [QuicPing] and [FetchVotingPower] fill when it is empty. *)
Definition populate_provers_cache env r : RelayState :=
  if bool_decide (all_provers_cache r = ∅) then
    r <| all_provers_cache ::= provers_by_peer (ae_provers env) |>
  else r.

Definition quic_ping env (peer : PeerId) w : AppHandled CS CB F :=
  match node_state w with
  | Some (Relay r) =>
      let r := populate_provers_cache env r in
      let o := match all_provers_cache r !! peer with
               | Some info => PingPeer peer (address info)
               | None => ReplyResponse (Response_new None false "peer id not found")
               end in
      (with_state (Relay r) w, [o], HOk)
  | Some _ => (w, [ReplyResponse (Response_new None false "Not a relay node")], HOk)
  | None => (w, [ReplyResponse (Response_new None false "Node state not initialized")], HOk)
  end.

Definition fetch_voting_power env (peer : PeerId) w : AppHandled CS CB F :=
  match node_state w with
  | Some (Relay r) =>
      let r := populate_provers_cache env r in
      let o := match all_provers_cache r !! peer with
               | Some info => VotingPower (idx info) (pretty (prover_weight info)) peer
               | None => ErrorResponse "" "peer id not found"
               end in
      (with_state (Relay r) w, [ReplyNode o], HOk)
  | Some _ => (w, [ReplyNode (ErrorResponse "" "Not a relay node")], HOk)
  | None => (w, [ReplyNode (ErrorResponse "" "Node state not initialized")], HOk)
  end.

Definition forward_error_response (request_id : string) (response : AppResponse CS CB) w
    : AppHandled CS CB F :=
  match node_state w with
  | Some (Relay r) =>
      (w, if bool_decide (request_id ∈ pubsub_cache r) then [Publish request_id response] else [],
       HOk)
  | _ => (w, [], HOk)
  end.

Definition set_resharing_enabled (value : bool) w : AppHandled CS CB F :=
  match node_state w with
  | Some (Relay r) =>
      (with_state (Relay (r <| is_resharing_enabled := value |>)) w,
       [ReplyNode UpdatedIsResharingEnabled], HOk)
  | _ => (w, [], HOk)
  end.

(** The messages without request, proof or reply channel. *)
Definition handle_plain env (m : AppStateChangeMessage) w : AppHandled CS CB F :=
  match m with
  | UpdateElectedProvers provers is_cache => (update_elected_provers provers is_cache w, [], HOk)
  | UpdatedThreshold info => (update_threshold info w, [], HOk)
  | UpdateNodeIdx i => (update_node_idx i w, [], HOk)
  | StoreKeyShares shares =>
      (match node_state w with
       | Some (Prover p) => with_state (Prover (p <| private_keyshares := shares |>)) w
       | _ => w
       end, [], HOk)
  | StoreKSet peer pubshares i group_keys => (store_kset peer pubshares i group_keys w, [], HOk)
  | ResharingStoreKSet peer pubshares i => (store_resharing_kset peer pubshares i w, [], HOk)
  | StoreQuorumMap tstar new => (store_quorum_map tstar new w, [], HOk)
  | PreResharing =>
      match node_state w with
      | Some (Relay r) =>
          (on_relay (λ r, r <| no_of_shares_received := 0 |>) w,
           [ToElection (TriggerReElection (active_provers r))], HOk)
      | _ => (w, [], HOk)
      end
  | AppClearShares =>
      (on_relay (λ r, r <| pubkey_shares := ∅ |> <| ready := false |> <| ready_nodes := ∅ |>) w,
       [], HOk)
  | ForwardReElectedProvers info tstar new drand =>
      (w, match node_state w with
          | Some (Relay r) =>
              [GossipOut (ReElectedProvers info tstar new (finalized_group_public_keys r) drand)]
          | _ => []
          end, HOk)
  | UpdateCachedProversMap new =>
      (match node_state w with
       | Some (Relay r) => with_state (Relay (r <| rl_new_provers := new |>)) w
       | Some (Prover p) => with_state (Prover (p <| pv_new_provers := new |>)) w
       | _ => w
       end, [], HOk)
  | MonitorQuorumFormation event =>
      (w, match node_state w with
          | Some (Relay r) => [SpawnMonitor (length (active_provers r)) event]
          | _ => []
          end, HOk)
  | BackupState => (backup_state w, [], HOk)
  | AppRollbackToPreviousState => (rollback_to_previous_state env w, [], HOk)
  | AppSaveCurrentState => (save_current_state w, [], HOk)
  end.

(** [AppStateEngineActor::handle]. *)
Definition app_handle env (m : AppMessage CS CB) w : AppHandled CS CB F :=
  match m with
  | Plain m => handle_plain env m w
  | StateRequest user m => handle_state_request user m w
  | MulRequest request request_id => handle_multiplication_request env request [] request_id w
  | ProcessMulRequest request_id request => process_request env request_id request w
  | ProcessReceivedProofSecp256k1 i peer request_id proof m =>
      process_received_proof (C:=CS) SECP256K1_NAME env i peer request_id proof m w
  | ProcessReceivedProofBabyJubJub i peer request_id proof m =>
      process_received_proof (C:=CB) BABYJUBJUB_NAME env i peer request_id proof m w
  | FetchReconstructedPoint request_id => fetch_reconstructed_point request_id w
  | FetchKeyShare => fetch_key_share w
  | RestoreKeyShare keyshares => restore_key_share keyshares w
  | FetchElectionState peer => fetch_election_state peer w
  | RestoreElectionState => restore_election_state env w
  | SyncPeerData => sync_peer_data env w
  | FetchElectionInfo peer => fetch_election_info env peer w
  | QuicPing peer => quic_ping env peer w
  | FetchVotingPower peer => fetch_voting_power env peer w
  | ForwardErrorResponse request_id response => forward_error_response request_id response w
  | SetResharingEnabled value => set_resharing_enabled value w
  | FetchFinalizedGroupPubkeys => fetch_finalized_group_pubkeys w
  end.

(** The mailbox: messages are handled one after the other until a handler fails. *)
Fixpoint app_run env (ms : list (AppMessage CS CB)) w : AppHandled CS CB F :=
  match ms with
  | [] => (w, [], HOk)
  | m :: ms =>
      let '(w, o, h) := app_handle env m w in
      match h with
      | HOk => let '(w, o', h) := app_run env ms w in (w, o ++ o', h)
      | _ => (w, o, h)
      end
  end.

(** ** Background tasks *)

(** One tick of [monitor_quorum_formation]: it goes on with the elapsed time, or ends.
    [multipliers] are the provers behind the task's pointer. *)
Definition monitor_tick (target : nat) (event : MonitorEvent) (multipliers : list ProverInfo)
    (time_elapsed : nat) r : option nat * RelayState * out :=
  if no_of_shares_received r =? Z.of_nat target then
    (None, r, [ToSelf AppSaveCurrentState; GossipOut SaveCurrentState;
               KafkaQuorum true multipliers])
  else
    let time_elapsed := S time_elapsed in
    if (DKG_RESHARING_WAIT_TIME <=? time_elapsed)%nat then
      let r := r <| no_of_shares_received := 0 |> in
      match event with
      | MonitorDKG => (None, r, [ToElection FirstElection])
      | MonitorResharing =>
          let rollback := [ToSelf AppRollbackToPreviousState; GossipOut RollbackToPreviousState] in
          if resharing_failure_count r <=? MAX_RESHARING_ATTEMPTS_AT_A_TIME then
            (None, r <| resharing_failure_count ::= Z.add 1 |>,
             rollback ++ [ScheduleResharing; KafkaQuorum false multipliers])
          else (None, r, rollback ++ [KafkaQuorum false multipliers])
      | MultiplicationResult _ => (None, r, [])
      end
    else (Some time_elapsed, r, []).

(** The task: a tick each second, between which the actor changes the state ([others i]
    is what happened before tick [i]); [None] when it still runs. *)
Fixpoint monitor_loop (fuel : nat) (target : nat) (event : MonitorEvent)
    (multipliers : list ProverInfo) (others : nat → RelayState → RelayState)
    (time_elapsed : nat) r : option (RelayState * out) :=
  match fuel with
  | O => None
  | S fuel =>
      match monitor_tick target event multipliers time_elapsed (others time_elapsed r) with
      | (None, r, o) => Some (r, o)
      | (Some time_elapsed, r, _) =>
          monitor_loop fuel target event multipliers others time_elapsed r
      end
  end.

Definition monitor_quorum_formation (fuel : nat) (target : nat) (event : MonitorEvent)
    (multipliers : list ProverInfo) (others : nat → RelayState → RelayState) r
    : option (RelayState * out) :=
  match event with
  | MonitorDKG | MonitorResharing => monitor_loop fuel target event multipliers others 0 r
  | MultiplicationResult _ => Some (r, [])
  end.

(** The task that [pre_start] of a relay starts: the timer, [SIGHUP] and [SIGUSR1]. *)
Inductive TimerEvent := IntervalTick | SigHup | SigUsr1.

Definition timer_event (ev : TimerEvent) (first_resharing_triggered : bool) r
    : bool * RelayState * out :=
  match ev with
  | IntervalTick =>
      if first_resharing_triggered then
        if is_resharing_enabled r then
          (true, r <| resharing_failure_count := 0 |>, [ToSelf PreResharing])
        else (true, r, [])
      else (true, r, [])
  | SigHup => (first_resharing_triggered, r, [ToSelf PreResharing])
  | SigUsr1 => (first_resharing_triggered, r, [ToSelf BackupState])
  end.
End Handlers.
