(* ===== verification/AppStateProofs.v ===== *)
(** * Properties of the application state

    Serving a request: the relay's collection of proofs, what it publishes and when.
    Saving, resharing and rolling back.  The monitor of a quorum.  The choice of the
    group keys. *)
From Stdlib Require Import ZArith Lia Ascii String.
From stdpp Require Import base list gmap sets strings pretty sorting.
From coqutil Require Import Datatypes.RecordSettersUsingExistingGetters.
Import RecordSetNotations.
From S2P Require Import Prelude PrimeField Curve ModelCurve Polynomial Dleq Reconstruct NodeSelection Serialization Request ConcreteCurves Messages AppState.

(** ** Serving a request *)
Section Service.
Context (CS CB : Curve) `{HH : Hashes} `{HO : HashOrder} `{E : Eth} `{J : !Jwt}
  `{RC : !RequestCodec CB CS} `{RG : Rng} `{AT : !AppTexts} {F : Type}.
(** The curve of the request's method. *)
Context {C : Curve} {CL : CurveLaws C} (curve : string) (env : AppEnv CS CB).
Context (request_id hash : string) (m : Method) (request : RequestToNetwork)
  (X : Point (Curve:=C)) (p : Polynomial (FieldEl (Curve:=C))).
(** The answer that carries the reconstructed point. *)
Context (answer : Point (Curve:=C) → AppResponse CS CB).

Abbreviation share i := (eval p (f_of_Z i)).
Abbreviation secret := (eval p 0%F).
Abbreviation out := (list (AppOutput CS CB F)).

Hypothesis H_point : from_encoded (Request.point request) = Ok X.
Hypothesis H_X : in_subgroup X.
Hypothesis H_X_nonzero : X ≠ ZERO.
Hypothesis H_hash : request_hash_of request = Some hash.
Hypothesis H_redis : ae_redis env GetProofs = true ∧ ae_redis env SetProofs = true.
Hypothesis H_json : ∀ pr : DLEQProof (C:=C), is_Some (proof_to_json C pr).
Hypothesis H_answer : ∀ P bs, in_subgroup P → encode P = Ok bs →
  point_response CS CB (λ c, "Unsupported curve type: " +:+ c)%string request_id curve bs
  = Ok (answer P).

(** Node [i]'s answer, sent by [peer]: a proof made with the share that belongs to the
    public key share the relay has of the peer. *)
Definition honest_answer (r : RelayState) (a : Z * PeerId * DLEQProof (C:=C)) : Prop :=
  let '(i, peer, pr) := a in
  ∃ shares bs nonce, pubkey_shares r !! peer = Some shares ∧
    shares !! share_name m = Some bs ∧
    from_encoded bs = Ok (fmul_point G (share i)) ∧
    share i ≠ 0%F ∧ DLEQProof_new nonce X (scalar_of_field (share i)) = Ok pr.

Definition enc (P : Point (Curve:=C)) : list Z := match encode P with Ok bs => bs | _ => [] end.

Definition result_of (a : Z * PeerId * DLEQProof (C:=C)) : Z * list Z :=
  (a.1.1, enc (fmul_point X (share a.1.1))).

(** The relay after the answers [l] to the request, fewer than it needs. *)
Definition collecting (r0 : RelayState) (l : list (Z * PeerId * DLEQProof (C:=C))) (r : RelayState)
    : Prop :=
  res_cache r !! request_id
    = match l with
      | [] => None
      | _ => Some {| num_nodes := Z.of_nat (length l); mul_results := result_of <$> l;
                     reconstructed_point := None; res_curve := curve |}
      end ∧
  (∃ st, req_cache r !! request_id = Some {| rec_request := request; rec_status := st |}) ∧
  request_id ∈ pubsub_cache r ∧ (hash ∉ batch_cache r) ∧
  rl_t r = rl_t r0 ∧ pubkey_shares r = pubkey_shares r0 ∧ active_provers r = active_provers r0 ∧
  batch_size r = batch_size r0.

Lemma enc_nonzero P : in_subgroup P → P ≠ ZERO → encode P = Ok (enc P) ∧ from_encoded (enc P) = Ok P.
Proof using CL.
  intros HP Hnz. pose proof (encode_total _ HP Hnz) as He. unfold enc.
  destruct (encode P) as [bs| |] eqn:Hbs; [|done..]. split; [done|]. by apply encode_decode.
Qed.

Lemma smul_share_nonzero x : x ≠ 0%F → fmul_point X x ≠ ZERO.
Proof using CL H_X H_X_nonzero.
  intros Hx H0. rewrite <- (fmul_zero X H_X) in H0.
  apply Hx. by eapply fmul_inj.
Qed.

Lemma honest_check r0 l r i peer pr st : collecting r0 l r → honest_answer r0 (i, peer, pr) →
  req_cache r !! request_id = Some {| rec_request := request; rec_status := st |} →
  check_proof peer request_id pr m r
  = Ok ({| rec_request := request; rec_status := st |}, fmul_point G (share i), X,
        fmul_point X (share i)).
Proof using CL H_X H_point.
  intros (_ & _ & _ & _ & _ & Hpk & _) (shares & bs & nonce & Hs & Hb & Hd & _ & Hnew) Hreq.
  unfold check_proof. rewrite Hreq, Hpk, Hs. simpl. rewrite Hb. simpl.
  rewrite H_point. simpl. rewrite Hd. simpl.
  pose proof (DLEQ_new_verify _ _ _ _ H_X Hnew) as Hv. unfold fmul_point. by rewrite Hv.
Qed.

(** The state when the proof is stored, before the count is compared. *)
Lemma honest_received r0 l r w i peer pr : collecting r0 l r → honest_answer r0 (i, peer, pr) →
  Z.of_nat (length l) + 1 < 2 ^ 32 → node_state w = Some (Relay r) →
  let res := {| num_nodes := Z.of_nat (length l) + 1;
                mul_results := result_of <$> (l ++ [(i, peer, pr)]);
                reconstructed_point := None; res_curve := curve |} in
  let data := {| rec_request := request; rec_status := ConstructedProof |} in
  ∃ r', collecting r0 (l ++ [(i, peer, pr)]) r' ∧
    res_cache r' !! request_id = Some res ∧ req_cache r' !! request_id = Some data ∧
    process_received_proof CS CB (F:=F) curve env i peer request_id pr m w
    = (let '(r', o, h) := process_verification CS CB (C:=C) env request_id hash data res r' in
       (with_state (Relay r') w, o, h)).
Proof using All.
  intros Hcol Ha Hlen Hw res data. pose proof Hcol as (Hres & (st & Hreq) & Hsub & Hbatch & Ht & Hpk & Hact & Hbs).
  pose proof Ha as (shares & bs & nonce & Hs & Hb & Hd & Hnz & Hnew).
  assert (encode (fmul_point X (share i)) = Ok (enc (fmul_point X (share i)))) as He.
  { apply enc_nonzero; auto using smul_share_nonzero with subgroup. }
  assert (encode (fmul_point G (share i)) = Ok (enc (fmul_point G (share i)))) as HeG.
  { apply enc_nonzero; [auto with subgroup|]. intros H0. apply Hnz, fmul_base_inj.
    by rewrite H0, fmul_zero by auto with subgroup. }
  assert (encode X = Ok (enc X)) as HeX by (by apply enc_nonzero).
  destruct (H_json pr) as [js Hjs], H_redis as [Hget Hset].
  unfold process_received_proof. rewrite Hw, (honest_check r0 l r i peer pr st) by done. cbn beta iota.
  rewrite He, Hjs. cbn [rec_request]. rewrite H_hash. cbn beta iota.
  rewrite bool_decide_eq_false_2 by (cbn; done). cbn beta iota.
  rewrite Hget, HeG, HeX. cbn [negb mbind outcome_bind]. unfold store_proof. rewrite Hset.
  cbn beta iota.
  assert (push_result curve i (enc (fmul_point X (share i))) (res_cache r !! request_id) = res) as ->.
  { rewrite Hres. unfold push_result, res. destruct l; cbn -[u32 length]; unfold const;
      cbn -[u32 length]; unfold u32; rewrite wrap_small by (cbn in *; lia); [done|].
    f_equal. by rewrite fmap_app. }
  eexists. split; [|split; [|split; [|reflexivity]]]; cbn; unfold const; rewrite ?lookup_insert_eq; try done.
  split_and!; cbn; unfold const; rewrite ?lookup_insert_eq; try done; [|by eexists].
  unfold res. rewrite length_app. destruct l; cbn; [done|]. do 3 f_equal. cbn. lia.
Qed.

(** An answer that does not complete the request. *)
Lemma honest_step r0 l r w a : collecting r0 l r → honest_answer r0 a →
  Z.of_nat (length l) + 1 < rl_t r0 < 2 ^ 32 → node_state w = Some (Relay r) →
  ∃ r', collecting r0 (l ++ [a]) r' ∧
    process_received_proof CS CB (F:=F) curve env a.1.1 a.1.2 request_id a.2 m w
    = (with_state (Relay r') w, [], HOk).
Proof using All.
  intros Hcol Ha Hlen Hw. destruct a as [[i peer] pr].
  destruct (honest_received r0 l r w i peer pr) as (r' & Hcol' & _ & _ & Heq); [done|done|lia|done|].
  exists r'. split; [done|]. cbn [fst snd]. rewrite Heq. unfold process_verification.
  destruct Hcol' as (_ & _ & _ & _ & -> & _). cbn [num_nodes].
  by rewrite (proj2 (Z.leb_gt _ _)) by lia.
Qed.

(** The record that goes to Kafka with the answer. *)
Definition request_info (r0 : RelayState) (l : list (Z * PeerId * DLEQProof (C:=C)))
    : AppOutput CS CB F :=
  KafkaRequestInfo request_id (method request)
    (match recover CB CS request with Ok a => a | _ => replicate 20 0 end)
    (omap (λ i, peer_id <$> head (filter (λ prover, idx prover = i) (active_provers r0))) l.*1.*1).

Lemma results_decode l : Forall (λ a, share a.1.1 ≠ 0%F) l →
  mapM (λ ip : Z * list Z, from_encoded ip.2) (result_of <$> l)
  = Ok ((λ i, fmul_point X (share i)) <$> l.*1.*1).
Proof using CL H_X H_X_nonzero.
  induction 1 as [|a l Ha _ IH]; [done|]. rewrite !fmap_cons. cbn [mapM result_of snd].
  destruct (enc_nonzero (fmul_point X (share a.1.1))) as [_ ->];
    [auto using smul_share_nonzero with subgroup..|].
  cbn [mbind outcome_bind]. by rewrite IH.
Qed.

Lemma results_indices l : (result_of <$> l).*1 = l.*1.*1.
Proof using. induction l as [|a l IH]; [done|]. by rewrite !fmap_cons, IH. Qed.

(** The answers of distinct nodes, as many as the polynomial has coefficients, combine
    to the point times the secret. *)
Lemma results_combine (l : list Z) : good_indices (F:=FieldEl (Curve:=C)) l →
  (length (coefficients p) ≤ length l)%nat →
  threshold_unchecked ((λ i, fmul_point X (share i)) <$> l) l = Ok (fmul_point X secret).
Proof using CL H_X.
  intros Hg Hlen. rewrite threshold_unchecked_smul by done.
  rewrite (lambda_reconstruct (coefficients p)); [by rewrite <- eval_peval|done..|].
  intros i _. apply eval_peval.
Qed.

(** The relay after the answer: nothing waits for the request, and its hash is known. *)
Definition answered (r : RelayState) : Prop :=
  (request_id ∉ pubsub_cache r) ∧ hash ∈ batch_cache r.

Lemma process_batch_small hash' provers r : batch_size r < TASK_SIZE →
  ∃ r', process_batch CS CB (F:=F) env hash' provers r = (r', [], HOk) ∧
    r' <| rl_common := rl_common r |> = r.
Proof using.
  intros Hb. unfold process_batch. cbn -[TASK_SIZE]. unfold const.
  rewrite (proj2 (Z.leb_gt _ _)) by done. eexists. split; [done|]. by destruct r.
Qed.

(** The answer that completes the request. *)
Lemma honest_complete r0 l r w a : collecting r0 l r → honest_answer r0 a →
  Forall (honest_answer r0) l → Z.of_nat (length l) + 1 = rl_t r0 → rl_t r0 < 2 ^ 32 →
  good_indices (F:=FieldEl (Curve:=C)) (l ++ [a]).*1.*1 →
  (length (coefficients p) ≤ length (l ++ [a]))%nat → secret ≠ 0%F →
  batch_size r0 < TASK_SIZE → node_state w = Some (Relay r) →
  ∃ r', answered r' ∧ req_cache r' !! request_id = Some {| rec_request := request; rec_status := Verified |} ∧
    pubkey_shares r' = pubkey_shares r0 ∧
    process_received_proof CS CB (F:=F) curve env a.1.1 a.1.2 request_id a.2 m w
    = (with_state (Relay r') w,
       [Publish request_id (answer (fmul_point X secret)); request_info r0 (l ++ [a])], HOk).
Proof using All.
  intros Hcol Ha Hl Hlen Ht Hg Hdeg Hsec Hbs Hw. destruct a as [[i peer] pr].
  destruct (honest_received r0 l r w i peer pr) as (r' & Hcol' & Hres & Hreq & Heq); [done|done|lia|done|].
  cbn [fst snd]. rewrite Heq. unfold process_verification.
  pose proof Hcol' as (_ & _ & Hsub & Hbatch & Ht' & Hpk & Hact & Hb). rewrite Ht'. cbn [num_nodes].
  rewrite (proj2 (Z.leb_le _ _)) by lia. cbn [mul_results].
  assert (Forall (λ a, share a.1.1 ≠ 0%F) (l ++ [(i, peer, pr)])) as Hnz.
  { apply Forall_app. split; [|constructor; [|done]].
    - eapply Forall_impl; [exact Hl|]. intros [[??]?] (?&?&?&?&?&?&?&?). done.
    - destruct Ha as (?&?&?&?&?&?&?&?). done. }
  rewrite results_decode by done. cbn beta iota.
  rewrite results_indices.
  rewrite results_combine by (rewrite ?length_fmap; done). cbn [mbind outcome_bind].
  destruct (enc_nonzero (fmul_point X secret)) as [He _];
    [auto using smul_share_nonzero with subgroup..|].
  rewrite He. cbn beta iota.
  rewrite (bool_decide_eq_true_2 (request_id ∈ _)) by (cbn; done). cbn beta iota.
  unfold fetch_reconstructed_point_v2. cbn [rec_status reconstructed_point res_curve].
  cbn. unfold const.
  rewrite (H_answer (fmul_point X secret) _ (fmul_sub X secret H_X) He).
  cbn. unfold const. cbn.
  rewrite bool_decide_eq_false_2 by (cbn; done).
  match goal with |- context [process_batch CS CB env hash ?a ?s] =>
    destruct (process_batch_small hash a s) as (r'' & -> & Hr'') end; [cbn; lia|].
  exists r''. apply (f_equal (λ s, (pubsub_cache s, batch_cache s, req_cache s, pubkey_shares s))) in Hr''.
  cbn in Hr''. unfold const in Hr''. injection Hr'' as Hps Hbc Hrq Hpk''.
  split_and!.
  - unfold answered. rewrite Hps, Hbc. set_solver.
  - by rewrite Hrq, lookup_insert_eq.
  - by rewrite Hpk''.
  - rewrite Hact. done.
Qed.

(** An answer that comes later changes nothing that is visible. *)
Lemma honest_late r0 r w a st : answered r → honest_answer r0 a → pubkey_shares r = pubkey_shares r0 →
  req_cache r !! request_id = Some {| rec_request := request; rec_status := st |} →
  node_state w = Some (Relay r) →
  ∃ r' st', answered r' ∧ pubkey_shares r' = pubkey_shares r0 ∧
    req_cache r' !! request_id = Some {| rec_request := request; rec_status := st' |} ∧
    process_received_proof CS CB (F:=F) curve env a.1.1 a.1.2 request_id a.2 m w
    = (with_state (Relay r') w, [], HOk).
Proof using All.
  intros [Hps Hb] Ha Hpk Hreq Hw. destruct a as [[i peer] pr].
  destruct Ha as (shares & bs & nonce & Hs & Hbs & Hd & Hnz & Hnew). cbn [fst snd].
  unfold process_received_proof. rewrite Hw.
  assert (check_proof peer request_id pr m r = Ok ({| rec_request := request; rec_status := st |},
    fmul_point G (share i), X, fmul_point X (share i))) as ->.
  { unfold check_proof. rewrite Hreq, Hpk, Hs. simpl. rewrite Hbs. simpl. rewrite H_point. simpl.
    rewrite Hd. simpl. pose proof (DLEQ_new_verify _ _ _ _ H_X Hnew) as Hv. unfold fmul_point.
    by rewrite Hv. }
  destruct (enc_nonzero (fmul_point X (share i))) as [-> _];
    [auto using smul_share_nonzero with subgroup..|].
  destruct (H_json pr) as [js ->]. cbn [rec_request]. rewrite H_hash. cbn beta iota.
  rewrite bool_decide_eq_true_2 by (cbn; done).
  eexists _, Verified. split; [|split; [|split; [|reflexivity]]]; cbn; unfold const;
    rewrite ?lookup_insert_eq; done.
Qed.

(** ** A run of the mailbox *)
Context (msg : Z * PeerId * DLEQProof (C:=C) → AppMessage CS CB).
Hypothesis H_msg : ∀ a w, app_handle CS CB (F:=F) env (msg a) w
  = process_received_proof CS CB curve env a.1.1 a.1.2 request_id a.2 m w.

Lemma late_run r0 late r w st : answered r → Forall (honest_answer r0) late →
  pubkey_shares r = pubkey_shares r0 →
  req_cache r !! request_id = Some {| rec_request := request; rec_status := st |} →
  node_state w = Some (Relay r) →
  ∃ w', app_run CS CB (F:=F) env (msg <$> late) w = (w', [], HOk).
Proof using All.
  intros Hr Hl. revert r w st Hr. induction Hl as [|a late Ha _ IH]; intros r w st Hr Hpk Hreq Hw; [by eexists|].
  rewrite fmap_cons. cbn [app_run]. rewrite H_msg.
  destruct (honest_late r0 r w a st) as (r' & st' & Hr' & Hpk' & Hreq' & ->); [done..|].
  destruct (IH r' (with_state (Relay r') w) st') as [w' ->]; [done..|]. by eexists.
Qed.

Lemma app_run_app ms1 ms2 w w1 o1 : app_run CS CB (F:=F) env ms1 w = (w1, o1, HOk) →
  app_run CS CB env (ms1 ++ ms2) w
  = (let '(w2, o2, h) := app_run CS CB env ms2 w1 in (w2, o1 ++ o2, h)).
Proof using.
  revert w w1 o1. induction ms1 as [|x ms1 IH]; intros w w1 o1; cbn [app_run app].
  - intros [= <- <-]. by destruct (app_run _ _ _ ms2 w) as [[]].
  - destruct (app_handle _ _ _ _ _) as [[w' o] []]; [|done..].
    destruct (app_run CS CB env ms1 w') as [[w'' o'] h] eqn:Hrun. intros [= -> <- ->].
    rewrite (IH _ _ _ Hrun). destruct (app_run _ _ _ ms2 w1) as [[]]. by rewrite app_assoc.
Qed.

Lemma collect_run r0 l2 : ∀ l1 r w, collecting r0 l1 r → Forall (honest_answer r0) l2 →
  Z.of_nat (length l1 + length l2) < rl_t r0 < 2 ^ 32 → node_state w = Some (Relay r) →
  ∃ r', collecting r0 (l1 ++ l2) r' ∧
    app_run CS CB (F:=F) env (msg <$> l2) w = (with_state (Relay r') w, [], HOk).
Proof using All.
  induction l2 as [|a l2 IH]; intros l1 r w Hcol Hl Hlen Hw.
  - exists r. rewrite app_nil_r. split; [done|]. cbn. f_equal. f_equal. destruct w; cbn in *. by subst.
  - apply Forall_cons in Hl as [Ha Hl]. rewrite fmap_cons. cbn [app_run length] in *. rewrite H_msg.
    destruct (honest_step r0 l1 r w a) as (r' & Hcol' & ->); [done|done|lia|done|].
    destruct (IH (l1 ++ [a]) r' (with_state (Relay r') w)) as (r'' & Hcol'' & Hrun);
      [done|done|rewrite length_app; cbn; lia|done|].
    exists r''. rewrite <- app_assoc in Hcol''. split; [done|]. by rewrite Hrun.
Qed.

Lemma served_run r0 l late w : collecting r0 [] r0 → Forall (honest_answer r0) (l ++ late) →
  Z.of_nat (length l) = rl_t r0 → 0 < rl_t r0 < 2 ^ 32 →
  good_indices (F:=FieldEl (Curve:=C)) l.*1.*1 → (length (coefficients p) ≤ length l)%nat →
  secret ≠ 0%F → batch_size r0 < TASK_SIZE → node_state w = Some (Relay r0) →
  ∃ w', app_run CS CB (F:=F) env (msg <$> l ++ late) w
        = (w', [Publish request_id (answer (fmul_point X secret)); request_info r0 l], HOk).
Proof using All.
  intros Hcol [Hl Hlate]%Forall_app Hlen Ht Hg Hdeg Hsec Hbs Hw.
  destruct l as [|a l _] using rev_ind; [cbn in *; lia|].
  apply Forall_app in Hl as [Hl Ha]. rewrite Forall_singleton in Ha. rewrite length_app in Hlen. cbn in Hlen.
  destruct (collect_run r0 l [] r0 w) as (r & Hr & Hrun); [done|done|cbn; lia|done|]. cbn in Hr.
  destruct (honest_complete r0 l r (with_state (Relay r) w) a) as (r' & Hans & Hreq & Hpk & Hc);
    [done|done|done|lia|lia|done|done|done|done|done|].
  destruct (late_run r0 late r' (with_state (Relay r') w) Verified) as [w' Hlt]; [done..|].
  exists w'. rewrite !fmap_app, <- app_assoc, (app_run_app _ _ _ _ _ Hrun). cbn [fmap list_fmap app app_run].
  rewrite H_msg, Hc. cbn beta iota. change (with_state (Relay r') (with_state (Relay r) w)) with (with_state (Relay r') w).
  by rewrite Hlt.
Qed.
End Service.

(** ** Claims about serving requests *)
Section ServiceClaims.
Context (CS CB : Curve) {CL : CurveLaws CS} `{HH : Hashes} `{HO : HashOrder} `{E : Eth} `{J : !Jwt}
  `{RC : !RequestCodec CB CS} `{RG : Rng} `{AT : !AppTexts} {F : Type}.
Implicit Types (env : AppEnv CS CB) (r : RelayState) (w : AppWorld).

Lemma secp_answer (request_id : string) (P : Point (Curve:=CS)) bs : in_subgroup P → encode P = Ok bs →
  point_response CS CB (λ c, "Unsupported curve type: " +:+ c)%string request_id SECP256K1_NAME bs
  = Ok (VerifiedProofSecp256k1 request_id P).
Proof using CL.
  intros HP He. unfold point_response. rewrite bool_decide_eq_true_2 by done.
  by rewrite (encode_decode _ _ HP He).
Qed.

(** A request is answered with the right point, once.  The relay waits for a request
    on secp256k1 with threshold [t], and the nodes hold the shares of a polynomial with
    at most [t] coefficients.  Whatever the order in which [t] distinct nodes' honest
    proofs arrive, and however many more follow, what the relay emits is one answer, the
    point times the secret, and one record of who served it. *)
Theorem request_served env request_id hash (request : RequestToNetwork) (X : Point (Curve:=CS))
    (p : Polynomial (FieldEl (Curve:=CS))) r w (l late : list (Z * PeerId * DLEQProof (C:=CS))) :
  node_state w = Some (Relay r) →
  req_cache r !! request_id = Some {| rec_request := request; rec_status := Submitted |} →
  res_cache r !! request_id = None → request_id ∈ pubsub_cache r →
  from_encoded (Request.point request) = Ok X → in_subgroup X → X ≠ ZERO →
  request_hash_of request = Some hash → (hash ∉ batch_cache r) →
  ae_redis env GetProofs = true → ae_redis env SetProofs = true → batch_size r < TASK_SIZE →
  (∀ pr : DLEQProof (C:=CS), is_Some (proof_to_json CS pr)) →
  Forall (honest_answer (method request) X p r) (l ++ late) →
  good_indices (F:=FieldEl (Curve:=CS)) l.*1.*1 →
  Z.of_nat (length l) = rl_t r → 0 < rl_t r < 2 ^ 32 →
  (length (coefficients p) ≤ length l)%nat → eval p 0%F ≠ 0%F →
  ∃ w', app_run CS CB (F:=F) env
          ((λ a, ProcessReceivedProofSecp256k1 a.1.1 a.1.2 request_id a.2 (method request))
             <$> l ++ late) w
        = (w', [Publish request_id (VerifiedProofSecp256k1 request_id
                                      (fmul_point X (eval p 0%F)));
                request_info CS CB request_id request r l], HOk).
Proof.
  intros. eapply (served_run CS CB (C:=CS) SECP256K1_NAME env request_id hash (method request)
    request X p (VerifiedProofSecp256k1 request_id)); try done.
  - apply secp_answer.
  - split_and!; try done. by eexists.
Qed.
End ServiceClaims.

(** ** The monitor of a quorum *)
Section Monitor.
Context {CS CB : Curve} `{E : Eth} {F : Type}.
Implicit Types (r : RelayState) (o : list (AppOutput CS CB F)).
Abbreviation tick := (monitor_tick CS CB (F:=F)).
Abbreviation monitor := (monitor_quorum_formation CS CB (F:=F)).

(** What a monitor emits when it ends. *)
Definition monitor_success (multipliers : list ProverInfo) o : Prop :=
  o = [ToSelf AppSaveCurrentState; GossipOut SaveCurrentState; KafkaQuorum true multipliers].
Definition monitor_timeout (event : MonitorEvent) (multipliers : list ProverInfo) o : Prop :=
  match event with
  | MonitorDKG => o = [ToElection FirstElection]
  | _ => ∃ retry, o = [ToSelf AppRollbackToPreviousState; GossipOut RollbackToPreviousState] ++ retry
           ++ [KafkaQuorum false multipliers] ∧ (retry = [] ∨ retry = [ScheduleResharing])
  end.

(** The state the monitor sees at tick [k]. *)
Fixpoint monitor_sees (target : nat) (event : MonitorEvent) (multipliers : list ProverInfo)
    (others : nat → RelayState → RelayState) (k : nat) r : RelayState :=
  match k with
  | O => others O r
  | S k => others (S k) (tick target event multipliers k
                           (monitor_sees target event multipliers others k r)).1.2
  end.

Lemma tick_continues target event mult k r : no_of_shares_received r ≠ Z.of_nat target →
  (S k < DKG_RESHARING_WAIT_TIME)%nat → tick target event mult k r = (Some (S k), r, []).
Proof.
  intros Hne Hk. unfold monitor_tick. rewrite (proj2 (Z.eqb_neq _ _)) by done.
  by rewrite (proj2 (Nat.leb_gt _ _)).
Qed.

Lemma tick_ends target event mult k r : event = MonitorDKG ∨ event = MonitorResharing →
  no_of_shares_received r = Z.of_nat target ∨ (DKG_RESHARING_WAIT_TIME ≤ S k)%nat →
  ∃ r' o, tick target event mult k r = (None, r', o) ∧
    (no_of_shares_received r = Z.of_nat target → monitor_success mult o) ∧
    (no_of_shares_received r ≠ Z.of_nat target → monitor_timeout event mult o).
Proof.
  intros He Hend. unfold monitor_tick.
  destruct (Z.eqb_spec (no_of_shares_received r) (Z.of_nat target)) as [Heq|Hne].
  - eexists _, _. split; [done|]. split; [done|congruence].
  - destruct Hend as [|Hk]; [done|]. rewrite (proj2 (Nat.leb_le _ _)) by done.
    destruct He as [-> | ->]; cbn; [eexists _, _; split_and!; [done|done|done]|].
    case_match; eexists _, _; (split_and!; [done|done|]); intros _;
      [exists [ScheduleResharing]|exists []]; auto.
Qed.

(** The monitor from tick [k] on. *)
Lemma monitor_loop_ends target event mult others r fuel : ∀ k,
  event = MonitorDKG ∨ event = MonitorResharing → (k < DKG_RESHARING_WAIT_TIME)%nat →
  (DKG_RESHARING_WAIT_TIME ≤ k + fuel)%nat →
  (∀ i, (i < k)%nat → no_of_shares_received (monitor_sees target event mult others i r) ≠ Z.of_nat target) →
  ∀ s, others k s = monitor_sees target event mult others k r →
  ∃ i r' o, (k ≤ i < DKG_RESHARING_WAIT_TIME)%nat ∧
    monitor_loop CS CB fuel target event mult others k s = Some (r', o) ∧
    (∀ j, (j < i)%nat → no_of_shares_received (monitor_sees target event mult others j r) ≠ Z.of_nat target) ∧
    let final := no_of_shares_received (monitor_sees target event mult others i r) in
    (final = Z.of_nat target → monitor_success mult o) ∧
    (final ≠ Z.of_nat target → i = pred DKG_RESHARING_WAIT_TIME ∧ monitor_timeout event mult o).
Proof.
  induction fuel as [|fuel IH]; intros k He Hk Hfuel Hbefore s Hs; [lia|].
  cbn [monitor_loop]. rewrite Hs.
  set (sk := monitor_sees target event mult others k r) in *.
  destruct (decide (no_of_shares_received sk = Z.of_nat target)) as [Heq|Hne].
  - destruct (tick_ends target event mult k sk) as (r' & o & -> & Hok & _); [done|by left|].
    exists k, r', o. split_and!; [lia|lia|done|done|by intros; apply Hok|by fold sk; intros []].
  - destruct (decide (S k < DKG_RESHARING_WAIT_TIME)%nat) as [Hlt|Hge].
    + rewrite tick_continues by done.
      destruct (IH (S k) He Hlt) with (s := sk) as (i & r' & o & Hi & Hrun & Hb & Hfin); [lia| | |].
      * intros i Hi. destruct (decide (i = k)) as [->|]; [done|]. apply Hbefore. lia.
      * cbn [monitor_sees]. fold sk. by rewrite tick_continues.
      * exists i, r', o. split_and!; [lia|lia|done|done|apply Hfin..].
    + destruct (tick_ends target event mult k sk) as (r' & o & -> & _ & Hto); [done|right; lia|].
      exists k, r', o. split_and!; [lia|lia|done|done|done|]. intros _. split; [lia|by apply Hto].
Qed.

(** C21: The monitor of a key generation or resharing ends within 120 ticks, whatever the
    actor does in between, and with one of two outcomes.  If at some tick, the first such
    one, the number of key shares received is the number expected, the state is saved on
    the relay and on every node; otherwise at the 120th tick the key generation is started
    again or the resharing is rolled back. *)
Theorem monitor_terminates (target : nat) (event : MonitorEvent) (multipliers : list ProverInfo)
    (others : nat → RelayState → RelayState) r :
  event = MonitorDKG ∨ event = MonitorResharing →
  ∃ i r' o, (i < DKG_RESHARING_WAIT_TIME)%nat ∧
    monitor DKG_RESHARING_WAIT_TIME target event multipliers others r = Some (r', o) ∧
    (∀ j, (j < i)%nat →
      no_of_shares_received (monitor_sees target event multipliers others j r) ≠ Z.of_nat target) ∧
    let final := no_of_shares_received (monitor_sees target event multipliers others i r) in
    (final = Z.of_nat target → monitor_success multipliers o) ∧
    (final ≠ Z.of_nat target →
      i = pred DKG_RESHARING_WAIT_TIME ∧ monitor_timeout event multipliers o).
Proof.
  intros He.
  destruct (monitor_loop_ends target event multipliers others r DKG_RESHARING_WAIT_TIME 0 He)
    with (s := r) as (i & r' & o & Hi & Hrun & Hrest); [unfold DKG_RESHARING_WAIT_TIME; lia|done|lia|done|].
  exists i, r', o. split; [lia|]. split; [|done]. unfold monitor_quorum_formation.
  by destruct He as [-> | ->].
Qed.

(** ** Attempts at a resharing *)

(** [k] resharings in a row that time out because no share arrives, without a tick of the
    daily timer. *)
Fixpoint failed_resharings (k : nat) (target : nat) r : RelayState * list (AppOutput CS CB F) :=
  match k with
  | O => (r, [])
  | S k =>
      let '(_, r, o) := tick target MonitorResharing [] (pred DKG_RESHARING_WAIT_TIME)
                          (r <| no_of_shares_received := 0 |>) in
      let '(r, o') := failed_resharings k target r in (r, o ++ o')
  end.

Definition is_schedule (o : AppOutput CS CB F) : bool :=
  match o with ScheduleResharing => true | _ => false end.
Definition scheduled (o : list (AppOutput CS CB F)) : nat := length (filter is_schedule o).

Lemma scheduled_cons x o : scheduled (x :: o) = ((if is_schedule x then 1 else 0) + scheduled o)%nat.
Proof. unfold scheduled. rewrite filter_cons. by destruct (is_schedule x). Qed.

(** Resharing is not attempted for ever: when the first resharing after a tick of the
    daily timer and all the attempts after it fail, four more attempts are scheduled (one
    more than [MAX_RESHARING_ATTEMPTS_AT_A_TIME]), however often it fails. *)
Theorem resharing_attempts_bounded (k target : nat) r :
  (0 < target)%nat → resharing_failure_count r = 0 →
  scheduled (failed_resharings k target r).2 = (k `min` 4)%nat.
Proof.
  intros Ht Hr. change 4%nat with (Z.to_nat (MAX_RESHARING_ATTEMPTS_AT_A_TIME + 1 - 0)). rewrite <- Hr.
  assert (0 ≤ resharing_failure_count r) as Hpos by lia. clear Hr. revert r Hpos.
  induction k as [|k IH]; intros r Hpos; [done|]. cbn [failed_resharings].
  unfold monitor_tick. cbn [no_of_shares_received]. rewrite (proj2 (Z.eqb_neq _ _)) by (cbn; unfold const; lia).
  change (DKG_RESHARING_WAIT_TIME <=? S (pred DKG_RESHARING_WAIT_TIME))%nat with true. cbn beta iota.
  cbn -[MAX_RESHARING_ATTEMPTS_AT_A_TIME failed_resharings scheduled]. unfold const.
  destruct (Z.leb_spec (resharing_failure_count r) MAX_RESHARING_ATTEMPTS_AT_A_TIME) as [Hle|Hgt];
    match goal with |- context [failed_resharings k target ?s] =>
      specialize (IH s); destruct (failed_resharings k target s) as [r2 o2] end;
    cbn [snd app] in *; rewrite ?scheduled_cons; cbn [is_schedule]; rewrite IH by (cbn; lia);
    cbn -[MAX_RESHARING_ATTEMPTS_AT_A_TIME Nat.min Z.to_nat Z.sub Z.add]; unfold MAX_RESHARING_ATTEMPTS_AT_A_TIME in *; destruct (Z.to_nat (3 + 1 - resharing_failure_count r)) eqn:?; lia.
Qed.
End Monitor.
