(* ===== verification/AppStateSafety.v ===== *)
(** * The state of the relay over time

    Which group keys are finalized, the bounds on what is stored, what a rollback
    restores, and which requests are forwarded. *)
From Stdlib Require Import ZArith Lia Ascii String.
From stdpp Require Import base list gmap sets strings pretty sorting.
From coqutil Require Import Datatypes.RecordSettersUsingExistingGetters.
Import RecordSetNotations.
From S2P Require Import Prelude PrimeField Curve ModelCurve Polynomial Dleq Reconstruct NodeSelection Serialization Request ConcreteCurves Messages AppState AppStateProofs.

(** ** Group keys *)
Section GroupKeys.
Context `{HO : HashOrder}.
Implicit Types (l : list KeyMap) (k : string) (v : list Z).

(** How many of the received maps have value [v] for key [k]. *)
Definition votes l k v : nat := length (filter (λ m : KeyMap, m !! k = Some v) l).

Definition count_of (cv : gmap string (gmap (list Z) Z)) k v : Z :=
  default 0 (default ∅ (cv !! k) !! v).

Lemma count_one_spec cv kv k v :
  count_of (count_one cv kv) k v = count_of cv k v + (if decide (kv = (k, v)) then 1 else 0).
Proof.
  destruct kv as [k' v']. unfold count_of, count_one. cbn [fst snd].
  destruct (decide (k' = k)) as [->|Hk].
  - rewrite lookup_insert_eq. cbn [default from_option id]. destruct (decide (v' = v)) as [->|Hv].
    + rewrite lookup_insert_eq, decide_True by done. done.
    + rewrite lookup_insert_ne, decide_False by (done || congruence). lia.
  - rewrite lookup_insert_ne, decide_False by (done || congruence). lia.
Qed.

Lemma count_map_spec cv (m : KeyMap) k v :
  count_of (foldl count_one cv (hm_iter m)) k v
  = count_of cv k v + (if decide (m !! k = Some v) then 1 else 0).
Proof.
  assert (NoDup (hm_iter m)) as Hnd by (rewrite hm_iter_perm; apply NoDup_map_to_list).
  assert (∀ kv, kv ∈ hm_iter m ↔ m !! kv.1 = Some kv.2) as Hin.
  { intros [k' v']. rewrite hm_iter_perm. apply elem_of_map_to_list. }
  assert (∀ kvs cv, NoDup kvs → count_of (foldl count_one cv kvs) k v
    = count_of cv k v + (if decide ((k, v) ∈ kvs) then 1 else 0)) as Hfold.
  { intros kvs. induction kvs as [|kv kvs IH]; intros cv' Hnd'; cbn [foldl].
    - rewrite decide_False by (intros ?%not_elem_of_nil; done). lia.
    - apply NoDup_cons in Hnd' as [Hni Hnd']. rewrite IH, count_one_spec by done.
      destruct (decide (kv = (k, v))) as [->|Hne].
      + rewrite (decide_False (P:=(k, v) ∈ kvs)), decide_True by (done || left). lia.
      + rewrite (decide_ext ((k, v) ∈ kv :: kvs) ((k, v) ∈ kvs)); [lia|].
        rewrite elem_of_cons. naive_solver. }
  rewrite Hfold by done. f_equal. apply decide_ext, (Hin (k, v)).
Qed.

Lemma count_values_spec l k v : count_of (count_values l) k v = Z.of_nat (votes l k v).
Proof.
  unfold count_values.
  assert (∀ cv, count_of (foldl (λ cv m, foldl count_one cv (hm_iter m)) cv l) k v
    = count_of cv k v + Z.of_nat (votes l k v)) as Hfold.
  { induction l as [|m l IH]; intros cv; cbn [foldl]; [unfold votes; cbn; lia|].
    rewrite IH, count_map_spec. unfold votes. rewrite filter_cons.
    destruct (decide (m !! k = Some v)); cbn [length]; lia. }
  specialize (Hfold ∅). unfold count_of in Hfold at 2. rewrite lookup_empty in Hfold. cbn in Hfold.
  exact Hfold.
Qed.

(** Every counted value has at least one vote, and a key that is counted has a value. *)
Lemma count_positive l k counts v c : count_values l !! k = Some counts → counts !! v = Some c →
  c = Z.of_nat (votes l k v) ∧ 0 < c.
Proof.
  intros Hk Hv. pose proof (count_values_spec l k v) as Hc. unfold count_of in Hc.
  rewrite Hk in Hc. cbn in Hc. rewrite Hv in Hc. cbn in Hc. split; [done|].
  assert (∀ kvs cv, (∀ k counts v c, cv !! k = Some counts → counts !! v = Some c → 0 < c) →
    ∀ k counts v c, foldl count_one cv kvs !! k = Some counts → counts !! v = Some c → 0 < c) as Hpos.
  { induction kvs as [|[k' v'] kvs IH]; intros cv Hcv; [done|]. cbn [foldl]. apply IH.
    intros k2 counts2 v2 c2. unfold count_one. cbn [fst snd].
    rewrite lookup_insert_Some. intros [[-> <-]|[_ H2]]; [|by eauto].
    rewrite lookup_insert_Some. intros [[-> <-]|[_ H3]].
    - destruct (cv !! k2) as [e|] eqn:He; cbn; [|by rewrite lookup_empty].
      destruct (e !! v2) eqn:Hv2; cbn; [|done]. pose proof (Hcv _ _ _ _ He Hv2). lia.
    - destruct (cv !! k2) as [e|] eqn:He; cbn in H3; [by eauto|by rewrite lookup_empty in H3]. }
  assert (∀ l cv, (∀ k counts v c, cv !! k = Some counts → counts !! v = Some c → 0 < c) →
    ∀ k counts v c, foldl (λ cv m, foldl count_one cv (hm_iter m)) cv l !! k = Some counts →
      counts !! v = Some c → 0 < c) as Hpos2.
  { induction l0 as [|m l0 IH]; intros cv Hcv; [done|]. cbn [foldl]. by apply IH, Hpos. }
  eapply (Hpos2 l ∅); [|exact Hk|exact Hv]. intros k0 ? ?. by rewrite lookup_empty.
Qed.

(** [max_by_key] returns an entry that no other exceeds. *)
Lemma max_by_count_spec (kvs : list (list Z * Z)) best :
  match foldl max_by_count best kvs with
  | Some (v, c) => ((v, c) ∈ kvs ∨ best = Some (v, c)) ∧
      (∀ vc, vc ∈ kvs → vc.2 ≤ c) ∧ (∀ vc, best = Some vc → vc.2 ≤ c)
  | None => best = None ∧ kvs = []
  end.
Proof.
  revert best. induction kvs as [|vc kvs IH]; intros best; cbn [foldl].
  - destruct best as [[v c]|]; [|done]. split; [by right|]. split; [intros ? []%not_elem_of_nil|].
    by intros ? [= <-].
  - specialize (IH (max_by_count best vc)).
    destruct (foldl max_by_count (max_by_count best vc) kvs) as [[v c]|].
    + destruct IH as (Hin & Hle & Hb). unfold max_by_count in *.
      destruct best as [[v0 c0]|]; [destruct (Z.leb_spec c0 vc.2)|].
      * pose proof (Hb vc eq_refl). split; [|split].
        -- destruct Hin as [|[= <-]]; left; [by right|left].
        -- intros x [->|Hx]%elem_of_cons; [done|by apply Hle].
        -- intros x [= <-]. cbn. lia.
      * pose proof (Hb (v0, c0) eq_refl) as Hb'. cbn in Hb'. split; [|split].
        -- destruct Hin as [|]; [left; by right|by right].
        -- intros x [->|Hx]%elem_of_cons; [lia|by apply Hle].
        -- intros x [= <-]. done.
      * pose proof (Hb vc eq_refl). split; [|split].
        -- destruct Hin as [|[= <-]]; left; [by right|left].
        -- intros x [->|Hx]%elem_of_cons; [done|by apply Hle].
        -- done.
    + destruct IH as [IH _]. unfold max_by_count in IH. destruct best as [[]|]; [case_match|]; done.
Qed.

Lemma resolve_spec l k v : resolve_conflicts_between_group_keys l !! k = Some v →
  (0 < votes l k v)%nat ∧ ∀ v', (votes l k v' ≤ votes l k v)%nat.
Proof.
  unfold resolve_conflicts_between_group_keys. rewrite lookup_omap.
  destruct (count_values l !! k) as [counts|] eqn:Hk; [|done]. cbn [mbind option_bind].
  pose proof (max_by_count_spec (hm_iter counts) None) as Hmax.
  destruct (foldl max_by_count None (hm_iter counts)) as [[v0 c]|]; [|done].
  cbn. intros [= ->]. destruct Hmax as ([Hin|] & Hle & _); [|done].
  rewrite hm_iter_perm in Hin. apply elem_of_map_to_list in Hin.
  destruct (count_positive l k counts v c Hk Hin) as [Hc Hpos]. split; [lia|].
  intros v'. pose proof (count_values_spec l k v') as Hv'. unfold count_of in Hv'. rewrite Hk in Hv'.
  cbn in Hv'. destruct (counts !! v') as [c'|] eqn:Hc'; cbn in Hv'; [|lia].
  assert (c' ≤ c); [|lia]. apply (Hle (v', c')). rewrite hm_iter_perm. by apply elem_of_map_to_list.
Qed.

Lemma resolve_some l k m v : m ∈ l → m !! k = Some v →
  is_Some (resolve_conflicts_between_group_keys l !! k).
Proof.
  intros Hm Hv. unfold resolve_conflicts_between_group_keys. rewrite lookup_omap.
  pose proof (count_values_spec l k v) as Hc. unfold count_of in Hc.
  assert (0 < votes l k v)%nat as Hpos.
  { unfold votes. assert (m ∈ filter (λ m : KeyMap, m !! k = Some v) l) as Hf by (by apply list_elem_of_filter).
    destruct (filter _ l); [by apply not_elem_of_nil in Hf|cbn; lia]. }
  destruct (count_values l !! k) as [counts|]; cbn in *; [|rewrite lookup_empty in Hc; cbn in Hc; lia].
  pose proof (max_by_count_spec (hm_iter counts) None) as Hmax.
  destruct (foldl max_by_count None (hm_iter counts)) as [[]|]; [by eexists|].
  destruct Hmax as [_ Hnil]. destruct (counts !! v) as [c|] eqn:Hcv; cbn in Hc; [|lia].
  assert ((v, c) ∈ hm_iter counts) as Hin by (rewrite hm_iter_perm; by apply elem_of_map_to_list).
  rewrite Hnil in Hin. by apply not_elem_of_nil in Hin.
Qed.

(** The finalized group key of a method is one that was sent, no value was sent more
    often, and a value that was sent strictly more often than every other one is the one
    that is taken, in whatever order the maps are iterated. *)
Theorem group_keys_majority l k v :
  (resolve_conflicts_between_group_keys l !! k = Some v →
    (0 < votes l k v)%nat ∧ ∀ v', (votes l k v' ≤ votes l k v)%nat) ∧
  ((∀ v', v' ≠ v → (votes l k v' < votes l k v)%nat) → (0 < votes l k v)%nat →
    resolve_conflicts_between_group_keys l !! k = Some v).
Proof.
  split; [apply resolve_spec|]. intros Hmost Hpos. unfold votes in Hpos.
  destruct (filter (λ m : KeyMap, m !! k = Some v) l) as [|m ms] eqn:Hf; [cbn in Hpos; lia|].
  assert (m ∈ filter (λ m : KeyMap, m !! k = Some v) l) as [Hv Hm]%list_elem_of_filter by (rewrite Hf; left).
  destruct (resolve_some l k m v Hm Hv) as [v0 Hv0]. rewrite Hv0. f_equal.
  destruct (decide (v0 = v)) as [|Hne]; [done|].
  apply resolve_spec in Hv0 as [_ Hle]. specialize (Hle v). specialize (Hmost v0 Hne). lia.
Qed.
End GroupKeys.

(** ** Bounds on what is stored *)
Section Bounds.
Context (CS CB : Curve) `{HH : Hashes} `{HO : HashOrder} `{E : Eth} `{J : !Jwt}
  `{RC : !RequestCodec CB CS} `{RG : Rng} `{AT : !AppTexts} {F : Type}.
Implicit Types (env : AppEnv CS CB) (r : RelayState) (w : AppWorld).

Definition short (n : nat) (m : KeyMap) : Prop := map_Forall (λ _ v, (length v ≤ n)%nat) m.
Definition result_counted (res : StoredMultResult) : Prop :=
  num_nodes res = u32 (Z.of_nat (length (mul_results res))).

Record relay_bounded r : Prop := {
  rb_shares : map_Forall (λ _, short 100) (pubkey_shares r);
  rb_received : Forall (short 200) (received_group_public_keys r);
  rb_finalized : short 200 (finalized_group_public_keys r);
  rb_results : map_Forall (λ _, result_counted) (res_cache r)
}.
Record db_bounded (db : AppDb) : Prop := {
  dbb_shares : map_Forall (λ _, short 100) (default ∅ (db_pubkey_shares db));
  dbb_finalized : short 200 (default ∅ (db_finalized db))
}.
Definition bounded w : Prop :=
  db_bounded (app_db w) ∧ match node_state w with Some (Relay r) => relay_bounded r | _ => True end.

Lemma check_memory_usage_spec (data : KeyMap) n ty :
  is_Ok (check_memory_usage data n ty) = true ↔ short n data.
Proof using.
  assert (short n data ↔ Forall (λ kv : string * list Z, (length kv.2 ≤ n)%nat) (hm_iter data)) as ->.
  { rewrite hm_iter_perm. unfold short. rewrite map_Forall_to_list. apply Forall_proper; [|done].
    by intros []. }
  unfold check_memory_usage. induction (hm_iter data) as [|[k v] l IH]; cbn [foldM].
  - split; [constructor|done].
  - rewrite Forall_cons. cbn [snd]. destruct (Nat.ltb_spec n (length v)); cbn.
    + split; [done|]. intros []. lia.
    + rewrite IH. naive_solver.
Qed.

Lemma resolve_short n l : Forall (short n) l → short n (resolve_conflicts_between_group_keys l).
Proof using.
  intros Hl k v Hv. apply resolve_spec in Hv as [Hpos _]. unfold votes in Hpos.
  destruct (filter (λ m : KeyMap, m !! k = Some v) l) as [|m ms] eqn:Hf; [cbn in Hpos; lia|].
  assert (m ∈ filter (λ m : KeyMap, m !! k = Some v) l) as [Hmv Hm]%list_elem_of_filter by (rewrite Hf; left).
  eapply Forall_forall in Hl; [|exact Hm]. by apply (Hl k v).
Qed.

Lemma push_result_counted curve i bs o : (∀ res, o = Some res → result_counted res) →
  result_counted (push_result curve i bs o).
Proof using.
  intros Ho. unfold push_result, result_counted in *. cbn -[u32]. unfold const. cbn -[u32].
  rewrite length_app. cbn -[u32]. destruct o as [res|]; cbn -[u32]; [|done].
  rewrite (Ho res eq_refl). unfold u32, wrap. rewrite Zplus_mod_idemp_l. f_equal. lia.
Qed.

(** Fields that do not matter for the bounds. *)
Lemma relay_bounded_ext r r' : relay_bounded r → pubkey_shares r' = pubkey_shares r →
  received_group_public_keys r' = received_group_public_keys r →
  finalized_group_public_keys r' = finalized_group_public_keys r → res_cache r' = res_cache r →
  relay_bounded r'.
Proof using. intros [] H1 H2 H3 H4. split; by rewrite ?H1, ?H2, ?H3, ?H4. Qed.

Lemma with_results r rid res : relay_bounded r → result_counted res →
  relay_bounded (r <| res_cache ::= <[rid := res]> |>).
Proof using.
  intros [] Hres. split; try done. cbn. unfold const. by apply map_Forall_insert_2.
Qed.

Lemma process_batch_bounded env h ps r : relay_bounded r →
  relay_bounded (process_batch CS CB (F:=F) env h ps r).1.1.
Proof using.
  intros Hr. unfold process_batch. cbv zeta. repeat case_match; cbn; by eapply (relay_bounded_ext _).
Qed.

Lemma process_verification_bounded {C : Curve} env rid h data res r :
  relay_bounded r → result_counted res →
  relay_bounded (process_verification CS CB (C:=C) (F:=F) env rid h data res r).1.1.
Proof using.
  intros Hr Hres. unfold process_verification. case_match; [|done].
  destruct (mapM _ _) as [points| |]; [|done..]. cbv zeta.
  destruct (threshold_unchecked _ _ ≫= _) as [encoded| |]; [|done..].
  set (r1 := r <| res_cache ::= _ |> <| req_cache ::= _ |>).
  assert (relay_bounded r1) as Hr1.
  { eapply relay_bounded_ext; [apply (with_results r rid (res <| reconstructed_point := Some encoded |>)); done|done..]. }
  clearbody r1.
  destruct (if bool_decide (rid ∈ pubsub_cache r1) then _ else _) as [[r2 o2] h2] eqn:Hd.
  assert (relay_bounded r2) as Hr2.
  { destruct (bool_decide (rid ∈ pubsub_cache r1)); [|by simplify_eq].
    destruct (fetch_reconstructed_point_v2 _ _ _ _ _); simplify_eq; [|done..].
    by apply (relay_bounded_ext r1). }
  clear Hd. destruct h2; [|done..]. case_match; [done|].
  match goal with |- context [process_batch CS CB env h ?a ?s] =>
    pose proof (process_batch_bounded env h a s) as Hb;
    destruct (process_batch CS CB env h a s) as [[r3 o] hh] end.
  cbn in *. apply Hb. by apply (relay_bounded_ext r2).
Qed.

Lemma process_received_proof_bounded {C : Curve} curve env i peer rid pr m w : bounded w →
  bounded (process_received_proof CS CB (C:=C) (F:=F) curve env i peer rid pr m w).1.1.
Proof using.
  intros Hw. pose proof Hw as [Hdb Hr]. unfold process_received_proof.
  destruct (node_state w) as [[r|p|]|] eqn:Hst; [|exact Hw..].
  destruct (check_proof peer rid pr m r) as [[[[data pk] mp] result]| |]; [|exact Hw..].
  destruct (encode result) as [encoded| |]; [|exact Hw..]. cbv zeta.
  assert (result_counted (push_result curve i encoded (res_cache r !! rid))) as Hpush.
  { apply push_result_counted. intros res Hres. destruct Hr as [_ _ _ Hr]. by apply (Hr rid). }
  set (res := push_result curve i encoded (res_cache r !! rid)) in *. clearbody res.
  pose proof (with_results r rid res Hr Hpush) as Hr1.
  set (r1 := r <| res_cache ::= <[rid := res]> |>) in *. clearbody r1.
  assert (∀ d, relay_bounded (r1 <| req_cache ::= <[rid := d]> |>)) as Hd
    by (intros d; by apply (relay_bounded_ext r1)).
  destruct (proof_to_json C pr) as [js|]; [|by split].
  destruct (request_hash_of (rec_request data)) as [h|]; [|by split].
  case_match; [split; [done|apply Hd]|]. case_match; [split; [done|apply Hd]|].
  destruct (encode pk ≫= _) as [[pkb mpb]| |]; [|split; [done|apply Hd]..].
  unfold store_proof. destruct (ae_redis env SetProofs); [|split; [done|apply Hd]]. cbv zeta.
  match goal with |- context [process_verification CS CB env rid h ?d ?c ?s] =>
    pose proof (process_verification_bounded (C:=C) env rid h d c s) as Hb;
    destruct (process_verification CS CB env rid h d c s) as [[r2 o] hh] end.
  split; [done|]. cbn in *. apply Hb; [|done].
  by apply (relay_bounded_ext _ _ (Hd (data <| rec_status := ConstructedProof |>))).
Qed.

Lemma on_relay_bounded f w : bounded w → (∀ r, relay_bounded r → relay_bounded (f r)) →
  bounded (on_relay f w).
Proof using.
  intros [Hdb Hr] Hf. unfold on_relay. destruct (node_state w) as [[]|] eqn:Hst;
    split; cbn; rewrite ?Hst; auto.
Qed.

Lemma handle_plain_bounded env m w : bounded w →
  bounded (handle_plain CS CB (F:=F) env m w).1.1.
Proof using.
  intros Hw. pose proof Hw as [Hdb Hr]. destruct m; cbn [handle_plain fst].
  - apply on_relay_bounded; [done|]. intros r0 Hr0. destruct is_cache; by apply (relay_bounded_ext r0).
  - unfold update_threshold. destruct (node_state w) as [[r|p|]|] eqn:Hst; [|done..].
    split; [done|]. by apply (relay_bounded_ext r).
  - unfold update_node_idx. destruct (node_state w) as [[]|] eqn:Hst; done.
  - destruct (node_state w) as [[]|] eqn:Hst; done.
  - apply on_relay_bounded; [done|]. intros r0 Hr0. by apply (relay_bounded_ext r0).
  - apply on_relay_bounded; [done|]. intros r0 Hr0. split; try apply Hr0. apply map_Forall_empty.
  - destruct (node_state w) as [[]|]; done.
  - destruct (node_state w) as [[r|p|]|] eqn:Hst; [|done..].
    split; [done|]. by apply (relay_bounded_ext r).
  - done.
  - apply on_relay_bounded; [done|]. clear Hr Hw. intros r0 Hr0.
    destruct (_ && _ && _) eqn:Hc; [|done]. rewrite !andb_true_iff, !check_memory_usage_spec in Hc.
    destruct Hc as [[_ Hs] Hg], Hr0 as [H1 H2 H3 H4]. cbv zeta.
    assert (map_Forall (λ _, short 100) (<[peer:=pubshares]> (pubkey_shares r0))) as Hs'
      by (by apply map_Forall_insert_2).
    assert (Forall (short 200) (received_group_public_keys r0 ++ [group_keys])) as Hg'
      by (apply Forall_app; split; [done|by apply Forall_singleton]).
    case_match; split; try done. by apply resolve_short.
  - apply on_relay_bounded; [done|]. clear Hr Hw. intros r0 Hr0.
    destruct (is_Ok _) eqn:Hc; [|done]. rewrite check_memory_usage_spec in Hc. cbv zeta.
    case_match; [|by apply (relay_bounded_ext r0)]. destruct Hr0 as [H1 H2 H3 H4].
    case_match; split; try done; by apply map_Forall_insert_2.
  - unfold handle_plain. destruct (node_state w) as [[r|p|]|] eqn:Hst; [|done..].
    apply on_relay_bounded; [done|]. intros r0 Hr0. by apply (relay_bounded_ext r0).
  - unfold backup_state. destruct (node_state w) as [[r|p|]|] eqn:Hst; [| |done..];
      (split; [|cbn; rewrite Hst; done]); [split; apply Hr|by destruct Hdb].
  - unfold rollback_to_previous_state. cbv zeta.
    destruct (node_state w) as [[r|p|]|] eqn:Hst; [|done..].
    destruct (if bool_decide _ then _ else _) as [nodes st]. split; [done|].
    destruct Hr as [H1 H2 H3 H4], Hdb as [D1 D2]. by split.
  - unfold save_current_state. destruct (node_state w) as [[r|p|]|] eqn:Hst; [| |done..];
      (split; [|cbn; rewrite Hst; done]); [split; apply Hr|by destruct Hdb].
Qed.

Lemma handle_mul_bounded env q fwd rid w : bounded w →
  bounded (handle_multiplication_request CS CB (F:=F) env q fwd rid w).1.1.
Proof using.
  intros Hw. pose proof Hw as [Hdb Hr]. unfold handle_multiplication_request.
  destruct (node_state w) as [[r|p|]|]; [|exact Hw..]. cbv zeta.
  set (r1 := (if _ && _ then _ else r) <| pubsub_cache ::= _ |>).
  assert (relay_bounded r1) as Hr1 by (unfold r1; case_match; by apply (relay_bounded_ext r)).
  clearbody r1. case_match; [by split|]. case_match; [by split|].
  assert (∀ r2 o, account_signed CS CB (F:=F) rid q r1 = Ok (r2, o) → relay_bounded r2) as Hacc.
  { unfold account_signed. intros r2 o. destruct (recover CB CS q); [|by intros [= <- _]|done].
    destruct (account_request_from_signer _ _ _ _ _) as [[[? ?] ?]| |]; [|done..].
    intros [= <- _]. by apply (relay_bounded_ext r1). }
  destruct (account_signed CS CB rid q r1) as [[r2 o]| |]; [|by split..].
  specialize (Hacc r2 o eq_refl).
  match goal with |- context [match ?x with Ok _ => _ | Err _ => _ | Panic => _ end] => destruct x end;
    [|by split..]. split; [done|]. by apply (relay_bounded_ext r2).
Qed.

Lemma app_handle_bounded env m w : bounded w → bounded (app_handle CS CB (F:=F) env m w).1.1.
Proof using.
  intros Hw. pose proof Hw as [Hdb Hr]. destruct m; cbn [app_handle].
  - by apply handle_plain_bounded.
  - unfold handle_state_request. by repeat case_match.
  - by apply handle_mul_bounded.
  - unfold process_request. by repeat case_match.
  - by apply process_received_proof_bounded.
  - by apply process_received_proof_bounded.
  - unfold fetch_reconstructed_point. by repeat case_match.
  - unfold fetch_key_share. by repeat case_match.
  - unfold restore_key_share. destruct (node_state w) as [[r|p|]|]; [exact Hw| |exact Hw..].
    split; [by destruct Hdb|done].
  - unfold fetch_election_state. by repeat case_match.
  - unfold restore_election_state. destruct (node_state w) as [[r|p|]|]; [exact Hw| |exact Hw..].
    destruct (relay_rpc_url _); [|exact Hw..]. destruct (ae_relay_answer env _) as [[]|]; try exact Hw.
    split; [by destruct Hdb|done].
  - unfold sync_peer_data, send_or_fail.
    destruct (node_state w) as [[r|p|]|]; [|case_match; exact Hw..].
    case_match; (split; [done|]); by apply (relay_bounded_ext r).
  - unfold fetch_election_info, send_or_fail. by repeat case_match.
  - unfold quic_ping. destruct (node_state w) as [[r|p|]|]; [|exact Hw..]. split; [done|]. cbn.
    unfold populate_provers_cache. case_match; [by apply (relay_bounded_ext r)|done].
  - unfold fetch_voting_power. destruct (node_state w) as [[r|p|]|]; [|exact Hw..]. split; [done|]. cbn.
    unfold populate_provers_cache. case_match; [by apply (relay_bounded_ext r)|done].
  - unfold forward_error_response. by repeat case_match.
  - unfold set_resharing_enabled. destruct (node_state w) as [[r|p|]|]; [|exact Hw..].
    split; [done|]. by apply (relay_bounded_ext r).
  - unfold fetch_finalized_group_pubkeys. by repeat case_match.
Qed.

(** C22: What the relay stores stays within bounds, whatever messages it gets.  From a start
    with a database within the bounds, after any messages, every public key share has at
    most 100 bytes, every received and every finalized group key at most 200, and a
    request's count of answers is the number of answers stored for it; and so has the
    database. *)
Theorem stored_state_bounded env (peer relay_peer : PeerId) (ty : NodeType)
    (addr : list Protocol) (db : AppDb) (rd : RedisStore) (ms : list (AppMessage CS CB)) :
  db_bounded db →
  bounded (app_run CS CB (F:=F) env ms (pre_start CS CB env peer relay_peer ty addr db rd)).1.1.
Proof using.
  intros Hdb.
  assert (bounded (pre_start CS CB env peer relay_peer ty addr db rd)) as Hw.
  { destruct Hdb as [D1 D2]. unfold pre_start. destruct ty; (split; [by split|]); cbn; done. }
  revert Hw. generalize (pre_start CS CB env peer relay_peer ty addr db rd) as w.
  induction ms as [|m ms IH]; intros w Hw; [done|]. cbn [app_run].
  pose proof (app_handle_bounded env m w Hw) as Hm.
  destruct (app_handle CS CB env m w) as [[w1 o] h]. cbn in Hm. destruct h; [|done..].
  specialize (IH w1 Hm). by destruct (app_run CS CB env ms w1) as [[w2 o'] h'].
Qed.
End Bounds.

(** ** Saving and rolling back *)
Section Rollback.
Context (CS CB : Curve) `{HH : Hashes} `{HO : HashOrder} `{E : Eth} `{J : !Jwt}
  `{RC : !RequestCodec CB CS} `{RG : Rng} `{AT : !AppTexts} {F : Type}.
Implicit Types (env : AppEnv CS CB) (r : RelayState) (w : AppWorld).

(** The messages that write what a rollback reads. *)
Definition writes_db (m : AppMessage CS CB) : bool :=
  match m with
  | Plain BackupState | Plain AppSaveCurrentState | RestoreKeyShare _ | RestoreElectionState => true
  | _ => false
  end.

Definition kind w : option NodeType :=
  match node_state w with
  | Some (Relay _) => Some NodeRelay
  | Some (Prover _) => Some NodeProver
  | Some (Verifier _ _) => Some NodeVerifier
  | None => None
  end.

(** What a save keeps of a relay and of a prover. *)
Definition saved_relay r :=
  (rl_n r, rl_t r, rl_epsilon r, rl_new_provers r, rl_tstar_provers r, pubkey_shares r,
   finalized_group_public_keys r).
Definition saved_prover (p : ProverState) :=
  (pv_n p, pv_t p, pv_epsilon p, my_node_idx p, private_keyshares p, pv_new_provers p).

Definition same_db w w' : Prop := app_db w' = app_db w ∧ kind w' = kind w.

Lemma same_db_refl w : same_db w w.
Proof using. done. Qed.

Lemma same_db_relay w r r' : node_state w = Some (Relay r) → same_db w (with_state (Relay r') w).
Proof using. intros H. split; [done|]. unfold kind. cbn. by rewrite H. Qed.
Lemma same_db_prover w p p' : node_state w = Some (Prover p) → same_db w (with_state (Prover p') w).
Proof using. intros H. split; [done|]. unfold kind. cbn. by rewrite H. Qed.
Hint Resolve same_db_refl same_db_relay same_db_prover : core.

Lemma on_relay_same_db f w : same_db w (on_relay f w).
Proof using. unfold on_relay. destruct (node_state w) as [[]|] eqn:Hst; eauto. Qed.
Hint Resolve on_relay_same_db : core.

Local Ltac sdb := solve [cbn [fst]; eauto | cbn; eauto | done].

Lemma process_received_same_db {C : Curve} curve env i peer rid pr m w :
  same_db w (process_received_proof CS CB (C:=C) (F:=F) curve env i peer rid pr m w).1.1.
Proof using.
  unfold process_received_proof. destruct (node_state w) as [[r|p|]|] eqn:Hst; [|done..]. cbv zeta.
  destruct (check_proof peer rid pr m r) as [[[[data pk] mp] result]| |]; [|done..].
  destruct (encode result); [|done..].
  destruct (proof_to_json C pr), (request_hash_of (rec_request data)); cbn beta iota; try sdb.
  destruct (bool_decide _); [sdb|]. destruct (negb _); [sdb|].
  destruct (encode pk ≫= _) as [[]| |]; [|sdb..].
  destruct (store_proof _ _ _ _ _ _ _); [|sdb].
  destruct (process_verification _ _ _ _ _ _ _ _) as [[]]. sdb.
Qed.

Lemma app_handle_same_db env m w : writes_db m = false →
  same_db w (app_handle CS CB (F:=F) env m w).1.1.
Proof using.
  intros Hm. destruct m as [m| | | | | | | | | | | | | | | | |]; cbn [app_handle];
    try (apply process_received_same_db); try done.
  - destruct m; cbn [handle_plain fst]; try done; try apply on_relay_same_db.
    + unfold update_threshold. destruct (node_state w) as [[]|] eqn:Hst; sdb.
    + unfold update_node_idx. destruct (node_state w) as [[]|] eqn:Hst; sdb.
    + destruct (node_state w) as [[]|] eqn:Hst; sdb.
    + destruct (node_state w) as [[]|] eqn:Hst; sdb.
    + unfold handle_plain. destruct (node_state w) as [[]|] eqn:Hst; sdb.
    + unfold rollback_to_previous_state. cbv zeta. destruct (node_state w) as [[]|] eqn:Hst; try sdb.
      destruct (if bool_decide _ then _ else _). sdb.
  - unfold handle_state_request. destruct (node_state w) as [[]|]; done.
  - unfold handle_multiplication_request. destruct (node_state w) as [[r|p|]|] eqn:Hst; [|done..]. cbv zeta.
    set (r1 := (if _ && _ then _ else r) <| pubsub_cache ::= _ |>). clearbody r1.
    case_match; [sdb|]. case_match; [sdb|].
    destruct (account_signed _ _ _ _ _) as [[]| |]; [|sdb..].
    match goal with |- context [match ?x with Ok _ => _ | Err _ => _ | Panic => _ end] => destruct x end; sdb.
  - unfold process_request. by repeat case_match.
  - unfold fetch_reconstructed_point. by repeat case_match.
  - unfold fetch_key_share. by repeat case_match.
  - unfold fetch_election_state. by repeat case_match.
  - unfold sync_peer_data, send_or_fail. destruct (node_state w) as [[]|] eqn:Hst; case_match; sdb.
  - unfold fetch_election_info, send_or_fail. destruct (node_state w) as [[]|] eqn:Hst; case_match; sdb.
  - unfold quic_ping. destruct (node_state w) as [[]|] eqn:Hst; sdb.
  - unfold fetch_voting_power. destruct (node_state w) as [[]|] eqn:Hst; sdb.
  - unfold forward_error_response. destruct (node_state w) as [[]|] eqn:Hst; sdb.
  - unfold set_resharing_enabled. destruct (node_state w) as [[]|] eqn:Hst; sdb.
  - unfold fetch_finalized_group_pubkeys. destruct (node_state w) as [[]|] eqn:Hst; sdb.
Qed.

Lemma app_run_same_db env ms : ∀ w, Forall (λ m, writes_db m = false) ms →
  same_db w (app_run CS CB (F:=F) env ms w).1.1.
Proof using.
  induction ms as [|m ms IH]; intros w Hms; [done|]. apply Forall_cons in Hms as [Hm Hms].
  cbn [app_run]. pose proof (app_handle_same_db env m w Hm) as [H1 H2].
  destruct (app_handle CS CB env m w) as [[w1 o] h]. cbn in H1, H2. destruct h; [|done..].
  destruct (IH w1 Hms) as [H3 H4]. destruct (app_run CS CB env ms w1) as [[w2 o'] h']. cbn in *.
  split; cbn; congruence.
Qed.

(** C15: A rollback restores what was saved.  When a relay or a prover saves its state and
    then handles any messages that do not write the database (elections, shares,
    requests, a resharing that fails) and rolls back, it has again the parameters, the
    quorum, the index, the shares and the group keys it had; on the relay the active
    provers are those of the quorum, and the ready ones those that answer a ping. *)
Theorem rollback_restores env (ms : list (AppMessage CS CB)) w :
  Forall (λ m, writes_db m = false) ms →
  let w' := (app_run CS CB (F:=F) env ms (save_current_state w)).1.1 in
  let w'' := rollback_to_previous_state CS CB env w' in
  match node_state w with
  | Some (Relay r) => ∃ r', node_state w'' = Some (Relay r') ∧ saved_relay r' = saved_relay r ∧
      active_provers r' = (hm_values (rl_new_provers r)).*1 ∧
      ready_nodes r' = default ∅ (ping_nodes (ae_ping env) (rl_new_provers r))
  | Some (Prover p) => ∃ p', node_state w'' = Some (Prover p') ∧ saved_prover p' = saved_prover p
  | _ => True
  end.
Proof using.
  intros Hms w' w''. destruct (app_run_same_db env ms (save_current_state w) Hms) as [Hdb Hk].
  fold w' in Hdb, Hk. clearbody w'. subst w''.
  unfold save_current_state, kind in *. destruct (node_state w) as [[r|p|]|] eqn:Hst; [| |done..].
  - cbn in Hk. rewrite Hst in Hk. unfold rollback_to_previous_state.
    destruct (node_state w') as [[r'|p'|]|] eqn:Hst'; try done.
    rewrite Hdb. cbn. unfold const. destruct (decide (rl_new_provers r = ∅)) as [Hemp|Hne].
    + rewrite bool_decide_eq_true_2 by done. eexists. split; [done|]. split; [done|]. split; [done|].
      cbn. unfold ping_nodes. rewrite Hemp.
      assert (hm_values (∅ : QuorumMap) = []) as ->.
      { unfold hm_values. assert (hm_iter (∅ : QuorumMap) ≡ₚ []) as Hnil%Permutation_nil_r; [|by rewrite Hnil].
        rewrite hm_iter_perm. by rewrite map_to_list_empty. }
      cbn. by rewrite bool_decide_eq_true_2.
    + rewrite bool_decide_eq_false_2 by done.
      destruct (ping_nodes (ae_ping env) (rl_new_provers r)); eexists; split_and!; done.
  - cbn in Hk. rewrite Hst in Hk. unfold rollback_to_previous_state.
    destruct (node_state w') as [[r'|p'|]|] eqn:Hst'; try done.
    rewrite Hdb. eexists. split; [done|]. done.
Qed.
End Rollback.

(** ** Which requests are forwarded *)
Section Admission.
Context (CS CB : Curve) {CL : CurveLaws CS} `{HH : Hashes} `{HO : HashOrder} `{E : Eth} `{J : !Jwt}
  `{RC : !RequestCodec CB CS} `{RG : Rng} `{AT : !AppTexts} {F : Type}.
Implicit Types (env : AppEnv CS CB) (r : RelayState) (w : AppWorld).
Add Field FE_field : (f_field_theory (F:=FieldEl (Curve:=CS))).

(** What accounting a forwarded request went through. *)
Definition accounted (q : RequestToNetwork) r r' (credits : list KafkaCredits) : Prop :=
  match recover CB CS q with
  | Ok usr => ∃ incr, account_request_from_signer CB CS q true (counters (redis (rl_common r)))
                      = Ok (incr, counters (redis (rl_common r')), credits)
  | _ => credits = [] ∧ rl_common r' = rl_common r
  end.

(** C20: What becomes of a request at the relay.  Unless a handler panics, either one error
    is published and neither the counters nor the batch nor the pending requests change;
    or the request is recorded and forwarded, and then enough nodes were ready, its epoch
    is the current one, and if it is signed it was charged to its signer.  A request
    without a valid signature is forwarded without any accounting. *)
Theorem mul_request_branches env (q : RequestToNetwork) (request_id : string) r w w' o :
  node_state w = Some (Relay r) →
  app_handle CS CB (F:=F) env (MulRequest q request_id) w = (w', o, HOk) →
  ∃ r', node_state w' = Some (Relay r') ∧
    ((∃ message, o = [Publish request_id (ErrorResponse request_id message)] ∧
        rl_common r' = rl_common r ∧ batch_size r' = batch_size r ∧ req_cache r' = req_cache r ∧
        monitor_request_queue r' = monitor_request_queue r) ∨
     (∃ peers credits, o = (KafkaCredit <$> credits) ++ [ForwardRequest request_id q peers] ∧
        rl_t r ≤ Z.of_nat (size (ready_nodes r')) ∧ epoch q = current_epoch (rl_common r) ∧
        is_Some (req_cache r' !! request_id) ∧
        monitor_request_queue r' = monitor_request_queue r ++ [request_id] ∧
        accounted q r r' credits)).
Proof using.
  intros Hw. cbn [app_handle]. unfold handle_multiplication_request. rewrite Hw. cbv zeta.
  set (r1 := (if _ && _ then _ else r) <| pubsub_cache ::= _ |>).
  assert (rl_common r1 = rl_common r ∧ batch_size r1 = batch_size r ∧ req_cache r1 = req_cache r ∧
    monitor_request_queue r1 = monitor_request_queue r ∧ rl_t r1 = rl_t r) as (H1 & H2 & H3 & H4 & H5)
    by (unfold r1; case_match; done).
  clearbody r1. destruct (Z.ltb_spec (Z.of_nat (size (ready_nodes r1))) (rl_t r1)) as [|Hready].
  { intros [= <- <-]. exists r1. split; [done|]. left. by eexists. }
  destruct (Z.eqb_spec (epoch q) (current_epoch (rl_common r1))) as [Hep|]; cbn [negb].
  2:{ intros [= <- <-]. exists r1. split; [done|]. left. by eexists. }
  destruct (account_signed CS CB request_id q r1) as [[r2 cr]|msg|] eqn:Hacc; [| |done].
  2:{ intros [= <- <-]. exists r1. split; [done|]. left. by eexists. }
  match goal with |- context [match ?x with Ok _ => _ | Err _ => _ | Panic => _ end] => destruct x end; [|done..].
  intros [= <- <-]. eexists. split; [done|]. right.
  unfold account_signed in Hacc. unfold accounted. destruct (recover CB CS q) as [usr| |] eqn:Hrec; [| |done].
  - destruct (account_request_from_signer CB CS q true _) as [[[incr c'] credits]| |] eqn:Ha; [|done..].
    injection Hacc as <- <-. eexists _, credits. split; [done|].
    split_and!; [cbn; lia|congruence| |cbn; by rewrite H4|].
    + cbn. unfold const. rewrite lookup_partial_alter_eq. by eexists.
    + exists incr. rewrite <- H1. done.
  - injection Hacc as <- <-. eexists _, []. split; [done|].
    split_and!; [cbn; lia|congruence| |cbn; by rewrite H4|done|done].
    cbn. unfold const. rewrite lookup_partial_alter_eq. by eexists.
Qed.

(** C28: One prover alone can complete a request.  The relay does not tie the index of a
    proof to the peer that sent it: when one prover sends its valid proof [t] times under
    [t] different indices, the relay publishes that prover's own output, its share times
    the point, as the result. *)
Theorem single_prover_completes env request_id hash (request : RequestToNetwork)
    (X : Point (Curve:=CS)) (s : FieldEl (Curve:=CS)) nonce pr peer shares bs r w (l : list Z) :
  node_state w = Some (Relay r) →
  req_cache r !! request_id = Some {| rec_request := request; rec_status := Submitted |} →
  res_cache r !! request_id = None → request_id ∈ pubsub_cache r →
  from_encoded (Request.point request) = Ok X → in_subgroup X → X ≠ ZERO →
  request_hash_of request = Some hash → (hash ∉ batch_cache r) →
  ae_redis env GetProofs = true ∧ ae_redis env SetProofs = true → batch_size r < TASK_SIZE →
  (∀ pr : DLEQProof (C:=CS), is_Some (proof_to_json CS pr)) →
  pubkey_shares r !! peer = Some shares → shares !! share_name (method request) = Some bs →
  from_encoded bs = Ok (fmul_point G s) → s ≠ 0%F →
  DLEQProof_new nonce X (scalar_of_field s) = Ok pr →
  good_indices (F:=FieldEl (Curve:=CS)) l → Z.of_nat (length l) = rl_t r → 0 < rl_t r < 2 ^ 32 →
  ∃ w' info, app_run CS CB (F:=F) env
      ((λ i, ProcessReceivedProofSecp256k1 i peer request_id pr (method request)) <$> l) w
    = (w', [Publish request_id (VerifiedProofSecp256k1 request_id (fmul_point X s)); info], HOk).
Proof using CL.
  intros Hw Hreq Hres Hsub HX HXs HXn Hh Hb Hredis Hbs Hjson Hpk Hsh Hd Hs Hpr Hg Hlen Ht.
  set (p := from_coeffs [s] : Polynomial (FieldEl (Curve:=CS))).
  assert (∀ x, eval p x = s) as Hp by (intros x; rewrite eval_peval; cbn; ring).
  set (answers := (λ i, (i, peer, pr)) <$> l).
  assert (answers.*1.*1 = l) as Hidx.
  { unfold answers. rewrite <- !list_fmap_compose. apply list_fmap_id. }
  destruct (served_run CS CB (F:=F) (C:=CS) SECP256K1_NAME env request_id hash (method request) request X p
    (VerifiedProofSecp256k1 request_id) HX HXs HXn Hh Hredis Hjson (secp_answer CS CB request_id)
    (λ x, ProcessReceivedProofSecp256k1 x.1.1 x.1.2 request_id x.2 (method request)) ltac:(done)
    r answers [] w) as [w' Hrun].
  - split_and!; try done. by eexists.
  - rewrite app_nil_r. apply Forall_fmap, Forall_true. intros i. exists shares, bs, nonce. by rewrite !Hp.
  - unfold answers. by rewrite length_fmap.
  - done.
  - by rewrite Hidx.
  - unfold answers. rewrite length_fmap. cbn. lia.
  - by rewrite Hp.
  - done.
  - done.
  - rewrite app_nil_r, Hp in Hrun. exists w'. eexists. rewrite <- Hrun. f_equal.
    unfold answers. by rewrite <- list_fmap_compose.
Qed.
End Admission.
