(* ===== verification/Gossip.v ===== *)
(** * The gossip engine (crates/actors/src/gossip_engine_actor.rs)

    The listener owns the swarm: it routes gossiped messages to the actors, forwards
    requests to provers once a connection is up, routes their answers back, and starts
    the first election.  The swarm itself is not modelled: its events are the arguments
    of the handlers, and what the code asks it for is output.  Its three caches expire: every
    event comes with the time, in seconds, at which it is handled. *)
From Stdlib Require Import ZArith Lia Ascii String.
From stdpp Require Import base list gmap sets strings pretty.
From coqutil Require Import Datatypes.RecordSettersUsingExistingGetters.
Import RecordSetNotations.
From S2P Require Import Prelude Curve Dleq Request Messages AppState.

Definition PEER_DISCOVERY_WAIT_TIME : Z := 10.

(** messages/src/lib.rs. *)
Definition NETWORK_TOPIC : string := "main-net-alpha".

(** [LruCache::with_expiry_duration] of lru_time_cache: entries with the time of their last use.
    [get], [get_mut] and [insert] first drop the entries whose last use is more than the
    duration ago, and renew the time of theirs; [contains_key] looks at a live entry without
    renewing it; [remove] does not look at times. *)
Abbreviation TimeCache V := (gmap PeerId (Z * V)).
Definition expired (ttl now t : Z) : bool := t + ttl <? now.
Definition remove_expired {V} (ttl now : Z) (c : TimeCache V) : TimeCache V :=
  filter (λ kv, expired ttl now kv.2.1 = false) c.
Definition cache_get {V} (ttl now : Z) (key : PeerId) (c : TimeCache V) : TimeCache V * option V :=
  let c := remove_expired ttl now c in
  match c !! key with
  | Some (_, v) => (<[key := (now, v)]> c, Some v)
  | None => (c, None)
  end.
Definition cache_insert {V} (ttl now : Z) (key : PeerId) (v : V) (c : TimeCache V) : TimeCache V :=
  <[key := (now, v)]> (remove_expired ttl now c).
Definition contains_key {V} (ttl now : Z) (key : PeerId) (c : TimeCache V) : bool :=
  match c !! key with Some (t, _) => negb (expired ttl now t) | None => false end.

(** The durations of the three caches. *)
Definition CACHED_DATA_EXPIRY : Z := 600.
Definition PING_SENDER_EXPIRY : Z := 60.
Definition KAFKA_PING_EXPIRY : Z := 12 * 60 * 60.

Section Gossip.
Context {CS CB : Curve} `{E : Eth} `{AT : !AppTexts} {F : Type}.

(** What travels between nodes: a message of [Messages] or a forwarded request. *)
Inductive NetMessage :=
  | Gossiped (m : Message)
  | ForwardMulRequest (request_id : string) (request : RequestToNetwork).

(** [GossipEngineListener]; the swarm and the channels are not data. *)
Record Listener := {
  ls_peer_id : PeerId;
  ls_relay_peer_id : PeerId;
  ls_node_type : NodeType;
  polled : bool;
  cached_data : TimeCache (list NetMessage);
  bootstrap_addresses : list (PeerId * string);
  ping_sender : TimeCache unit;
  has_kafka : bool;
  successful_kafka_ping_cache : TimeCache unit
}.

(** What the listener does: messages to the actors, requests to the swarm, answers on
    the channel of a ping, and Kafka records. *)
Inductive GossipOutput :=
  | CastElection (m : ElectionEngineMessage F)
  | CastDkg (m : DkgEngineMessage)
  | CastApp (m : AppMessage CS CB)
  | SendRequest (peer : PeerId) (m : NetMessage)
  | SendResponse (peer : PeerId) (response : AppResponse CS CB)
  | PublishOn (topic : string) (m : Message)
  | SubscribeTo (topic : string)
  | Dial (address : string)
  | DialPeer (peer : PeerId) (address : list Protocol)
  | AddAddress (peer : PeerId) (address : list Protocol)
  | BootstrapKad
  | BlacklistPeer (peer : PeerId)
  | UnblacklistPeer (peer : PeerId)
  | PingAnswer (peer : PeerId) (response : Response)
  | KafkaReachability (peer : PeerId) (success : bool)
  | GetClosestPeers.

(** [GossipEngineListener::new]: the first election is only triggered when the database
    has no public key shares. *)
Definition Listener_new (peer relay_peer : PeerId) (ty : NodeType)
    (bootstrap : option (list (PeerId * string))) (kafka : bool) (db : AppDb) : Listener :=
  let shares := default ∅ (db_pubkey_shares db) in
  {| ls_peer_id := peer; ls_relay_peer_id := relay_peer; ls_node_type := ty;
     polled := bool_decide (shares ≠ ∅); cached_data := ∅;
     bootstrap_addresses := default [] bootstrap; ping_sender := ∅; has_kafka := kafka;
     successful_kafka_ping_cache := ∅ |}.

Implicit Types (ls : Listener) (o : GossipOutput).

Definition is_relay ls : bool := bool_decide (ls_peer_id ls = ls_relay_peer_id ls).
Definition only (b : bool) (m : GossipOutput) : outcome string (list GossipOutput) :=
  Ok (if b then [m] else []).

(** The arms of [process_message] for the rounds of the key generation and the resharing:
    reports are for the relay, starts for the others. *)
Definition process_status_message ls (m : Message) : option (outcome string (list GossipOutput)) :=
  let for_relay m := Some (only (is_relay ls) (CastElection m)) in
  let for_others m := Some (only (negb (is_relay ls)) m) in
  match m with
  | ReportElectionNodeStatus peer => for_relay (RecordElectionNodeStatus peer)
  | ReportReElectionNodeStatus peer => for_relay (RecordRelectionNodeStatus peer)
  | StartDKGInit => for_others (CastElection ElectionStartDKGInit)
  | StartResharingInit => for_others (CastElection ElectionStartResharingInit)
  | DKGInitCompleted peer => for_relay (RecordDKGInitNodeStatus peer)
  | ResharingInitCompleted peer => for_relay (RecordResharingInitNodeStatus peer)
  | StartDKGRound1 => for_others (CastDkg DkgStartDKGRound1)
  | StartResharingRound1 => for_others (CastDkg DkgStartResharingRound1)
  | DKGRound1Completed peer => for_relay (RecordDKGRound1NodeStatus peer)
  | ResharingRound1Completed peer => for_relay (RecordResharingRound1NodeStatus peer)
  | StartDKGRound2 => for_others (CastDkg DkgStartDKGRound2)
  | StartResharingRound2 => for_others (CastDkg DkgStartResharingRound2)
  | DKGRound2Completed peer => for_relay (RecordDKGRound2NodeStatus peer)
  | ResharingRound2Completed peer => for_relay (RecordResharingRound2NodeStatus peer)
  | StartDKGRound3 => for_others (CastDkg DkgStartDKGRound3)
  | StartResharingRound3 => for_others (CastDkg DkgStartResharingRound3)
  | _ => None
  end.

(** [process_message]: the messages that have no arm are [todo!()]. *)
Definition process_message ls (m : NetMessage) : outcome string (list GossipOutput) :=
  let plain m := CastApp (Plain m) in
  match m with
  | ForwardMulRequest _ _ => Panic
  | Gossiped m =>
      match m with
      | ElectedProvers info provers =>
          Ok [CastElection (CheckElectedStatus provers); plain (UpdatedThreshold info)]
      | ReElectedProvers info tstar new group_keys drand =>
          Ok (if is_relay ls then [] else
              [plain (UpdatedThreshold info);
               CastElection (CheckReElectedStatus info tstar new group_keys drand)])
      | Round1Out i outputs => Ok [CastDkg (DkgRound1Out i outputs)]
      | ResharingRound1Out i outputs => Ok [CastDkg (DkgResharingRound1Out i outputs)]
      | Round2Out i pubkeys => Ok [CastDkg (StoreReceivedPublicKey i pubkeys)]
      | ResharingRound2Out i pubkeys => Ok [CastDkg (StoreResharedReceivedPublicKey i pubkeys)]
      | Ready i peer pubshares group_keys => Ok [plain (StoreKSet peer pubshares i group_keys)]
      | ResharingPrepared i peer pubshares => Ok [plain (ResharingStoreKSet peer pubshares i)]
      | ReElection => Ok []
      | RollbackToPreviousState => Ok [plain AppRollbackToPreviousState]
      | SaveCurrentState => Ok [plain AppSaveCurrentState]
      | Subscribe _ | Unsubscribe _ | MessageText _ | AddToBlacklist _ | RemoveFromBlacklist _ => Panic
      | m => default Panic (process_status_message ls m)
      end
  end.

(** network/src/utils.rs: a loopback address is 127.x.x.x, the unspecified one 0.0.0.0. *)
Definition is_dialable_address (addr : list Protocol) : bool :=
  forallb (λ p, match p with
                | Ip4 octets => negb (bool_decide (head octets = Some 127)
                                      || bool_decide (octets = [0; 0; 0; 0]))
                | _ => true
                end) addr.

(** The events of the swarm.  [reply] of a request is what the application state sent on
    the request's channel before it was dropped, and [connected] whether the swarm has a
    connection to the peer. *)
Inductive SwarmEvent :=
  | GossipMessage (propagation_source : PeerId) (m : option NetMessage)
  | Subscribed (topic : string) (peer : PeerId)
  | IncomingRequest (peer : PeerId) (m : NetMessage) (reply : option (AppResponse CS CB))
  | IncomingResponse (peer : PeerId) (response : AppResponse CS CB)
  | ConnectionEstablished (peer : PeerId)
  | ConnectionClosed (peer : PeerId)
  | OutgoingConnectionError (peer : option PeerId)
  | PingEvent (peer : PeerId) (result : outcome string string)
  | IdentifyReceived (peer : PeerId) (listen_addrs : list (list Protocol)) (connected : bool)
  | NewExternalAddrOfPeer (peer : PeerId) (addr : list Protocol)
  | OtherEvent.

Definition GossipHandled : Type := Listener * list GossipOutput * HandlerResult.

Definition is_bootstrap (peer : PeerId) ls : bool :=
  existsb (λ b, bool_decide (b.1 = peer)) (bootstrap_addresses ls).

(** The answer of a prover is routed to the application state; an error is only logged. *)
Definition route_response (response : AppResponse CS CB) : list GossipOutput :=
  match response with
  | ConstructedProofSecp256k1 i peer request_id proof m =>
      [CastApp (ProcessReceivedProofSecp256k1 i peer request_id proof m)]
  | ConstructedProofBabyJubJub i peer request_id proof m =>
      [CastApp (ProcessReceivedProofBabyJubJub i peer request_id proof m)]
  | _ => []
  end.

Definition ping_event (now : Z) (peer : PeerId) (result : outcome string string) ls : GossipHandled :=
  let '(senders, tx) := cache_get PING_SENDER_EXPIRY now peer (ping_sender ls) in
  let answer success text :=
    if tx is Some _ then [PingAnswer peer (Response_new None success text)] else [] in
  let kafka success := if has_kafka ls then [KafkaReachability peer success] else [] in
  let ls' := ls <| ping_sender := if tx is Some _ then delete peer senders else senders |> in
  match result with
  | Ok duration =>
      let text := "Ping successful with " +:+ peer_to_string peer +:+ ", duration: " +:+ duration in
      if contains_key KAFKA_PING_EXPIRY now peer (successful_kafka_ping_cache ls) then (ls', answer true text, HOk)
      else (ls' <| successful_kafka_ping_cache ::= cache_insert KAFKA_PING_EXPIRY now peer tt |>,
            answer true text ++ kafka true, HOk)
  | Err e =>
      let text := "Ping failed with " +:+ peer_to_string peer +:+ ": " +:+ e in
      (ls', answer false text ++ kafka false, HOk)
  | Panic => (ls, [], HPanic)
  end.

(** The addresses of an identified peer: the dialable ones are registered, and dialled
    when there is no connection. *)
Definition identify_received (peer : PeerId) (listen_addrs : list (list Protocol)) (connected : bool)
    : list GossipOutput :=
  concat ((λ addr, if is_dialable_address addr then
                     AddAddress peer addr :: (if connected then [] else [DialPeer peer addr])
                   else []) <$> listen_addrs).

(** A connection is up: what waits for the peer is sent. *)
Definition connection_established (now : Z) (peer : PeerId) ls : GossipHandled :=
  match cache_get CACHED_DATA_EXPIRY now peer (cached_data ls) with
  | (c, Some messages) => (ls <| cached_data := delete peer c |>, SendRequest peer <$> messages, HOk)
  | (c, None) => (ls <| cached_data := c |>, [], HOk)
  end.

(** One event of the loop in [start], at the time [now]. *)
Definition on_swarm_event (now : Z) (ev : SwarmEvent) ls : GossipHandled :=
  match ev with
  | GossipMessage _ (Some m) =>
      match process_message ls m with
      | Ok outs => (ls, outs, HOk)
      | Err _ => (ls, [], HOk)
      | Panic => (ls, [], HPanic)
      end
  | GossipMessage _ None => (ls, [], HOk)
  | Subscribed _ _ =>
      if bool_decide (ls_node_type ls = NodeRelay) && negb (polled ls) then
        (ls <| polled := true |>, [CastElection FirstElection], HOk)
      else (ls, [], HOk)
  | IncomingRequest peer (ForwardMulRequest request_id request) reply =>
      (ls, CastApp (ProcessMulRequest request_id request) ::
           match reply with Some response => [SendResponse peer response] | None => [] end, HOk)
  | IncomingRequest _ (Gossiped _) _ => (ls, [], HOk)
  | IncomingResponse _ response => (ls, route_response response, HOk)
  | ConnectionEstablished peer => connection_established now peer ls
  | ConnectionClosed peer => (ls, if is_bootstrap peer ls then [BootstrapKad] else [], HOk)
  | OutgoingConnectionError None => (ls, [], HOk)
  | OutgoingConnectionError (Some peer) =>
      (ls <| cached_data ::= delete peer |>, if is_bootstrap peer ls then [BootstrapKad] else [], HOk)
  | PingEvent peer result => ping_event now peer result ls
  | IdentifyReceived peer listen_addrs connected =>
      (ls, identify_received peer listen_addrs connected, HOk)
  | NewExternalAddrOfPeer peer addr =>
      (ls, if bool_decide (peer = ls_peer_id ls) then [] else [AddAddress peer addr], HOk)
  | OtherEvent => (ls, [], HOk)
  end.

(** What the actor hands to the listener: a message with its topic and, for a forwarded
    request, the peers; or a ping. *)
Inductive ListenerInput :=
  | InMessage (m : NetMessage) (topic : string) (peers : option (list (PeerId * string)))
  | InPing (peer : PeerId) (addr : string).

(** A request to forward is added to what waits for the peer. *)
Definition cache_for (now : Z) (m : NetMessage) (ls : Listener) (pa : PeerId * string) : Listener :=
  ls <| cached_data ::= (λ c,
    match cache_get CACHED_DATA_EXPIRY now pa.1 c with
    | (c, Some messages) => <[pa.1 := (now, messages ++ [m])]> c
    | (c, None) => cache_insert CACHED_DATA_EXPIRY now pa.1 [m] c
    end) |>.

Definition on_input (now : Z) (i : ListenerInput) ls : GossipHandled :=
  match i with
  | InMessage (Gossiped (Subscribe topic)) _ _ => (ls, [SubscribeTo topic], HOk)
  | InMessage (Gossiped (AddToBlacklist peer)) _ _ => (ls, [BlacklistPeer peer], HOk)
  | InMessage (Gossiped (RemoveFromBlacklist peer)) _ _ => (ls, [UnblacklistPeer peer], HOk)
  | InMessage (Gossiped (Unsubscribe _)) _ _ => (ls, [], HOk)
  | InMessage (Gossiped (MessageText _)) _ _ => (ls, [], HOk)
  | InMessage (Gossiped m) topic _ => (ls, [PublishOn topic m], HOk)
  | InMessage (ForwardMulRequest request_id request) _ peers =>
      (foldl (cache_for now (ForwardMulRequest request_id request)) ls (default [] peers),
       (λ pa, Dial pa.2) <$> default [] peers, HOk)
  | InPing peer addr => (ls <| ping_sender ::= cache_insert PING_SENDER_EXPIRY now peer tt |>, [Dial addr], HOk)
  end.

(** The tick of peer discovery. *)
Definition discover_tick ls : GossipHandled := (ls, [GetClosestPeers], HOk).

(** [GossipEngineActor::handle]: what it hands to the listener; the queries are below. *)
Inductive GossipEngineMessage :=
  | GossipTo (m : NetMessage) (topic : string)
  | ForwardTo (m : NetMessage) (peers : list (PeerId * string))
  | SubscribeCmd (topic : string)
  | PingCmd (peer : PeerId) (addr : string)
  | ForwardToRelay (peer : PeerId)
  | UnsubscribeCmd (topic : string)
  | Block (peer : PeerId).

Definition gossip_handle (m : GossipEngineMessage) : list ListenerInput :=
  match m with
  | GossipTo m topic => [InMessage m topic None]
  | SubscribeCmd topic => [InMessage (Gossiped (Subscribe topic)) "" None]
  | ForwardTo m peers => [InMessage m "" (Some peers)]
  | PingCmd peer addr => [InPing peer addr]
  | ForwardToRelay _ | UnsubscribeCmd _ | Block _ => []
  end.

(** *** Queries of the swarm *)

(** What the swarm knows of its peers: those it is connected to, the mesh of a topic,
    gossipsub's peers and their scores. *)
Record SwarmView := {
  sw_connected_peers : list PeerId;
  sw_mesh_peers : string → list PeerId;
  sw_all_peers : list PeerId;
  sw_peer_score : PeerId → option F
}.

(** types.rs, [NodeResponse]: the answers to the queries. *)
Inductive PeersResponse :=
  | ConnectedPeers (count : Z) (connected_peers : list PeerId)
  | PeerScores (scores : list (PeerId * option F))
  | MeshPeers (count : Z) (mesh_peers : list PeerId)
  | PeersError (request_id message : string).

(** What becomes of the listener's answer: it comes within the five seconds, its channel
    is closed, or it is late. *)
Inductive Delivery := Delivered | Closed (e : string) | Late.

(** The three arms [GetConnectedPeers], [GetPeerScores] and [GetMeshPeers] of the actor,
    with those of the listener. *)
Definition answer_query {A} (what : string) (respond : A → PeersResponse) (d : Delivery) (a : A)
    : PeersResponse :=
  match d with
  | Delivered => respond a
  | Closed e => PeersError "" ("Failed to receive " +:+ what +:+ ": " +:+ e)
  | Late => PeersError "" ("Timeout while waiting for " +:+ what +:+ " response")
  end.
Definition handle_get_connected_peers (d : Delivery) (sw : SwarmView) : PeersResponse :=
  answer_query "connected peers" (λ l, ConnectedPeers (Z.of_nat (length l)) l) d
    (sw_connected_peers sw).
Definition handle_get_peer_scores (d : Delivery) (sw : SwarmView) : PeersResponse :=
  answer_query "peer score" PeerScores d ((λ peer, (peer, sw_peer_score sw peer)) <$> sw_all_peers sw).
Definition handle_get_mesh_peers (d : Delivery) (sw : SwarmView) : PeersResponse :=
  answer_query "mesh peers" (λ l, MeshPeers (Z.of_nat (length l)) l) d
    (sw_mesh_peers sw NETWORK_TOPIC).

(** How the outputs of the other actors reach the gossip engine. *)
Definition gossip_of_app (o : AppOutput CS CB F) : list GossipEngineMessage :=
  match o with
  | GossipOut m => [GossipTo (Gossiped m) NETWORK_TOPIC]
  | ForwardRequest request_id request peers => [ForwardTo (ForwardMulRequest request_id request) peers]
  | PingPeer peer addr => [PingCmd peer addr]
  | _ => []
  end.

(** A run of the listener over events and inputs, each with its time. *)
Definition on_any (now : Z) (i : SwarmEvent + ListenerInput) ls : GossipHandled :=
  match i with inl ev => on_swarm_event now ev ls | inr i => on_input now i ls end.
Fixpoint listener_run (inputs : list (Z * (SwarmEvent + ListenerInput))) ls : GossipHandled :=
  match inputs with
  | [] => (ls, [], HOk)
  | (now, i) :: inputs =>
      let '(ls, o, h) := on_any now i ls in
      match h with
      | HOk => let '(ls, o', h) := listener_run inputs ls in (ls, o ++ o', h)
      | _ => (ls, o, h)
      end
  end.
End Gossip.
Arguments PeersResponse : clear implicits.
Arguments SwarmView : clear implicits.

(** ** Facts *)
Section GossipFacts.
Context {CS CB : Curve} `{E : Eth} `{AT : !AppTexts} {F : Type}.
Implicit Types (ls : Listener) (o : list (GossipOutput (CS:=CS) (CB:=CB) (F:=F))).
Implicit Types (inputs : list (Z * (SwarmEvent (CS:=CS) (CB:=CB) + ListenerInput))).
Abbreviation run := (listener_run (CS:=CS) (CB:=CB) (F:=F)).

(** How often an election is started. *)
Definition is_first_election (x : GossipOutput (CS:=CS) (CB:=CB) (F:=F)) : bool :=
  match x with CastElection FirstElection => true | _ => false end.
Definition elections o : nat := length (filter is_first_election o).

Lemma elections_app o1 o2 : elections (o1 ++ o2) = (elections o1 + elections o2)%nat.
Proof. unfold elections. by rewrite filter_app, length_app. Qed.

Lemma process_message_elections ls m o :
  process_message (CS:=CS) (CB:=CB) (F:=F) ls m = Ok o → elections o = 0%nat.
Proof.
  destruct m as [[]|]; cbn [process_message]; unfold only; intros [= <-]; try done;
    destruct (is_relay ls); done.
Qed.

Lemma elections_fmap {A} (f : A → GossipOutput (CS:=CS) (CB:=CB) (F:=F)) l :
  (∀ a, is_first_election (f a) = false) → elections (f <$> l) = 0%nat.
Proof.
  intros Hf. induction l as [|a l IH]; [done|]. rewrite fmap_cons. unfold elections in *.
  rewrite filter_cons, Hf. done.
Qed.

Lemma elections_concat {A} (f : A → list (GossipOutput (CS:=CS) (CB:=CB) (F:=F))) l :
  (∀ a, elections (f a) = 0%nat) → elections (concat (f <$> l)) = 0%nat.
Proof.
  intros Hf. induction l as [|a l IH]; [done|]. rewrite fmap_cons. cbn [concat].
  by rewrite elections_app, Hf, IH.
Qed.

(** A step starts an election exactly when a relay that has not done so sees a
    subscription. *)
Definition triggers ls (i : SwarmEvent (CS:=CS) (CB:=CB) + ListenerInput) : bool :=
  match i with
  | inl (Subscribed _ _) => bool_decide (ls_node_type ls = NodeRelay) && negb (polled ls)
  | _ => false
  end.

Lemma cache_for_frame now m peers ls :
  let ls' := foldl (cache_for now m) ls peers in
  polled ls' = polled ls ∧ ls_node_type ls' = ls_node_type ls.
Proof.
  revert ls. induction peers as [|p peers IH]; intros ls; [done|]. cbn [foldl].
  destruct (IH (cache_for now m ls p)) as [-> ->]. done.
Qed.

Lemma on_any_elections now i ls ls' o h : on_any (F:=F) now i ls = (ls', o, h) →
  elections o = (if triggers ls i then 1 else 0)%nat ∧
  polled ls' = polled ls || triggers ls i ∧ ls_node_type ls' = ls_node_type ls.
Proof.
  destruct i as [ev|i].
  - destruct ev; cbn [on_any on_swarm_event triggers]; rewrite ?orb_false_r; try (by intros [= <- <- _]).
    + destruct m as [m|]; [|by intros [= <- <- _]].
      destruct (process_message ls m) as [outs| |] eqn:Hp; intros [= <- <- _]; [|done..].
      by rewrite (process_message_elections _ _ _ Hp).
    + destruct (_ && _) eqn:Hc; intros [= <- <- _]; [|by rewrite orb_false_r].
      cbn. by rewrite orb_true_r.
    + destruct m; intros [= <- <- _]; [done|]. by destruct reply.
    + intros [= <- <- _]. by destruct response.
    + unfold connection_established. destruct (cache_get _ _ _ _) as [c [l|]]; intros [= <- <- _]; [|done].
      split; [|done]. by apply elections_fmap.
    + intros [= <- <- _]. by destruct (is_bootstrap peer ls).
    + destruct peer as [peer|]; intros [= <- <- _]; [|done]. by destruct (is_bootstrap peer ls).
    + unfold ping_event. destruct (cache_get _ _ _ _) as [c tx]. destruct result; [case_match| |]; intros [= <- <- _];
        rewrite ?elections_app; repeat case_match; done.
    + intros [= <- <- _]. split; [|done]. apply elections_concat. intros a. by repeat case_match.
    + intros [= <- <- _]. by case_match.
  - cbn [on_any triggers]. rewrite orb_false_r.
    destruct i as [[m|q request] topic peers|peer addr]; cbn [on_input].
    + by destruct m; intros [= <- <- _].
    + intros [= <- <- _]. split; [by apply elections_fmap|]. apply cache_for_frame.
    + by intros [= <- <- _].
Qed.

Lemma run_elections inputs : ∀ ls,
  (elections (run inputs ls).1.2
    ≤ if bool_decide (ls_node_type ls = NodeRelay) && negb (polled ls) then 1 else 0)%nat.
Proof.
  induction inputs as [|[now i] inputs IH]; intros ls; [cbn; case_match; lia|]. cbn [listener_run].
  destruct (on_any now i ls) as [[ls1 o] h] eqn:Hi.
  destruct (on_any_elections _ _ _ _ _ _ Hi) as (Ho & Hpol & Hty).
  assert (elections o ≤ (if bool_decide (ls_node_type ls = NodeRelay) && negb (polled ls) then 1 else 0))%nat as Hle.
  { rewrite Ho. unfold triggers. repeat case_match; lia || done. }
  destruct h; cbn [fst snd]; [|lia..]. specialize (IH ls1).
  destruct (run inputs ls1) as [[ls2 o'] h2]. cbn [fst snd] in *. rewrite elections_app.
  rewrite Hty, Hpol in IH. destruct (triggers ls i) eqn:Htr; rewrite ?orb_true_r, ?orb_false_r in IH.
  - rewrite andb_false_r in IH. lia.
  - rewrite Ho. lia.
Qed.

(** The first election is started once.  A listener, over any events, starts an
    election at most once; one that is not a relay's, or whose database already has
    public key shares, never does; and a relay's without shares does at the first
    subscription. *)
Theorem first_election_once (peer relay_peer : PeerId) (ty : NodeType)
    (bootstrap : option (list (PeerId * string))) (kafka : bool) (db : AppDb) inputs :
  let ls := Listener_new peer relay_peer ty bootstrap kafka db in
  (elections (run inputs ls).1.2 ≤ 1)%nat ∧
  (ty ≠ NodeRelay ∨ default ∅ (db_pubkey_shares db) ≠ ∅ → elections (run inputs ls).1.2 = 0%nat) ∧
  (ty = NodeRelay → default ∅ (db_pubkey_shares db) = ∅ →
    ∀ now topic p, elections (run [(now, inl (Subscribed topic p))] ls).1.2 = 1%nat).
Proof.
  intros ls. pose proof (run_elections inputs ls) as Hle. split_and!.
  - repeat case_match; lia.
  - intros H. assert (bool_decide (ls_node_type ls = NodeRelay) && negb (polled ls) = false) as Hc.
    { apply andb_false_iff. destruct H as [H|H]; [left; by apply bool_decide_eq_false_2|right].
      cbn. by rewrite bool_decide_eq_true_2. }
    rewrite Hc in Hle. lia.
  - intros -> Hs now topic p. cbn. rewrite Hs, (bool_decide_eq_false_2 (∅ ≠ ∅)) by tauto. done.
Qed.

(** ** Forwarded requests *)

(** The messages sent to [peer], and those that the inputs ask to forward to it. *)
Definition sent_to (peer : PeerId) o : list NetMessage :=
  omap (λ x, match x with
             | SendRequest p m => if decide (p = peer) then Some m else None
             | _ => None
             end) o.
Definition forwarded_to (peer : PeerId) (i : SwarmEvent (CS:=CS) (CB:=CB) + ListenerInput)
    : list NetMessage :=
  match i with
  | inr (InMessage (ForwardMulRequest q request) _ peers) =>
      omap (λ pa, if decide (pa.1 = peer) then Some (ForwardMulRequest q request) else None)
        (default [] peers)
  | _ => []
  end.
(** What waits for the peer, and since when nothing was added. *)
Definition waiting (peer : PeerId) ls : list NetMessage := default [] (snd <$> cached_data ls !! peer).
Definition last_use (peer : PeerId) ls : option Z := fst <$> cached_data ls !! peer.

(** The connection to [peer] could not be made. *)
Definition fails (peer : PeerId) (i : SwarmEvent (CS:=CS) (CB:=CB) + ListenerInput) : Prop :=
  i = inl (OutgoingConnectionError (Some peer)).

(** Nothing waits longer than the cache keeps it: at every step, the last request forwarded to the
    peer is at most 600 seconds old, unless a connection to the peer has been made since. *)
Definition fresh (now : Z) (last : option Z) : Prop :=
  match last with Some t => now ≤ t + CACHED_DATA_EXPIRY | None => True end.
Definition use_after (peer : PeerId) (now : Z) (i : SwarmEvent (CS:=CS) (CB:=CB) + ListenerInput) (last : option Z)
    : option Z :=
  match i with
  | inl (ConnectionEstablished p) => if decide (p = peer) then None else last
  | _ => match forwarded_to peer i with [] => last | _ => Some now end
  end.
Fixpoint timely (peer : PeerId) (last : option Z)
    (inputs : list (Z * (SwarmEvent (CS:=CS) (CB:=CB) + ListenerInput))) : Prop :=
  match inputs with
  | [] => True
  | (now, i) :: inputs => fresh now last ∧ timely peer (use_after peer now i last) inputs
  end.

Lemma sent_to_app peer o1 o2 : sent_to peer (o1 ++ o2) = sent_to peer o1 ++ sent_to peer o2.
Proof. apply omap_app. Qed.
Definition no_send (x : GossipOutput (CS:=CS) (CB:=CB) (F:=F)) : Prop :=
  match x with SendRequest _ _ => False | _ => True end.
Lemma sent_none peer o : Forall no_send o →
  sent_to peer o = [].
Proof. induction 1 as [|x o Hx _ IH]; [done|]. destruct x; cbn; done. Qed.

Lemma process_message_no_send ls m o : process_message (CS:=CS) (CB:=CB) (F:=F) ls m = Ok o →
  Forall no_send o.
Proof.
  destruct m as [[]|]; cbn [process_message]; unfold only; intros [= <-];
    try destruct (is_relay ls); cbn; repeat constructor.
Qed.

Lemma sent_requests peer p (l : list NetMessage) :
  sent_to peer (SendRequest p <$> l) = if decide (p = peer) then l else [].
Proof.
  induction l as [|m l IH]; [by destruct (decide (p = peer))|]. rewrite fmap_cons. cbn.
  unfold sent_to in IH. rewrite IH. by destruct (decide (p = peer)).
Qed.

(** *** The cache of one peer *)

(** The live entry of a peer. *)
Definition live {V} (ttl now : Z) (e : option (Z * V)) : option (Z * V) :=
  match e with Some (t, v) => if expired ttl now t then None else Some (t, v) | None => None end.

Lemma remove_expired_lookup {V} ttl now (c : TimeCache V) k : remove_expired ttl now c !! k = live ttl now (c !! k).
Proof.
  unfold remove_expired. rewrite map_lookup_filter. destruct (c !! k) as [[t v]|]; [|done]. cbn.
  destruct (expired ttl now t); [rewrite option_guard_False by done|rewrite option_guard_True by done]; done.
Qed.
Lemma live_now {V} ttl now (v : V) : 0 ≤ ttl → live ttl now (Some (now, v)) = Some (now, v).
Proof. intros Ht. cbn. unfold expired. destruct (Z.ltb_spec (now + ttl) now); [lia|done]. Qed.
Lemma live_idemp {V} ttl now (e : option (Z * V)) : live ttl now (live ttl now e) = live ttl now e.
Proof. destruct e as [[t v]|]; [|done]. cbn. destruct (expired ttl now t) eqn:Ht; cbn; by rewrite ?Ht. Qed.
Lemma cache_get_spec {V} ttl now key (c : TimeCache V) k :
  (cache_get ttl now key c).2 = snd <$> live ttl now (c !! key) ∧
  (cache_get ttl now key c).1 !! k =
    if decide (k = key) then (λ e, (now, e.2)) <$> live ttl now (c !! k) else live ttl now (c !! k).
Proof.
  unfold cache_get. cbv zeta. rewrite remove_expired_lookup. destruct (live ttl now (c !! key)) as [[t v]|] eqn:Hl.
  - split; [done|]. cbn [fst]. destruct (decide (k = key)) as [->|Hne].
    + by rewrite lookup_insert_eq, Hl.
    + by rewrite lookup_insert_ne, remove_expired_lookup.
  - split; [done|]. cbn [fst]. rewrite remove_expired_lookup. destruct (decide (k = key)) as [->|]; by rewrite ?Hl.
Qed.

Lemma cache_for_lookup now m ls pa peer :
  cached_data (cache_for now m ls pa) !! peer =
    if decide (pa.1 = peer)
    then Some (now, default [] (snd <$> live CACHED_DATA_EXPIRY now (cached_data ls !! peer)) ++ [m])
    else live CACHED_DATA_EXPIRY now (cached_data ls !! peer).
Proof.
  unfold cache_for. cbn -[live cache_get cache_insert default]. pose proof (cache_get_spec CACHED_DATA_EXPIRY now pa.1 (cached_data ls) peer) as [H2 H1].
  destruct (cache_get _ _ _ _) as [c [l|]]; cbn [fst snd] in *;
    (destruct (decide (pa.1 = peer)) as [Heq|Hne]; [rewrite Heq in *|]).
  - by rewrite lookup_insert_eq, <- H2.
  - rewrite lookup_insert_ne, H1 by done. by rewrite decide_False.
  - unfold cache_insert. by rewrite lookup_insert_eq, <- H2.
  - unfold cache_insert. rewrite lookup_insert_ne, remove_expired_lookup, H1, decide_False, live_idemp by done. done.
Qed.

(** A request is forwarded to a list of peers. *)
Lemma cache_for_all now m peers : ∀ ls peer,
  let fwd := omap (λ pa : PeerId * string, if decide (pa.1 = peer) then Some m else None) peers in
  let e := live CACHED_DATA_EXPIRY now (cached_data ls !! peer) in
  live CACHED_DATA_EXPIRY now (cached_data (foldl (cache_for now m) ls peers) !! peer) =
    match fwd with [] => e | _ => Some (now, default [] (snd <$> e) ++ fwd) end.
Proof.
  induction peers as [|[p a] peers IH]; intros ls peer; [done|]. cbn [foldl omap list_omap fst]. cbv zeta.
  rewrite IH, cache_for_lookup. cbn [fst]. cbv zeta. destruct (decide (p = peer)) as [->|Hne].
  - rewrite live_now by done. set (e := live _ _ _). set (l := omap _ peers).
    change (default [] (snd <$> Some (now, default [] (snd <$> e) ++ [m]))) with (default [] (snd <$> e) ++ [m]).
    destruct l; [done|]. by rewrite <- app_assoc.
  - by rewrite live_idemp.
Qed.
Lemma cache_for_stored now m peers ls peer : peers ≠ [] →
  cached_data (foldl (cache_for now m) ls peers) !! peer
  = live CACHED_DATA_EXPIRY now (cached_data (foldl (cache_for now m) ls peers) !! peer).
Proof.
  intros Hne. destruct (exists_last Hne) as (l & pa & ->). rewrite foldl_app. cbn [foldl].
  rewrite cache_for_lookup. destruct (decide (pa.1 = peer)); [by rewrite live_now|by rewrite live_idemp].
Qed.
(** *** Steps *)

(** A step that leaves the cache alone, and sends nothing from it. *)
Definition quiet ls ls' o : Prop :=
  Forall no_send o ∧ cached_data ls' = cached_data ls.

(** What a step does to the cache of the peer. *)
Lemma on_any_cases now i ls ls' o : on_any (F:=F) now i ls = (ls', o, HOk) →
  (quiet ls ls' o ∧ (∀ peer, forwarded_to peer i = []) ∧ ∀ p, i ≠ inl (ConnectionEstablished p)) ∨
  (∃ p, i = inl (ConnectionEstablished p) ∧ (ls', o, HOk) = connection_established now p ls) ∨
  (∃ p, i = inl (OutgoingConnectionError (Some p)) ∧ cached_data ls' = delete p (cached_data ls) ∧
     Forall no_send o) ∨
  (∃ q request topic peers, i = inr (InMessage (ForwardMulRequest q request) topic peers) ∧
     ls' = foldl (cache_for now (ForwardMulRequest q request)) ls (default [] peers) ∧
     Forall no_send o).
Proof.
  assert (∀ b : bool, ∀ x, (¬ ∃ p m, x = SendRequest (CS:=CS) (CB:=CB) (F:=F) p m) →
    Forall no_send (if b then [x] else [])) as Hopt.
  { intros [] x Hx; repeat constructor. destruct x; try done. destruct Hx. eauto. }
  destruct i as [ev|i]; cbn [on_any].
  - intros Hev. destruct ev as [src m|topic p|p m reply|p response|p|p|p|p result|p addrs conn|p addr|];
      cbn [on_swarm_event] in Hev.
    + left. split_and!; [|done..]. destruct m as [m|]; [|by simplify_eq].
      destruct (process_message ls m) eqn:Hp; simplify_eq; [|done]. split; [by eapply process_message_no_send|done].
    + left. split_and!; [|done..]. destruct (_ && _); simplify_eq; split; by repeat constructor.
    + left. split_and!; [|done..]. destruct m; simplify_eq; [done|]. split; [|done]. by destruct reply; repeat constructor.
    + left. split_and!; [|done..]. simplify_eq. split; [|done]. by destruct response; repeat constructor.
    + right. left. by exists p.
    + left. split_and!; [|done..]. simplify_eq. split; [|done]. apply Hopt. by intros (? & ? & ?).
    + destruct p as [p|]; simplify_eq; [|left; by split_and!]. right. right. left. exists p. split; [done|]. split; [done|].
      apply Hopt. by intros (? & ? & ?).
    + left. split_and!; [|done..]. unfold ping_event in Hev. destruct (cache_get _ _ _ _) as [c tx].
      destruct result; [case_match| |]; simplify_eq; (split; [|done]); repeat case_match; by repeat constructor.
    + left. split_and!; [|done..]. simplify_eq. split; [|done]. apply Forall_concat, Forall_fmap, Forall_true. intros a.
      cbn. by repeat case_match; repeat constructor.
    + left. split_and!; [|done..]. simplify_eq. split; [|done]. by case_match; repeat constructor.
    + left. by simplify_eq.
  - intros Hi. destruct i as [[m|q request] topic peers|p addr]; cbn [on_input] in Hi.
    + left. split_and!; [|done..]. destruct m; simplify_eq; split; by repeat constructor.
    + simplify_eq. do 3 right. exists q, request, topic, peers. split; [done|]. split; [done|].
      apply Forall_fmap, Forall_true. done.
    + left. split_and!; [|done..]. simplify_eq. split; by repeat constructor.
Qed.

Lemma live_waiting now (e : option (Z * list NetMessage)) :
  default [] (snd <$> live CACHED_DATA_EXPIRY now e) `sublist_of` default [] (snd <$> e).
Proof. destruct e as [[t l]|]; [|done]. cbn. by destruct (expired _ _ _); [apply sublist_nil_l|]. Qed.
Lemma live_fresh now (e : option (Z * list NetMessage)) : fresh now (fst <$> e) → live CACHED_DATA_EXPIRY now e = e.
Proof.
  destruct e as [[t l]|]; [|done]. cbn. unfold expired. intros Ht.
  by destruct (Z.ltb_spec (t + CACHED_DATA_EXPIRY) now); [lia|].
Qed.

(** A connection to [p]: what is live for it is sent. *)
Lemma connection_spec now p ls ls' o peer : (ls', o, HOk) = connection_established (F:=F) now p ls →
  let e := live CACHED_DATA_EXPIRY now (cached_data ls !! peer) in
  if decide (p = peer) then sent_to peer o = default [] (snd <$> e) ∧ cached_data ls' !! peer = None
  else sent_to peer o = [] ∧ cached_data ls' !! peer = e.
Proof.
  unfold connection_established.
  pose proof (cache_get_spec CACHED_DATA_EXPIRY now p (cached_data ls) peer) as [H2 H1].
  destruct (cache_get _ _ _ _) as [c [l|]]; cbn [fst snd] in *; intros [= -> ->]; cbv zeta.
  - rewrite sent_requests. change (cached_data (ls <| cached_data := delete p c |>)) with (delete p c).
    destruct (decide (p = peer)) as [->|Hne]; [by rewrite lookup_delete_eq, <- H2|].
    rewrite lookup_delete_ne, H1 by done. by rewrite decide_False.
  - change (cached_data (ls <| cached_data := c |>)) with c. destruct (decide (p = peer)) as [->|Hne].
    + rewrite H1, decide_True by done. by destruct (live _ _ _) as [[]|].
    + by rewrite H1, decide_False.
Qed.

(** A step loses nothing that is fresh, unless the connection fails; and whatever it loses, it keeps
    the order. *)
Lemma on_any_sublist peer now i ls ls' o : on_any (F:=F) now i ls = (ls', o, HOk) →
  (sent_to peer o ++ waiting peer ls') `sublist_of` (waiting peer ls ++ forwarded_to peer i).
Proof.
  intros [([Ho Hc] & Hf & _)|[(p & -> & H)|[(p & -> & Hc & Ho)|(q & request & topic & peers & -> & -> & Ho)]]]%on_any_cases.
  - unfold waiting. by rewrite Hc, (sent_none _ _ Ho), Hf, app_nil_r.
  - apply (connection_spec _ _ _ _ _ peer) in H. cbv zeta in H. cbn [forwarded_to]. rewrite app_nil_r. unfold waiting.
    destruct (decide (p = peer)); destruct H as [-> ->]; rewrite ?app_nil_r; apply live_waiting.
  - rewrite (sent_none _ _ Ho), app_nil_r. unfold waiting. rewrite Hc. cbn [app].
    destruct (decide (p = peer)) as [->|Hne]; [rewrite lookup_delete_eq; apply sublist_nil_l|by rewrite lookup_delete_ne].
  - rewrite (sent_none _ _ Ho). cbn [app forwarded_to]. unfold waiting. destruct (default [] peers) as [|pa l] eqn:Hp.
    { by rewrite app_nil_r. }
    rewrite cache_for_stored, cache_for_all by done. cbv zeta. set (fwd := omap _ _).
    pose proof (live_waiting now (cached_data ls !! peer)) as Hl. destruct fwd; [by rewrite app_nil_r|].
    cbn [fmap option_fmap option_map snd default from_option]. by apply sublist_app.
Qed.

Lemma on_any_fifo peer now i ls ls' o : on_any (F:=F) now i ls = (ls', o, HOk) → ¬ fails peer i →
  fresh now (last_use peer ls) →
  sent_to peer o ++ waiting peer ls' = waiting peer ls ++ forwarded_to peer i ∧
  last_use peer ls' = use_after peer now i (last_use peer ls).
Proof.
  intros [([Ho Hc] & Hf & Hce)|[(p & -> & H)|[(p & -> & Hc & Ho)|(q & request & topic & peers & -> & -> & Ho)]]]%on_any_cases
    Hfail Hfresh; pose proof (live_fresh now (cached_data ls !! peer) Hfresh) as Hl; unfold waiting, last_use in *.
  - rewrite Hc, (sent_none _ _ Ho), Hf, app_nil_r. split; [done|]. unfold use_after. rewrite Hf.
    destruct i as [[]|]; try done. by destruct (Hce peer0).
  - apply (connection_spec _ _ _ _ _ peer) in H. cbv zeta in H. rewrite Hl in H. cbn [forwarded_to use_after].
    destruct (decide (p = peer)); destruct H as [-> ->]; by rewrite ?app_nil_r.
  - assert (p ≠ peer) as Hne by (intros ->; by apply Hfail).
    by rewrite (sent_none _ _ Ho), Hc, lookup_delete_ne, app_nil_r.
  - rewrite (sent_none _ _ Ho). cbn [app forwarded_to use_after]. destruct (default [] peers) as [|pa l] eqn:Hp.
    { by rewrite app_nil_r. }
    rewrite cache_for_stored, cache_for_all by done. cbv zeta. rewrite Hl. set (fwd := omap _ _).
    destruct fwd; [by rewrite app_nil_r|done].
Qed.

(** C34: Forwarded requests are sent once and in order, and lost only when a connection fails or
    comes too late.  Over any events at any times, what the listener sent to a peer followed by what
    still waits for a connection is a subsequence of what waited before followed by what it was asked
    to forward.  It is all of it if during these events the connection to the peer does not fail
    and the last request for the peer is never more than 600 seconds old without a connection having been
    made: the cache of waiting requests expires.  When a connection to the peer comes up, nothing
    is left waiting. *)
Theorem forwarded_requests_fifo (peer : PeerId) inputs ls ls' o :
  run inputs ls = (ls', o, HOk) →
  (sent_to peer o ++ waiting peer ls')
    `sublist_of` (waiting peer ls ++ concat (forwarded_to peer <$> inputs.*2)) ∧
  (Forall (λ i, ¬ fails peer i) inputs.*2 → timely peer (last_use peer ls) inputs →
    sent_to peer o ++ waiting peer ls' = waiting peer ls ++ concat (forwarded_to peer <$> inputs.*2)) ∧
  (∀ now, last inputs = Some (now, inl (ConnectionEstablished peer)) → waiting peer ls' = []).
Proof.
  revert ls ls' o. induction inputs as [|[now i] inputs IH]; intros ls ls' o; cbn [listener_run].
  - intros [= <- <-]. cbn. by rewrite app_nil_r.
  - destruct (on_any now i ls) as [[ls1 o1] h1] eqn:Hi. destruct h1; [|done..].
    destruct (run inputs ls1) as [[ls2 o2] h2] eqn:Hrun. intros [= <- <- ->].
    destruct (IH ls1 ls2 o2 Hrun) as (IH1 & IH2 & IH3). rewrite !fmap_cons. cbn [snd concat timely].
    rewrite sent_to_app, <- app_assoc. split_and!.
    + etransitivity; [apply sublist_app; [reflexivity|exact IH1]|]. rewrite !app_assoc. apply sublist_app; [|reflexivity]. by eapply on_any_sublist.
    + intros [Hf Hfs]%Forall_cons [Hfresh Ht]. destruct (on_any_fifo peer now i ls ls1 o1 Hi Hf Hfresh) as [H1 H2].
      rewrite H2 in IH2. rewrite IH2 by done. by rewrite app_assoc, H1, <- app_assoc.
    + intros t. destruct inputs as [|i' inputs]; [|by apply IH3]. cbn. intros [= -> ->].
      cbn in Hrun. injection Hrun as <- <-. cbn [on_any on_swarm_event] in Hi. symmetry in Hi.
      apply (connection_spec _ _ _ _ _ peer) in Hi. cbv zeta in Hi. rewrite decide_True in Hi by done.
      unfold waiting. by destruct Hi as [_ ->].
Qed.

(** The messages without a handler. *)
Definition unhandled (m : NetMessage) : bool :=
  match m with
  | ForwardMulRequest _ _ => true
  | Gossiped (Subscribe _) | Gossiped (Unsubscribe _) | Gossiped (MessageText _)
  | Gossiped (AddToBlacklist _) | Gossiped (RemoveFromBlacklist _) => true
  | _ => false
  end.

(** A gossiped message ends the listener exactly when it is one of six kinds
    ([todo!()] in [process_message]), whoever sends it and whatever the listener's state;
    nothing that follows is handled.  Every other message is handled. *)
Theorem gossip_panics_iff_unhandled (now : Z) (source : PeerId) (m : NetMessage) ls inputs :
  if unhandled m
  then run ((now, inl (GossipMessage source (Some m))) :: inputs) ls = (ls, [], HPanic)
  else ∃ o, on_swarm_event (CS:=CS) (CB:=CB) (F:=F) now (GossipMessage source (Some m)) ls = (ls, o, HOk).
Proof.
  cbn [listener_run on_any on_swarm_event].
  destruct m as [m|]; [destruct m|]; cbn [unhandled process_message]; unfold only;
    (done || by eexists).
Qed.
End GossipFacts.
