(* ===== verification/Rpc.v ===== *)
(** * The RPC server of a node (crates/rpc/src/lib.rs)

    Each method asks one of the actors and passes its reply on; some want the node's
    token ([API_TOKEN]).  A method is a function on the node's state; [fetch_key_share],
    which reads and writes the token's flag around an exchange with an actor, is also a
    thread whose steps interleave with those of other calls. *)
From Stdlib Require Import ZArith Lia Ascii String.
From stdpp Require Import base list gmap sets strings pretty.
From coqutil Require Import Datatypes.RecordSettersUsingExistingGetters.
Import RecordSetNotations.
From S2P Require Import Prelude Curve Dleq NodeSelection Serialization Request Messages Election AppState Gossip.

Definition HUMAN_NETWORK_VERSION : string := "mainnetalphaV3.3.0".

(** app_state_actor.rs, [struct ApiToken]. *)
Record ApiToken := { token : string; used : bool }.

Section Rpc.
Context (CS CB : Curve) `{HH : Hashes} `{HO : HashOrder} `{E : Eth} `{J : !Jwt}
  `{RC : !RequestCodec CB CS} `{RG : Rng} `{F : !F64} `{TF : !ThresholdFloat} `{DR : Drand}
  `{AT : !AppTexts}.
(** [PeerId::from_str]. *)
Context (parse_peer_id : string → option PeerId).

(** The node: its token and the states of the actors the methods talk to. *)
Record RpcWorld := { api_token : ApiToken; rpc_app : AppWorld; rpc_election : World }.
Implicit Types (env : AppEnv CS CB) (eenv : Election.Env) (w : RpcWorld).

Inductive RpcResult :=
  | RNode (r : AppResponse CS CB)
  | RElectionEngine (r : NodeResponse f64)
  | RState (r : StateResponse)
  | RResponse (r : Response)
  | RElection (r : ElectionResponse)
  | RPeers (r : PeersResponse f64)
  | RBool (b : bool)
  | RVersion (version : string)
  | RSubmitted (request_id : string).

Abbreviation Rpc := (RpcWorld * RpcResult)%type.
Abbreviation outs := (list (AppOutput CS CB f64)).

Definition error_node (message : string) : RpcResult := RNode (ErrorResponse "" message).
Definition went_wrong : RpcResult := error_node "Something went wrong while processing the request".

(** What the application state put on the reply channel, if anything. *)
Definition reply_of {A} (f : AppOutput CS CB f64 → option A) (o : outs) : option A := head (omap f o).
Definition node_reply (o : outs) : option (AppResponse CS CB) :=
  reply_of (λ x, match x with ReplyNode r => Some r | _ => None end) o.
Definition state_reply (o : outs) : option StateResponse :=
  reply_of (λ x, match x with ReplyState r => Some r | _ => None end) o.
Definition response_reply (o : outs) : option Response :=
  reply_of (λ x, match x with ReplyResponse r => Some r | _ => None end) o.
Definition election_reply (o : outs) : option ElectionResponse :=
  reply_of (λ x, match x with ReplyElection r => Some r | _ => None end) o.

Definition ask_app env (m : AppMessage CS CB) w : RpcWorld * outs :=
  let '(a, o, _) := app_handle CS CB env m (rpc_app w) in (w <| rpc_app := a |>, o).

(** A method that passes on the reply of the application state, or says [failed]. *)
Definition ask_node env (m : AppMessage CS CB) (failed : RpcResult) w : Rpc :=
  let '(w, o) := ask_app env m w in (w, from_option RNode failed (node_reply o)).

Definition ask_election eenv (m : ElectionEngineMessage f64) w : Rpc :=
  let '(e, o, _) := Election.handle eenv m (rpc_election w) in
  (w <| rpc_election := e |>,
   from_option RElectionEngine went_wrong
     (head (omap (λ x, match x with Reply r => Some r | _ => None end) o))).

Definition wrong_token (tok : string) w : bool := negb (String.eqb (token (api_token w)) tok).

Definition fetch_state env (user : Address) (m : Method) w : Rpc :=
  let '(w, o) := ask_app env (StateRequest user m) w in
  (w, RState (default (StateError "Something went wrong while processing the request")
                (state_reply o))).

(** [threshold_mul]: the first answer published for the request within the time it waits;
    [during] are the messages the application state handles meanwhile. *)
Definition threshold_mul env (request : RequestToNetwork) (uuid : string)
    (during : list (AppMessage CS CB)) w : Rpc :=
  let '(a, o, _) := app_run CS CB (F:=f64) env (MulRequest request uuid :: during) (rpc_app w) in
  (w <| rpc_app := a |>,
   from_option RNode (RSubmitted uuid)
     (reply_of (λ x, match x with
                     | Publish id r => if bool_decide (id = uuid) then Some r else None
                     | _ => None
                     end) o)).

Definition fetch_threshold_mul_result env (request_id : string) w : Rpc :=
  ask_node env (FetchReconstructedPoint request_id)
    (RNode (ErrorResponse request_id "Something went wrong while processing the request")) w.

Definition ping w : Rpc := (w, RResponse (Response_new None true "pong")).

(** [fetch_key_share] without interference. *)
Definition fetch_key_share_rpc env (tok : string) w : Rpc :=
  if used (api_token w) then (w, error_node "API token has already been used")
  else if wrong_token tok w then (w, error_node "Invalid API token")
  else
    let '(w, o) := ask_app env FetchKeyShare w in
    match node_reply o with
    | Some r => (w <| api_token ::= (λ t, t <| used := true |>) |>, RNode r)
    | None => (w, went_wrong)
    end.

Definition backup env w : Rpc :=
  let '(w, _) := ask_app env (Plain BackupState) w in (w, RBool true).

Definition restore_key_share_rpc env (keyshares : gmap string string) w : Rpc :=
  ask_node env (RestoreKeyShare keyshares) went_wrong w.

Definition fetch_election_state_rpc env (peer_id_str : string) w : Rpc :=
  match parse_peer_id peer_id_str with
  | Some peer => ask_node env (FetchElectionState peer) went_wrong w
  | None => (w, error_node "invalid PeerId provided")
  end.

Definition restore_election_state_rpc env w : Rpc := ask_node env RestoreElectionState went_wrong w.

(** [pong] is what the gossip engine answers when it is asked to ping. *)
Definition quic_ping_rpc env (peer_id_str : string) (pong : option Response) w : Rpc :=
  match parse_peer_id peer_id_str with
  | Some peer =>
      let '(w, o) := ask_app env (QuicPing peer) w in
      (w, RResponse (match response_reply o, pong with
                     | Some r, _ => r
                     | None, Some r => r
                     | None, None => Response_new None false
                         ("Failed to ping the peer_id " +:+ peer_id_str +:+ " error channel closed")
                     end))
  | None => (w, RResponse (Response_new None false "invalid PeerId provided"))
  end.

Definition sync_peer_data_rpc env w : Rpc :=
  let '(w, o) := ask_app env SyncPeerData w in
  (w, RResponse (default (Response_new None false "Failed to sync peer dataerror channel closed")
                   (response_reply o))).

Definition fetch_election_info_rpc env (peer_id_str : string) w : Rpc :=
  match parse_peer_id peer_id_str with
  | Some peer =>
      let '(w, o) := ask_app env (FetchElectionInfo peer) w in
      (w, RElection (default (err_response "Failed to fetch election info : channel closed")
                       (election_reply o)))
  | None => (w, RElection (err_response "invalid PeerId provided"))
  end.

Definition fetch_voting_power_rpc env (peer_id_str : string) w : Rpc :=
  match parse_peer_id peer_id_str with
  | Some peer =>
      ask_node env (FetchVotingPower peer)
        (error_node "Failed to fetch voting power : channel closed") w
  | None => (w, error_node "invalid PeerId provided")
  end.

Definition set_resharing_enabled_rpc env (tok : string) (value : bool) w : Rpc :=
  if wrong_token tok w then (w, error_node "Invalid API token")
  else ask_node env (SetResharingEnabled value)
         (error_node "Failed to set resharing enabled flag : channel closed") w.

Definition get_current_version w : Rpc :=
  (w, RVersion ("Human Node Version: " +:+ HUMAN_NETWORK_VERSION)).

Definition add_to_exclusion_list_rpc eenv (tok peer_id_str : string) w : Rpc :=
  if wrong_token tok w then (w, error_node "Invalid API token")
  else match parse_peer_id peer_id_str with
       | Some peer => ask_election eenv (AddToExclusionList peer) w
       | None => (w, error_node "invalid PeerId provided")
       end.

Definition remove_from_exclusion_list_rpc eenv (tok peer_id_str : string) w : Rpc :=
  if wrong_token tok w then (w, error_node "Invalid API token")
  else match parse_peer_id peer_id_str with
       | Some peer => ask_election eenv (RemoveFromExclusionList peer) w
       | None => (w, error_node "invalid PeerId provided")
       end.

Definition get_current_excluded_peers eenv w : Rpc := ask_election eenv GetExclusionList w.

(** The gossip engine always answers; its answers do not touch the node's state. *)
Definition get_connected_peers (d : Delivery) (sw : SwarmView f64) w : Rpc :=
  (w, RPeers (handle_get_connected_peers d sw)).
Definition get_peer_scores (d : Delivery) (sw : SwarmView f64) w : Rpc :=
  (w, RPeers (handle_get_peer_scores d sw)).
Definition get_mesh_peers (d : Delivery) (sw : SwarmView f64) w : Rpc :=
  (w, RPeers (handle_get_mesh_peers d sw)).

Definition update_election_params_rpc eenv (tok : string) (params : ElectionParams f64) w : Rpc :=
  if wrong_token tok w then (w, error_node "Invalid API token")
  else ask_election eenv (UpdateElectionParams params) w.

Definition get_election_params_rpc eenv w : Rpc := ask_election eenv GetElectionParams w.

Definition get_pubkey env w : Rpc := ask_node env FetchFinalizedGroupPubkeys went_wrong w.

(** ** [fetch_key_share] as a thread *)

(** Where a call of [fetch_key_share] is: before the flag is read, before the token is
    read, before the actor is asked, before the flag is set, and at the end. *)
Inductive KeyShareCall :=
  | KsStart (tok : string)
  | KsNotUsed (tok : string)
  | KsAuthorized
  | KsReply (r : AppResponse CS CB)
  | KsEnd (r : RpcResult).

Definition ks_step env (c : KeyShareCall) w : KeyShareCall * RpcWorld :=
  match c with
  | KsStart tok =>
      (if used (api_token w) then KsEnd (error_node "API token has already been used")
       else KsNotUsed tok, w)
  | KsNotUsed tok =>
      (if wrong_token tok w then KsEnd (error_node "Invalid API token") else KsAuthorized, w)
  | KsAuthorized =>
      let '(w, o) := ask_app env FetchKeyShare w in
      (match node_reply o with Some r => KsReply r | None => KsEnd went_wrong end, w)
  | KsReply r => (KsEnd (RNode r), w <| api_token ::= (λ t, t <| used := true |>) |>)
  | KsEnd r => (KsEnd r, w)
  end.

(** A schedule: which call takes the next step. *)
Fixpoint ks_run env (schedule : list nat) (calls : list KeyShareCall) w
    : list KeyShareCall * RpcWorld :=
  match schedule with
  | [] => (calls, w)
  | i :: schedule =>
      match calls !! i with
      | Some c => let '(c, w) := ks_step env c w in ks_run env schedule (<[i := c]> calls) w
      | None => ks_run env schedule calls w
      end
  end.
End Rpc.

(** ** Facts *)
Section RpcFacts.
Context (CS CB : Curve) `{HH : Hashes} `{HO : HashOrder} `{E : Eth} `{J : !Jwt}
  `{RC : !RequestCodec CB CS} `{RG : Rng} `{F : !F64} `{TF : !ThresholdFloat} `{DR : Drand}
  `{AT : !AppTexts}.
Implicit Types (env : AppEnv CS CB) (w : RpcWorld).

(** The steps of a call, run without interference, are the method. *)
Lemma ks_alone env tok w :
  (let '(calls, w') := ks_run CS CB env [0; 0; 0; 0]%nat [KsStart CS CB tok] w in
   (w', match calls with [KsEnd _ _ r] => Some r | _ => None end))
  = (let '(w', r) := fetch_key_share_rpc CS CB env tok w in (w', Some r)).
Proof.
  unfold fetch_key_share_rpc. cbn -[ask_app wrong_token].
  destruct (used (api_token w)) eqn:Hu; [done|]. cbn -[ask_app wrong_token].
  destruct (wrong_token tok w); [done|]. cbn -[ask_app].
  destruct (ask_app CS CB env FetchKeyShare w) as [w' o].
  by destruct (node_reply CS CB o).
Qed.

Lemma ks_step_token env c w : token (api_token (ks_step CS CB env c w).2) = token (api_token w).
Proof.
  destruct c; cbn -[ask_app wrong_token]; try done.
  unfold ask_app. by destruct (app_handle _ _ _ _ _) as [[]].
Qed.

(** A call with a wrong token is at one of these points. *)
Definition refused tok (c : KeyShareCall CS CB) : Prop :=
  c = KsStart CS CB tok ∨ c = KsNotUsed CS CB tok ∨
  ∃ message, c = KsEnd CS CB (error_node CS CB message).

Lemma ks_step_refused env tok c w : token (api_token w) ≠ tok → refused tok c →
  refused tok (ks_step CS CB env c w).1.
Proof.
  intros Ht [-> |[-> |[msg ->]]]; cbn -[wrong_token].
  - destruct (used (api_token w)); unfold refused; eauto.
  - unfold wrong_token. destruct (String.eqb_spec (token (api_token w)) tok); [done|].
    unfold refused. cbn. eauto.
  - unfold refused. eauto.
Qed.

(** A key share is only given to a call with the node's token: whatever calls of
    [fetch_key_share] run and however their steps interleave, a call with another token
    never gets past the check of the token. *)
Theorem key_share_needs_token env (schedule : list nat) (tokens : list string) (i : nat) tok w :
  tokens !! i = Some tok → token (api_token w) ≠ tok →
  ∃ c, (ks_run CS CB env schedule (KsStart CS CB <$> tokens) w).1 !! i = Some c ∧ refused tok c.
Proof.
  intros Hi Ht.
  assert (∃ c, (KsStart CS CB <$> tokens) !! i = Some c ∧ refused tok c) as Hc.
  { rewrite list_lookup_fmap, Hi. eexists. split; [done|]. by left. }
  revert Hc Ht. generalize (KsStart CS CB <$> tokens) as calls. revert w.
  induction schedule as [|j schedule IH]; intros w calls Hc Ht; [done|]. cbn [ks_run].
  destruct (calls !! j) as [c'|] eqn:Hj; [|by apply IH].
  pose proof (ks_step_token env c' w) as Htok.
  destruct (ks_step CS CB env c' w) as [c2 w2] eqn:Hs. cbn in Htok. apply IH; [|by rewrite Htok].
  destruct (decide (i = j)) as [->|Hne].
  - destruct Hc as (c & Hcj & Hr). assert (c' = c) as -> by congruence.
    exists c2. rewrite list_lookup_insert_eq by (by eapply lookup_lt_Some). split; [done|].
    pose proof (ks_step_refused env tok c w Ht Hr) as H. by rewrite Hs in H.
  - destruct Hc as (c & Hci & Hr). exists c. by rewrite list_lookup_insert_ne.
Qed.

(** C35: The token is one-time only for calls that do not overlap.  On a prover whose token
    was not used, a call with the token gets the key shares and any later call is told
    that it was used; but when two calls overlap, both get the key shares. *)
Theorem key_share_once_unless_racing env tok tok' w (p : ProverState) :
  token (api_token w) = tok → used (api_token w) = false →
  node_state (rpc_app w) = Some (Prover p) →
  let shares := Keyshare (hex_map (default ∅ (db_private_keyshares (app_db (rpc_app w))))) in
  let '(w', r) := fetch_key_share_rpc CS CB env tok w in
  r = RNode CS CB shares ∧
  (fetch_key_share_rpc CS CB env tok' w').2 = error_node CS CB "API token has already been used" ∧
  (ks_run CS CB env [0; 1; 0; 1; 0; 1; 0; 1]%nat [KsStart CS CB tok; KsStart CS CB tok] w).1
    = [KsEnd CS CB (RNode CS CB shares); KsEnd CS CB (RNode CS CB shares)].
Proof.
  intros <- Hu Hp. unfold fetch_key_share_rpc. rewrite Hu. unfold wrong_token. rewrite String.eqb_refl.
  cbn [negb]. unfold ask_app at 1. cbn [app_handle]. unfold fetch_key_share. rewrite Hp.
  cbn. split; [done|]. split; [done|].
  repeat (rewrite ?Hu, ?Hp; unfold wrong_token, ask_app, fetch_key_share;
          rewrite ?String.eqb_refl; cbn [app_handle]; cbn; unfold const). done.
Qed.

(** Key shares survive export and import.  What [fetch_key_share] returns after a
    [backup] of a prover, given to [restore_key_share] of any prover (which asks for no
    token), makes that prover's key shares, in memory and in its database, those of the
    first one. *)
Theorem key_share_export_import env env' tok w w2 (p p2 : ProverState) :
  token (api_token w) = tok → used (api_token w) = false →
  node_state (rpc_app w) = Some (Prover p) → node_state (rpc_app w2) = Some (Prover p2) →
  map_Forall (λ _ bytes, Forall is_byte bytes) (private_keyshares p) →
  ∃ exported, (fetch_key_share_rpc CS CB env tok (backup CS CB env w).1).2
              = RNode CS CB (Keyshare exported) ∧
    let '(w2', r) := restore_key_share_rpc CS CB env' exported w2 in
    r = RNode CS CB Restored ∧
    node_state (rpc_app w2') = Some (Prover (p2 <| private_keyshares := private_keyshares p |>)) ∧
    db_private_keyshares (app_db (rpc_app w2')) = Some (private_keyshares p).
Proof.
  intros <- Hu Hp Hp2 Hb. exists (hex_map (private_keyshares p)). split.
  - unfold backup, ask_app. cbn [app_handle handle_plain]. unfold backup_state. rewrite Hp. cbn.
    unfold fetch_key_share_rpc, wrong_token. cbn. rewrite Hu, String.eqb_refl. cbn.
    unfold ask_app. cbn [app_handle]. unfold fetch_key_share. cbn. rewrite Hp. done.
  - unfold restore_key_share_rpc, ask_node, ask_app. cbn [app_handle]. unfold restore_key_share.
    rewrite Hp2. cbn. unfold const. split; [done|].
    assert (omap hex_decode (hex_map (private_keyshares p)) = private_keyshares p) as ->; [|done].
    apply map_eq. intros k. unfold hex_map. rewrite lookup_omap, lookup_fmap.
    destruct (private_keyshares p !! k) as [bs|] eqn:Hk; [|done]. cbn.
    apply hex_decode_encode. by apply (Hb k).
Qed.
End RpcFacts.
