(* ===== verification/System.v ===== *)
(** * The network serves a request

    The relay's and the provers' application states ([AppState]) and the routing of the
    gossip engine ([Gossip]) put together: a client's request goes to the relay, which
    forwards it to the chosen provers; each of them checks that it was chosen and answers
    with a proof; the relay collects the proofs and publishes the result. *)
From Stdlib Require Import ZArith Lia Ascii String.
From stdpp Require Import base list gmap sets strings pretty sorting.
From coqutil Require Import Datatypes.RecordSettersUsingExistingGetters.
Import RecordSetNotations.
From S2P Require Import Prelude PrimeField Curve ModelCurve Polynomial Dleq Reconstruct NodeSelection Serialization Request ConcreteCurves Messages Election AppState AppStateProofs AppStateSafety Gossip Rpc.

(** ** Lists *)

(** The elements of [l] whose image is in [cs], when [cs] are some of the images. *)
Lemma filter_images {A} (f : A → Z) (l : list A) (cs : list Z) :
  NoDup (f <$> l) → NoDup cs → cs ⊆ f <$> l →
  f <$> filter (λ a, f a ∈ cs) l ≡ₚ cs.
Proof.
  intros Hl Hcs Hsub. apply NoDup_Permutation.
  - apply NoDup_fmap_2_strong.
    + intros x y Hx%list_elem_of_filter Hy%list_elem_of_filter Heq.
      destruct Hx as [_ Hx], Hy as [_ Hy].
      apply list_elem_of_lookup in Hx as [i Hi], Hy as [j Hj].
      assert (i = j) as <-.
      { eapply (NoDup_lookup (f <$> l)); [done| |]; rewrite list_lookup_fmap.
        - by rewrite Hi.
        - rewrite Hj. cbn. by rewrite Heq. }
      congruence.
    + apply NoDup_filter. by eapply NoDup_fmap_1.
  - done.
  - intros x. rewrite list_elem_of_fmap. split.
    + intros (y & -> & [Hy _]%list_elem_of_filter). done.
    + intros Hx. pose proof (Hsub x Hx) as (y & -> & Hy)%list_elem_of_fmap. exists y.
      split; [done|]. by apply list_elem_of_filter.
Qed.

Lemma filter_iff_in {A} (P Q : A → Prop) `{∀ x, Decision (P x)} `{∀ x, Decision (Q x)} (l : list A) :
  (∀ x, x ∈ l → P x ↔ Q x) → filter P l = filter Q l.
Proof.
  induction l as [|x l IH]; intros Hpq; [done|]. rewrite !filter_cons.
  rewrite IH by (intros; apply Hpq; by right).
  pose proof (Hpq x ltac:(left)). by destruct (decide (P x)), (decide (Q x)); try tauto.
Qed.

(** ** The quorum that serves *)
Section Serve.
Context (CS CB : Curve) {CL : CurveLaws CS} `{HH : Hashes} `{E : Eth} `{J : !Jwt}
  `{RC : !RequestCodec CB CS} `{RG : Rng} `{FL : !F64} `{TF : !ThresholdFloat} `{DR : Drand}
  `{AT : !AppTexts}.
Abbreviation F := f64.
(** The hash maps of the relay and of each prover have their own iteration order. *)
Context (relay_order : HashOrder) (prover_order : PeerId → HashOrder).
Context (request_id : string) (request : RequestToNetwork) (X : Point (Curve:=CS))
  (p : Polynomial (FieldEl (Curve:=CS))) (node_idx : ProverInfo → Z).
Abbreviation share i := (eval p (f_of_Z i)).

(** The message that reaches the relay's application state when [peer] got the request:
    the prover's application state handles it, its listener sends the answer back, and
    the relay's listener routes it. *)
Definition replies (o : list (AppOutput CS CB F)) : option (AppResponse CS CB) :=
  head (omap (λ x, match x with ReplyNode r => Some r | _ => None end) o).

Definition exchange (env : AppEnv CS CB) (prover : AppWorld) (peer : PeerId)
    : list (AppMessage CS CB) :=
  let '(_, o, _) := app_handle CS CB (HO:=prover_order peer) (F:=F) env
                      (ProcessMulRequest request_id request) prover in
  match replies o with
  | Some response =>
      omap (λ x, match x with CastApp m => Some m | _ => None end)
        (route_response (F:=F) response)
  | None => []
  end.

(** A quorum to which requests can be forwarded: the relay's map numbers its active provers,
    by distinct [u32] indices, and there are at least [t + epsilon] of them.  [epsilon] may
    be 0. *)
Record forwarding_quorum (r : RelayState) : Prop := {
  fq_map : rl_new_provers r
    = list_to_map ((λ a, (peer_id a, (a, node_idx a))) <$> active_provers r);
  fq_peers : NoDup (peer_id <$> active_provers r);
  fq_idx : NoDup (node_idx <$> active_provers r);
  fq_range : Forall (λ a, 0 < node_idx a < 2 ^ 32) (active_provers r);
  fq_t : 0 < rl_t r;
  fq_eps : 0 ≤ rl_epsilon r;
  fq_n : rl_t r + rl_epsilon r ≤ Z.of_nat (length (active_provers r)) < 2 ^ 32
}.

(** The relay's view of the quorum. *)
Record relay_quorum (r : RelayState) : Prop := {
  rq_map : rl_new_provers r
    = list_to_map ((λ a, (peer_id a, (a, node_idx a))) <$> active_provers r);
  rq_peers : NoDup (peer_id <$> active_provers r);
  rq_idx : NoDup (node_idx <$> active_provers r);
  rq_range : Forall (λ a, 0 < node_idx a < 2 ^ 32 ∧ node_idx a < f_modulus (F:=FieldEl (Curve:=CS)))
               (active_provers r);
  rq_t : 0 < rl_t r;
  rq_eps : 1 ≤ rl_epsilon r;
  rq_n : rl_t r + rl_epsilon r ≤ Z.of_nat (length (active_provers r)) < 2 ^ 32;
  rq_ready : rl_t r ≤ Z.of_nat (size (ready_nodes r));
  rq_shares : ∀ a, a ∈ active_provers r → ∃ shares bs,
    pubkey_shares r !! peer_id a = Some shares ∧ shares !! share_name (method request) = Some bs ∧
    from_encoded bs = Ok (fmul_point G (share (node_idx a)))
}.

Lemma quorum_forwards r : relay_quorum r → forwarding_quorum r.
Proof.
  intros []. constructor; try done; [|lia]. eapply Forall_impl; [done|]. intros a [Ha _]. exact Ha.
Qed.

(** A prover of the quorum with its share. *)
Record serving_prover (r : RelayState) (a : ProverInfo) (env : AppEnv CS CB) (w : AppWorld)
    : Prop := {
  sp_state : ∃ q, node_state w = Some (Prover q) ∧
    cm_peer_id (pv_common q) = peer_id a ∧ current_epoch (pv_common q) = epoch request ∧
    my_node_idx q = node_idx a ∧ pv_t q = rl_t r ∧ pv_epsilon q = rl_epsilon r ∧
    pv_new_provers q = rl_new_provers r ∧
    ∃ bs, private_keyshares q !! share_name (method request) = Some bs ∧
      scalar_from_bytes (Curve:=CS) bs = Ok (scalar_of_field (share (node_idx a)));
  sp_share : share (node_idx a) ≠ 0%F;
  sp_nonce : ae_nonce_s env ≠ 0%F
}.

Section Choice.
Context (r : RelayState) (H_f : forwarding_quorum r).

Lemma quorum_values (HO : HashOrder) :
  (hm_values (H:=HO) (rl_new_provers r)).*2 ≡ₚ node_idx <$> active_provers r.
Proof using H_f.
  unfold hm_values. rewrite (hm_iter_perm (HashOrder:=HO)), (fq_map r H_f).
  rewrite map_to_list_to_map.
  - rewrite <- !list_fmap_compose. done.
  - rewrite <- list_fmap_compose. apply (fq_peers r H_f).
Qed.

Lemma quorum_lookup a : a ∈ active_provers r → rl_new_provers r !! peer_id a = Some (a, node_idx a).
Proof using H_f.
  intros Ha. rewrite (fq_map r H_f). apply elem_of_list_to_map.
  - rewrite <- list_fmap_compose. apply (fq_peers r H_f).
  - apply list_elem_of_fmap. by exists a.
Qed.

Lemma quorum_idx_range a : a ∈ active_provers r → 0 < node_idx a < 2 ^ 32.
Proof using H_f. intros Ha. pose proof (fq_range r H_f) as H. by eapply Forall_forall in H. Qed.

(** The nodes chosen for the request. *)
Definition chosen : outcome string (list Z) :=
  get_nodes request (u32 (rl_t r + rl_epsilon r))
    (merge_sort Z.le (hm_values (H:=relay_order) (rl_new_provers r)).*2).

Lemma sum_small : u32 (rl_t r + rl_epsilon r) = rl_t r + rl_epsilon r.
Proof using H_f. destruct H_f. apply wrap_small. lia. Qed.

Lemma chosen_spec : ∃ cs, chosen = Ok cs ∧ Z.of_nat (length cs) = rl_t r + rl_epsilon r ∧ NoDup cs ∧
  cs ⊆ node_idx <$> active_provers r.
Proof using H_f.
  unfold chosen, get_nodes. rewrite sum_small. pose proof H_f as [].
  assert (merge_sort Z.le (hm_values (H:=relay_order) (rl_new_provers r)).*2
          ≡ₚ node_idx <$> active_provers r) as Hp.
  { etrans; [apply merge_sort_Permutation|]. apply quorum_values. }
  destruct (calc_nodes_spec (E:=string) (epoch request) (request_per_user request)
    (rl_t r + rl_epsilon r) (merge_sort Z.le (hm_values (H:=relay_order) (rl_new_provers r)).*2))
    as [(cs & Hcs & Hlen & Hnd & Hsub) _].
  - by rewrite Hp.
  - rewrite Hp. apply Forall_fmap, Forall_forall. intros a Ha. cbn.
    pose proof (quorum_idx_range a Ha). lia.
  - lia.
  - rewrite Hp, length_fmap. lia.
  - exists cs. split_and!; [done..|]. intros x Hx. rewrite <- Hp. by apply Hsub.
Qed.

(** The provers the request is forwarded to. *)
Definition selected (cs : list Z) : list ProverInfo :=
  filter (λ a, node_idx a ∈ cs) (active_provers r).

Lemma selected_spec cs : chosen = Ok cs →
  select_nodes cs r = (λ a, (peer_id a, address a)) <$>
    (if rl_epsilon r =? 0 then active_provers r else selected cs) ∧
  Z.of_nat (length (selected cs)) = rl_t r + rl_epsilon r ∧
  node_idx <$> selected cs ≡ₚ cs.
Proof using H_f.
  intros Hc. destruct chosen_spec as (cs' & Hc' & Hlen & Hnd & Hsub). assert (cs' = cs) as -> by congruence.
  assert (filter (λ prover,
    u32 (match rl_new_provers r !! peer_id prover with Some v => v.2 | None => 0 end) ∈ cs)
    (active_provers r) = selected cs) as Hsel.
  { apply filter_iff_in. intros a Ha. rewrite quorum_lookup by done. cbn. unfold u32.
    rewrite wrap_small; [done|]. pose proof (quorum_idx_range a Ha). lia. }
  assert (node_idx <$> selected cs ≡ₚ cs) as Hp by (apply filter_images; [apply H_f|done..]).
  assert (Z.of_nat (length (selected cs)) = rl_t r + rl_epsilon r) as Hl.
  { rewrite <- Hlen. f_equal. apply Permutation_length in Hp. by rewrite length_fmap in Hp. }
  split_and!; [|done..]. unfold select_nodes. rewrite Hsel.
  rewrite Hl. pose proof (fq_eps r H_f). destruct (Z.leb_spec (rl_t r + rl_epsilon r) (rl_t r)), (Z.eqb_spec (rl_epsilon r) 0);
    done || lia.
Qed.

(** A prover that knows the quorum decides alone whether it was chosen. *)
Lemma for_my_node_chosen cs a (HO : HashOrder) : chosen = Ok cs →
  is_for_my_node (Err:=string) request (rl_t r + rl_epsilon r) (node_idx a)
    (hm_values (H:=HO) (rl_new_provers r)).*2 = Ok (bool_decide (node_idx a ∈ cs)).
Proof using H_f.
  intros Hc. pose proof (quorum_values HO) as Hp. pose proof H_f as []. unfold is_for_my_node.
  destruct (should_be_sent_iff_calc (E:=string) (epoch request) (request_per_user request)
    (rl_t r + rl_epsilon r) (node_idx a) (hm_values (H:=HO) (rl_new_provers r)).*2) as [-> _].
  - rewrite Hp, length_fmap. lia.
  - rewrite Hp. apply Forall_fmap, Forall_forall. intros b Hb. cbn.
    pose proof (quorum_idx_range b Hb). lia.
  - unfold chosen, get_nodes in Hc. rewrite sum_small in Hc.
    replace (merge_sort (≤) (hm_values (H:=HO) (rl_new_provers r)).*2)
      with (merge_sort Z.le (hm_values (H:=relay_order) (rl_new_provers r)).*2); [by rewrite Hc|].
    apply (Sorted_unique (≤)); [apply Sorted_merge_sort, _..|].
    rewrite !merge_sort_Permutation, !quorum_values. done.
Qed.

(** What a prover answers when the request is not for it. *)
Definition not_for_this_node (w : AppWorld) : AppHandled CS CB F :=
  (w, [ReplyNode (ErrorResponse request_id "Request not for this node")], HOk).

Lemma handle_request_not_refused {C : Curve} nonce (constructed : DLEQProof (C:=C) → AppResponse CS CB)
    keyshare rs :
  (∀ pr, constructed pr ≠ ErrorResponse request_id "Request not for this node") →
  handle_request CS CB nonce constructed keyshare request_id request = Ok rs →
  rs ≠ [ErrorResponse request_id "Request not for this node"].
Proof using.
  intros Hc. unfold handle_request. destruct keyshare as [bs|]; [cbn [unwrap mbind outcome_bind]|done].
  destruct (scalar_from_bytes (Curve:=C) bs) as [sc|e|]; [|by intros [= <-]|done].
  destruct (from_encoded (Curve:=C) (Request.point request)) as [pt|e|]; [|by intros [= <-]|done].
  destruct (DLEQProof_new nonce pt sc) as [pr|e|]; intros [= <-]; [|done].
  intros [= H]. by destruct (Hc pr).
Qed.

(** A prover that shares the relay's parameters refuses exactly when it is not chosen. *)
Lemma prover_refuses cs a env w q : chosen = Ok cs → node_state w = Some (Prover q) →
  my_node_idx q = node_idx a → pv_t q = rl_t r → pv_epsilon q = rl_epsilon r →
  pv_new_provers q = rl_new_provers r →
  app_handle CS CB (HO:=prover_order (peer_id a)) (F:=F) env (ProcessMulRequest request_id request) w
  = not_for_this_node w ↔ node_idx a ∉ cs.
Proof using H_f.
  intros Hc Hw Hidx Ht He Hmap. cbn [app_handle]. unfold process_request, not_for_this_node.
  rewrite Hw, Ht, He, Hidx, Hmap, sum_small, (for_my_node_chosen cs) by done.
  destruct (decide (node_idx a ∈ cs)) as [Hin|Hin];
    [rewrite bool_decide_eq_true_2 by done|by rewrite bool_decide_eq_false_2].
  split; [|done]. destruct (epoch request =? _); cbn [negb]; [|discriminate].
  intros Heq. exfalso. revert Heq.
  match goal with |- context [match ?x with Ok _ => _ | _ => _ end] => destruct x as [rs| |] eqn:Hrs end; [|done..].
  intros [= Heq]. destruct rs as [|x [|? ?]]; [done| |done]. injection Heq as ->.
  destruct (method request); by eapply handle_request_not_refused in Hrs.
Qed.

(** C16: Relay and prover agree on who serves a request.  Let the relay's quorum map number
    its active provers by distinct indices, at least [t + epsilon] of them, and a prover of
    the quorum have the relay's parameters and quorum map.  Both sides compute the same
    [t + epsilon] chosen provers, by different routines and from their own hash maps: the
    prover turns the request down as not its own exactly when it is not chosen.  If [epsilon]
    is at least 1 the relay forwards the request to exactly the chosen provers.  If [epsilon]
    is 0 the relay's test that more than [t] provers were found fails and the request goes to
    all active provers, of which those not chosen turn it down. *)
Theorem relay_and_prover_agree a env w q :
  a ∈ active_provers r → node_state w = Some (Prover q) →
  my_node_idx q = node_idx a → pv_t q = rl_t r → pv_epsilon q = rl_epsilon r →
  pv_new_provers q = rl_new_provers r →
  ∃ cs, chosen = Ok cs ∧ Z.of_nat (length cs) = rl_t r + rl_epsilon r ∧
    (app_handle CS CB (HO:=prover_order (peer_id a)) (F:=F) env (ProcessMulRequest request_id request) w
     = not_for_this_node w ↔ node_idx a ∉ cs) ∧
    (1 ≤ rl_epsilon r → peer_id a ∈ (select_nodes cs r).*1 ↔ node_idx a ∈ cs) ∧
    (rl_epsilon r = 0 → peer_id a ∈ (select_nodes cs r).*1).
Proof using H_f.
  intros Ha Hw Hidx Ht He Hmap. destruct chosen_spec as (cs & Hc & Hlen & _). exists cs.
  destruct (selected_spec cs Hc) as (Hsel & _ & _).
  split_and!; [done|done|by apply (prover_refuses cs a env w q)| |].
  - intros Heps. rewrite Hsel, (proj2 (Z.eqb_neq _ _)), <- list_fmap_compose, list_elem_of_fmap by lia. split.
    + intros (b & Hb & [Hin Hbr]%list_elem_of_filter). cbn in Hb.
      pose proof (quorum_lookup a Ha) as H1. pose proof (quorum_lookup b Hbr) as H2. congruence.
    + intros Hin. exists a. split; [done|]. by apply list_elem_of_filter.
  - intros Heps. rewrite Hsel, Heps, <- list_fmap_compose. cbn [Z.eqb].
    apply list_elem_of_fmap. by exists a.
Qed.
End Choice.

Hypothesis H_method : method request = OPRFSecp256k1 ∨ method request = JWTPRFSecp256k1.
Hypothesis H_point : from_encoded (Request.point request) = Ok X.
Hypothesis H_X : in_subgroup X.
Hypothesis H_X_nonzero : X ≠ ZERO.

Section Relay.
Context (r : RelayState) (H_q : relay_quorum r).
Abbreviation chosen := (chosen r).
Abbreviation selected := (selected r).

(** With [epsilon] at least 1 the chosen provers, and only they, get the request. *)
Lemma selected_forwarded cs : chosen = Ok cs →
  select_nodes cs r = (λ a, (peer_id a, address a)) <$> selected cs.
Proof using H_q.
  intros Hc. destruct (selected_spec r (quorum_forwards r H_q) cs Hc) as [-> _].
  pose proof (rq_eps r H_q). by rewrite (proj2 (Z.eqb_neq _ _)) by lia.
Qed.

(** A chosen prover answers, and its answer reaches the relay as an honest proof. *)
Lemma prover_answers cs a env w : chosen = Ok cs → a ∈ selected cs → serving_prover r a env w →
  ∃ pr, exchange env w (peer_id a)
        = [ProcessReceivedProofSecp256k1 (node_idx a) (peer_id a) request_id pr (method request)] ∧
    DLEQProof_new (ae_nonce_s env) X (scalar_of_field (share (node_idx a))) = Ok pr.
Proof using All.
  intros Hc [Hin Ha]%list_elem_of_filter [(q & Hw & Hme & Hep & Hidx & Ht & He & Hmap & bs & Hbs & Hsc) Hnz Hr].
  destruct (DLEQ_new_total (ae_nonce_s env) X (scalar_of_field (share (node_idx a)))) as [pr Hpr]; [done..| |done|].
  { intros H0. apply Hnz, scalar_of_field_inj. by rewrite H0, scalar_of_field_zero. }
  exists pr. split; [|done]. unfold exchange. cbn [app_handle].
  assert (is_for_my_node (Err:=string) request (u32 (pv_t q + pv_epsilon q)) (my_node_idx q)
    (hm_values (H:=prover_order (peer_id a)) (pv_new_provers q)).*2 = Ok true) as Hfor.
  { rewrite Ht, He, Hidx, Hmap, (sum_small r), (for_my_node_chosen r (quorum_forwards r H_q) cs)
      by (done || by apply quorum_forwards). by rewrite bool_decide_eq_true_2. }
  unfold process_request. rewrite Hw, Hfor, Hep, Z.eqb_refl. cbn [negb].
  rewrite Hbs, Hme, Hidx. destruct H_method as [Hm|Hm]; rewrite Hm; unfold handle_request;
    cbn [unwrap mbind outcome_bind]; rewrite Hsc, H_point, Hpr; done.
Qed.

(** The answers of provers [l], in the order they arrive. *)
Definition arrivals (envs : PeerId → AppEnv CS CB) (provers : PeerId → AppWorld) (l : list ProverInfo) : list (AppMessage CS CB) :=
  concat ((λ a, exchange (envs (peer_id a)) (provers (peer_id a)) (peer_id a)) <$> l).

Lemma arrivals_honest envs provers cs l r1 : chosen = Ok cs → l ⊆ selected cs →
  (∀ a, a ∈ selected cs → serving_prover r a (envs (peer_id a)) (provers (peer_id a))) →
  pubkey_shares r1 = pubkey_shares r →
  ∃ answers, arrivals envs provers l
      = (λ x, ProcessReceivedProofSecp256k1 x.1.1 x.1.2 request_id x.2 (method request)) <$> answers ∧
    answers.*1.*1 = node_idx <$> l ∧ Forall (honest_answer (method request) X p r1) answers.
Proof using All.
  intros Hc Hl Hs Hpk. induction l as [|a l IH]; [by exists []|].
  destruct IH as (answers & Harr & Hidx & Hh); [set_solver|].
  assert (a ∈ selected cs) as Ha by (apply Hl; left). pose proof (Hs a Ha) as Hsp.
  destruct (prover_answers cs a _ _ Hc Ha Hsp) as (pr & Hex & Hpr).
  exists ((node_idx a, peer_id a, pr) :: answers). unfold arrivals in *. rewrite !fmap_cons. cbn [concat fst snd].
  rewrite Hex, Harr, Hidx. split; [done|]. split; [done|]. constructor; [|done].
  apply list_elem_of_filter in Ha as [_ Ha].
  destruct (rq_shares r H_q a Ha) as (shares & bs & H1 & H2 & H3).
  exists shares, bs, (ae_nonce_s (envs (peer_id a))). rewrite Hpk. destruct Hsp. done.
Qed.
(** The provers found by their indices. *)
Lemma find_by_idx (l : list ProverInfo) a : NoDup (node_idx <$> l) →
  (∀ b, b ∈ l → node_idx b = idx b) → a ∈ l → head (filter (λ b, idx b = node_idx a) l) = Some a.
Proof using.
  intros Hnd Hidx Ha. induction l as [|b l IH]; [by apply not_elem_of_nil in Ha|].
  rewrite fmap_cons in Hnd. apply NoDup_cons in Hnd as [Hb Hnd]. rewrite filter_cons.
  destruct (decide (idx b = node_idx a)) as [Heq|Hne].
  - cbn. f_equal. apply elem_of_cons in Ha as [->|Ha]; [done|]. destruct Hb.
    rewrite Hidx, Heq by left. by apply list_elem_of_fmap_2.
  - apply elem_of_cons in Ha as [->|Ha]; [destruct Hne; symmetry; apply Hidx; left|].
    apply IH; [done| |done]. intros c Hc. apply Hidx. by right.
Qed.
Lemma served_peers (l order : list ProverInfo) : NoDup (node_idx <$> l) →
  (∀ b, b ∈ l → node_idx b = idx b) → order ⊆ l →
  omap (λ i, peer_id <$> head (filter (λ b, idx b = i) l)) (node_idx <$> order) = peer_id <$> order.
Proof using.
  intros Hnd Hidx Hsub. induction order as [|a order IH]; [done|]. rewrite !fmap_cons. cbn.
  rewrite find_by_idx by (done || apply Hsub; left). cbn. f_equal. apply IH. intros b Hb. apply Hsub. by right.
Qed.

(** Records of credits are no answers. *)
Lemma credits_silent {A} (f : AppOutput CS CB F → option A) (credits : list KafkaCredits) :
  (∀ c, f (KafkaCredit c) = None) → omap f (KafkaCredit <$> credits) = [].
Proof using.
  intros Hf. induction credits as [|c credits IH]; [done|]. rewrite fmap_cons. cbn. by rewrite Hf.
Qed.

(** The relay accepts the request. *)
Context (env : AppEnv CS CB) (hash : string) (usr : Address) (incr : Z) (counters' : Redis)
  (credits : list KafkaCredits).
Hypothesis H_epoch : epoch request = current_epoch (rl_common r).
Hypothesis H_fresh : req_cache r !! request_id = None ∧ res_cache r !! request_id = None.
Hypothesis H_hash : request_hash_of request = Some hash ∧ (hash ∉ batch_cache r).
Hypothesis H_user : recover CB CS request = Ok usr.
Hypothesis H_account : account_request_from_signer CB CS request true (counters (redis (rl_common r)))
  = Ok (incr, counters', credits).
Hypothesis H_batch : 0 ≤ batch_size r + incr < TASK_SIZE.

Lemma relay_accepts w cs : node_state w = Some (Relay r) → chosen = Ok cs →
  ∃ r1, app_handle CS CB (HO:=relay_order) (F:=F) env (MulRequest request request_id) w
        = (with_state (Relay r1) w,
           (KafkaCredit <$> credits) ++
           [ForwardRequest request_id request ((λ a, (peer_id a, address a)) <$> selected cs)], HOk) ∧
    collecting (C:=CS) SECP256K1_NAME request_id hash request X p r1 [] r1 ∧
    rl_t r1 = rl_t r ∧ pubkey_shares r1 = pubkey_shares r ∧ active_provers r1 = active_provers r ∧
    batch_size r1 < TASK_SIZE.
Proof using All.
  intros Hw Hc. destruct H_fresh as [Hreq Hres], H_hash as [_ Hb].
  pose proof (selected_forwarded cs Hc) as Hsel.
  cbn [app_handle]. unfold handle_multiplication_request. rewrite Hw.
  assert ((Z.of_nat (size (ready_nodes r)) <? rl_t r) = false) as Hready by (destruct H_q; lia).
  cbv zeta. rewrite !Hready. cbn [andb]. cbn -[get_nodes select_nodes account_signed merge_sort].
  unfold const. rewrite Hready, H_epoch, Z.eqb_refl. cbn [negb].
  unfold account_signed. rewrite H_user. cbn [rl_common redis].
  match goal with |- context [account_request_from_signer CB CS request true ?c] =>
    change c with (counters (redis (rl_common r))) end.
  rewrite H_account. cbn beta iota. cbn [fst snd].
  match goal with |- context [get_nodes ?q ?t ?l] => change (get_nodes (Err:=string) q t l) with chosen end.
  rewrite Hc.
  match goal with |- context [select_nodes cs ?x] => change (select_nodes cs x) with (select_nodes cs r) end.
  rewrite Hsel. eexists. split; [reflexivity|].
  unfold collecting. split_and!; try done.
  - exists Submitted. cbn. unfold const. by rewrite lookup_partial_alter_eq, Hreq.
  - cbn. set_solver.
  - cbn -[u32 TASK_SIZE]. unfold u32. rewrite wrap_small; unfold TASK_SIZE in *; lia.
Qed.

End Relay.

(** The network serves a request, from the RPC to the answer.  The relay is ready and
    knows a quorum of provers with their public key shares; the provers hold the shares
    of a polynomial with at most [t] coefficients, and [epsilon] is at least 1.  Then the
    relay charges a signed request with credits left and forwards it to exactly
    [t + epsilon] provers; every one of them accepts it and answers; and in whatever
    order the answers reach the relay, it publishes one answer, the point times the
    secret, which is what the client's call of [threshold_mul] returns; the record for Kafka
    names the [t] provers whose answers came first. *)
Lemma network_serves (r : RelayState) (w : AppWorld) (env : AppEnv CS CB) (hash : string)
    (usr : Address) (incr : Z) (counters' : Redis) (credits : list KafkaCredits)
    (envs : PeerId → AppEnv CS CB) (provers : PeerId → AppWorld) :
  node_state w = Some (Relay r) → relay_quorum r →
  (∀ a, a ∈ active_provers r → serving_prover r a (envs (peer_id a)) (provers (peer_id a))) →
  epoch request = current_epoch (rl_common r) →
  req_cache r !! request_id = None ∧ res_cache r !! request_id = None →
  request_hash_of request = Some hash ∧ (hash ∉ batch_cache r) →
  recover CB CS request = Ok usr →
  account_request_from_signer CB CS request true (counters (redis (rl_common r)))
    = Ok (incr, counters', credits) →
  0 ≤ batch_size r + incr < TASK_SIZE →
  ae_redis env GetProofs = true ∧ ae_redis env SetProofs = true →
  (∀ pr : DLEQProof (C:=CS), is_Some (proof_to_json CS pr)) →
  (Z.of_nat (length (coefficients p)) ≤ rl_t r) → eval p 0%F ≠ 0%F →
  ∃ w1 chosen_provers,
    app_handle CS CB (HO:=relay_order) (F:=F) env (MulRequest request request_id) w
    = (w1, (KafkaCredit <$> credits) ++
           [ForwardRequest request_id request
              ((λ a, (peer_id a, address a)) <$> chosen_provers)], HOk) ∧
    Z.of_nat (length chosen_provers) = rl_t r + rl_epsilon r ∧
    chosen_provers ⊆ active_provers r ∧
    ∀ order, order ≡ₚ chosen_provers →
      ∃ w2 info, (app_run CS CB (HO:=relay_order) (F:=F) env (arrivals envs provers order) w1
        = (w2, [Publish request_id (VerifiedProofSecp256k1 request_id (fmul_point X (eval p 0%F)));
                info], HOk) ∧
        ((∀ a, a ∈ active_provers r → node_idx a = idx a) →
          info = KafkaRequestInfo request_id (method request) usr
                   (peer_id <$> take (Z.to_nat (rl_t r)) order))) ∧
      ∀ node, rpc_app node = w →
        (threshold_mul CS CB (HO:=relay_order) env request request_id
           (arrivals envs provers order) node).2
        = RNode CS CB (VerifiedProofSecp256k1 request_id (fmul_point X (eval p 0%F))).
Proof using All.
  intros Hw Hq Hsp Hep Hfresh Hhash Husr Hacc Hbatch Hredis Hjson Hdeg Hsec.
  destruct (chosen_spec r (quorum_forwards r Hq)) as (cs & Hc & Hlen & Hnd & Hsub).
  destruct (selected_spec r (quorum_forwards r Hq) cs Hc) as (_ & Hsl & Hperm).
  destruct (relay_accepts r Hq env hash usr incr counters' credits Hep Hfresh Hhash Husr Hacc Hbatch w cs Hw Hc)
    as (r1 & Hrun & Hcol & Ht & Hpk & Hact & Hbs).
  exists (with_state (Relay r1) w), (selected r cs). split_and!; [done|done| |].
  { intros a [_ Ha]%list_elem_of_filter. done. }
  intros order Ho.
  destruct (arrivals_honest r Hq envs provers cs order r1) as (answers & -> & Hidx & Hh);
    [done|by rewrite Ho|by intros a [_ Ha]%list_elem_of_filter; apply Hsp|done|].
  assert (length answers = length (selected r cs)) as Hal.
  { rewrite <- (length_fmap (fst ∘ fst) answers), list_fmap_compose, Hidx, length_fmap. by rewrite Ho. }
  assert (good_indices (F:=FieldEl (Curve:=CS)) answers.*1.*1) as Hgood.
  { rewrite Hidx. apply (good_indices_perm cs); [by rewrite <- Hperm, Ho|]. split; [done|].
    apply Forall_forall. intros x Hx%Hsub. apply list_elem_of_fmap in Hx as (a & -> & Ha).
    pose proof (rq_range r Hq) as Hr. eapply Forall_forall in Hr; [|done]. cbn in *. lia. }
  destruct Hq as [_ _ Hni' _ Ht0 Heps Hn _ _]. set (t := Z.to_nat (rl_t r)).
  rewrite <- (take_drop t answers).
  destruct (served_run CS CB (HO:=relay_order) (F:=F) (C:=CS) SECP256K1_NAME env request_id hash (method request)
    request X p (VerifiedProofSecp256k1 request_id) H_point H_X H_X_nonzero (proj1 Hhash) Hredis Hjson
    (secp_answer CS CB request_id)
    (λ x, ProcessReceivedProofSecp256k1 x.1.1 x.1.2 request_id x.2 (method request)) ltac:(done)
    r1 (take t answers) (drop t answers) (with_state (Relay r1) w)) as [w2 Hserved]; try done.
  - by rewrite take_drop.
  - rewrite length_take, Hal, Ht. lia.
  - rewrite Ht. lia.
  - destruct Hgood as [Hg1 Hg2]. rewrite !fmap_take. split.
    + eapply sublist_NoDup; [exact Hg1|apply sublist_take].
    + by apply Forall_take.
  - rewrite length_take, Hal. lia.
  - exists w2. eexists. split; [split; [exact Hserved|]|].
    { intros Hni. unfold request_info. rewrite Husr, Hact, !fmap_take, Hidx.
      rewrite <- fmap_take, served_peers; [by rewrite fmap_take|exact Hni'|exact Hni|].
      etransitivity; [apply subseteq_take|]. rewrite Ho. by intros a [_ Ha]%list_elem_of_filter. }
    intros node Hnode. unfold threshold_mul.
    cbn [app_run]. rewrite Hnode, Hrun, Hserved. cbn [fst snd]. unfold reply_of.
    rewrite <- !app_assoc. rewrite omap_app, credits_silent by done. cbn. by rewrite bool_decide_eq_true_2.
Qed.
End Serve.

(** ** From the key generation to a ready relay *)
Section Handoff.
Context (CS CB : Curve) `{HH : Hashes} `{HO : HashOrder} `{E : Eth} `{J : !Jwt}
  `{RC : !RequestCodec CB CS} `{RG : Rng} `{AT : !AppTexts} {F : Type}.
Context (env : AppEnv CS CB) (node_idx : ProverInfo → Z) (pub : ProverInfo → KeyMap) (group_keys : KeyMap).
Implicit Types (r : RelayState) (w : AppWorld) (l : list ProverInfo).

(** What the relay's application state gets when prover [a] gossips that it is ready. *)
Definition ready_message (ls : Listener) (a : ProverInfo) : list (AppMessage CS CB) :=
  match process_message (F:=F) ls (Gossiped (Ready (node_idx a) (peer_id a) (pub a) group_keys)) with
  | Ok o => omap (λ x, match x with CastApp m => Some m | _ => None end) o
  | _ => []
  end.

Hypothesis H_short : ∀ a, short 100 (pub a).
Hypothesis H_keys : short 200 group_keys.

(** The relay after the messages of [l]. *)
Definition parameters r := (active_provers r, rl_n r, rl_t r, rl_epsilon r, rl_new_provers r).
Definition heard r0 l r : Prop :=
  parameters r = parameters r0 ∧
  pubkey_shares r = list_to_map ((λ a, (peer_id a, pub a)) <$> reverse l) ∪ pubkey_shares r0 ∧
  ready_nodes r = list_to_set (node_idx <$> l) ∪ ready_nodes r0 ∧
  received_group_public_keys r = received_group_public_keys r0 ++ ((λ _, group_keys) <$> l).

Lemma is_peer_true a provers : a ∈ provers → is_peer (peer_id a) provers = true.
Proof using.
  intros Ha. unfold is_peer. apply existsb_exists. exists a. split; [by apply list_elem_of_In|].
  by apply bool_decide_eq_true_2.
Qed.

Lemma hear_one ls r0 l r w a : heard r0 l r → a ∈ active_provers r0 → node_state w = Some (Relay r) →
  ∃ r', app_run CS CB (F:=F) env (ready_message ls a) w = (with_state (Relay r') w, [], HOk) ∧
    heard r0 (l ++ [a]) r' ∧
    no_of_shares_received r' = Z.of_nat (size (pubkey_shares r')) ∧
    (u32 (Z.of_nat (size (ready_nodes r'))) = rl_n r0 →
      finalized_group_public_keys r'
      = resolve_conflicts_between_group_keys (received_group_public_keys r')).
Proof using H_short H_keys.
  intros (Hpar & Hpk & Hready & Hrec) Ha Hw. pose proof Hpar as [= Hact Hn _ _ _]. cbn [ready_message process_message omap list_omap app_run].
  cbn [app_handle handle_plain]. unfold store_kset, on_relay. rewrite Hw, Hact, is_peer_true by done.
  rewrite (proj2 (check_memory_usage_spec _ 100 _)) by done.
  rewrite (proj2 (check_memory_usage_spec _ 200 _)) by done. cbn [andb].
  destruct (Z.eqb_spec (u32 (Z.of_nat (size ({[node_idx a]} ∪ ready_nodes r)))) (rl_n r)) as [Heq|Hne].
  - eexists. split; [cbn -[u32]; unfold const; rewrite (proj2 (Z.eqb_eq _ _) Heq); reflexivity|].
    split; [|split; [done|done]]. split_and!; cbn; unfold const.
    + exact Hpar.
    + rewrite reverse_snoc, fmap_cons. cbn. by rewrite Hpk, insert_union_l.
    + rewrite Hready, fmap_app. cbn. set_solver.
    + rewrite Hrec, fmap_app, app_assoc. done.
  - eexists. split; [cbn -[u32]; unfold const; rewrite (proj2 (Z.eqb_neq _ _) Hne); reflexivity|].
    split; [|split; [done|]]; [split_and!; cbn; unfold const|].
    + exact Hpar.
    + rewrite reverse_snoc, fmap_cons. cbn. by rewrite Hpk, insert_union_l.
    + rewrite Hready, fmap_app. cbn. set_solver.
    + rewrite Hrec, fmap_app, app_assoc. done.
    + cbn -[u32]. unfold const. rewrite <- Hn. intros H. by destruct Hne.
Qed.

Lemma app_run_last (ms1 ms2 : list (AppMessage CS CB)) w r1 r2 :
  app_run CS CB (F:=F) env ms1 w = (with_state (Relay r1) w, [], HOk) →
  app_run CS CB (F:=F) env ms2 (with_state (Relay r1) w) = (with_state (Relay r2) w, [], HOk) →
  app_run CS CB (F:=F) env (ms1 ++ ms2) w = (with_state (Relay r2) w, [], HOk).
Proof using. intros H1 H2. by rewrite (app_run_app CS CB env _ _ _ _ _ H1), H2. Qed.

Lemma hear_run ls r0 w l : ∀ r, heard r0 [] r → Forall (λ a, a ∈ active_provers r0) l → l ≠ [] →
  node_state w = Some (Relay r) →
  ∃ r', app_run CS CB (F:=F) env (concat (ready_message ls <$> l)) w
        = (with_state (Relay r') w, [], HOk) ∧
    heard r0 l r' ∧ no_of_shares_received r' = Z.of_nat (size (pubkey_shares r')) ∧
    (u32 (Z.of_nat (size (ready_nodes r'))) = rl_n r0 →
      finalized_group_public_keys r'
      = resolve_conflicts_between_group_keys (received_group_public_keys r')).
Proof using H_short H_keys.
  induction l as [|a l IH] using rev_ind; intros r Hr Hl Hne Hw; [done|].
  apply Forall_app in Hl as [Hl Ha]. rewrite Forall_singleton in Ha.
  rewrite fmap_app, concat_app. cbn [fmap list_fmap concat]. rewrite app_nil_r.
  destruct (decide (l = [])) as [->|Hl0].
  - destruct (hear_one ls r0 [] r w a Hr Ha Hw) as (r' & Hrun & Hh & Hrest). exists r'. split; [exact Hrun|done].
  - destruct (IH r Hr Hl Hl0 Hw) as (r1 & Hrun & Hh & _).
    destruct (hear_one ls r0 l r1 (with_state (Relay r1) w) a Hh Ha eq_refl) as (r2 & Hrun2 & Hh2 & Hrest).
    exists r2. split; [by eapply app_run_last|done].
Qed.

Lemma resolve_unanimous l : l ≠ [] →
  resolve_conflicts_between_group_keys ((λ _, group_keys) <$> l) = group_keys.
Proof using.
  intros Hl.
  assert (∀ k v, (0 < votes ((λ _, group_keys) <$> l) k v)%nat → group_keys !! k = Some v) as Hv.
  { intros k v Hpos. unfold votes in Hpos.
    destruct (filter (λ m : KeyMap, m !! k = Some v) ((λ _, group_keys) <$> l)) as [|m ms] eqn:Hf; [cbn in Hpos; lia|].
    assert (m ∈ filter (λ m : KeyMap, m !! k = Some v) ((λ _, group_keys) <$> l)) as Hm by (rewrite Hf; left).
    apply list_elem_of_filter in Hm as [Hm (a & -> & _)%list_elem_of_fmap]. done. }
  apply map_eq. intros k. destruct (group_keys !! k) as [v|] eqn:Hk.
  - destruct l as [|a l]; [done|].
    destruct (resolve_some ((λ _, group_keys) <$> a :: l) k group_keys v) as [v0 Hv0];
      [rewrite fmap_cons; left|done|]. rewrite Hv0. apply resolve_spec in Hv0 as [Hpos _].
    apply Hv in Hpos. congruence.
  - destruct (resolve_conflicts_between_group_keys ((λ _, group_keys) <$> l) !! k) as [v0|] eqn:Hv0; [|done].
    apply resolve_spec in Hv0 as [Hpos _]. apply Hv in Hpos. congruence.
Qed.

(** When every prover of the quorum gossips that it is ready, with its public key shares and
    the same group keys, then in whatever order these messages come the relay has every
    prover's public key shares and index, the group keys are final, and the count of
    shares is the one at which the monitor of the key generation has the state saved. *)
Lemma relay_hears_all (ls : Listener) r w (order : list ProverInfo) :
  node_state w = Some (Relay r) →
  pubkey_shares r = ∅ → ready_nodes r = ∅ → received_group_public_keys r = [] →
  active_provers r ≠ [] → NoDup (peer_id <$> active_provers r) → NoDup (node_idx <$> active_provers r) →
  rl_n r = Z.of_nat (length (active_provers r)) → rl_n r < 2 ^ 32 → order ≡ₚ active_provers r →
  ∃ r', app_run CS CB (F:=F) env (concat (ready_message ls <$> order)) w
        = (with_state (Relay r') w, [], HOk) ∧
    parameters r' = parameters r ∧
    (∀ a, a ∈ active_provers r → pubkey_shares r' !! peer_id a = Some (pub a)) ∧
    ready_nodes r' = list_to_set (node_idx <$> active_provers r) ∧
    finalized_group_public_keys r' = group_keys ∧
    no_of_shares_received r' = Z.of_nat (length (active_provers r')).
Proof using H_short H_keys.
  intros Hw Hpk Hready Hrec Hne Hpeers Hidx Hn Hn32 Ho.
  assert (order ≠ []) as Hone by (intros ->; by apply Permutation_nil_l in Ho).
  destruct (hear_run ls r w order r) as (r' & Hrun & (Hpar & Hpk' & Hready' & Hrec') & Hno & Hfin).
  { split_and!; cbn; rewrite ?app_nil_r; try done; [by rewrite map_empty_union|set_solver]. }
  { apply Forall_forall. intros a. by rewrite Ho. }
  { done. }
  { done. }
  rewrite Hpk, map_union_empty in Hpk'. rewrite Hready, union_empty_r_L in Hready'.
  rewrite Hrec in Hrec'. cbn in Hrec'.
  assert (NoDup (((λ a, (peer_id a, pub a)) <$> reverse order).*1)) as Hnd.
  { rewrite <- list_fmap_compose. assert (reverse order ≡ₚ active_provers r) as -> by (by rewrite reverse_Permutation).
    done. }
  exists r'. split_and!; [done|done| | | |].
  - intros a Ha. rewrite Hpk'. apply elem_of_list_to_map; [done|]. apply list_elem_of_fmap. exists a.
    split; [done|]. by rewrite reverse_Permutation, Ho.
  - rewrite Hready'. apply list_to_set_perm_L. by rewrite Ho.
  - rewrite Hfin; [by rewrite Hrec', resolve_unanimous|].
    rewrite Hready', size_list_to_set by (by rewrite Ho). rewrite length_fmap, Ho, <- Hn.
    apply wrap_small. lia.
  - pose proof Hpar as [= Hact _ _ _ _]. rewrite Hno, Hact, Hpk', map_size_list_to_map by done.
    by rewrite length_fmap, reverse_Permutation, Ho.
Qed.
End Handoff.
