(* ===== verification/Keygen.v ===== *)
(** * From the key generation to service

    The outputs of the DKG engines ([EngineRun]) reach the application states: the provers
    store their key shares, the relay hears every [Ready].  What they then hold is what the
    service of a request needs ([System]). *)
From Stdlib Require Import ZArith Lia Ascii String.
From stdpp Require Import base list gmap sets strings pretty sorting.
From coqutil Require Import Datatypes.RecordSettersUsingExistingGetters.
Import RecordSetNotations.
From S2P Require Import Prelude PrimeField Curve Polynomial Dleq Reconstruct Dkg DkgProtocol NodeSelection Serialization ZkMask Request ConcreteCurves Messages Election DkgEngine EngineRun AppState AppStateSafety Gossip Rpc System.

Lemma NoDup_image_inj {A B} (f : A → B) (l : list A) a b :
  NoDup (f <$> l) → a ∈ l → b ∈ l → f a = f b → a = b.
Proof.
  intros Hnd [i Hi]%list_elem_of_lookup [j Hj]%list_elem_of_lookup Hf.
  assert (i = j) as ->.
  { eapply (NoDup_lookup (f <$> l)); [done|by rewrite list_lookup_fmap, Hi|].
    rewrite list_lookup_fmap, Hj. cbn. by rewrite Hf. }
  congruence.
Qed.

Section Keygen.
Context (CS CB : Curve) {CLS : CurveLaws CS} {CLB : CurveLaws CB} `{HH : Hashes} `{HO : HashOrder}
  `{R : Rsa} {RL : RsaLaws R} `{ET : !EngineTexts} `{E : Eth} `{J : !Jwt}
  `{RC : !RequestCodec CB CS} `{RG : Rng} `{FL : !F64} `{AT : !AppTexts}.
Abbreviation F := f64.

(** The quorum as the engines know it. *)
Context (peers : QuorumMap) (t : Z) (keys : gmap Z RsaPublicKey)
  (c : Z → AllCoins CS CB) (sk : Z → RsaPrivateKey) (peer : Z → PeerId).
Abbreviation net := (quorum peers t keys).
Hypothesis H_size : size keys = size peers ∧ Z.of_nat (size peers) < 2 ^ 64.
Hypothesis H_t : 0 < t < Z.of_nat (size peers) ∧ (3 ≤ size peers)%nat.
Hypothesis H_member : ∀ k, is_Some (keys !! k) →
  (∃ p, peers !! peer k = Some (p, k)) ∧ keys !! k = Some (rsa_public (sk k)).
Hypothesis H_secp : ∀ q, key_ok peers t keys (cs_of c q).
Hypothesis H_bjj : ∀ q, key_ok peers t keys (cb_of c q).
(** The encodings of both curves are short: 33 and 64 bytes. *)
Hypothesis H_short_s : ∀ (P : Point (Curve:=CS)) bs, encode P = Ok bs → (length bs ≤ 100)%nat.
Hypothesis H_short_b : ∀ (P : Point (Curve:=CB)) bs, encode P = Ok bs → (length bs ≤ 100)%nat.

(** The members as the relay knows them. *)
Context (members : list ProverInfo) (node_idx : ProverInfo → Z).
Hypothesis H_peers : peers = list_to_map ((λ a, (peer_id a, (a, node_idx a))) <$> members).
Hypothesis H_peer_ids : NoDup (peer_id <$> members).
Hypothesis H_idx : NoDup (node_idx <$> members).
Hypothesis H_keys : ∀ a, a ∈ members → is_Some (keys !! node_idx a).

(** What member [a]'s engine announces and stores at the end of round 3. *)
Definition announced (a : ProverInfo) : KeyMap := out2 peers t keys c (node_idx a).
Definition final_keys : KeyMap := group_keys peers t keys c.
Definition stored (a : ProverInfo) : KeyMap := shares peers t keys c (node_idx a).

Lemma enc_short {C : Curve} (P : Point (Curve:=C)) :
  (∀ (P : Point (Curve:=C)) bs, encode P = Ok bs → (length bs ≤ 100)%nat) → (length (enc P) ≤ 100)%nat.
Proof using. intros H. unfold enc. destruct (encode P) eqn:HP; [by eapply H|apply Nat.le_0_l..]. Qed.

Lemma keyed_short n (fs fb : string → list Z) :
  (∀ q, (length (fs q) ≤ n)%nat) → (∀ q, (length (fb q) ≤ n)%nat) → short n (keyed fs fb).
Proof using.
  intros Hs Hb q v. rewrite keyed_lookup. destruct (on_secp q); [intros [= <-]; apply Hs|].
  destruct (on_bjj q); [intros [= <-]; apply Hb|discriminate].
Qed.

Lemma announced_short a : short 100 (announced a).
Proof using H_short_s H_short_b.
  unfold announced, out2. apply keyed_short; intros q; unfold run_pubshare; apply enc_short; [exact H_short_s|exact H_short_b].
Qed.

Lemma final_keys_short : short 200 final_keys.
Proof using H_short_s H_short_b.
  unfold final_keys, group_keys. apply keyed_short; intros q; unfold run_group_key; apply (Nat.le_trans _ 100);
    [apply enc_short; exact H_short_s|by apply Nat.leb_le|apply enc_short; exact H_short_b|by apply Nat.leb_le].
Qed.

(** The engines' name of a member is the relay's. *)
Lemma peer_of_member a : a ∈ members → peer (node_idx a) = peer_id a.
Proof using H_member H_peers H_peer_ids H_idx H_keys.
  intros Ha. destruct (H_member _ (H_keys a Ha)) as [[p Hp] _]. rewrite H_peers in Hp.
  apply elem_of_list_to_map_2, list_elem_of_fmap in Hp as (b & [= Hb -> Hidx] & Hin). rewrite Hb.
  f_equal. symmetry. by apply (NoDup_image_inj node_idx members).
Qed.

(** The polynomial whose values the members hold, for key pair [q]. *)
Lemma run_poly q : ∃ p : Polynomial (FieldEl (Curve:=CS)),
  Z.of_nat (length (coefficients p)) ≤ t ∧ eval p 0%F = run_secret net (cs_of c q) ∧
  ∀ k, run_share net (cs_of c q) k = eval p (f_of_Z k).
Proof using CLS H_t H_size.
  destruct (dealt_poly keys (Z.to_nat t) (λ k, coin_poly (cs_of c q k)) (λ k, coin_secret (cs_of c q k)))
    as (fs & Hfs & Hs); [lia|].
  exists (from_coeffs fs). split; [cbn; lia|]. split.
  - rewrite eval_peval. cbn. rewrite <- Hs. apply sum_at_dealt_0.
  - intros k. rewrite eval_peval. cbn. rewrite <- Hs. symmetry. apply sum_at_dealt.
Qed.

(** The share names of the two methods on secp256k1. *)
Lemma keyed_method {A} (fs fb : string → A) (m : Method) :
  m = OPRFSecp256k1 ∨ m = JWTPRFSecp256k1 → keyed fs fb !! share_name m = Some (fs (share_name m)).
Proof using. intros [->| ->]; by rewrite keyed_lookup. Qed.

Lemma members_size : Z.of_nat (length members) = Z.of_nat (size peers).
Proof using H_peers H_peer_ids.
  rewrite H_peers, map_size_list_to_map; [by rewrite length_fmap|].
  by rewrite <- list_fmap_compose.
Qed.

(** C4: The key generation makes the network ready to serve.  When the engines of a quorum
    have generated the keys and every member gossips the [Ready] that its engine announced,
    then in whatever order the relay hears them, the relay has the group keys as final and
    is a relay that a quorum can serve, for a polynomial with at most [t] coefficients
    whose value at 0 is the generated secret; and every member that stores the shares its
    engine handed over is a serving prover of that quorum. *)
Theorem keygen_ready_to_serve (env : AppEnv CS CB) (ls : Listener) r w (order : list ProverInfo)
    (request : RequestToNetwork) :
  node_state w = Some (Relay r) → active_provers r = members → rl_new_provers r = peers →
  rl_n r = Z.of_nat (length members) → rl_t r = t → 1 ≤ rl_epsilon r →
  t + rl_epsilon r ≤ Z.of_nat (length members) < 2 ^ 32 →
  pubkey_shares r = ∅ → ready_nodes r = ∅ → received_group_public_keys r = [] →
  order ≡ₚ members → method request = OPRFSecp256k1 ∨ method request = JWTPRFSecp256k1 →
  ∃ r' p,
    app_run CS CB (F:=F) env (concat (ready_message CS CB (F:=F) node_idx announced final_keys ls <$> order)) w
      = (with_state (Relay r') w, [], HOk) ∧
    AppState.finalized_group_public_keys r' = final_keys ∧
    relay_quorum CS request p node_idx r' ∧
    Z.of_nat (length (coefficients p)) ≤ rl_t r' ∧
    eval p 0%F = run_secret net (cs_of c (share_name (method request))) ∧ eval p 0%F ≠ 0%F ∧
    ∀ a wq q env', a ∈ members → node_state wq = Some (Prover q) →
      cm_peer_id (pv_common q) = peer_id a → current_epoch (pv_common q) = Request.epoch request →
      my_node_idx q = node_idx a → pv_t q = t → pv_epsilon q = rl_epsilon r → pv_new_provers q = peers →
      ae_nonce_s env' ≠ 0%F →
      serving_prover CS CB request p node_idx r' a env'
        (app_handle CS CB (F:=F) env' (Plain (StoreKeyShares (stored a))) wq).1.1.
Proof using All.
  intros Hw Hact Hmap Hn Ht Heps Hbound Hpk Hready Hrec Ho Hm.
  assert (members ≠ []) as Hne.
  { intros H0. pose proof members_size as Hs. rewrite H0 in Hs. cbn in Hs. lia. }
  destruct (relay_hears_all CS CB (F:=F) env node_idx announced final_keys announced_short final_keys_short
    ls r w order) as (r' & Hrun & Hpar & Hshares & Hrn & Hfin & _); rewrite ?Hact; try done; [lia|].
  pose proof Hpar as [= Hact' Hn' Ht' Heps' Hmap']. rewrite Hact in *.
  set (q := share_name (method request)). destruct (run_poly q) as (p & Hlen & H0 & Hp).
  destruct (H_secp q) as (Hids & _ & _ & Hnz & Hsec).
  assert (∀ a, a ∈ members → run_share net (cs_of c q) (node_idx a) ≠ 0%F) as Hshare.
  { intros a Ha. by apply Hnz, H_keys. }
  exists r', p. split_and!; [done|done| |by rewrite Ht', Ht|done|by rewrite H0|].
  - constructor; rewrite ?Hact', ?Hmap', ?Ht', ?Heps', ?Ht; try done; [by rewrite Hmap| | | |].
    + apply Forall_forall. intros a Ha. apply Hids, H_keys, Ha.
    + apply H_t.
    + rewrite Hrn, size_list_to_set by done. rewrite length_fmap, members_size. destruct H_t. lia.
    + intros a Ha. exists (announced a), (run_pubshare net (cs_of c q) (node_idx a)).
      split; [by apply Hshares|]. split; [exact (keyed_method _ _ _ Hm)|]. rewrite <- Hp.
      apply (enc_base (run_share net (cs_of c q) (node_idx a))), Hshare, Ha.
  - intros a wq pq env' Ha Hwq Hpid Hepoch Hpi Hpt Hpe Hpm Hnonce.
    cbn [app_handle handle_plain]. rewrite Hwq. constructor; [| |done].
    + eexists. split; [reflexivity|]. cbn. rewrite Ht', Ht, Heps', Hmap', Hmap.
      split_and!; try done. exists (share_bytes peers t keys (cs_of c q) (node_idx a)).
      split; [exact (keyed_method _ _ _ Hm)|]. unfold share_bytes. by rewrite scalar_bytes, Hp.
    + rewrite <- Hp. by apply Hshare.
Qed.
End Keygen.
