(* ===== verification/Signer.v ===== *)
(** * The signer service (crates/signer/src/main.rs)

    The HTTP service between clients and the network: it checks the client's session
    token, limits the rate per user and per address, numbers and signs the request with
    its own wallet, sends it to the relay and polls for the result.  Environment
    variables are a function, Redis entries have an expiry, and the relay's RPC is an
    interface ([HumanRpc]) that [SignerProofs] discharges with the modelled RPC server. *)
From Stdlib Require Import ZArith Lia Ascii String.
From stdpp Require Import base list gmap sets strings pretty.
From coqutil Require Import Datatypes.RecordSettersUsingExistingGetters.
Import RecordSetNotations.
From S2P Require Import Prelude Curve Dleq NodeSelection Serialization ZkMask Request ConcreteCurves Messages AppState Gossip Rpc.

(** ** Configuration *)
Definition JWK_CACHE_SEC : Z := 600.
Definition JWK_KEY_IDX : nat := 0.
Definition RATE_LIMIT_NUM_REQUESTS : Z := 100.
Definition RATE_LIMIT_TIME_INTERVAL : Z := 86400.
Definition MAX_RETRIES : nat := 5.

Inductive SignerEnv := Dev | Staging | Prod.

(** [str::to_lowercase] and [str::trim] on ASCII text. *)
Definition ascii_lower (c : ascii) : ascii :=
  let n := nat_of_ascii c in
  if ((65 <=? n) && (n <=? 90))%nat then ascii_of_nat (n + 32) else c.
Definition to_lowercase (s : string) : string :=
  string_of_list_ascii (ascii_lower <$> list_ascii_of_string s).
Definition is_space (c : ascii) : bool :=
  let n := nat_of_ascii c in (((9 <=? n) && (n <=? 13)) || (n =? 32))%nat.
Fixpoint trim_start (s : list ascii) : list ascii :=
  match s with
  | c :: s' => if is_space c then trim_start s' else s
  | [] => []
  end.
Definition trim (s : string) : string :=
  string_of_list_ascii (reverse (trim_start (reverse (trim_start (list_ascii_of_string s))))).

Definition SignerEnv_from_str (s : string) : outcome string SignerEnv :=
  let l := to_lowercase s in
  if bool_decide (l = "dev") then Ok Dev
  else if bool_decide (l = "staging") then Ok Staging
  else if bool_decide (l = "prod") then Ok Prod
  else Err ("Invalid SignerEnv: " +:+ s).

(** [str::parse::<u64>]: an optional plus sign and at least one digit, within range. *)
Fixpoint digits (acc : Z) (s : list ascii) : option Z :=
  match s with
  | [] => Some acc
  | c :: s =>
      let d := Z.of_nat (nat_of_ascii c) - 48 in
      if (0 <=? d) && (d <=? 9) then digits (acc * 10 + d) s else None
  end.
Definition parse_u64 (s : string) : option Z :=
  let l := match list_ascii_of_string s with
           | c :: l => if bool_decide (c = "+"%char) then l else c :: l
           | [] => []
           end in
  match l with
  | [] => None
  | _ => v ← digits 0 l; if v <? 2 ^ 64 then Some v else None
  end.

Section Config.
(** [env::var]. *)
Context (var : string → option string).

Definition ISS_DEV : string := default "https://epic-eft-18.clerk.accounts.dev"%string (var "ISS_DEV").
Definition ISS_STAGING : string :=
  default "https://clerk.staging-silkysignon.com"%string (var "ISS_STAGING").
Definition ISS_PROD : string := default "https://clerk.humansignon.com"%string (var "ISS_PROD").
Definition get_azp_whitelist : list string :=
  match var "AZP_WHITELIST" with
  | Some s => trim <$> split "," s
  | None => ["http://127.0.0.1:3000"; "http://localhost:3000"]%string
  end.
Definition get_signer_env : outcome string SignerEnv :=
  s ← unwrap (var "SIGNER_ENV"); unwrap_res (SignerEnv_from_str s).
Definition is_rate_limit_enabled : bool :=
  bool_decide (default "true"%string (var "RATE_LIMIT_ENABLED") = "true"%string).
Definition parse_allowed_methods : list Method :=
  match var "ALLOWED_METHODS" with
  | Some methods => omap (λ m, method_from_str (trim m)) (split "," methods)
  | None => []
  end.
Definition rate_limit_time_interval : outcome string Z :=
  match var "RATE_LIMIT_TIME_INTERVAL" with
  | Some s => unwrap (parse_u64 s)
  | None => Ok RATE_LIMIT_TIME_INTERVAL
  end.
Definition rate_limit_num_requests : outcome string Z :=
  match var "RATE_LIMIT_NUM_REQUESTS" with
  | Some s => unwrap (parse_u64 s)
  | None => Ok RATE_LIMIT_NUM_REQUESTS
  end.
End Config.

(** ** Redis entries with an expiry, in seconds *)
Record Entry (A : Type) := { value : A; expires : option Z }.
Arguments value {A} _.
Arguments expires {A} _.

Definition alive {A} (now : Z) (e : Entry A) : bool :=
  match expires e with Some x => now <? x | None => true end.
Definition lookup_at {A} (now : Z) (key : string) (db : gmap string (Entry A)) : option (Entry A) :=
  match db !! key with Some e => if alive now e then Some e else None | None => None end.

(** [SET key 0 NX EX seconds], which refuses a time that is not positive or overflows, and
    [INCR key], which creates a missing key without an expiry. *)
Definition valid_expire (now seconds : Z) : bool :=
  (0 <? seconds) && (seconds * 1000 <=? 2 ^ 63 - 1 - now * 1000).
Definition set_nx_ex (now : Z) (key : string) (seconds : Z) (db : gmap string (Entry Z))
    : gmap string (Entry Z) :=
  match lookup_at now key db with
  | Some _ => db
  | None => <[key := {| value := 0; expires := Some (now + seconds) |}]> db
  end.
Definition incr (now : Z) (key : string) (db : gmap string (Entry Z)) : Z * gmap string (Entry Z) :=
  match lookup_at now key db with
  | Some e => (value e + 1, <[key := {| value := value e + 1; expires := expires e |}]> db)
  | None => (1, <[key := {| value := 1; expires := None |}]> db)
  end.

(** [rate_limit]: the two commands are sent at [now] and [later]. *)
Definition rate_key (identifier : string) : string := "rate_limit:" +:+ identifier.
Definition rate_limit (var : string → option string) (now later : Z) (identifier : string)
    (db : gmap string (Entry Z)) : outcome string unit * gmap string (Entry Z) :=
  let key := rate_key identifier in
  match rate_limit_time_interval var, rate_limit_num_requests var with
  | Ok interval, Ok num_requests =>
      if valid_expire now interval then
        let db := set_nx_ex now key interval db in
        let '(count, db) := incr later key db in
        (if num_requests <? count then Err "Rate limit exceeded"%string else Ok tt, db)
      else (Panic, db)
  | _, _ => (Panic, db)
  end.

(** ** Sessions *)
Section Sessions.
Context `{E : Eth} `{J : !Jwt} (var : string → option string).
(** [serde_json::to_string]. *)
Context (json_to_string : Value → string).
Abbreviation JwkCache := (gmap string (Entry string)).
(** A computation that reads and fills the cache of keys. *)
Abbreviation Cached A := (JwkCache → outcome string A * JwkCache).

Definition cached_bind {A B} (m : Cached A) (k : A → Cached B) : Cached B := λ c,
  match m c with
  | (Ok a, c) => k a c
  | (Err e, c) => (Err e, c)
  | (Panic, c) => (Panic, c)
  end.
Definition lift {A} (m : outcome string A) : Cached A := λ c, (m, c).

Definition signer_get_jwk (now : Z) (issuer : string) : Cached Value := λ c,
  let key := "jwk:issuer:" +:+ issuer in
  match lookup_at now key c with
  | Some cached => (ok_or (json_from_str (value cached)) "json"%string, c)
  | None =>
      match jwk_download issuer with
      | Some jwk => (Ok jwk, <[key := {| value := json_to_string jwk; expires := Some (now + JWK_CACHE_SEC) |}]> c)
      | None => (Err "download"%string, c)
      end
  end.

Definition signer_verify_jwt (jwt : string) (jwk : Value) : outcome string string :=
  '(modulus, exponent) ← select_key jwk JWK_KEY_IDX;
  claims ← ok_or (jwt_decode modulus exponent jwt) "InvalidSignature"%string;
  if bool_decide (iss claims ∉ [ISS_PROD var; ISS_DEV var; ISS_STAGING var]) then
    Err "Invalid issuer"%string
  else
    azp ← unwrap (azp claims);
    if bool_decide (azp ∈ get_azp_whitelist var) then Ok (sub claims) else Err "Invalid azp"%string.

(** One environment of [from_session_token_staging]: no key is an error, a token that does
    not verify under it is kept for later. *)
Definition try_issuer (now : Z) (issuer token : string) : Cached (outcome string string) :=
  cached_bind (λ c, let '(r, c) := signer_get_jwk now issuer c in
                    (map_err (λ e, "Failed to get JWK: " +:+ e) r, c))
    (λ jwk, lift (match map_err (λ e, "Could not verify JWT: " +:+ e) (signer_verify_jwt token jwk) with
                  | Panic => Panic
                  | r => Ok r
                  end)).

Definition err_text (r : outcome string string) : string :=
  match r with Err e => e | _ => "No error" end.

(** [ClerkSession]: the user's id. *)
Definition from_session_token_staging (now : Z) (token : string) : Cached string :=
  cached_bind (lift (from_raw_token_unchecked token)) (λ unvalidated,
  if default false (from_enclave unvalidated) then
    cached_bind (lift (verify_enclave_jwt token)) (λ _, lift (Ok (sub unvalidated)))
  else
    cached_bind (try_issuer now (ISS_PROD var) token) (λ prod,
    cached_bind (try_issuer now (ISS_DEV var) token) (λ dev,
    cached_bind (try_issuer now (ISS_STAGING var) token) (λ staging,
    lift (match prod, dev, staging with
          | Ok user_id, Err _, Err _ | Err _, Ok user_id, Err _ | Err _, Err _, Ok user_id => Ok user_id
          | Err _, Err _, Err _ =>
              Err ("Could not verify JWT. Errors: prod: " +:+ err_text prod +:+ ", dev: " +:+
                   err_text dev +:+ ", staging: " +:+ err_text staging)
          | _, _, _ => Err "Could not determine user ID. This user ID might exist in multiple environments."%string
          end))))).

Definition from_session_token_prod (now : Z) (token : string) : Cached string :=
  cached_bind (try_issuer now (ISS_PROD var) token) (λ r, lift r).

Definition from_session_token (now : Z) (token : string) : Cached string :=
  cached_bind (lift (get_signer_env var)) (λ env,
  match env with
  | Dev | Staging => from_session_token_staging now token
  | Prod => from_session_token_prod now token
  end).

(** [HeaderValue::to_str] wants visible ASCII. *)
Definition visible_ascii (s : string) : bool :=
  forallb (λ c, let n := nat_of_ascii c in (((32 <=? n) && (n <? 127)) || (n =? 9))%nat)
    (list_ascii_of_string s).

(** [OptionalClerkSession::from_request_parts] on the header [X-Silk-Clerk-JWT]. *)
Definition from_request_parts (now : Z) (header : option string) : Cached (option string) :=
  match header with
  | Some token =>
      if visible_ascii token then cached_bind (from_session_token now token) (λ u, lift (Ok (Some u)))
      else lift (Err "No session token provided"%string)
  | None => lift (Ok None)
  end.
End Sessions.

(** ** The handler *)

(** [AppErrorWithStatus]. *)
Record AppErrorWithStatus := { error : string; status : Z }.
Definition bad_request (msg : string) : AppErrorWithStatus := {| error := msg; status := 400 |}.
Definition internal_error (msg : string) : AppErrorWithStatus := {| error := msg; status := 500 |}.
(** [IntoResponse]: the status and the body. *)
Definition into_response (e : AppErrorWithStatus) : Z * string :=
  (status e, "Something went wrong: " +:+ error e).

(** [AppState] of the service. *)
Record SignerState := {
  next_request_number_jwtprf : Z;
  next_request_number_oprf_secp256k1 : Z;
  next_request_number_oprf_babyjubjub : Z;
  epoch_num : Z;
  allowed_methods : list Method;
  rates : gmap string (Entry Z)
}.

(** When the commands of the two rate limits are sent. *)
Record Clock := { user_set : Z; user_incr : Z; ip_set : Z; ip_incr : Z }.

(** The methods of the relay's RPC that the service calls, on a network in state [W]; an
    error is a failed or late HTTP request. *)
Class HumanRpc (CS CB : Curve) `{Eth} `{F64} (W : Type) := {
  rpc_threshold_mul : RequestToNetwork → W → W * outcome string (RpcResult CS CB);
  rpc_fetch_threshold_mul_result : string → W → W * outcome string (RpcResult CS CB)
}.

Section Handler.
Context (CS CB : Curve) `{HH : Hashes} `{E : Eth} `{J : !Jwt} `{RC : !RequestCodec CB CS} `{RG : Rng} `{FL : !F64}
  {W : Type} `{RPC : !HumanRpc CS CB W}.
Context (var : string → option string) (wallet : Wallet).
(** The [Debug] text of a response. *)
Context (debug_response : RpcResult CS CB → string).
Implicit Types (s : SignerState) (net : W) (res : RpcResult CS CB).

Inductive JsonResponse :=
  | JsonSecp256k1 (point : Point (Curve:=CS))
  | JsonBabyJubJub (point : BabyJubJub.EncodedBabyJubJubPoint).

(** The success that the handler of a method waits for. *)
Definition verified (m : Method) res : option JsonResponse :=
  match m, res with
  | (JWTPRFSecp256k1 | OPRFSecp256k1), RNode _ _ (VerifiedProofSecp256k1 _ p) => Some (JsonSecp256k1 p)
  | OPRFBabyJubJub, RNode _ _ (VerifiedProofBabyJubJub _ p) => Some (JsonBabyJubJub p)
  | _, _ => None
  end.

(** After the loop. *)
Definition conclude (m : Method) res : outcome AppErrorWithStatus JsonResponse :=
  match res with
  | RSubmitted _ _ _ => Err (bad_request ("Request still pending after " +:+ pretty MAX_RETRIES +:+ " retries"))
  | _ => match verified m res with
         | Some r => Ok r
         | None => Err (bad_request ("Unexpected response from Human Network: " +:+ debug_response res))
         end
  end.

(** The retry loop with [retries] tries left. *)
Fixpoint poll (retries : nat) (m : Method) res net : W * outcome AppErrorWithStatus JsonResponse :=
  match retries with
  | O => (net, conclude m res)
  | S retries =>
      match verified m res with
      | Some r => (net, Ok r)
      | None =>
          match res with
          | RSubmitted _ _ request_id =>
              match rpc_fetch_threshold_mul_result request_id net with
              | (net, Ok res) => poll retries m res net
              | (net, Err e) => (net, Err (internal_error e))
              | (net, Panic) => (net, Panic)
              end
          | _ => (net, conclude m res)
          end
      end
  end.

(** The counter of a method is advanced, and its value is the request's number. *)
Definition next_number (m : Method) s : option (Z * SignerState) :=
  match m with
  | JWTPRFSecp256k1 =>
      let n := wrap 128 (next_request_number_jwtprf s + 1) in
      Some (n, s <| next_request_number_jwtprf := n |>)
  | OPRFSecp256k1 =>
      let n := wrap 128 (next_request_number_oprf_secp256k1 s + 1) in
      Some (n, s <| next_request_number_oprf_secp256k1 := n |>)
  | OPRFBabyJubJub =>
      let n := wrap 128 (next_request_number_oprf_babyjubjub s + 1) in
      Some (n, s <| next_request_number_oprf_babyjubjub := n |>)
  | DecryptBabyJubJub => None
  end.

Definition numbered (n epoch : Z) (rtn : RequestToNetwork) : RequestToNetwork :=
  {| method := method rtn; Request.point := Request.point rtn; Request.epoch := epoch;
     request_per_user := n; signature := signature rtn; extra_data := extra_data rtn |}.

(** Both rate limits: of the user, if there is a session, then of the address. *)
Definition limits (clk : Clock) (ip : string) (session : option string) (db : gmap string (Entry Z))
    : outcome AppErrorWithStatus unit * gmap string (Entry Z) :=
  let limit now later id text db :=
    let '(r, db) := rate_limit var now later id db in
    (map_err (λ _, internal_error text) r, db) in
  let '(r, db) :=
    match session with
    | Some user_id =>
        limit (user_set clk) (user_incr clk) user_id
          ("Rate limit exceeded for user_id: " +:+ user_id) db
    | None => (Ok tt, db)
    end in
  match r with
  | Ok _ => limit (ip_set clk) (ip_incr clk) ip ("Rate limit exceeded for IP: " +:+ ip) db
  | _ => (r, db)
  end.

(** [handle_secp256k1_request_to_network]: the new states, the request that was sent, and
    the answer. *)
Definition handle_request_to_network (clk : Clock) (ip : string) (session : option string)
    (rtn : RequestToNetwork) s net
    : SignerState * W * option RequestToNetwork * outcome AppErrorWithStatus JsonResponse :=
  if bool_decide (method rtn ∉ allowed_methods s) then
    (s, net, None, Err (bad_request ("Method not allowed: " +:+ method_as_str (method rtn))))
  else if bool_decide (method rtn = JWTPRFSecp256k1 ∧ session = None) then
    (s, net, None, Err (bad_request "Authentication required for JWTPRFSecp256k1"))
  else
    let '(r, db) := if is_rate_limit_enabled var then limits clk ip session (rates s)
                    else (Ok tt, rates s) in
    let s := s <| rates := db |> in
    match r with
    | Ok _ =>
        match next_number (method rtn) s with
        | None => (s, net, None, Err (bad_request "Unsupported Human Network Method"))
        | Some (n, s) =>
            match signed CB CS (numbered n (epoch_num s) rtn) wallet with
            | Ok request =>
                match rpc_threshold_mul request net with
                | (net, Ok res) =>
                    let '(net, answer) := poll MAX_RETRIES (method rtn) res net in
                    (s, net, Some request, answer)
                | (net, Err e) => (s, net, Some request, Err (internal_error e))
                | (net, Panic) => (s, net, Some request, Panic)
                end
            | Err e => (s, net, None, Err (internal_error e))
            | Panic => (s, net, None, Panic)
            end
        end
    | Err e => (s, net, None, Err e)
    | Panic => (s, net, None, Panic)
    end.

(** The start of [main]: the numbers and the epoch that the relay has for the wallet. *)
Definition signer_start (fetch : Method → outcome string StateResponse) : outcome string SignerState :=
  let get m (f : Z → SignerState → SignerState) s :=
    r ← unwrap_res (fetch m);
    match r with
    | StateSuccess epoch _ requests => Ok (f requests (s <| epoch_num := epoch |>))
    | _ => Ok s
    end in
  let s := {| next_request_number_jwtprf := 1; next_request_number_oprf_secp256k1 := 1;
              next_request_number_oprf_babyjubjub := 1; epoch_num := 0;
              allowed_methods := parse_allowed_methods var; rates := ∅ |} in
  s ← get JWTPRFSecp256k1 (λ n s, s <| next_request_number_jwtprf := n |>) s;
  s ← get OPRFSecp256k1 (λ n s, s <| next_request_number_oprf_secp256k1 := n |>) s;
  get OPRFBabyJubJub (λ n s, s <| next_request_number_oprf_babyjubjub := n |>) s.

(** Requests of clients, one after the other. *)
Definition Client : Type := Clock * string * option string * RequestToNetwork.
Fixpoint signer_run (clients : list Client) s net
    : SignerState * W * list RequestToNetwork :=
  match clients with
  | [] => (s, net, [])
  | (clk, ip, session, rtn) :: clients =>
      let '(s, net, sent, _) := handle_request_to_network clk ip session rtn s net in
      let '(s, net, rest) := signer_run clients s net in
      (s, net, option_list sent ++ rest)
  end.
End Handler.
