(* ===== verification/SignerProofs.v ===== *)
(** * The signer service: facts

    The rate limit over any window of time, the numbers of the requests that are sent, the
    retry loop against the relay's RPC, and a client's request from the service through
    the network and back. *)
From Stdlib Require Import ZArith Lia Ascii String Sorting.Sorted.
From stdpp Require Import base list gmap sets strings pretty sorting.
From coqutil Require Import Datatypes.RecordSettersUsingExistingGetters.
Import RecordSetNotations.
From S2P Require Import Prelude PrimeField Curve Polynomial Dleq NodeSelection Serialization ZkMask Request ConcreteCurves Messages Election AppState AppStateProofs Gossip Rpc System Signer.

(** ** Rate limits *)
Section Rates.
Context (var : string → option string) (interval num : Z).
Hypothesis H_interval : rate_limit_time_interval var = Ok interval.
Hypothesis H_num : rate_limit_num_requests var = Ok num.
Hypothesis H_num_pos : 0 ≤ num.
Implicit Types (db : gmap string (Entry Z)) (calls : list (Z * string)).

(** Calls of [rate_limit] at given times, whose two commands come at the same second. *)
Definition limit_db db (c : Z * string) : gmap string (Entry Z) := (rate_limit var c.1 c.1 c.2 db).2.
Fixpoint accepted (id : string) calls db : nat :=
  match calls with
  | [] => 0
  | c :: calls =>
      ((if bool_decide (c.2 = id) && is_Ok (rate_limit var c.1 c.1 c.2 db).1 then 1 else 0) +
       accepted id calls (limit_db db c))%nat
  end.

(** How many calls of [id] can still be accepted before time [until]. *)
Definition allowance (until : Z) (o : option (Entry Z)) : Z :=
  match o with
  | Some e => Z.max 0 (num - value e) +
              match expires e with Some x => if x <? until then num else 0 | None => 0 end
  | None => num
  end.

Lemma rate_key_inj a b : rate_key a = rate_key b → a = b.
Proof. unfold rate_key. apply (inj (String.append _)). Qed.

(** What one call does to the entry of its own key, and that it leaves the others alone. *)
Lemma rate_limit_own now later id db : valid_expire now interval = true →
  rate_limit var now later id db =
  let e := default {| value := 0; expires := Some (now + interval) |} (lookup_at now (rate_key id) db) in
  let e' := if alive later e then {| value := value e + 1; expires := expires e |}
            else {| value := 1; expires := None |} in
  (if num <? value e' then Err "Rate limit exceeded"%string else Ok tt,
   <[rate_key id := e']> db).
Proof using H_interval H_num.
  intros Hv. unfold rate_limit. rewrite H_interval, H_num, Hv. unfold set_nx_ex, incr, lookup_at.
  destruct (db !! rate_key id) as [e|] eqn:He; [destruct (alive now e) eqn:Ha|];
    rewrite ?lookup_insert_eq, ?He; cbn [from_option Datatypes.id];
    match goal with |- context [alive later ?e] => destruct (alive later e) end;
    cbn; by rewrite ?insert_insert_eq.
Qed.

Lemma limit_db_other db c id : c.2 ≠ id → limit_db db c !! rate_key id = db !! rate_key id.
Proof using H_interval H_num.
  intros Hne. unfold limit_db. destruct (valid_expire c.1 interval) eqn:Hv.
  - rewrite rate_limit_own by done. cbn. apply lookup_insert_ne. by intros ?%rate_key_inj.
  - unfold rate_limit. by rewrite H_interval, H_num, Hv.
Qed.

Lemma alive_new now : valid_expire now interval = true →
  alive now {| value := 0; expires := Some (now + interval) |} = true.
Proof. unfold valid_expire, alive. cbn. lia. Qed.

Lemma accepted_allowance id until calls : ∀ db,
  Forall (λ c, c.1 < until ≤ c.1 + interval) calls →
  Z.of_nat (accepted id calls db) ≤ allowance until (db !! rate_key id).
Proof using H_interval H_num H_num_pos.
  induction calls as [|[t i] calls IH]; intros db Hc; cbn [accepted].
  - cbn. unfold allowance. repeat case_match; lia.
  - apply Forall_cons in Hc as [Ht Hc]. cbn in Ht. specialize (IH (limit_db db (t, i)) Hc).
    destruct (decide (i = id)) as [->|Hne].
    2: { rewrite limit_db_other in IH by done. cbn [snd]. rewrite bool_decide_eq_false_2 by done. cbn. lia. }
    cbn [fst snd]. rewrite bool_decide_eq_true_2 by done. cbn [andb].
    unfold limit_db in IH. cbn [fst snd] in IH. revert IH.
    destruct (valid_expire t interval) eqn:Hv.
    2: { unfold limit_db, rate_limit. cbn [fst snd]. rewrite H_interval, H_num, Hv. cbn. lia. }
    unfold limit_db. cbn [fst snd]. rewrite rate_limit_own by done. cbn zeta. cbn [fst snd].
    rewrite lookup_insert_eq. unfold lookup_at.
    destruct (db !! rate_key id) as [e|]; [destruct (alive t e) eqn:Ha|]; cbn [from_option Datatypes.id].
    + rewrite Ha. unfold allowance. cbn [value expires].
      destruct (Z.ltb_spec num (value e + 1)); cbn [is_Ok]; repeat case_match; lia.
    + rewrite alive_new by done. unfold allowance. cbn [value expires]. unfold alive in Ha.
      destruct (expires e) as [x|]; [|done].
      destruct (Z.ltb_spec num (0 + 1)), (Z.ltb_spec x until); cbn [is_Ok]; repeat case_match; lia.
    + rewrite alive_new by done. unfold allowance. cbn [value expires].
      destruct (Z.ltb_spec num (0 + 1)); cbn [is_Ok]; repeat case_match; lia.
Qed.

(** An entry without an expiry is for ever. *)
Lemma accepted_forever id calls : ∀ db e, db !! rate_key id = Some e → expires e = None →
  Z.of_nat (accepted id calls db) ≤ Z.max 0 (num - value e).
Proof using H_interval H_num.
  induction calls as [|[t i] calls IH]; intros db e He Hx; cbn [accepted]; [lia|].
  destruct (decide (i = id)) as [->|Hne].
  2: { specialize (IH (limit_db db (t, i)) e). rewrite limit_db_other in IH by done. cbn [snd].
       rewrite bool_decide_eq_false_2 by done. cbn [andb]. specialize (IH He Hx). lia. }
  cbn [fst snd]. rewrite bool_decide_eq_true_2 by done. cbn [andb].
  destruct (valid_expire t interval) eqn:Hv.
  2: { unfold limit_db, rate_limit. cbn [fst snd]. rewrite H_interval, H_num, Hv. cbn [is_Ok fst snd].
       specialize (IH db e He Hx). lia. }
  assert (∀ t, alive t e = true) as Ha by (intros t'; unfold alive; by rewrite Hx).
  unfold limit_db. cbn [fst snd]. rewrite rate_limit_own by done. unfold lookup_at.
  rewrite He, Ha. cbn [from_option Datatypes.id]. rewrite Ha. cbn [fst snd value].
  specialize (IH (<[rate_key id := {| value := value e + 1; expires := expires e |}]> db) _
    (lookup_insert_eq _ _ _) Hx). cbn [value] in IH.
  destruct (Z.ltb_spec num (value e + 1)); cbn [is_Ok]; lia.
Qed.

(** The calls of [id]. *)
Definition calls_of (id : string) calls : Z := Z.of_nat (length (filter (λ c, c.2 = id) calls)).

Lemma calls_of_cons id c calls :
  calls_of id (c :: calls) = (if bool_decide (c.2 = id) then 1 else 0) + calls_of id calls.
Proof.
  unfold calls_of. rewrite filter_cons. case_bool_decide as H.
  - rewrite decide_True by done. cbn [length]. lia.
  - rewrite decide_False by done. lia.
Qed.

(** While the entry lives, exactly the calls up to the limit are accepted. *)
Lemma accepted_alive id until calls : ∀ db e, db !! rate_key id = Some e →
  (∀ t, t < until → alive t e = true) →
  Forall (λ c, c.1 < until ∧ valid_expire c.1 interval = true) calls →
  Z.of_nat (accepted id calls db) = Z.min (Z.max 0 (num - value e)) (calls_of id calls).
Proof using H_interval H_num.
  induction calls as [|[t i] calls IH]; intros db e He Hal Hc; cbn [accepted].
  - unfold calls_of. cbn [filter list_filter length]. lia.
  - apply Forall_cons in Hc as [[Ht Hv] Hc]. cbn in Ht, Hv. rewrite calls_of_cons. cbn [fst snd].
    assert (0 ≤ calls_of id calls) by (unfold calls_of; lia).
    destruct (decide (i = id)) as [->|Hne].
    2: { rewrite !bool_decide_eq_false_2 by done. cbn [andb].
         rewrite Nat2Z.inj_add, (IH (limit_db db (t, i)) e); [lia| |done..].
         by rewrite limit_db_other. }
    rewrite !bool_decide_eq_true_2 by done. cbn [andb]. unfold limit_db. cbn [fst snd].
    rewrite rate_limit_own by done. unfold lookup_at. rewrite He, Hal by done.
    cbn [from_option Datatypes.id]. rewrite Hal by done. cbn [fst snd value].
    rewrite Nat2Z.inj_add.
    rewrite (IH _ {| value := value e + 1; expires := expires e |});
      [|apply lookup_insert_eq|intros t' Ht'; by apply (Hal t')|done]. cbn [value].
    destruct (Z.ltb_spec num (value e + 1)); cbn [is_Ok]; lia.
Qed.

Lemma accepted_fresh id until calls : ∀ db,
  (∀ t, t < until → until ≤ t + interval → lookup_at t (rate_key id) db = None) →
  Forall (λ c, (c.1 < until ≤ c.1 + interval) ∧ valid_expire c.1 interval = true) calls →
  Z.of_nat (accepted id calls db) = Z.min num (calls_of id calls).
Proof using H_interval H_num H_num_pos.
  induction calls as [|[t i] calls IH]; intros db Hdb Hc; cbn [accepted].
  - unfold calls_of. cbn [filter list_filter length]. lia.
  - apply Forall_cons in Hc as [[[Ht Hi] Hv] Hc]. cbn in Ht, Hi, Hv. rewrite calls_of_cons. cbn [fst snd].
    assert (0 ≤ calls_of id calls) by (unfold calls_of; lia).
    destruct (decide (i = id)) as [->|Hne].
    2: { rewrite !bool_decide_eq_false_2 by done. cbn [andb].
         rewrite Nat2Z.inj_add, (IH (limit_db db (t, i))); [lia| |done].
         intros t' Ht' Hi'. unfold lookup_at. rewrite limit_db_other by done. by apply (Hdb t'). }
    rewrite !bool_decide_eq_true_2 by done. cbn [andb]. unfold limit_db. cbn [fst snd].
    rewrite rate_limit_own by done. rewrite Hdb by done. cbn [from_option Datatypes.id].
    rewrite alive_new by done. cbn [fst snd value expires]. rewrite Nat2Z.inj_add.
    rewrite (accepted_alive _ until _ _ {| value := 0 + 1; expires := Some (t + interval) |}).
    + cbn [value]. destruct (Z.ltb_spec num (0 + 1)); cbn [is_Ok]; lia.
    + apply lookup_insert_eq.
    + intros t' Ht'. unfold alive. cbn. lia.
    + eapply Forall_impl; [exact Hc|]. naive_solver.
Qed.

Lemma limit_db_nonneg calls : ∀ db, map_Forall (λ _ e, 0 ≤ value e) db →
  map_Forall (λ _ e, 0 ≤ value e) (foldl limit_db db calls).
Proof using H_interval H_num.
  induction calls as [|[t i] calls IH]; intros db Hdb; [done|]. apply IH. unfold limit_db. cbn [fst snd].
  destruct (valid_expire t interval) eqn:Hv;
    [|unfold rate_limit; by rewrite H_interval, H_num, Hv]. rewrite rate_limit_own by done.
  apply map_Forall_insert_2; [|done]. unfold lookup_at.
  destruct (db !! rate_key i) as [e|] eqn:He; [pose proof (Hdb _ _ He)|];
    repeat case_match; cbn in *; lia.
Qed.

(** C26: The rate limit.  Whatever calls came before, in any span of [interval] seconds at
    most twice the configured number of calls of one identifier are accepted; and when no
    entry of the identifier is alive at the start of the span, exactly the first ones up
    to the configured number are.  Calls of other identifiers do not matter. *)
Theorem rate_limit_window (before inside : list (Z * string)) (id : string) (start : Z) :
  Forall (λ c, start ≤ c.1 < start + interval ∧ valid_expire c.1 interval = true) inside →
  let db := foldl limit_db ∅ before in
  Z.of_nat (accepted id inside db) ≤ 2 * num ∧
  (lookup_at start (rate_key id) db = None →
   Z.of_nat (accepted id inside db) = Z.min num (calls_of id inside)).
Proof using H_interval H_num H_num_pos.
  intros Hin db. split.
  - etrans.
    { apply (accepted_allowance id (start + interval)). eapply Forall_impl; [exact Hin|]. cbn. lia. }
    pose proof (limit_db_nonneg before ∅ (map_Forall_empty _)) as Hnn. unfold allowance.
    destruct (db !! rate_key id) as [e|] eqn:He; [|lia]. pose proof (Hnn _ _ He). cbn in *.
    repeat case_match; lia.
  - intros Hdead. apply (accepted_fresh id (start + interval)).
    + intros t Ht Hi. unfold lookup_at in *. destruct (db !! rate_key id) as [e|]; [|done].
      destruct (alive start e) eqn:Ha; [done|]. unfold alive in *. destruct (expires e); [|done].
      by rewrite (proj2 (Z.ltb_ge _ _)) by lia.
    + eapply Forall_impl; [exact Hin|]. cbn. intros c [Hc Hv]. split; [lia|done].
Qed.

(** A limit that never ends.  When the entry of an identifier expires between the two
    commands of a call, [INCR] creates it again without an expiry: from then on, however
    much time passes, fewer calls than the configured number are ever accepted again. *)
Theorem rate_limit_sticks (now later : Z) (id : string) db e calls :
  db !! rate_key id = Some e → expires e = Some later → now < later →
  valid_expire now interval = true → 1 ≤ num →
  Z.of_nat (accepted id calls (rate_limit var now later id db).2) ≤ num - 1.
Proof using H_interval H_num H_num_pos.
  intros He Hx Hlt Hv Hn. rewrite rate_limit_own by done. unfold lookup_at.
  assert (∀ t, alive t e = (t <? later)) as Ha by (intros t; unfold alive; by rewrite Hx).
  rewrite He, Ha, (proj2 (Z.ltb_lt now later)) by done. cbn [from_option Datatypes.id].
  rewrite Ha, Z.ltb_irrefl. cbn [snd].
  assert (<[rate_key id := {| value := 1; expires := None |}]> db !! rate_key id
          = Some {| value := 1; expires := None |}) as Hdb by apply lookup_insert_eq.
  revert Hdb. generalize (<[rate_key id := {| value := 1; expires := None |}]> db). clear -H_interval H_num H_num_pos Hn.
  intros db Hdb.
  pose proof (accepted_forever id calls db {| value := 1; expires := None |} Hdb eq_refl) as H.
  cbn [value] in H. lia.
Qed.
End Rates.

(** ** The numbers of the requests *)
Section Numbers.
Context (CS CB : Curve) `{HH : Hashes} `{E : Eth} {EL : EthLaws E} `{J : !Jwt} `{RC : !RequestCodec CB CS}
  `{RG : Rng} `{FL : !F64} {W : Type} `{RPC : !HumanRpc CS CB W}.
Context (var : string → option string) (wallet : Wallet) (debug_response : RpcResult CS CB → string).
Implicit Types (s : SignerState) (net : W).
Abbreviation handle := (handle_request_to_network CS CB var wallet debug_response).
Abbreviation run := (signer_run CS CB var wallet debug_response).

Definition counter (m : Method) s : Z :=
  match m with
  | JWTPRFSecp256k1 => next_request_number_jwtprf s
  | OPRFSecp256k1 => next_request_number_oprf_secp256k1 s
  | OPRFBabyJubJub => next_request_number_oprf_babyjubjub s
  | DecryptBabyJubJub => 0
  end.

(** A request that was sent is the client's with the next number, signed. *)
Definition sent_as (s s' : SignerState) (rtn q : RequestToNetwork) : Prop :=
  method q = method rtn ∧ request_per_user q = counter (method rtn) s' ∧
  counter (method rtn) s' = wrap 128 (counter (method rtn) s + 1) ∧
  Request.epoch q = epoch_num s ∧ recover CB CS q = Ok (wallet_address wallet).

Lemma signed_sent n e rtn q : signed CB CS (numbered n e rtn) wallet = Ok q →
  method q = method rtn ∧ request_per_user q = n ∧ Request.epoch q = e ∧
  recover CB CS q = Ok (wallet_address wallet).
Proof using EL.
  intros Hs. pose proof Hs as Hs'. unfold signed in Hs. cbn in Hs. destruct (signature rtn) eqn:Hsig; [done|].
  apply bind_Ok in Hs as (sg & _ & [= <-]). cbn. split_and!; try done.
  by apply (signed_recover CB CS) in Hs'.
Qed.

Lemma next_number_spec m s n s' : next_number m s = Some (n, s') →
  n = counter m s' ∧ counter m s' = wrap 128 (counter m s + 1) ∧ epoch_num s' = epoch_num s ∧
  ∀ m', m' ≠ m → counter m' s' = counter m' s.
Proof. destruct m; intros [= <- <-]; (split_and!; [done..|]); intros [] ?; done. Qed.

Lemma handle_spec clk ip session rtn s net s' net' sent ans :
  handle clk ip session rtn s net = (s', net', sent, ans) →
  epoch_num s' = epoch_num s ∧
  (∀ m, counter m s' = counter m s ∨ (m = method rtn ∧ counter m s' = wrap 128 (counter m s + 1))) ∧
  (∀ q, sent = Some q → sent_as s s' rtn q).
Proof using EL.
  unfold handle_request_to_network.
  assert (∀ db m, counter m (s <| rates := db |>) = counter m s) as Hr by (by intros ? []).
  case_bool_decide; [intros [= <- <- <- <-]; split_and!; [done|by left|done]|].
  case_bool_decide; [intros [= <- <- <- <-]; split_and!; [done|by left|done]|].
  destruct (if is_rate_limit_enabled var then _ else _) as [r db].
  destruct r as [[]|e|]; [|intros [= <- <- <- <-]; split_and!; [done|intros m; left; apply Hr|done]..].
  destruct (next_number (method rtn) _) as [[n s1]|] eqn:Hn;
    [|intros [= <- <- <- <-]; split_and!; [done|intros m; left; apply Hr|done]].
  apply next_number_spec in Hn as (-> & Hc & He & Hother). rewrite Hr in Hc. cbn in He.
  assert (∀ m, counter m s1 = counter m s ∨ (m = method rtn ∧ counter m s1 = wrap 128 (counter m s + 1))) as Hm.
  { intros m. destruct (decide (m = method rtn)) as [->|Hne]; [by right|left]. by rewrite Hother, Hr. }
  destruct (signed CB CS _ wallet) as [q|e|] eqn:Hs; [|intros [= <- <- <- <-]; by split_and!..].
  apply signed_sent in Hs as (Hq1 & Hq2 & Hq3 & Hq4).
  assert (sent_as s s1 rtn q) as Hsent by (split_and!; congruence).
  destruct (rpc_threshold_mul q net) as [net1 [res|e|]];
    [destruct (poll _ _ _ _ _ _ _) as [net2 answer]|..]; intros [= <- <- <- <-]; split_and!; try done;
    by intros q' [= <-].
Qed.

(** C27: Requests are numbered apart.  Over any requests of any clients the numbers of the
    requests the service sends for one method increase strictly (so no number is used
    twice), start above the relay's count for the wallet, and every one of them is signed
    by the service's wallet and has its epoch. *)
Theorem request_numbers_increase (clients : list Client) s net (m : Method) :
  0 ≤ counter m s → counter m s + Z.of_nat (length clients) < 2 ^ 128 →
  let sent := filter (λ q, method q = m) (run clients s net).2 in
  StronglySorted Z.lt (request_per_user <$> sent) ∧
  Forall (λ q, counter m s < request_per_user q ∧ Request.epoch q = epoch_num s ∧
               recover CB CS q = Ok (wallet_address wallet)) sent.
Proof using EL.
  revert s net. induction clients as [|[[[clk ip] session] rtn] clients IH]; intros s net H0 Hb; cbn [signer_run].
  { split; constructor. }
  destruct (handle clk ip session rtn s net) as [[[s1 net1] sent] ans] eqn:Hh.
  apply handle_spec in Hh as (He & Hc & Hsent). cbn [length] in Hb.
  assert (counter m s ≤ counter m s1 ≤ counter m s + 1) as Hle.
  { destruct (Hc m) as [->|[_ ->]]; [lia|]. rewrite wrap_small; lia. }
  destruct (run clients s1 net1) as [[s2 net2] rest] eqn:Hrun. cbn [snd].
  specialize (IH s1 net1). rewrite Hrun in IH. destruct IH as [IH1 IH2]; [lia..|]. cbn [snd] in IH1, IH2.
  assert (Forall (λ q, counter m s < request_per_user q ∧ Request.epoch q = epoch_num s ∧
    recover CB CS q = Ok (wallet_address wallet)) (filter (λ q, method q = m) rest)) as Hrest.
  { eapply Forall_impl; [exact IH2|]. cbn. rewrite He. intros q (? & ? & ?). split_and!; [lia|done..]. }
  destruct sent as [q|]; cbn [option_list option_rect app]; [|done]. rewrite filter_cons.
  destruct (decide (method q = m)) as [Hm|Hm]; [|done].
  destruct (Hsent q eq_refl) as (Hq1 & Hq2 & Hq3 & Hq4 & Hq5). rewrite <- Hq1, Hm in Hq2, Hq3.
  rewrite wrap_small in Hq3 by lia. rewrite fmap_cons. split; constructor; [done| |by split_and!; [lia|..]|done].
  apply Forall_fmap. eapply Forall_impl; [exact IH2|]. cbn. intros q' [? _]. lia.
Qed.
End Numbers.

(** ** The retry loop *)

(** What the service may rely on: a poll never says [Submitted]. *)
Class PollsAreFinal (CS CB : Curve) `{E : Eth} `{RG : Rng} `{FL : !F64} {W : Type}
    (RPC : HumanRpc CS CB W) : Prop :=
  poll_final request_id net net' res :
    rpc_fetch_threshold_mul_result request_id net = (net', Ok res) → ∀ id, res ≠ RSubmitted CS CB id.

Section Polls.
Context (CS CB : Curve) `{HH : Hashes} `{E : Eth} `{RG : Rng} `{FL : !F64}
  {W : Type} {RPC : HumanRpc CS CB W} {PF : PollsAreFinal CS CB RPC}.
Context (debug_response : RpcResult CS CB → string).
Implicit Types (net : W).

(** Retries after the first are never made. *)
Lemma poll_once k m res net :
  poll CS CB debug_response (S k) m res net = poll CS CB debug_response 1 m res net.
Proof using PF.
  cbn [poll]. destruct (verified CS CB m res) eqn:Hv; [done|].
  destruct res as [| | | | | | | |request_id]; try done.
  destruct (rpc_fetch_threshold_mul_result request_id net) as [net' [res'|e|]] eqn:Hf; [|done..].
  pose proof (poll_final _ _ _ _ Hf) as Hfin. destruct k; [done|]. cbn [poll]. unfold conclude.
  destruct (verified CS CB m res') as [j|] eqn:Hv';
    destruct res'; try done; by edestruct Hfin.
Qed.
End Polls.

(** ** The relay as the network behind the service *)
Section Served.
Context (CS CB : Curve) {CL : CurveLaws CS} `{HH : Hashes} `{E : Eth} {EL : EthLaws E} `{J : !Jwt}
  `{RC : !RequestCodec CB CS} `{RG : Rng} `{FL : !F64} `{TF : !ThresholdFloat} `{DR : Drand}
  `{AT : !AppTexts}.
Context (relay_order : HashOrder) (prover_order : PeerId → HashOrder).
Context (var : string → option string) (wallet : Wallet) (debug_response : RpcResult CS CB → string).

(** The RPC server of a relay: the request gets the number [uuid], and [during] are the
    messages its application state handles while the call waits. *)
#[local] Instance relay_rpc (env : AppEnv CS CB) (uuid : string) (during : list (AppMessage CS CB))
    : HumanRpc CS CB RpcWorld := {|
  rpc_threshold_mul q w :=
    let '(w, res) := threshold_mul CS CB (HO:=relay_order) env q uuid during w in (w, Ok res);
  rpc_fetch_threshold_mul_result request_id w :=
    let '(w, res) := fetch_threshold_mul_result CS CB (HO:=relay_order) env request_id w in (w, Ok res)
|}.

#[local] Instance relay_polls_final env uuid during : PollsAreFinal CS CB (relay_rpc env uuid during).
Proof.
  intros request_id net net' res. cbn. unfold fetch_threshold_mul_result, ask_node.
  destruct (ask_app _ _ _ _ _) as [w o]. intros [= <- <-] id. by destruct (node_reply _ _ o).
Qed.

(** A slow request fails although its result may come.  The relay's answers to polls are
    final, so of the five retries only the first is ever made; and when the relay has not
    yet verified the request at that poll, the client gets an error. *)
Theorem slow_request_fails env uuid during (m : Method) (request_id : string) node r data :
  node_state (rpc_app node) = Some (Relay r) →
  req_cache r !! request_id = Some data → rec_status data ≠ Verified →
  let poll := poll CS CB (RPC:=relay_rpc env uuid during) debug_response in
  (∀ k res w, poll (S k) m res w = poll 1%nat m res w) ∧
  poll MAX_RETRIES m (RSubmitted CS CB request_id) node
  = (node, Err (bad_request ("Unexpected response from Human Network: " +:+
             debug_response (RNode CS CB (ErrorResponse request_id "Not yet verified"))))).
Proof.
  intros Hr Hreq Hst. cbn zeta. split; [intros; apply poll_once, _|]. unfold MAX_RETRIES. rewrite poll_once by apply _.
  assert (fetch_threshold_mul_result CS CB (HO:=relay_order) env request_id node
    = (node, RNode CS CB (ErrorResponse request_id "Not yet verified"))) as Hf.
  { unfold fetch_threshold_mul_result, ask_node, ask_app. cbn [app_handle].
    unfold fetch_reconstructed_point. rewrite Hr, Hreq.
    destruct (rec_status data); [| |done]; cbn; by destruct node. }
  cbn [poll]. destruct m; cbn [verified rpc_fetch_threshold_mul_result relay_rpc]; by rewrite Hf.
Qed.

(** C3: A client's request is served, from the service through the network and back.  The
    client may use the method and is within its limits; the service numbers and signs the
    request; the relay has a ready quorum that holds the shares of a polynomial with at
    most [t] coefficients, [epsilon] is at least 1, and the service has credits left.  Then
    the relay forwards the request to exactly [t + epsilon] provers, every one of them
    answers, and in whatever order the answers reach the relay the client gets the point
    times the shared secret. *)
Theorem client_served (clk : Clock) (ip : string) (session : option string) (rtn request : RequestToNetwork)
    (s s' : SignerState) (db : gmap string (Entry Z)) (n : Z) (X : Point (Curve:=CS))
    (p : Polynomial (FieldEl (Curve:=CS))) (node_idx : ProverInfo → Z) (request_id hash : string)
    (node : RpcWorld) (r : RelayState) (env : AppEnv CS CB) (incr : Z) (counters' : Redis)
    (credits : list KafkaCredits) (envs : PeerId → AppEnv CS CB) (provers : PeerId → AppWorld) :
  (* the service *)
  method rtn ∈ allowed_methods s → (method rtn = OPRFSecp256k1 ∨ method rtn = JWTPRFSecp256k1 ∧ session ≠ None) →
  (if is_rate_limit_enabled var then limits var clk ip session (rates s) else (Ok tt, rates s)) = (Ok tt, db) →
  next_number (method rtn) (s <| rates := db |>) = Some (n, s') →
  signed CB CS (numbered n (epoch_num s') rtn) wallet = Ok request →
  from_encoded (Request.point rtn) = Ok X → in_subgroup X → X ≠ ZERO →
  (* the relay *)
  node_state (rpc_app node) = Some (Relay r) → relay_quorum CS request p node_idx r →
  (∀ a, a ∈ active_provers r →
    serving_prover CS CB request p node_idx r a (envs (peer_id a)) (provers (peer_id a))) →
  epoch_num s' = current_epoch (rl_common r) →
  req_cache r !! request_id = None ∧ res_cache r !! request_id = None →
  request_hash_of request = Some hash ∧ (hash ∉ batch_cache r) →
  account_request_from_signer CB CS request true (counters (redis (rl_common r)))
    = Ok (incr, counters', credits) →
  0 ≤ batch_size r + incr < TASK_SIZE →
  ae_redis env GetProofs = true ∧ ae_redis env SetProofs = true →
  (∀ pr : DLEQProof (C:=CS), is_Some (proof_to_json CS pr)) →
  (Z.of_nat (length (coefficients p)) ≤ rl_t r) → eval p 0%F ≠ 0%F →
  ∃ chosen, Z.of_nat (length chosen) = rl_t r + rl_epsilon r ∧ chosen ⊆ active_provers r ∧
    ∀ order, order ≡ₚ chosen → ∃ node',
      handle_request_to_network CS CB
        (RPC:=relay_rpc env request_id (arrivals CS CB prover_order request_id request envs provers order))
        var wallet debug_response clk ip session rtn s node
      = (s', node', Some request, Ok (JsonSecp256k1 CS (fmul_point X (eval p 0%F)))).
Proof using All.
  intros Hallowed Hm Hlim Hnum Hsigned HX Hsub HX0 Hr Hq Hsp Hep Hfresh Hhash Hacc Hbatch Hredis Hjson Hdeg Hsec.
  pose proof (signed_sent CS CB wallet _ _ _ _ Hsigned) as (Hq1 & Hq2 & Hq3 & Hq4).
  assert (Request.point request = Request.point rtn) as Hpt.
  { unfold signed in Hsigned. cbn in Hsigned. destruct (signature rtn); [done|].
    by apply bind_Ok in Hsigned as (sg & _ & [= <-]). }
  assert (method request = OPRFSecp256k1 ∨ method request = JWTPRFSecp256k1) as Hmr by (rewrite Hq1; tauto).
  destruct (network_serves CS CB relay_order prover_order request_id request X p node_idx Hmr)
    with (r := r) (w := rpc_app node) (env := env) (hash := hash) (usr := wallet_address wallet) (incr := incr)
      (counters' := counters') (credits := credits) (envs := envs) (provers := provers)
    as (w1 & chosen & _ & Hlen & Hin & Hserve); try done; [congruence..|].
  exists chosen. split_and!; [done..|]. intros order Ho. destruct (Hserve order Ho) as (_ & _ & _ & Hmul).
  specialize (Hmul node eq_refl). unfold handle_request_to_network.
  rewrite bool_decide_eq_false_2 by tauto. rewrite bool_decide_eq_false_2 by (intros [Hj Hs]; destruct Hm as [Hm|[_ Hm]]; congruence).
  rewrite Hlim. cbn [fst snd]. rewrite Hnum, Hsigned. cbn [rpc_threshold_mul relay_rpc].
  destruct (threshold_mul _ _ _ _ _ _ _) as [node' res] eqn:Hres. cbn [snd] in Hmul. subst res.
  exists node'. unfold MAX_RETRIES. cbn [poll].
  assert (∀ Y, verified CS CB (method rtn) (RNode CS CB (VerifiedProofSecp256k1 request_id Y))
    = Some (JsonSecp256k1 CS Y)) as Hv by (destruct Hm as [Hm|[Hm _]]; rewrite Hm; reflexivity).
  rewrite Hv. reflexivity.
Qed.
End Served.
