(* ===== verification/SystemExamples.v ===== *)
(** * A small network

    Four provers with threshold two on the model curve serve the request of a user, and
    the claims about the application state, the gossip engine, the RPC server and the
    whole network are applied to it. *)
From Stdlib Require Import ZArith Lia Ascii String Zmod.
From stdpp Require Import base list gmap sets strings pretty sorting.
From coqutil Require Import Datatypes.RecordSettersUsingExistingGetters.
Import RecordSetNotations.
From S2P Require Import Prelude PrimeField Curve ModelCurve Polynomial Dleq Reconstruct Dkg DkgProtocol NodeSelection Serialization Request ConcreteCurves Messages Election ElectionProofs DkgEngine EngineRun AppState AppStateProofs AppStateSafety Gossip Rpc System Keygen Signer SignerProofs.

Module SmallNetwork.
Import ModelInstances.
#[local] Existing Instance NodeSelection.Examples.toy_rng.
#[local] Existing Instance NodeSelection.Examples.toy_f64.
#[local] Existing Instance ElectionExamples.toy_threshold.
#[local] Existing Instance ElectionExamples.toy_drand.
#[local] Existing Instance RequestExamples.toy_eth.
#[local] Existing Instance RequestExamples.toy_eth_laws.
#[local] Existing Instance RequestExamples.toy_jwt.
#[local] Existing Instance RequestExamples.toy_codec.
#[local] Instance toy_texts : AppTexts := {|
  peer_to_string p := pretty p; address_to_string _ := "0x";
  request_to_json q := Some (Request.point q); proof_to_json _ _ := Some []
|}.
Abbreviation mc := model_curve.
Abbreviation num z := (f_of_Z z : Z101).

(** Provers 1 to 4 hold the shares of [23 + 56 x]. *)
Definition poly : Polynomial Z101 := from_coeffs [num 23; num 56].
Definition share_of (i : Z) : Z101 := eval poly (f_of_Z i).
Definition members : list ProverInfo := ElectionExamples.prover <$> [1; 2; 3; 4].
Definition members_map : QuorumMap :=
  list_to_map ((λ a, (peer_id a, (a, idx a))) <$> members).
Definition request : RequestToNetwork := RequestExamples.toy_request 5.

Definition common (peer : PeerId) : CommonState := {|
  cm_peer_id := peer; cm_relay_peer_id := 100; current_epoch := 1;
  redis := {| counters := ∅; stored_proofs := ∅; request_batch := [] |}
|}.
Definition public_share (i : Z) : KeyMap :=
  {["OPRFSecp256k1" := [Zmod.unsigned (share_of i)]]}.
Definition relay : RelayState := {|
  rl_common := common 100; active_provers := members; rl_n := 4; rl_t := 2; rl_epsilon := 1;
  batch_size := 0; req_cache := ∅; res_cache := ∅;
  pubkey_shares := list_to_map ((λ a, (peer_id a, public_share (idx a))) <$> members);
  ready := true; ready_nodes := {[1; 2; 3; 4]}; new_cached_elected_provers := [];
  rl_tstar_provers := ∅; rl_new_provers := members_map; finalized_group_public_keys := ∅;
  received_group_public_keys := []; no_of_shares_received := 4; monitor_request_queue := [];
  batch_cache := ∅; pubsub_cache := ∅; all_provers_cache := ∅; is_resharing_enabled := true;
  resharing_failure_count := 0
|}.
Definition relay_world (r : RelayState) : AppWorld :=
  {| node_type := NodeRelay; node_state := Some (Relay r); app_db := AppState.empty_db |}.
Definition prover_state (i : Z) : ProverState := {|
  pv_common := common (100 + i); my_node_idx := i; pv_n := 4; pv_t := 2; pv_epsilon := 1;
  private_keyshares := {["OPRFSecp256k1" := [Zmod.unsigned (share_of i)]]};
  pv_new_provers := members_map; relay_multi_addr := []
|}.
Definition prover_world (peer : PeerId) : AppWorld :=
  {| node_type := NodeProver; node_state := Some (Prover (prover_state (peer - 100)));
     app_db := AppState.empty_db |}.
Definition env : AppEnv mc mc := {|
  ae_ping := λ _, true; ae_provers := members; ae_relay_answer := λ _, None;
  ae_nonce_s := num 17; ae_nonce_b := num 17; ae_redis := λ _, true;
  ae_nested_block_on := false; ae_receiver := true
|}.

Ltac each_member H := change (active_provers relay) with members in H; unfold members in H;
  cbn [fmap list_fmap] in H;
  repeat (apply elem_of_cons in H as [->|H]); [..|by apply not_elem_of_nil in H].

Lemma small_quorum : relay_quorum mc request poly idx relay.
Proof.
  constructor.
  - reflexivity.
  - apply (bool_decide_unpack _). vm_compute. exact I.
  - apply (bool_decide_unpack _). vm_compute. exact I.
  - apply (bool_decide_unpack _). vm_compute. exact I.
  - done.
  - done.
  - done.
  - vm_compute. discriminate.
  - intros a Ha. exists (public_share (idx a)), [Zmod.unsigned (share_of (idx a))].
    each_member Ha; split_and!; vm_compute; reflexivity.
Qed.

Lemma small_provers a : a ∈ active_provers relay →
  serving_prover mc mc request poly idx relay a env (prover_world (peer_id a)).
Proof.
  intros Ha. constructor.
  - exists (prover_state (idx a)). each_member Ha; (split_and!; [done..|]);
      match goal with |- context [prover_state ?i] => exists [Zmod.unsigned (share_of i)] end;
      split; vm_compute; reflexivity.
  - each_member Ha; apply (bool_decide_unpack _); vm_compute; exact I.
  - apply (bool_decide_unpack _); vm_compute; exact I.
Qed.

(** The signer service of wallet [[1; 2]], which has sent four requests; the client's
    request comes unsigned. *)
Definition var (name : string) : option string :=
  if bool_decide (name = "RATE_LIMIT_TIME_INTERVAL"%string) then Some "60"%string
  else if bool_decide (name = "RATE_LIMIT_NUM_REQUESTS"%string) then Some "2"%string
  else if bool_decide (name = "ALLOWED_METHODS"%string) then Some "OPRFSecp256k1, JWTPRFSecp256k1"%string
  else None.
Definition signer_wallet : Wallet := [1; 2].
Definition signer : SignerState := {|
  next_request_number_jwtprf := 0; next_request_number_oprf_secp256k1 := 4;
  next_request_number_oprf_babyjubjub := 0; epoch_num := 1;
  allowed_methods := parse_allowed_methods var; rates := ∅
|}.
Definition client_request : RequestToNetwork := numbered 0 0 (with_signature None request).
Definition clock (t : Z) : Clock := {| user_set := t; user_incr := t; ip_set := t; ip_incr := t |}.
Definition relay_node : RpcWorld := {|
  api_token := {| token := "t"; used := false |}; rpc_app := relay_world relay;
  rpc_election := Election.pre_start 100 100 ElectionExamples.defaults ElectionExamples.empty_db
|}.

Lemma client_served_witness :
  ∃ chosen_provers s' node',
    length chosen_provers = 3%nat ∧
    handle_request_to_network mc mc
      (RPC:=relay_rpc mc mc map_to_list_order env "r"
         (arrivals mc mc (λ _, map_to_list_order) "r" request (λ _, env) prover_world
           (reverse chosen_provers)))
      var signer_wallet (λ _, ""%string) (clock 1000) "1.2.3.4" None client_request signer relay_node
    = (s', node', Some request, Ok (JsonSecp256k1 mc (num 60))).
Proof.
  assert (match account_request_from_signer mc mc request true ∅ with
          | Ok (i, _, _) => i =? 1 | _ => false end = true) as Hi by (vm_compute; reflexivity).
  destruct (account_request_from_signer mc mc request true ∅) as [[[incr counters'] credits]| |]
    eqn:Hacc; [|discriminate Hi..]. apply Z.eqb_eq in Hi.
  destruct (limits var (clock 1000) "1.2.3.4" None (rates signer)) as [res db] eqn:Hlim.
  assert (res = Ok tt) as ->.
  { apply (f_equal fst) in Hlim. cbn [fst] in Hlim. rewrite <- Hlim. vm_compute. reflexivity. }
  destruct (client_served mc mc map_to_list_order (λ _, map_to_list_order) var signer_wallet (λ _, ""%string))
    with (clk := clock 1000) (ip := "1.2.3.4"%string) (session := @None string)
      (rtn := client_request) (request := request) (s := signer) (n := 5) (db := db) (X := num 7)
      (s' := signer <| rates := db |> <| next_request_number_oprf_secp256k1 := 5 |>)
      (p := poly) (node_idx := idx) (request_id := "r"%string) (node := relay_node) (r := relay) (env := env)
      (hash := hex_encode (be_bytes 32 7)) (incr := incr) (counters' := counters')
      (credits := credits) (envs := λ _ : PeerId, env) (provers := prover_world)
    as (ch & Hlen & _ & Hserve); try done.
  - apply (bool_decide_unpack _). vm_compute. exact I.
  - by left.
  - apply small_quorum.
  - apply small_provers.
  - cbn. subst incr. unfold TASK_SIZE. lia.
  - destruct (Hserve (reverse ch)) as (node' & Hrun); [apply reverse_Permutation|].
    exists ch, (signer <| rates := db |> <| next_request_number_oprf_secp256k1 := 5 |>), node'.
    split; [cbn in Hlen; lia|].
    assert (fmul_point (C:=mc) (num 7) (eval poly 0%F) = num 60) as <- by (vm_compute; reflexivity).
    exact Hrun.
Defined.

(** Five calls within a minute, of which two are allowed, and a minute after it. *)
Lemma rate_limit_window_witness :
  Z.of_nat (accepted var "a" [(10, "a"); (11, "b"); (12, "a"); (13, "a")]%string
    (foldl (limit_db var) ∅ [(0, "b")]%string)) = 2.
Proof.
  apply (rate_limit_window var 60 2) with (before := [(0, "b")]%string) (start := 10)
    (inside := [(10, "a"); (11, "b"); (12, "a"); (13, "a")]%string) (id := "a"%string).
  - reflexivity.
  - reflexivity.
  - lia.
  - repeat constructor; cbn; lia.
  - reflexivity.
Defined.

(** The entry expires between the two commands; after a year one call is accepted. *)
Lemma rate_limit_sticks_witness :
  Z.of_nat (accepted var "a" [(31536000, "a"); (31536001, "a"); (41536001, "a")]%string
    (rate_limit var 59 60 "a" {[rate_key "a" := {| value := 1; expires := Some 60 |}]}).2) ≤ 1.
Proof.
  apply (rate_limit_sticks var 60 2) with (e := {| value := 1; expires := Some 60 |}).
  - reflexivity.
  - reflexivity.
  - lia.
  - reflexivity.
  - reflexivity.
  - lia.
  - reflexivity.
  - lia.
Defined.

Lemma request_numbers_increase_witness :
  StronglySorted Z.lt (request_per_user <$> filter (λ q, method q = OPRFSecp256k1)
    (signer_run mc mc (RPC:=relay_rpc mc mc map_to_list_order env "r" []) var signer_wallet (λ _, ""%string)
      [(clock 1, "x", None, client_request); (clock 2, "y", None, client_request)]%string
      signer relay_node).2).
Proof.
  apply (request_numbers_increase mc mc (RPC:=relay_rpc mc mc map_to_list_order env "r" []) var signer_wallet
    (λ _, ""%string) [(clock 1, "x", None, client_request); (clock 2, "y", None, client_request)]%string
    signer relay_node OPRFSecp256k1).
  - cbn. lia.
  - cbn. lia.
Defined.

Definition pending : RequestRecord := {| rec_request := request; rec_status := Submitted |}.
Definition pending_relay : RelayState := relay <| req_cache := {["r"%string := pending]} |>.
Definition pending_node : RpcWorld := relay_node <| rpc_app := relay_world pending_relay |>.

Lemma slow_request_fails_witness :
  (poll mc mc (RPC:=relay_rpc mc mc map_to_list_order env "r" []) (λ _, "e"%string) MAX_RETRIES
    OPRFSecp256k1 (RSubmitted mc mc "r") pending_node).2
  = Err (bad_request "Unexpected response from Human Network: e").
Proof.
  destruct (slow_request_fails mc mc map_to_list_order (λ _, "e"%string) env "r" [] OPRFSecp256k1 "r"
    pending_node pending_relay pending) as [_ Hp]; [reflexivity|reflexivity|discriminate|].
  exact (f_equal snd Hp).
Defined.

(** Prover [i] of the small network when the quorum was elected with [epsilon]. *)
Definition relay_eps (e : Z) : RelayState := relay <| rl_epsilon := e |>.
Definition prover_eps (e i : Z) : AppWorld :=
  {| node_type := NodeProver; node_state := Some (Prover ((prover_state i) <| pv_epsilon := e |>));
     app_db := AppState.empty_db |}.
Lemma forwarding_eps e : 0 ≤ e ≤ 2 → forwarding_quorum idx (relay_eps e).
Proof.
  intros He. destruct (quorum_forwards _ _ _ _ _ small_quorum) as [Hm Hp Hi Hr Ht _ _].
  constructor; [exact Hm|exact Hp|exact Hi|exact Hr|exact Ht|cbn; unfold const; lia|].
  change (2 + e ≤ 4 < 2 ^ 32). lia.
Qed.

(** With [epsilon = 1] prover 2 of the small network gets the request exactly when it is chosen;
    with [epsilon = 0] prover 4 gets the request and refuses it. *)
Lemma relay_and_prover_agree_witness :
  (∃ cs, chosen map_to_list_order request (relay_eps 1) = Ok cs ∧
    (102 ∈ (select_nodes cs (relay_eps 1)).*1 ↔ 2 ∈ cs)) ∧
  (∃ cs i, chosen map_to_list_order request (relay_eps 0) = Ok cs ∧
    100 + i ∈ (select_nodes cs (relay_eps 0)).*1 ∧
    app_handle mc mc (HO:=map_to_list_order) (F:=f64) env (ProcessMulRequest "r" request) (prover_eps 0 i)
    = not_for_this_node mc mc "r" (prover_eps 0 i)).
Proof.
  split.
  - destruct (relay_and_prover_agree mc mc map_to_list_order (λ _, map_to_list_order) "r" request idx
      (relay_eps 1) (forwarding_eps 1 ltac:(lia)) (ElectionExamples.prover 2) env (prover_eps 1 2)
      ((prover_state 2) <| pv_epsilon := 1 |>)) as (cs & Hc & _ & _ & Hf & _);
      [apply (bool_decide_unpack _); vm_compute; exact I|reflexivity..|].
    exists cs. split; [exact Hc|]. apply Hf. vm_compute. discriminate.
  - destruct (relay_and_prover_agree mc mc map_to_list_order (λ _, map_to_list_order) "r" request idx
      (relay_eps 0) (forwarding_eps 0 ltac:(lia)) (ElectionExamples.prover 4) env (prover_eps 0 4)
      ((prover_state 4) <| pv_epsilon := 0 |>)) as (cs & Hc & _ & Hr & _ & Hf);
      [apply (bool_decide_unpack _); vm_compute; exact I|reflexivity..|].
    exists cs, 4. split_and!; [exact Hc|exact (Hf eq_refl)|]. apply Hr.
    assert (chosen map_to_list_order request (relay_eps 0) = Ok [2; 3]) as Hc' by (vm_compute; reflexivity).
    rewrite Hc in Hc'. injection Hc' as ->. apply (bool_decide_unpack _). vm_compute. exact I.
Defined.

(** The relay waits for the request; the answers of provers 3 and 1, then of prover 4. *)
Definition waiting_relay : RelayState :=
  relay <| req_cache := {["r" := {| rec_request := request; rec_status := Submitted |}]} |>
        <| pubsub_cache := {["r"]} |>.
Definition proof_of (i : Z) : DLEQProof (C:=mc) :=
  match DLEQProof_new (C:=mc) (num 17) (num 7) (share_of i) with
  | Ok pr => pr
  | _ => Build_DLEQProof (C:=mc) Zmod.zero Zmod.zero Zmod.zero Zmod.zero Zmod.zero Zmod.zero Zmod.zero
  end.
Definition answer_of (i : Z) : Z * PeerId * DLEQProof (C:=mc) := (i, 100 + i, proof_of i).

Lemma proof_of_made i : i ∈ [1; 2; 3; 4] → DLEQProof_new (C:=mc) (num 17) (num 7) (share_of i) = Ok (proof_of i).
Proof.
  intros Hi. unfold proof_of. assert (is_Ok (DLEQProof_new (C:=mc) (num 17) (num 7) (share_of i)) = true).
  { repeat (apply elem_of_cons in Hi as [->|Hi]; [vm_compute; reflexivity|]). by apply not_elem_of_nil in Hi. }
  by destruct (DLEQProof_new (C:=mc) (num 17) (num 7) (share_of i)).
Qed.

Lemma small_answers : Forall (honest_answer (C:=mc) OPRFSecp256k1 (num 7) poly waiting_relay)
  (answer_of <$> [3; 1; 4]).
Proof.
  cbn [fmap list_fmap]. rewrite !Forall_cons. split_and!; [..|constructor];
    unfold honest_answer, answer_of;
    match goal with |- context [proof_of ?i] =>
      exists (public_share i), [Zmod.unsigned (share_of i)], (num 17) end;
    (split_and!; [vm_compute; reflexivity..| |apply proof_of_made; set_solver]);
    apply (bool_decide_unpack _); vm_compute; exact I.
Qed.

Lemma request_served_witness :
  ∃ w' info, app_run mc mc (F:=f64) env
    ((λ a, ProcessReceivedProofSecp256k1 a.1.1 a.1.2 "r" a.2 OPRFSecp256k1)
       <$> (answer_of <$> [3; 1]) ++ [answer_of 4]) (relay_world waiting_relay)
    = (w', [Publish "r" (VerifiedProofSecp256k1 "r" (num 60)); info], HOk).
Proof.
  destruct (request_served mc mc (F:=f64) env "r" (hex_encode (be_bytes 32 7)) request (num 7) poly
    waiting_relay (relay_world waiting_relay) (answer_of <$> [3; 1]) [answer_of 4]) as [w' Hw'];
    [done|done|done|set_solver|done|done|done|done|done|done|done|done|by eexists|apply small_answers
    |split; [apply (bool_decide_unpack _); vm_compute; exact I|by repeat constructor]
    |done|done|done|done|].
  - exists w'. eexists.
    assert (fmul_point (C:=mc) (num 7) (eval poly 0%F) = num 60) as <- by (vm_compute; reflexivity).
    exact Hw'.
Defined.

(** Prover 3 alone answers under the indices 1 and 2. *)
Lemma single_prover_completes_witness :
  ∃ w' info, app_run mc mc (F:=f64) env
    ((λ i, ProcessReceivedProofSecp256k1 i 103 "r" (proof_of 3) OPRFSecp256k1) <$> [1; 2])
    (relay_world waiting_relay)
    = (w', [Publish "r" (VerifiedProofSecp256k1 "r" (num 24)); info], HOk).
Proof.
  destruct (single_prover_completes mc mc (F:=f64) env "r" (hex_encode (be_bytes 32 7)) request (num 7)
    (share_of 3) (num 17) (proof_of 3) 103 (public_share 3) [Zmod.unsigned (share_of 3)]
    waiting_relay (relay_world waiting_relay) [1; 2]) as (w' & info & Hrun);
    [done|done|done|set_solver|done|done|done|done|done|done|done|by eexists|done|done
    |vm_compute; reflexivity|done|apply proof_of_made; set_solver
    |split; [apply (bool_decide_unpack _); vm_compute; exact I|by repeat constructor]|done|done|].
  - exists w', info.
    assert (fmul_point (C:=mc) (num 7) (share_of 3) = num 24) as <- by (vm_compute; reflexivity).
    exact Hrun.
Defined.

(** A request without a signature is forwarded, and no counter changes. *)
Lemma mul_request_branches_witness :
  let q := with_signature None request in
  ∃ w' o r', app_handle mc mc (F:=f64) env (MulRequest q "u") (relay_world relay) = (w', o, HOk) ∧
    node_state w' = Some (Relay r') ∧ counters (redis (rl_common r')) = ∅ ∧
    is_Some (req_cache r' !! "u"%string).
Proof.
  intros q.
  assert (match app_handle mc mc (F:=f64) env (MulRequest q "u") (relay_world relay) with
          | (_, [ForwardRequest _ _ _], HOk) => true | _ => false end = true) as Hf
    by (vm_compute; reflexivity).
  destruct (app_handle mc mc (F:=f64) env (MulRequest q "u") (relay_world relay)) as [[w' o] h] eqn:Hh.
  assert (h = HOk ∧ match o with [Publish _ _] => False | _ => True end) as [-> Ho]
    by (clear Hh; destruct o as [|[] []], h; try discriminate Hf; split; [reflexivity|exact I]).
  pose proof (mul_request_branches mc mc env q "u" relay (relay_world relay) w' o eq_refl Hh) as H.
  destruct H as (r' & Hr' & [H|H]).
  - destruct H as (msg & Heq & _). rewrite Heq in Ho. destruct Ho.
  - destruct H as (peers & credits & _ & _ & _ & Hreq & _ & Hacc).
    exists w', o, r'. split; [reflexivity|]. split; [exact Hr'|]. split; [|exact Hreq].
    unfold accounted in Hacc. change (recover mc mc q) with (Err "Request not signed"%string : outcome string Address) in Hacc.
    destruct Hacc as [_ Hc]. rewrite Hc. reflexivity.
Defined.

(** Nobody answers in time, or everybody does at the third tick. *)
Lemma monitor_terminates_witness :
  ∃ i r' o, (i < 120)%nat ∧
    monitor_quorum_formation mc mc (F:=f64) 120 4 MonitorResharing members
      (λ k r, if (k =? 3)%nat then r <| no_of_shares_received := 4 |> else r)
      (relay <| no_of_shares_received := 0 |>) = Some (r', o).
Proof.
  destruct (monitor_terminates (CS:=mc) (CB:=mc) (F:=f64) 4 MonitorResharing members
    (λ k r, if (k =? 3)%nat then r <| no_of_shares_received := 4 |> else r)
    (relay <| no_of_shares_received := 0 |>)) as (i & r' & o & Hi & Hrun & _); [by right|].
  exists i, r', o. split; [exact Hi|exact Hrun].
Defined.

Lemma resharing_attempts_bounded_witness :
  scheduled (failed_resharings (CS:=mc) (CB:=mc) (F:=f64) 9 4 relay).2 = 4%nat.
Proof. apply (resharing_attempts_bounded 9 4 relay); [lia|reflexivity]. Defined.

(** Two of three nodes send the key [[7]]. *)
Lemma group_keys_majority_witness :
  resolve_conflicts_between_group_keys
    [{["OPRFSecp256k1" := [7]]}; {["OPRFSecp256k1" := [9]]}; {["OPRFSecp256k1" := [7]]}]
    !! "OPRFSecp256k1"%string = Some [7].
Proof.
  apply (group_keys_majority
    [{["OPRFSecp256k1" := [7]]}; {["OPRFSecp256k1" := [9]]}; {["OPRFSecp256k1" := [7]]}]
    "OPRFSecp256k1" [7]).
  - intros v' Hne. change (votes _ _ [7]) with 2%nat. unfold votes. rewrite !filter_cons, filter_nil.
    rewrite !lookup_singleton_eq.
    destruct (decide (Some [7] = Some v')); [congruence|].
    destruct (decide (Some [9] = Some v')); cbn; lia.
  - vm_compute. lia.
Defined.

Lemma stored_state_bounded_witness :
  bounded (app_run mc mc (F:=f64) env
    [Plain (UpdateElectedProvers members false); Plain (StoreKSet 101 (public_share 1) 1 ∅);
     MulRequest request "r"]
    (AppState.pre_start mc mc env 100 100 NodeRelay [] AppState.empty_db (redis (common 100)))).1.1.
Proof. apply stored_state_bounded. split; apply map_Forall_empty. Defined.

(** A resharing that fails after one share. *)
Lemma rollback_restores_witness :
  ∃ r', node_state (rollback_to_previous_state mc mc env
      (app_run mc mc (F:=f64) env
        [Plain PreResharing; Plain AppClearShares; Plain (UpdateElectedProvers members true);
         Plain (StoreQuorumMap ∅ ∅); Plain (UpdatedThreshold (ElectionInfo_new 1 0 1));
         Plain (ResharingStoreKSet 102 (public_share 1) 2)]
        (save_current_state (relay_world relay))).1.1) = Some (Relay r') ∧
    saved_relay r' = saved_relay relay.
Proof.
  pose proof (rollback_restores mc mc (F:=f64) env
    [Plain PreResharing; Plain AppClearShares; Plain (UpdateElectedProvers members true);
     Plain (StoreQuorumMap ∅ ∅); Plain (UpdatedThreshold (ElectionInfo_new 1 0 1));
     Plain (ResharingStoreKSet 102 (public_share 1) 2)] (relay_world relay)) as H.
  destruct H as (r' & Hst & Hs & _); [by repeat constructor|]. by exists r'.
Defined.

(** A request waits for peer 101 since second 0; others are forwarded to it at [t1], before the
    connection is made at [t2], and after it. *)
Definition listener : Listener :=
  (Listener_new 100 100 NodeRelay None true AppState.empty_db)
    <| cached_data := {[101 := (0, [ForwardMulRequest "p" request])]} |>.
Definition inputs (t1 t2 : Z) : list (Z * (SwarmEvent (CS:=mc) (CB:=mc) + ListenerInput)) :=
  [(t1, inr (InMessage (ForwardMulRequest "q" request) "" (Some [(101, "a"); (102, "b")]%string)));
   (t2, inl (ConnectionEstablished 101));
   (t2 + 5000, inr (InMessage (ForwardMulRequest "r" request) "" (Some [(101, "a")]%string)))].

(** In time, all three go out or wait, in order; a request more than 600 seconds after the last
    one finds the cache empty. *)
Lemma forwarded_requests_fifo_witness :
  (∃ ls' o, listener_run (F:=f64) (inputs 600 1200) listener = (ls', o, HOk) ∧
    sent_to 101 o ++ waiting 101 ls'
    = [ForwardMulRequest "p" request; ForwardMulRequest "q" request; ForwardMulRequest "r" request]) ∧
  (∃ ls' o, listener_run (F:=f64) (inputs 601 1200) listener = (ls', o, HOk) ∧
    sent_to 101 o ++ waiting 101 ls' = [ForwardMulRequest "q" request; ForwardMulRequest "r" request] ∧
    (sent_to 101 o ++ waiting 101 ls') `sublist_of`
      [ForwardMulRequest "p" request; ForwardMulRequest "q" request; ForwardMulRequest "r" request]).
Proof.
  split.
  - destruct (listener_run (F:=f64) (inputs 600 1200) listener) as [[ls' o] h] eqn:Hrun.
    assert (h = HOk) as -> by (apply (f_equal snd) in Hrun; cbn in Hrun; by rewrite <- Hrun).
    exists ls', o. split; [reflexivity|].
    destruct (forwarded_requests_fifo 101 (inputs 600 1200) listener ls' o Hrun) as (_ & Hall & _).
    rewrite Hall; [reflexivity|repeat constructor; discriminate|vm_compute; split_and!; (exact I || discriminate)].
  - assert (let run := listener_run (F:=f64) (inputs 601 1200) listener in sent_to 101 run.1.2 ++ waiting 101 run.1.1
      = [ForwardMulRequest "q" request; ForwardMulRequest "r" request]) as Hlost by (vm_compute; reflexivity).
    destruct (listener_run (F:=f64) (inputs 601 1200) listener) as [[ls' o] h] eqn:Hrun.
    assert (h = HOk) as -> by (apply (f_equal snd) in Hrun; cbn in Hrun; by rewrite <- Hrun).
    exists ls', o. split; [reflexivity|].
    destruct (forwarded_requests_fifo 101 (inputs 601 1200) listener ls' o Hrun) as (Hsub & _ & _).
    split; [exact Hlost|exact Hsub].
Defined.

(** A node with token "t". *)
Definition node : RpcWorld := {|
  api_token := {| token := "t"; used := false |}; rpc_app := prover_world 101;
  rpc_election := Election.pre_start 101 100 ElectionExamples.defaults ElectionExamples.empty_db
|}.

Lemma key_share_needs_token_witness :
  ∃ c, (ks_run mc mc env [0; 1; 0; 1; 1; 0; 1; 0]%nat (KsStart mc mc <$> ["x"; "t"]%string) node).1
         !! 0%nat = Some c ∧ refused mc mc "x" c.
Proof. apply (key_share_needs_token mc mc env _ ["x"; "t"]%string 0%nat); [reflexivity|discriminate]. Defined.

Lemma key_share_once_unless_racing_witness :
  (ks_run mc mc env [0; 1; 0; 1; 0; 1; 0; 1]%nat [KsStart mc mc "t"; KsStart mc mc "t"] node).1
    = [KsEnd mc mc (RNode mc mc (Keyshare ∅)); KsEnd mc mc (RNode mc mc (Keyshare ∅))].
Proof.
  pose proof (key_share_once_unless_racing mc mc env "t" "t" node (prover_state 1) eq_refl eq_refl eq_refl) as H.
  destruct (fetch_key_share_rpc mc mc env "t" node) as [w' r]. apply H.
Defined.

Lemma key_share_export_import_witness :
  ∃ exported, (fetch_key_share_rpc mc mc env "t" (backup mc mc env node).1).2
              = RNode mc mc (Keyshare exported).
Proof.
  destruct (key_share_export_import mc mc env env "t" node node (prover_state 1) (prover_state 1))
    as (exported & H & _); [reflexivity..| |by exists exported].
  apply map_Forall_singleton. repeat constructor; vm_compute; done.
Defined.
(** The quorum of three of [EngineRun] hands its keys over; member 5 is heard first. *)
Import EngineExamples.
#[local] Existing Instance DkgProtocol.model_rsa.
#[local] Existing Instance DkgProtocol.model_rsa_laws.
#[local] Existing Instance EngineExamples.model_texts.
Definition members3 : list ProverInfo := [prover3 3 "aaa"; prover3 4 "aaaa"; prover3 5 "aaaaa"].
Definition new_relay : RelayState :=
  relay <| active_provers := members3 |> <| rl_new_provers := peers3 |> <| rl_n := 3 |> <| rl_t := 2 |>
        <| rl_epsilon := 1 |> <| pubkey_shares := ∅ |> <| ready_nodes := ∅ |>.
Abbreviation keys_of := (announced mc mc peers3 2 keys3 all_coins3 idx).

Lemma keygen_ready_to_serve_witness :
  ∃ r' p,
    app_run mc mc (HO:=map_to_list_order) (F:=f64) env
      (concat (ready_message mc mc (F:=f64) idx keys_of (final_keys mc mc peers3 2 keys3 all_coins3)
        (Listener_new 100 100 NodeRelay None true AppState.empty_db) <$> reverse members3))
      (relay_world new_relay) = (with_state (Relay r') (relay_world new_relay), [], HOk) ∧
    relay_quorum mc request p idx r'.
Proof.
  destruct (keygen_ready_to_serve mc mc peers3 2 keys3 all_coins3 (λ k, k) (λ k, 100 + k))
    with (members := members3) (node_idx := idx) (env := env)
      (ls := Listener_new 100 100 NodeRelay None true AppState.empty_db) (r := new_relay)
      (w := relay_world new_relay) (order := reverse members3) (request := request)
    as (r' & p & Hrun & _ & Hq & _).
  - split; [reflexivity|vm_compute; reflexivity].
  - split; vm_compute; [split; reflexivity|repeat constructor].
  - apply EngineExamples.members3; (split; [eexists; reflexivity|reflexivity]).
  - intros q. exact coins3_ok.
  - intros q. exact coins3_ok.
  - intros P bs [= <-]. cbn. lia.
  - intros P bs [= <-]. cbn. lia.
  - reflexivity.
  - apply (bool_decide_unpack _). vm_compute. exact I.
  - apply (bool_decide_unpack _). vm_compute. exact I.
  - intros a Ha. unfold members3 in Ha. repeat (apply elem_of_cons in Ha as [->|Ha]); [..|by apply not_elem_of_nil in Ha];
      (eexists; vm_compute; reflexivity).
  - reflexivity.
  - reflexivity.
  - reflexivity.
  - reflexivity.
  - reflexivity.
  - vm_compute. discriminate.
  - split; [vm_compute; discriminate|reflexivity].
  - reflexivity.
  - reflexivity.
  - reflexivity.
  - apply reverse_Permutation.
  - by left.
  - exists r', p. split; [exact Hrun|exact Hq].
Defined.
End SmallNetwork.
