(* ===== verification/Handover.v ===== *)
(** * From a resharing to service

    A re-election, the resharing that the engines carry out ([ReshareRun]) and the
    application states together: the relay is told of the new quorum, hears every
    [ResharingPrepared], and then meets the conditions under which a quorum serves requests
    ([System]), as do the provers that store their new shares. *)
From Stdlib Require Import ZArith Lia Ascii String.
From stdpp Require Import base list gmap sets strings pretty sorting.
From coqutil Require Import Datatypes.RecordSettersUsingExistingGetters.
Import RecordSetNotations.
From S2P Require Import Prelude PrimeField Curve ModelCurve Polynomial Dleq Reconstruct Dkg Resharing DkgProtocol NodeSelection Serialization ZkMask Request ConcreteCurves Messages Election DkgEngine EngineRun ReshareRun AppState AppStateProofs AppStateSafety Gossip Rpc System Keygen SystemExamples.

(** ** The relay hears the new quorum *)
Section Prepared.
Context (CS CB : Curve) `{HH : Hashes} `{HO : HashOrder} `{E : Eth} `{J : !Jwt}
  `{RC : !RequestCodec CB CS} `{RG : Rng} `{AT : !AppTexts} {F : Type}.
Context (env : AppEnv CS CB) (node_idx : ProverInfo → Z) (pub : ProverInfo → KeyMap).
Implicit Types (r : RelayState) (w : AppWorld) (l : list ProverInfo).

(** What the relay's application state gets when prover [a] gossips that its shares are
    prepared. *)
Definition prepared_message (ls : Listener) (a : ProverInfo) : list (AppMessage CS CB) :=
  match process_message (F:=F) ls (Gossiped (ResharingPrepared (node_idx a) (peer_id a) (pub a))) with
  | Ok o => omap (λ x, match x with CastApp m => Some m | _ => None end) o
  | _ => []
  end.

Hypothesis H_short : ∀ a, short 100 (pub a).

(** What the messages leave alone, and the relay after the messages of [l]. *)
Definition kept r :=
  (new_cached_elected_provers r, rl_n r, rl_t r, rl_epsilon r, rl_new_provers r, AppState.finalized_group_public_keys r).
Definition heard_prepared r0 l r : Prop :=
  kept r = kept r0 ∧
  pubkey_shares r = list_to_map ((λ a, (peer_id a, pub a)) <$> reverse l) ∪ pubkey_shares r0 ∧
  ready_nodes r = list_to_set (node_idx <$> l) ∪ ready_nodes r0 ∧
  (l ≠ [] → no_of_shares_received r = Z.of_nat (size (pubkey_shares r)) ∧
    (u32 (Z.of_nat (size (ready_nodes r))) = rl_n r0 → active_provers r = new_cached_elected_provers r0)).

Lemma hear_prepared ls r0 l r w a :
  heard_prepared r0 l r → a ∈ new_cached_elected_provers r0 → node_state w = Some (Relay r) →
  ∃ r', app_run CS CB (F:=F) env (prepared_message ls a) w = (with_state (Relay r') w, [], HOk) ∧
    heard_prepared r0 (l ++ [a]) r'.
Proof using H_short.
  intros (Hk & Hpk & Hready & _) Ha Hw. pose proof Hk as [= Hc Hn _ _ _ _].
  cbn [prepared_message process_message omap list_omap app_run app_handle handle_plain].
  unfold store_resharing_kset, on_relay. rewrite Hw, (proj2 (check_memory_usage_spec _ 100 _)) by done.
  rewrite Hc, is_peer_true by done.
  assert (list_to_map ((λ a, (peer_id a, pub a)) <$> reverse (l ++ [a])) ∪ pubkey_shares r0
    = <[peer_id a := pub a]> (pubkey_shares r)) as Hpk'.
  { rewrite reverse_snoc, fmap_cons. cbn. by rewrite Hpk, insert_union_l. }
  assert (list_to_set (node_idx <$> l ++ [a]) ∪ ready_nodes r0 = {[node_idx a]} ∪ ready_nodes r) as Hready'.
  { rewrite Hready, fmap_app. cbn. set_solver. }
  unfold heard_prepared. rewrite Hpk', Hready'.
  destruct (Z.eqb_spec (u32 (Z.of_nat (size ({[node_idx a]} ∪ ready_nodes r)))) (rl_n r)) as [Heq|Hne].
  - eexists. split; [cbn -[u32]; unfold const; rewrite (proj2 (Z.eqb_eq _ _) Heq); reflexivity|].
    split_and!; [exact Hk|done..].
  - eexists. split; [cbn -[u32]; unfold const; rewrite (proj2 (Z.eqb_neq _ _) Hne); reflexivity|].
    split_and!; [exact Hk|done..|]. intros _. split; [done|]. cbn -[u32]. unfold const. rewrite <- Hn.
    intros H. by destruct Hne.
Qed.

Lemma hear_prepared_run ls r0 w l : ∀ r, heard_prepared r0 [] r →
  Forall (λ a, a ∈ new_cached_elected_provers r0) l → node_state w = Some (Relay r) →
  ∃ r', app_run CS CB (F:=F) env (concat (prepared_message ls <$> l)) w = (with_state (Relay r') w, [], HOk) ∧
    heard_prepared r0 l r'.
Proof using H_short.
  induction l as [|a l IH] using rev_ind; intros r Hr Hl Hw.
  { exists r. split; [|done]. cbn. destruct w. cbn in *. by subst. }
  apply Forall_app in Hl as [Hl Ha]. rewrite Forall_singleton in Ha.
  rewrite fmap_app, concat_app. cbn [fmap list_fmap concat]. rewrite app_nil_r.
  destruct (IH r Hr Hl Hw) as (r1 & Hrun & Hh).
  destruct (hear_prepared ls r0 l r1 (with_state (Relay r1) w) a Hh Ha eq_refl) as (r2 & Hrun2 & Hh2).
  exists r2. split; [by eapply app_run_last|done].
Qed.
End Prepared.

(** ** The handover to the new quorum *)
Section Handover.
Context (CS CB : Curve) {CLS : CurveLaws CS} {CLB : CurveLaws CB} `{HH : Hashes} `{HO : HashOrder}
  `{R : Rsa} {RL : RsaLaws R} `{ET : !EngineTexts} `{E : Eth} `{J : !Jwt}
  `{RC : !RequestCodec CB CS} `{RG : Rng} `{FL : !F64} `{AT : !AppTexts}.
Abbreviation F := f64.

(** The quorums, and for each key pair what T* holds, as in [ReshareRun]. *)
Context (tstar new : QuorumMap) (info : ElectionInfo) (star keys : gmap Z RsaPublicKey)
  (c : Z → AllCoins CS CB) (sk : Z → RsaPrivateKey) (peer : Z → PeerId).
Context (node_s : string → Z → Node (C:=CS)) (node_b : string → Z → Node (C:=CB))
  (old_s : string → list (FieldEl (Curve:=CS))) (old_b : string → list (FieldEl (Curve:=CB)))
  (key_s key_b : string → list Z).
Abbreviation t := (Messages.threshold info).
Hypothesis H_size : size star = size tstar ∧ size keys = size new.
Hypothesis H_t : 0 < t < Z.of_nat (size new) ∧ (3 ≤ size new)%nat ∧
  t ≤ Z.of_nat (size tstar) ∧ (2 ≤ size tstar)%nat.
Hypothesis H_secp : ∀ q, reshare_ok tstar new info star keys sk (node_s q) (cs_of c q) (old_s q) (key_s q).
(** The encodings of both curves are short: 33 and 64 bytes. *)
Hypothesis H_short_s : ∀ (P : Point (Curve:=CS)) bs, encode P = Ok bs → (length bs ≤ 100)%nat.
Hypothesis H_short_b : ∀ (P : Point (Curve:=CB)) bs, encode P = Ok bs → (length bs ≤ 100)%nat.

(** The new quorum as the relay elected it. *)
Context (members : list ProverInfo) (node_idx : ProverInfo → Z).
Hypothesis H_new : new = list_to_map ((λ a, (peer_id a, (a, node_idx a))) <$> members).
Hypothesis H_peer_ids : NoDup (peer_id <$> members).
Hypothesis H_idx : NoDup (node_idx <$> members).
Hypothesis H_keys : ∀ a, a ∈ members → is_Some (keys !! node_idx a).

(** What member [a]'s engine announces and stores at the end of the resharing. *)
Definition prepared (a : ProverInfo) : KeyMap := re_out2 tstar new info star keys c old_s old_b (node_idx a).
Definition new_shares (a : ProverInfo) : KeyMap := re_shares tstar new info star keys c old_s old_b (node_idx a).

(** What the relay's election engine casts to its application state. *)
Definition elected_messages (drand : DrandResponse) : list (AppMessage CS CB) :=
  Plain <$> [AppClearShares; UpdateElectedProvers members true; StoreQuorumMap tstar new;
             UpdatedThreshold info; ForwardReElectedProvers info tstar new drand;
             MonitorQuorumFormation MonitorResharing].

(** What a prover's application state gets from the gossiped re-election, first from the
    listener and then from its election engine, and at the end from its DKG engine. *)
Definition prover_messages (group_keys : KeyMap) (we : World) (a : ProverInfo) : list (AppMessage CS CB) :=
  Plain (UpdatedThreshold info) ::
  omap (λ x, match x with ToAppState m => Some (Plain m) | _ => None end)
    (handle_check_re_elected_status info tstar new group_keys we).1.2 ++
  [Plain (StoreKeyShares (new_shares a))].

Lemma new_members_size : size new = length members.
Proof using H_new H_peer_ids.
  rewrite H_new, map_size_list_to_map; [by rewrite length_fmap|]. by rewrite <- list_fmap_compose.
Qed.

Lemma prepared_short a : short 100 (prepared a).
Proof using H_short_s H_short_b.
  unfold prepared, re_out2. apply keyed_short; intros q; unfold new_pubshare; apply enc_short; [exact H_short_s|exact H_short_b].
Qed.

(** The polynomial of the new shares. *)
Lemma re_poly q : ∃ p : Polynomial (FieldEl (Curve:=CS)),
  Z.of_nat (length (coefficients p)) ≤ t ∧ eval p 0%F = old_secret (old_s q) ∧
  ∀ k, new_share (star_network tstar info star) (new_network new info keys) (cs_of c q) (old_s q) k = eval p (f_of_Z k).
Proof using CLS H_t H_size H_secp.
  pose proof (H_secp q) as [Hids Hold Hnodes Henc Hnz Hkey].
  set (tn := Z.to_nat t).
  destruct (dealt_poly star tn (λ k, coin_poly (cs_of c q k))
    (λ k, (peval (old_s q) (f_of_Z k) * lambda_at_0 (hm_keys star) k)%F)) as (fs & Hfs & Hs); [lia|].
  exists (from_coeffs fs). split; [cbn; lia|]. split.
  - rewrite eval_peval. cbn. rewrite <- Hs.
    eapply (re_secret (star_network tstar info star) (new_network new info keys) (node_s q)
      (λ k, coin_poly (cs_of c q k)) (old_s q)); eauto.
  - intros k. rewrite eval_peval. cbn. rewrite <- Hs. reflexivity.
Qed.

(** What the relay is told at the re-election. *)
Lemma relay_elected env drand r w : node_state w = Some (Relay r) →
  ∃ r0, app_run CS CB (F:=F) env (elected_messages drand) w
    = (with_state (Relay r0) w,
       [GossipOut (ReElectedProvers info tstar new (AppState.finalized_group_public_keys r) drand);
        SpawnMonitor (length (active_provers r)) MonitorResharing], HOk) ∧
  kept r0 = (members, total_provers info, t, epsilon info, new, AppState.finalized_group_public_keys r) ∧
  pubkey_shares r0 = ∅ ∧ ready_nodes r0 = ∅.
Proof using.
  intros Hw. cbn [elected_messages fmap list_fmap app_run app_handle handle_plain].
  unfold update_elected_provers, store_quorum_map, on_relay. rewrite Hw. eexists. split; [reflexivity|]. done.
Qed.

(** ... and hears from the whole new quorum. *)
Lemma relay_prepared env ls drand r w (order : list ProverInfo) :
  node_state w = Some (Relay r) → total_provers info = Z.of_nat (length members) →
  0 < Z.of_nat (length members) < 2 ^ 32 → order ≡ₚ members →
  ∃ r', app_run CS CB (F:=F) env
      (elected_messages drand ++ concat (prepared_message CS CB (F:=F) node_idx prepared ls <$> order)) w
    = (with_state (Relay r') w,
       [GossipOut (ReElectedProvers info tstar new (AppState.finalized_group_public_keys r) drand);
        SpawnMonitor (length (active_provers r)) MonitorResharing], HOk) ∧
  kept r' = (members, total_provers info, t, epsilon info, new, AppState.finalized_group_public_keys r) ∧
  active_provers r' = members ∧ no_of_shares_received r' = Z.of_nat (length members) ∧
  ready_nodes r' = list_to_set (node_idx <$> members) ∧
  ∀ a, a ∈ members → pubkey_shares r' !! peer_id a = Some (prepared a).
Proof using CLS CLB RL sk peer H_short_s H_short_b H_peer_ids H_idx.
  clear H_t H_size H_secp H_new H_keys. intros Hw Hn Hlen Ho. destruct (relay_elected env drand r w Hw) as (r0 & Hrun0 & Hk0 & Hpk0 & Hready0).
  pose proof Hk0 as [= Hc0 Hn0 _ _ _ _].
  destruct (hear_prepared_run CS CB (F:=F) env node_idx prepared prepared_short ls r0 (with_state (Relay r0) w) order r0)
    as (r' & Hrun & Hk & Hpk & Hready & Hlast); [| |done|].
  { split_and!; cbn; [done|by rewrite map_empty_union|set_solver|done]. }
  { apply Forall_forall. intros a. by rewrite Ho, Hc0. }
  rewrite Hpk0, map_union_empty in Hpk. rewrite Hready0, union_empty_r_L in Hready.
  assert (NoDup (((λ a, (peer_id a, prepared a)) <$> reverse order).*1)) as Hnd.
  { rewrite <- list_fmap_compose. assert (reverse order ≡ₚ members) as -> by (by rewrite reverse_Permutation). done. }
  destruct Hlast as [Hno Hact]; [intros ->; apply Permutation_length in Ho; cbn [length] in Ho; lia|].
  exists r'. split_and!.
  - rewrite (app_run_app CS CB env _ _ _ _ _ Hrun0), Hrun. by rewrite app_nil_r.
  - by rewrite Hk.
  - rewrite Hact; [done|]. rewrite Hready, size_list_to_set by (by rewrite Ho).
    rewrite length_fmap, Ho, Hn0, Hn. apply wrap_small. lia.
  - rewrite Hno, Hpk, map_size_list_to_map by done. by rewrite length_fmap, reverse_Permutation, Ho.
  - rewrite Hready. apply list_to_set_perm_L. by rewrite Ho.
  - intros a Ha. rewrite Hpk. apply elem_of_list_to_map; [done|]. apply list_elem_of_fmap. exists a.
    split; [done|]. by rewrite reverse_Permutation, Ho.
Qed.

Lemma member_lookup a : a ∈ members → new !! peer_id a = Some (a, node_idx a).
Proof using H_new H_peer_ids.
  intros Ha. rewrite H_new. apply elem_of_list_to_map.
  - by rewrite <- list_fmap_compose.
  - apply list_elem_of_fmap. by exists a.
Qed.

(** A prover of the new quorum after it was told of the re-election and has its shares. *)
Lemma prover_reshared env group_keys we a wq q :
  a ∈ members → 0 < node_idx a < 2 ^ 32 → node_state wq = Some (Prover q) → self_id (engine we) = peer_id a →
  (is_Some (tstar !! peer_id a) → my_node_idx q = node_idx a) →
  ∃ q', app_run CS CB (F:=F) env (prover_messages group_keys we a) wq = (with_state (Prover q') wq, [], HOk) ∧
    pv_common q' = pv_common q ∧ my_node_idx q' = node_idx a ∧ pv_t q' = t ∧ pv_epsilon q' = epsilon info ∧
    pv_new_provers q' = new ∧ private_keyshares q' = new_shares a.
Proof using H_new H_peer_ids.
  clear H_t H_size H_secp H_keys. intros Ha Hr Hq Hself Hidx. unfold prover_messages, handle_check_re_elected_status.
  rewrite Hself, (member_lookup a Ha).
  destruct (tstar !! peer_id a) eqn:Ht; cbn [fst snd app omap list_omap app_run app_handle handle_plain];
    unfold update_threshold, on_relay, update_node_idx; rewrite Hq;
    (eexists; split; [reflexivity|]); cbn; unfold const, u32; rewrite ?wrap_small by lia; split_and!; auto.
Qed.

(** C5: A resharing hands the service over.  When the relay's election engine announces a new
    quorum to which the engines reshare the keys, and every member of it gossips the
    [ResharingPrepared] that its engine announced, then in whatever order the relay hears
    them, its active provers are the new quorum, its group keys are the old ones, the
    monitor has the new state saved if the quorum kept its size, and the relay is one that a
    quorum can serve, for a polynomial with at most [t] coefficients whose value at 0 is the
    old secret.  Every member that handles the re-election and stores the shares of its
    engine is a serving prover of that quorum. *)
Theorem resharing_ready_to_serve (env : AppEnv CS CB) (ls : Listener) drand r w (order : list ProverInfo)
    (request : RequestToNetwork) :
  node_state w = Some (Relay r) → total_provers info = Z.of_nat (length members) → 1 ≤ epsilon info →
  t + epsilon info ≤ Z.of_nat (length members) < 2 ^ 32 →
  order ≡ₚ members → method request = OPRFSecp256k1 ∨ method request = JWTPRFSecp256k1 →
  ∃ r' p,
    app_run CS CB (F:=F) env
      (elected_messages drand ++ concat (prepared_message CS CB (F:=F) node_idx prepared ls <$> order)) w
      = (with_state (Relay r') w,
         [GossipOut (ReElectedProvers info tstar new (AppState.finalized_group_public_keys r) drand);
          SpawnMonitor (length (active_provers r)) MonitorResharing], HOk) ∧
    active_provers r' = members ∧
    AppState.finalized_group_public_keys r' = AppState.finalized_group_public_keys r ∧
    (length (active_provers r) = length members → ∀ multipliers elapsed,
      monitor_tick CS CB (F:=F) (length (active_provers r)) MonitorResharing multipliers elapsed r'
      = (None, r', [ToSelf AppSaveCurrentState; GossipOut SaveCurrentState; KafkaQuorum true multipliers])) ∧
    relay_quorum CS request p node_idx r' ∧
    Z.of_nat (length (coefficients p)) ≤ rl_t r' ∧
    eval p 0%F = old_secret (old_s (share_name (method request))) ∧ eval p 0%F ≠ 0%F ∧
    ∀ a wq q we env' group_keys, a ∈ members → node_state wq = Some (Prover q) →
      cm_peer_id (pv_common q) = peer_id a → current_epoch (pv_common q) = Request.epoch request →
      self_id (engine we) = peer_id a → (is_Some (tstar !! peer_id a) → my_node_idx q = node_idx a) →
      ae_nonce_s env' ≠ 0%F →
      ∃ q', app_run CS CB (F:=F) env' (prover_messages group_keys we a) wq = (with_state (Prover q') wq, [], HOk) ∧
        serving_prover CS CB request p node_idx r' a env' (with_state (Prover q') wq).
Proof using All.
  intros Hw Htot Heps Hbound Ho Hm.
  destruct (relay_prepared env ls drand r w order) as (r' & Hrun & Hk & Hact & Hno & Hrn & Hsh); [done..|lia|done|].
  pose proof Hk as [= Hc Hn Ht He Hnew Hfin].
  set (q := share_name (method request)). destruct (re_poly q) as (p & Hlen & H0 & Hp).
  pose proof (H_secp q) as [[_ Hids] _ _ _ (_ & Hnz & Hsec) _].
  assert (∀ a, a ∈ members → 0 < node_idx a < 2 ^ 32 ∧ node_idx a < f_modulus (F:=FieldEl (Curve:=CS))) as Hrange
    by (intros a Ha; apply Hids, H_keys, Ha).
  assert (∀ a, a ∈ members → eval p (f_of_Z (node_idx a)) ≠ 0%F) as Hshare
    by (intros a Ha; rewrite <- Hp; apply Hnz, H_keys, Ha).
  exists r', p. split_and!; [exact Hrun|done|done| | |by rewrite Ht|done|by rewrite H0|].
  - intros Hsame mult k. unfold monitor_tick. by rewrite Hno, Hsame, Z.eqb_refl.
  - constructor; rewrite ?Hact, ?Hnew, ?Ht, ?He; try done; [|lia| |].
    + apply Forall_forall. intros a Ha. by apply Hrange.
    + rewrite Hrn, size_list_to_set, length_fmap by done. lia.
    + intros a Ha. eexists _, (new_pubshare (star_network tstar info star) (new_network new info keys) (cs_of c q) (old_s q) (node_idx a)).
      split; [by apply Hsh|]. split; [exact (keyed_method _ _ _ Hm)|]. rewrite <- Hp.
      apply enc_base. rewrite Hp. by apply Hshare.
  - intros a wq pq we env' gk Ha Hwq Hpid Hep Hself Hin Hnonce.
    destruct (prover_reshared env' gk we a wq pq) as (q' & Hr & Hcm & Hi & Hqt & Hqe & Hqn & Hqs); [done|by apply Hrange|done..|].
    exists q'. split; [done|]. constructor; [|by apply Hshare|done].
    exists q'. split; [done|]. rewrite Hcm, Ht, He, Hnew. split_and!; try done.
    exists (re_share_bytes tstar new info star keys (cs_of c q) (old_s q) (node_idx a)).
    rewrite Hqs. split; [exact (keyed_method _ _ _ Hm)|]. unfold re_share_bytes. by rewrite scalar_bytes, Hp.
Qed.
End Handover.

(** ** Three members hand over to three others *)
Module HandoverExamples.
Import ModelCurve.ModelInstances EngineExamples ReshareExamples SmallNetwork.
#[local] Existing Instance DkgProtocol.model_rsa.
#[local] Existing Instance DkgProtocol.model_rsa_laws.
#[local] Existing Instance EngineExamples.model_texts.
#[local] Existing Instance NodeSelection.Examples.toy_rng.
#[local] Existing Instance NodeSelection.Examples.toy_f64.
#[local] Existing Instance RequestExamples.toy_eth.
#[local] Existing Instance RequestExamples.toy_jwt.
#[local] Existing Instance RequestExamples.toy_codec.
#[local] Existing Instance SmallNetwork.toy_texts.
Abbreviation mc := model_curve.
Definition info1 : ElectionInfo := ElectionInfo_new 2 1 3.
Definition new_members : list ProverInfo := [prover3 4 "aaaa"; prover3 5 "aaaaa"; prover3 6 "aaaaaa"].
Definition relay_listener : Listener := Listener_new 100 100 NodeRelay None true AppState.empty_db.

Lemma held_ok1 : reshare_ok tstar new info1 star keys (λ k, k) held coins3 shared key.
Proof. destruct held_ok as [H1 H2 H3 H4 H5 H6]. by constructor. Qed.

(** The relay of the quorum 3, 4 and 5 hears member 6 first. *)
Lemma resharing_ready_to_serve_witness :
  ∃ r' p out,
    app_run mc mc (HO:=map_to_list_order) (F:=f64) env
      (elected_messages mc mc tstar new info1 new_members DrandResponse_default ++
       concat (prepared_message mc mc (F:=f64) idx
         (prepared mc mc tstar new info1 star keys all_coins3 (λ _, shared) (λ _, shared) idx) relay_listener
         <$> reverse new_members))
      (relay_world new_relay) = (with_state (Relay r') (relay_world new_relay), out, HOk) ∧
    relay_quorum mc request p idx r'.
Proof.
  destruct (resharing_ready_to_serve mc mc tstar new info1 star keys all_coins3 (λ k, k) (λ k, 100 + k)
      (λ _, held) (λ _, held) (λ _, shared) (λ _, shared) (λ _, key) (λ _, key))
    with (members := new_members) (node_idx := idx) (env := env) (ls := relay_listener)
      (drand := DrandResponse_default) (r := new_relay) (w := relay_world new_relay)
      (order := reverse new_members) (request := request)
    as (r' & p & Hrun & _ & _ & _ & Hq & _).
  - split; reflexivity.
  - vm_compute. repeat split; discriminate || reflexivity || lia.
  - intros q. exact held_ok1.
  - intros P bs [= <-]. cbn. lia.
  - intros P bs [= <-]. cbn. lia.
  - reflexivity.
  - apply (bool_decide_unpack _). vm_compute. exact I.
  - apply (bool_decide_unpack _). vm_compute. exact I.
  - intros a Ha. unfold new_members in Ha. repeat (apply elem_of_cons in Ha as [->|Ha]); [..|by apply not_elem_of_nil in Ha];
      (eexists; vm_compute; reflexivity).
  - reflexivity.
  - reflexivity.
  - vm_compute. discriminate.
  - split; [vm_compute; discriminate|reflexivity].
  - apply reverse_Permutation.
  - by left.
  - exists r', p. eexists. split; [exact Hrun|exact Hq].
Defined.
End HandoverExamples.
