(* ===== verification/Ingester.v ===== *)
(** * The ingester's database (crates/ingester: task_monitor.rs, message_ingester.rs,
      daily_points_updater.rs, main.rs, models.rs, and messages/src/kafka.rs)

    The ingester keeps a PostgreSQL database of what the network reports on Kafka and of
    the tasks that the attestation contract accepts, from which operators earn points.

    A table is the list of its rows with the next value of its sequence, which a failed
    transaction does not give back.  A statement returns the new database and how it ended;
    [ok] says which statements get through, so every theorem holds for any failure of the
    connection.  Times are microseconds.  Kafka's and Ethereum's decoders, and [chrono]'s
    conversion of a timestamp, are parameters. *)
From Stdlib Require Import ZArith Lia Ascii String.
From stdpp Require Import base list gmap sets strings pretty sorting.
From coqutil Require Import Datatypes.RecordSettersUsingExistingGetters.
Import RecordSetNotations.
From S2P Require Import Prelude Float64 Request Messages.

Abbreviation Time := Z (only parsing).

(** ** Rows (models.rs) *)
Record RequestRow := {
  rq_id : Z; rq_kafka_timestamp : option Time; rq_ingestion_timestamp : option Time;
  rq_request_id : string; rq_user_address : string; rq_method : string
}.
Record UserCreditsRow := {
  uc_id : Z; uc_kafka_timestamp : option Time; uc_ingestion_timestamp : option Time;
  uc_user_address : string; uc_method : string; uc_exhausted_credits : Z
}.
Record ServedRow := {
  sr_id : Z; sr_kafka_timestamp : option Time; sr_ingestion_timestamp : option Time;
  sr_multiplier_peer_id : string; sr_request_id : string
}.
Record TcpRow := {
  tcp_id : Z; tcp_kafka_timestamp : option Time; tcp_ingestion_timestamp : option Time;
  tcp_multiplier_peer_id : string; tcp_success : bool; tcp_rpc_url : string;
  tcp_version : option string
}.
Record QuicRow := {
  quic_id : Z; quic_kafka_timestamp : option Time; quic_ingestion_timestamp : option Time;
  quic_multiplier_peer_id : string; quic_success : bool; quic_duration_micros : option Z
}.
Record QuorumRow := {
  qr_id : Z; qr_kafka_timestamp : option Time; qr_ingestion_timestamp : option Time;
  qr_success : bool
}.
Record MultiplierRow := {
  mi_id : Z; mi_quorum_info_id : Z; mi_evm_address : string; mi_peer_id : string;
  mi_multi_address : string; mi_rpc_address : string; mi_mishti_pub_key : string;
  mi_rsa_pub_key : string; mi_voting_power : string; mi_node_idx : Z
}.
Record TaskRow := {
  t_id : Z; t_task_number : Z; t_task_definition_id : Z; t_task_size : Z;
  t_proof_of_task : string; t_operator : Address; t_block_number : Z;
  t_transaction_hash : list Z; t_log_index : Z; t_timestamp : option Time
}.
Record LedgerRow := {
  lg_id : Z; lg_operator : Address; lg_task_id : Z; lg_role : string; lg_points : float;
  lg_created_at : Time
}.

Record Table (R : Type) := { rows : list R; next_id : Z }.
Arguments rows {R} _.
Arguments next_id {R} _.
Definition empty_table {R} : Table R := {| rows := []; next_id := 1 |}.

(** The tables; the rows of [operator_points_daily] by their primary key, and the one row
    of [monitor_task_state]. *)
Record Db := {
  requests : Table RequestRow;
  multiplier_served_requests : Table ServedRow;
  user_credits : Table UserCreditsRow;
  peer_reachability_tcp : Table TcpRow;
  peer_reachability_quic : Table QuicRow;
  quorum_resharing_info : Table QuorumRow;
  multiplier_info : Table MultiplierRow;
  tasks : Table TaskRow;
  task_performers : list (Z * Address);
  task_attestors : list (Z * Address);
  operator_points_ledger : Table LedgerRow;
  operator_points_daily : gmap (Address * Time) float;
  monitor_task_state : option Z
}.
Definition empty_Db : Db := {|
  requests := empty_table; multiplier_served_requests := empty_table; user_credits := empty_table;
  peer_reachability_tcp := empty_table; peer_reachability_quic := empty_table;
  quorum_resharing_info := empty_table; multiplier_info := empty_table; tasks := empty_table;
  task_performers := []; task_attestors := []; operator_points_ledger := empty_table;
  operator_points_daily := ∅; monitor_task_state := None |}.

(** ** Statements *)

(** [diesel::result::Error], as far as the code meets it. *)
Inductive DieselError := UniqueViolation | ForeignKeyViolation | NotFound | DatabaseError.

Inductive Stmt :=
  | InsertTask | InsertPerformers | InsertAttestors | InsertPerformerPoints | InsertAttestorPoints
  | UpsertMonitorState | Commit | InsertRequest | InsertServed (i : nat) | UpsertCredits | UpsertQuic
  | UpsertTcp | InsertQuorum | InsertMultiplier (i : nat) | UpdateDaily.

Definition Sql (A : Type) : Type := Db → Db * outcome DieselError A.
#[export] Instance sql_ret : MRet Sql := λ A a db, (db, Ok a).
#[export] Instance sql_bind : MBind Sql := λ A B k m db,
  match m db with
  | (db, Ok a) => k a db
  | (db, Err e) => (db, Err e)
  | (db, Panic) => (db, Panic)
  end.

Section Statements.
Context (ok : Stmt → bool).

Definition sql_err {A} (e : DieselError) : Sql A := λ db, (db, Err e).
Definition sql_get {A} (f : Db → A) : Sql A := λ db, (db, Ok (f db)).
Definition sql_modify (f : Db → Db) : Sql unit := λ db, (f db, Ok tt).
(** The statement reaches the database. *)
Definition exec (s : Stmt) : Sql unit := if ok s then mret tt else sql_err DatabaseError.

(** What is left of a transaction that is rolled back: the values its sequences gave out. *)
Definition keep_seq {R} (old new : Table R) : Table R := {| rows := rows old; next_id := next_id new |}.
Definition rolled_back (old new : Db) : Db :=
  old <| requests := keep_seq (requests old) (requests new) |>
      <| multiplier_served_requests :=
           keep_seq (multiplier_served_requests old) (multiplier_served_requests new) |>
      <| user_credits := keep_seq (user_credits old) (user_credits new) |>
      <| peer_reachability_tcp := keep_seq (peer_reachability_tcp old) (peer_reachability_tcp new) |>
      <| peer_reachability_quic := keep_seq (peer_reachability_quic old) (peer_reachability_quic new) |>
      <| quorum_resharing_info := keep_seq (quorum_resharing_info old) (quorum_resharing_info new) |>
      <| multiplier_info := keep_seq (multiplier_info old) (multiplier_info new) |>
      <| tasks := keep_seq (tasks old) (tasks new) |>
      <| operator_points_ledger :=
           keep_seq (operator_points_ledger old) (operator_points_ledger new) |>.

(** [build_transaction().run]. *)
Definition transaction {A} (m : Sql A) : Sql A := λ db,
  match m db with
  | (db', Ok a) => if ok Commit then (db', Ok a) else (rolled_back db db', Err DatabaseError)
  | (db', r) => (rolled_back db db', r)
  end.

Definition insert_row {R} (mk : Z → R) (t : Table R) : Table R :=
  {| rows := rows t ++ [mk (next_id t)]; next_id := next_id t + 1 |}.
Definition skip_id {R} (t : Table R) : Table R := {| rows := rows t; next_id := next_id t + 1 |}.
End Statements.

(** ** Tasks (task_monitor.rs) *)

(** [as i32]. *)
Definition as_i32 (z : Z) : Z := (z + 2 ^ 31) mod 2 ^ 32 - 2 ^ 31.

Inductive OperatorRole := Performer | Attestor.
Definition role_as_str (r : OperatorRole) : string :=
  match r with Performer => "performer" | Attestor => "attestor" end.

Record TaskSubmittedEvent := {
  ev_operator : Address;
  ev_task_number : Z;
  ev_proof_of_task : string;
  ev_data : list Z;
  ev_task_size : Z;
  ev_performers : list Address;
  ev_task_definition_id : Z;
  ev_attesters_ids : list Z;
  ev_attester_addresses : list Address;
  ev_block_number : Z;
  ev_transaction_hash : list Z;
  ev_log_index : Z
}.

(** A log as the provider delivers it; its event is decoded by [alloy]. *)
Record Log := {
  log_event : option (Address * Z * string * list Z * Z * list Z);
  log_block_number : option Z;
  log_transaction_hash : option (list Z);
  log_log_index : option Z
}.

Definition from_log (log : Log) : outcome string TaskSubmittedEvent :=
  match log_event log with
  | Some (operator, task_number, proof_of_task, data, task_definition_id, attesters_ids) =>
      Ok {| ev_operator := operator; ev_task_number := task_number;
            ev_proof_of_task := proof_of_task; ev_data := data; ev_task_size := 0;
            ev_performers := []; ev_task_definition_id := task_definition_id;
            ev_attesters_ids := attesters_ids; ev_attester_addresses := [];
            ev_block_number := default 0 (log_block_number log);
            ev_transaction_hash := default (replicate 32 0) (log_transaction_hash log);
            ev_log_index := default 0 (log_log_index log) |}
  | None => Err "decode"%string
  end.

Section Ingest.
Context (ok : Stmt → bool).
Implicit Types (ev : TaskSubmittedEvent) (db : Db).

(** [INSERT INTO tasks ... RETURNING id], with [UNIQUE (transaction_hash, log_index)]. *)
Definition insert_task (now : Time) ev : Sql Z :=
  _ ← exec ok InsertTask;
  id ← sql_get (λ db, next_id (tasks db));
  dup ← sql_get (λ db, existsb (λ t,
    bool_decide (t_transaction_hash t = ev_transaction_hash ev) &&
    (t_log_index t =? as_i64 (ev_log_index ev))) (rows (tasks db)));
  if dup : bool then _ ← sql_modify (λ db, db <| tasks ::= skip_id |>); sql_err UniqueViolation
  else
    _ ← sql_modify (λ db, db <| tasks ::= insert_row (λ id, {|
      t_id := id; t_task_number := as_i32 (ev_task_number ev);
      t_task_definition_id := as_i32 (ev_task_definition_id ev);
      t_task_size := as_i64 (ev_task_size ev); t_proof_of_task := ev_proof_of_task ev;
      t_operator := ev_operator ev; t_block_number := as_i64 (ev_block_number ev);
      t_transaction_hash := ev_transaction_hash ev; t_log_index := as_i64 (ev_log_index ev);
      t_timestamp := Some now |}) |>);
    mret id.

(** [INSERT] of several rows into a table with a primary key: one that is there already, or
    twice in the statement, fails all of it. *)
Definition insert_members (s : Stmt) (get : Db → list (Z * Address))
    (set : list (Z * Address) → Db → Db) (task_id : Z) (members : list Address) : Sql unit :=
  if bool_decide (members = []) then mret tt else
    _ ← exec ok s;
    old ← sql_get get;
    let new := (λ a, (task_id, a)) <$> members in
    if bool_decide (NoDup (old ++ new)) then sql_modify (set (old ++ new))
    else sql_err UniqueViolation.

(** One row of an [INSERT ... ON CONFLICT DO NOTHING] into the ledger, with
    [UNIQUE (task_id, operator, role)]. *)
Definition same_entry (task_id : Z) (operator : Address) (role : string) (r : LedgerRow) : bool :=
  (lg_task_id r =? task_id) && bool_decide (lg_operator r = operator) &&
  bool_decide (lg_role r = role).
Definition add_points (task_id : Z) (role : OperatorRole) (points : float) (now : Time)
    (t : Table LedgerRow) (operator : Address) : Table LedgerRow :=
  if existsb (same_entry task_id operator (role_as_str role)) (rows t) then skip_id t
  else insert_row (λ id, {| lg_id := id; lg_operator := operator; lg_task_id := task_id;
         lg_role := role_as_str role; lg_points := points; lg_created_at := now |}) t.
Definition insert_points (s : Stmt) (task_id : Z) (role : OperatorRole) (points : float)
    (now : Time) (operators : list Address) : Sql unit :=
  if bool_decide (operators = []) then mret tt else
    _ ← exec ok s;
    sql_modify (λ db, db <| operator_points_ledger ::=
      (λ t, foldl (add_points task_id role points now) t operators) |>).

(** [TaskSubmittedEvent::ingest]: performers earn the task's size, attestors a tenth. *)
Definition ingest_body (now : Time) ev : Sql unit :=
  task_id ← insert_task now ev;
  _ ← insert_members InsertPerformers task_performers (λ l db, db <| task_performers := l |>)
        task_id (ev_performers ev);
  _ ← insert_members InsertAttestors task_attestors (λ l db, db <| task_attestors := l |>)
        task_id (ev_attester_addresses ev);
  _ ← insert_points InsertPerformerPoints task_id Performer (float_of_Z (ev_task_size ev)) now
        (ev_performers ev);
  _ ← insert_points InsertAttestorPoints task_id Attestor
        (fmul tenth (float_of_Z (ev_task_size ev))) now (ev_attester_addresses ev);
  _ ← exec ok UpsertMonitorState;
  sql_modify (λ db, db <| monitor_task_state := Some (as_i64 (ev_block_number ev)) |>).
Definition ingest (pool_get : bool) (now : Time) ev : Sql unit :=
  if pool_get then transaction ok (ingest_body now ev) else sql_err NotFound.
End Ingest.

(** ** The monitor *)

(** What the monitor asks for while it processes one log: the answers to
    [getActiveOperatorsDetails] in the order of the calls, the contract's
    [getOperatorPaymentDetail], the decoded task data, the time and the database. *)
Record MonitorEnv := {
  me_active : nat → option (list (Z * Address));
  me_payment : Z → option Address;
  me_task_data : list Z → option (Z * list Address);
  me_now : Time;
  me_pool_get : bool;
  me_ok : Stmt → bool
}.

(** [ContractEventMonitor]: the database and the cache of operator addresses. *)
Record Monitor := { mon_db : Db; operator_address_cache : gmap Z Address }.

Definition merge_operators (cache : gmap Z Address) (operators : list (Z * Address)) : gmap Z Address :=
  foldl (λ c kv, <[kv.1 := kv.2]> c) cache operators.

(** [get_operator_address_map] at its [calls]-th call to the contract: the map, the cache
    and the number of calls so far. *)
Definition get_operator_address_map (env : MonitorEnv) (force_refresh : bool)
    (cache : gmap Z Address) (calls : nat) : outcome string (gmap Z Address) * gmap Z Address * nat :=
  if negb force_refresh && negb (bool_decide (cache = ∅)) then (Ok cache, cache, calls)
  else match me_active env calls with
       | Some operators => let cache := merge_operators cache operators in (Ok cache, cache, S calls)
       | None => (Err "Failed to fetch operator details"%string, cache, S calls)
       end.

Definition ZERO_ADDRESS : Address := replicate 20 0.

(** The loop that turns the attesters' ids into addresses: an id that the map does not
    have refreshes it, and one that is still missing is looked up alone. *)
Fixpoint resolve_attesters (env : MonitorEnv) (ids : list Z) (operator_map cache : gmap Z Address)
    (calls : nat) (acc : list Address) : outcome string (list Address) * gmap Z Address :=
  match ids with
  | [] => (Ok acc, cache)
  | id :: ids =>
      match operator_map !! id with
      | Some address => resolve_attesters env ids operator_map cache calls (acc ++ [address])
      | None =>
          match get_operator_address_map env true cache calls with
          | (Ok operator_map, cache, calls) =>
              match operator_map !! id with
              | Some address => resolve_attesters env ids operator_map cache calls (acc ++ [address])
              | None =>
                  match me_payment env id with
                  | Some address =>
                      if bool_decide (address = ZERO_ADDRESS) then
                        resolve_attesters env ids operator_map cache calls acc
                      else resolve_attesters env ids operator_map (<[id := address]> cache) calls
                             (acc ++ [address])
                  | None => resolve_attesters env ids operator_map cache calls acc
                  end
              end
          | (Err e, cache, _) => (Err e, cache)
          | (Panic, cache, _) => (Panic, cache)
          end
      end
  end.

(** [process_log]; the conversion of the task's size to [usize] panics when it does not
    fit. *)
Definition process_log (env : MonitorEnv) (log : Log) (mon : Monitor)
    : Monitor * outcome string unit :=
  match from_log log with
  | Ok event =>
      if (ev_task_definition_id event =? 10001) || (ev_task_definition_id event =? 10002)
      then (mon, Ok tt)
      else
        match (match me_task_data env (ev_data event) with
               | Some (task_size, performers) =>
                   if task_size <? 2 ^ 64 then
                     Ok (event <| ev_task_size := task_size |> <| ev_performers := performers |>)
                   else Panic
               | None => Ok event
               end : outcome string TaskSubmittedEvent) with
        | Ok event =>
            match get_operator_address_map env false (operator_address_cache mon) 0 with
            | (Ok operator_map, cache, calls) =>
                match resolve_attesters env (ev_attesters_ids event) operator_map cache calls [] with
                | (Ok addresses, cache) =>
                    let event := event <| ev_attester_addresses := addresses |> in
                    let '(db, r) := ingest (me_ok env) (me_pool_get env) (me_now env) event (mon_db mon) in
                    ({| mon_db := db; operator_address_cache := cache |},
                     match r with Panic => Panic | _ => Ok tt end)
                | (Err e, cache) => (mon <| operator_address_cache := cache |>, Err e)
                | (Panic, cache) => (mon <| operator_address_cache := cache |>, Panic)
                end
            | (Err e, cache, _) => (mon <| operator_address_cache := cache |>, Err e)
            | (Panic, cache, _) => (mon <| operator_address_cache := cache |>, Panic)
            end
        | _ => (mon, Panic)
        end
  | _ => (mon, Err "Failed to parse TaskSubmitted event"%string)
  end.

(** Where [monitor_events] starts: after the last block whose task was recorded; [None] is
    the latest block. *)
Definition from_block (db : Db) : option Z := (λ b, u64 (u64 b + 1)) <$> monitor_task_state db.

(** The stream of logs: an error is logged, a panic ends the task. *)
Fixpoint monitor_events (logs : list (MonitorEnv * Log)) (mon : Monitor) : Monitor * bool :=
  match logs with
  | [] => (mon, true)
  | (env, log) :: logs =>
      match process_log env log mon with
      | (mon, Panic) => (mon, false)
      | (mon, _) => monitor_events logs mon
      end
  end.

(** [run]: how many of the subscriptions, each of which ends well or with an error, are
    made before it gives up. *)
Definition max_retries : nat := 5.
Fixpoint run_monitor (subscriptions : list bool) (retry_count : nat) : option nat :=
  match subscriptions with
  | [] => None
  | true :: rest => S <$> run_monitor rest 0
  | false :: rest =>
      if (max_retries <=? S retry_count)%nat then Some 1%nat else S <$> run_monitor rest (S retry_count)
  end.

(** ** Kafka messages (messages/src/kafka.rs, message_ingester.rs) *)
Inductive KafkaTopic :=
  | TopicRequests | TopicCredits | TopicPeerReachabilityTCP | TopicPeerReachabilityQUIC
  | TopicQuorumResharingStatus.
Definition topic_as_str (t : KafkaTopic) : string :=
  match t with
  | TopicQuorumResharingStatus => "quorum_resharing_status"
  | TopicRequests => "requests"
  | TopicCredits => "credits"
  | TopicPeerReachabilityTCP => "peer_reachability_tcp"
  | TopicPeerReachabilityQUIC => "peer_reachability_quic"
  end.
Definition topic_from_str (s : string) : option KafkaTopic :=
  if bool_decide (s = "quorum_resharing_status"%string) then Some TopicQuorumResharingStatus
  else if bool_decide (s = "requests"%string) then Some TopicRequests
  else if bool_decide (s = "credits"%string) then Some TopicCredits
  else if bool_decide (s = "peer_reachability_tcp"%string) then Some TopicPeerReachabilityTCP
  else if bool_decide (s = "peer_reachability_quic"%string) then Some TopicPeerReachabilityQUIC
  else None.

Record PeerReachabilityTCPStatus := {
  ts_success : bool; ts_rpc_url : string; ts_version : option string
}.
(** [duration] in microseconds. *)
Record PeerReachabilityQuicStatus := { qs_success : bool; qs_duration : option Z }.
Record UserCreditsByMethod := { ucm_method : string; ucm_exhausted_credits : Z }.
Record QuorumResharingInfo := { qi_multipliers : list ProverInfo; qi_success : bool }.
Record RequestInfo := {
  ri_address : Address; ri_method : Method; ri_served_by_multipliers : list PeerId
}.

(** The texts of values, and [serde_json::from_slice]. *)
Class KafkaCodec := {
  peer_text : PeerId → string;
  address_text : Address → string;
  human_key_text : list Z → string;
  voting_power_text : list Z → string;
  json_request_info : list Z → option RequestInfo;
  json_credits : list Z → option UserCreditsByMethod;
  json_tcp : list Z → option PeerReachabilityTCPStatus;
  json_quic : list Z → option PeerReachabilityQuicStatus;
  json_quorum : list Z → option QuorumResharingInfo;
  (** [DateTime::from_timestamp]: seconds and nanoseconds. *)
  chrono_from_timestamp : Z → Z → option Time
}.

(** The first error of a loop of statements ends it. *)
Fixpoint sql_each {A} (f : nat → A → Sql unit) (i : nat) (l : list A) : Sql unit :=
  match l with
  | [] => mret tt
  | a :: l => _ ← f i a; sql_each f (S i) l
  end.

(** [ON CONFLICT (...) DO UPDATE]: the row that matches is changed, or one is added; the
    sequence advances in both cases. *)
Definition upsert {R} (matches : R → bool) (update : R → R) (mk : Z → R) (t : Table R) : Table R :=
  if existsb matches (rows t) then
    {| rows := (λ r, if matches r then update r else r) <$> rows t; next_id := next_id t + 1 |}
  else insert_row mk t.

Section Kafka.
Context `{KC : KafkaCodec} (ok : Stmt → bool) (now : Time).
Implicit Types (ts : option Time) (key : string).

(** [RequestInfo::ingest]: a request and who served it, each its own statement. *)
Definition insert_request ts key (self : RequestInfo) : Sql unit :=
  _ ← exec ok InsertRequest;
  dup ← sql_get (λ db, existsb (λ r, bool_decide (rq_request_id r = key)) (rows (requests db)));
  if dup : bool then _ ← sql_modify (λ db, db <| requests ::= skip_id |>); sql_err UniqueViolation
  else sql_modify (λ db, db <| requests ::= insert_row (λ id, {|
         rq_id := id; rq_kafka_timestamp := ts; rq_ingestion_timestamp := Some now;
         rq_request_id := key; rq_user_address := address_text (ri_address self);
         rq_method := method_as_str (ri_method self) |}) |>).
Definition insert_served ts key (i : nat) (peer : PeerId) : Sql unit :=
  _ ← exec ok (InsertServed i);
  known ← sql_get (λ db, existsb (λ r, bool_decide (rq_request_id r = key)) (rows (requests db)));
  if known : bool then
    sql_modify (λ db, db <| multiplier_served_requests ::= insert_row (λ id, {|
      sr_id := id; sr_kafka_timestamp := ts; sr_ingestion_timestamp := Some now;
      sr_multiplier_peer_id := peer_text peer; sr_request_id := key |}) |>)
  else _ ← sql_modify (λ db, db <| multiplier_served_requests ::= skip_id |>);
       sql_err ForeignKeyViolation.
Definition ingest_request ts key (self : RequestInfo) : Sql unit :=
  _ ← insert_request ts key self;
  sql_each (insert_served ts key) 0 (ri_served_by_multipliers self).

Definition ingest_credits ts key (self : UserCreditsByMethod) : Sql unit :=
  _ ← exec ok UpsertCredits;
  sql_modify (λ db, db <| user_credits ::= upsert
    (λ r, bool_decide (uc_user_address r = key) && bool_decide (uc_method r = ucm_method self))
    (λ r, r <| uc_kafka_timestamp := match ts with Some _ => ts | None => uc_kafka_timestamp r end |>
            <| uc_exhausted_credits := ucm_exhausted_credits self |>)
    (λ id, {| uc_id := id; uc_kafka_timestamp := ts; uc_ingestion_timestamp := Some now;
              uc_user_address := key; uc_method := ucm_method self;
              uc_exhausted_credits := ucm_exhausted_credits self |}) |>).

Definition ingest_quic ts key (self : PeerReachabilityQuicStatus) : Sql unit :=
  _ ← exec ok UpsertQuic;
  let micros := as_i64 <$> qs_duration self in
  sql_modify (λ db, db <| peer_reachability_quic ::= upsert
    (λ r, bool_decide (quic_multiplier_peer_id r = key))
    (λ r, r <| quic_kafka_timestamp := match ts with Some _ => ts | None => quic_kafka_timestamp r end |>
            <| quic_success := qs_success self |>
            <| quic_duration_micros :=
                 match micros with Some _ => micros | None => quic_duration_micros r end |>)
    (λ id, {| quic_id := id; quic_kafka_timestamp := ts; quic_ingestion_timestamp := Some now;
              quic_multiplier_peer_id := key; quic_success := qs_success self;
              quic_duration_micros := micros |}) |>).

(** The version is kept when the new status has none ([COALESCE]). *)
Definition ingest_tcp ts key (self : PeerReachabilityTCPStatus) : Sql unit :=
  _ ← exec ok UpsertTcp;
  sql_modify (λ db, db <| peer_reachability_tcp ::= upsert
    (λ r, bool_decide (tcp_multiplier_peer_id r = key))
    (λ r, r <| tcp_kafka_timestamp := ts |> <| tcp_success := ts_success self |>
            <| tcp_rpc_url := ts_rpc_url self |>
            <| tcp_version := match ts_version self with Some v => Some v | None => tcp_version r end |>)
    (λ id, {| tcp_id := id; tcp_kafka_timestamp := ts; tcp_ingestion_timestamp := Some now;
              tcp_multiplier_peer_id := key; tcp_success := ts_success self;
              tcp_rpc_url := ts_rpc_url self; tcp_version := ts_version self |}) |>).

Definition insert_multiplier (quorum_id : Z) (i : nat) (m : ProverInfo) : Sql unit :=
  _ ← exec ok (InsertMultiplier i);
  sql_modify (λ db, db <| multiplier_info ::= insert_row (λ id, {|
    mi_id := id; mi_quorum_info_id := quorum_id; mi_evm_address := address_text (evm_address m);
    mi_peer_id := peer_text (peer_id m); mi_multi_address := address m; mi_rpc_address := rpcaddr m;
    mi_mishti_pub_key := human_key_text (human_pub_key m); mi_rsa_pub_key := rsa_pub_key m;
    mi_voting_power := voting_power_text (voting_power m);
    mi_node_idx := as_i32 (Z.of_nat i) |}) |>).
Definition ingest_quorum ts (self : QuorumResharingInfo) : Sql unit :=
  _ ← exec ok InsertQuorum;
  id ← sql_get (λ db, next_id (quorum_resharing_info db));
  _ ← sql_modify (λ db, db <| quorum_resharing_info ::= insert_row (λ id, {|
        qr_id := id; qr_kafka_timestamp := ts; qr_ingestion_timestamp := Some now;
        qr_success := qi_success self |}) |>);
  sql_each (insert_multiplier id) 0 (qi_multipliers self).

(** A message of the stream, and the loop body of [ingest_kafka_messages] (main.rs). *)
Inductive KafkaTimestamp := CreateTime (millis : Z) | LogAppendTime (millis : Z) | NotAvailable.
Record KafkaMessage := {
  km_topic : string; km_key : option string; km_payload : option (list Z);
  km_timestamp : KafkaTimestamp
}.
Definition kafka_timestamp (t : KafkaTimestamp) : option Time :=
  match t with
  | CreateTime millis | LogAppendTime millis =>
      chrono_from_timestamp (Z.quot millis 1000) (u32 (Z.rem millis 1000 * 1000000))
  | NotAvailable => None
  end.
Definition ingest_kafka_message (pool_get : bool) (msg : KafkaMessage) (db : Db) : Db :=
  let key := default "no key"%string (km_key msg) in
  let ts := kafka_timestamp (km_timestamp msg) in
  let with_payload {T} (decode : list Z → option T) (f : T → Sql unit) : Db :=
    match km_payload msg ≫= decode with Some payload => (f payload db).1 | None => db end in
  if pool_get then
    match topic_from_str (km_topic msg) with
    | Some TopicPeerReachabilityQUIC => with_payload json_quic (ingest_quic ts key)
    | Some TopicPeerReachabilityTCP => with_payload json_tcp (ingest_tcp ts key)
    | Some TopicQuorumResharingStatus => with_payload json_quorum (ingest_quorum ts)
    | Some TopicRequests => with_payload json_request_info (ingest_request ts key)
    | Some TopicCredits => with_payload json_credits (ingest_credits ts key)
    | None => db
    end
  else db.
End Kafka.

(** ** Queries

    A query without [ORDER BY] returns the rows in any order; so does a [GROUP BY]. *)
Class RowOrder := {
  scan : ∀ {A}, list A → list A;
  scan_perm : ∀ {A} (l : list A), scan l ≡ₚ l
}.

(** [SUM] of a group starts with the group's first value. *)
Definition group_with {K} `{Countable K} {V} (add : V → V → V) (l : list (K * V)) : gmap K V :=
  foldl (λ m kv, partial_alter (λ o, Some (match o with Some s => add s kv.2 | None => kv.2 end)) kv.1 m)
    ∅ l.

(** ** Daily points (daily_points_updater.rs) *)
Section Daily.
Context `{RO : RowOrder} (date_trunc_day : Time → Time).

Definition daily_points (ledger : list LedgerRow) : gmap (Address * Time) float :=
  group_with fadd ((λ r, ((lg_operator r, date_trunc_day (lg_created_at r)), lg_points r)) <$> scan ledger).

(** [SUM(earned) OVER (PARTITION BY operator ORDER BY snapshot_time)] at one day: the days
    of the operator up to it, in order. *)
Definition day_le (a b : Time * float) : Prop := a.1 ≤ b.1.
#[export] Instance day_le_dec a b : Decision (day_le a b) := decide (a.1 ≤ b.1).
Definition days_of (operator : Address) (daily : gmap (Address * Time) float) : list (Time * float) :=
  merge_sort day_le (omap (λ e, if bool_decide (e.1.1 = operator) then Some (e.1.2, e.2) else None)
    (map_to_list daily)).
Definition running_sum (l : list float) : option float :=
  match l with [] => None | x :: l => Some (foldl fadd x l) end.
Definition cumulative (daily : gmap (Address * Time) float) : gmap (Address * Time) float :=
  map_imap (λ k _, running_sum (snd <$> filter (λ e, e.1 ≤ k.2) (days_of k.1 daily))) daily.

(** [update_operator_points_daily]: the upsert of all of them. *)
Definition update_operator_points_daily (pool_get : bool) (ok : Stmt → bool) (db : Db)
    : Db * outcome DieselError unit :=
  if negb pool_get then (db, Err DatabaseError) else
  if ok UpdateDaily then
    (db <| operator_points_daily ::=
       (λ old, cumulative (daily_points (rows (operator_points_ledger db))) ∪ old) |>, Ok tt)
  else (db, Err DatabaseError).
End Daily.
