(* ===== verification/IngesterApi.v ===== *)
(** * The ingester's HTTP interface (crates/ingester/src/handlers.rs, api_models.rs)

    One definition per handler, on the tables of [Ingester].  A handler's error is an
    [ApiError], which [into_status] turns into a status and a text.  A query can fail
    ([query_ok]); its rows come in any order ([RowOrder]) unless it sorts them. *)
From Stdlib Require Import ZArith Lia Ascii String.
From Corelib Require Import Floats.SpecFloat.
From stdpp Require Import base list gmap sets strings pretty sorting.
From coqutil Require Import Datatypes.RecordSettersUsingExistingGetters.
Import RecordSetNotations.
From S2P Require Import Prelude Float64 Serialization Request Ingester.

(** ** Parameters and errors *)
Record PaginationParams := { page : Z; page_size : Z }.
Definition default_page : Z := 1.
Definition default_page_size : Z := 20.
Record ChartTimeframeParams := { days : Z; all_time : bool }.
Definition default_timeframe_days : Z := 7.
Definition default_all_time : bool := false.

Inductive ApiError :=
  | DatabaseConnection (msg : string)
  | DatabaseQuery (msg : string)
  | InvalidPagination (msg : string)
  | InvalidTimeframe (msg : string)
  | ResourceNotFound (msg : string)
  | Reqwest (e : string)
  | Internal (msg : string).

(** [From<ApiError> for (StatusCode, String)]. *)
Definition into_status (error : ApiError) : Z * string :=
  match error with
  | DatabaseConnection _ => (500, "Database connection failed"%string)
  | DatabaseQuery _ => (500, "Database operation failed"%string)
  | InvalidPagination msg => (400, msg)
  | InvalidTimeframe msg => (400, msg)
  | ResourceNotFound msg => (404, msg)
  | Reqwest e => (500, ("Upstream API request failed: " +:+ e)%string)
  | Internal msg => (500, msg)
  end.

Definition validate_pagination (params : PaginationParams) : outcome ApiError unit :=
  if page params <? 1 then Err (InvalidPagination "Page number must be greater than 0")
  else if (page_size params <? 1) || (100 <? page_size params) then
    Err (InvalidPagination "Page size must be between 1 and 100")
  else Ok tt.
Definition validate_timeframe (params : ChartTimeframeParams) : outcome ApiError unit :=
  if (days params <? 1) || (365 <? days params) then
    Err (InvalidTimeframe "Days parameter must be between 1 and 365")
  else Ok tt.

Record PaginatedResponse (T : Type) := {
  items : list T; total_items : Z; pg_page : Z; pg_page_size : Z
}.
Arguments items {T} _.
Arguments total_items {T} _.
Arguments pg_page {T} _.
Arguments pg_page_size {T} _.
Record ApiResponse (T : Type) := { api_status : string; data : T }.
Arguments api_status {T} _.
Arguments data {T} _.
Definition success_response {T} (data : T) : ApiResponse T :=
  {| api_status := "success"; data := data |}.

(** What a request finds: a connection, queries that succeed (numbered in the order the
    handler makes them), and the text of the database's errors. *)
Record ApiEnv := { api_pool_get : bool; query_ok : nat → bool; db_text : string; api_now : Time }.

Section Env.
Context (env : ApiEnv).
Definition connection : outcome ApiError unit :=
  if api_pool_get env then Ok tt
  else Err (DatabaseConnection ("Failed to get connection: " +:+ db_text env)).
Definition query {A} (i : nat) (what : string) (a : A) : outcome ApiError A :=
  if query_ok env i then Ok a else Err (DatabaseQuery (what +:+ db_text env)).
End Env.

(** [ORDER BY kafka_timestamp DESC]: rows without a timestamp come first. *)
Definition ts_desc (a b : option Time) : Prop :=
  match a, b with None, _ => True | Some _, None => False | Some x, Some y => y ≤ x end.
#[export] Instance ts_desc_dec a b : Decision (ts_desc a b).
Proof. destruct a, b; cbn; apply _. Defined.
Definition by_ts {R} (key : R → option Time) (a b : R) : Prop := ts_desc (key a) (key b).
#[export] Instance by_ts_dec {R} (key : R → option Time) a b : Decision (by_ts key a b) := ts_desc_dec _ _.

Section Handlers.
Context `{RO : RowOrder}.
Implicit Types (env : ApiEnv) (db : Db).

Definition order_desc {R} (key : R → option Time) (l : list R) : list R :=
  merge_sort (by_ts key) (scan l).

(** What the three paginated handlers share: the checks, the count, the early answers, and
    the page fetched by [fetch] from an offset. *)
Definition paginated {T} env (params : PaginationParams) (what : string) (total : Z)
    (fetch : Z → outcome ApiError (list T)) : outcome ApiError (PaginatedResponse T) :=
  _ ← validate_pagination params;
  _ ← connection env;
  let offset := as_i64 ((page params - 1) * page_size params) in
  total ← query env 0 ("Failed to count " +:+ what +:+ ": ") total;
  if total =? 0 then
    Ok {| items := []; total_items := 0; pg_page := page params; pg_page_size := page_size params |}
  else
    let total_pages := Z.quot (total + page_size params - 1) (page_size params) in
    if total_pages <? page params then
      Err (InvalidPagination ("Page " +:+ pretty (page params) +:+ " does not exist. Total pages: "
                              +:+ pretty total_pages))
    else
      items ← fetch offset;
      Ok {| items := items; total_items := total; pg_page := page params;
            pg_page_size := page_size params |}.
Definition page_rows {R} (offset limit : Z) (l : list R) : list R :=
  take (Z.to_nat limit) (drop (Z.to_nat offset) l).

(** [entry(key).or_insert_with(Vec::new).push(value)] over the rows. *)
Definition group_rows {K} `{Countable K} {V} (l : list (K * V)) : gmap K (list V) :=
  foldl (λ m kv, <[kv.1 := default [] (m !! kv.1) ++ [kv.2]]> m) ∅ l.

(** ** Quorums *)
Record QuorumMemberResponse := {
  qm_evm_address : string; qm_peer_id : string; qm_multi_address : string;
  qm_rpc_address : string; qm_mishti_pub_key : string; qm_rsa_pub_key : string;
  qm_voting_power : string; qm_node_idx : Z; qm_version : option string
}.
Record CurrentQuorumResponse := {
  cq_id : string; cq_success : bool; cq_kafka_timestamp : option Time;
  cq_members : list QuorumMemberResponse
}.

Definition idx_le (a b : MultiplierRow) : Prop := mi_node_idx a ≤ mi_node_idx b.
#[export] Instance idx_le_dec a b : Decision (idx_le a b) := decide (mi_node_idx a ≤ mi_node_idx b).

Definition get_current_quorum env db : outcome ApiError (ApiResponse CurrentQuorumResponse) :=
  _ ← connection env;
  found ← query env 0 "Failed to query current quorum: "
    (head (order_desc qr_kafka_timestamp
             (filter (λ q, qr_success q = true) (rows (quorum_resharing_info db)))));
  match found with
  | None => Ok (success_response {| cq_id := EmptyString; cq_success := false; cq_kafka_timestamp := None;
                                    cq_members := [] |})
  | Some q =>
      multipliers ← query env 1 ("Failed to query multipliers for quorum " +:+ pretty (qr_id q) +:+ ": ")
        (merge_sort idx_le (scan (filter (λ m, mi_quorum_info_id m = qr_id q) (rows (multiplier_info db)))));
      versions ← query env 2 ("Failed to query node versions for quorum " +:+ pretty (qr_id q) +:+ ": ")
        (scan (filter (λ t, tcp_multiplier_peer_id t ∈ mi_peer_id <$> multipliers)
                 (rows (peer_reachability_tcp db))));
      let version_map : gmap string (option string) :=
        foldl (λ m t, <[tcp_multiplier_peer_id t := tcp_version t]> m) ∅ versions in
      Ok (success_response {|
        cq_id := pretty (qr_id q); cq_success := qr_success q;
        cq_kafka_timestamp := qr_kafka_timestamp q;
        cq_members := (λ m, {|
          qm_evm_address := mi_evm_address m; qm_peer_id := mi_peer_id m;
          qm_multi_address := mi_multi_address m; qm_rpc_address := mi_rpc_address m;
          qm_mishti_pub_key := mi_mishti_pub_key m; qm_rsa_pub_key := mi_rsa_pub_key m;
          qm_voting_power := mi_voting_power m; qm_node_idx := mi_node_idx m;
          qm_version := version_map !! mi_peer_id m ≫= id |}) <$> multipliers |})
  end.

Record QuorumElectionResponse := {
  qe_id : string; qe_status : bool; qe_kafka_timestamp : option Time; qe_members : list string
}.
Definition election_responses (multiplier_infos : list MultiplierRow) (elections : list QuorumRow)
    : list QuorumElectionResponse :=
  let members_by_quorum :=
    group_rows ((λ m, (mi_quorum_info_id m, mi_peer_id m)) <$> multiplier_infos) in
  (λ e, {| qe_id := pretty (qr_id e); qe_status := qr_success e;
           qe_kafka_timestamp := qr_kafka_timestamp e;
           qe_members := default [] (members_by_quorum !! qr_id e) |}) <$> elections.
Definition members_of (elections : list QuorumRow) db : list MultiplierRow :=
  filter (λ m, mi_quorum_info_id m ∈ qr_id <$> elections) (rows (multiplier_info db)).
Definition get_quorum_elections env params db
    : outcome ApiError (ApiResponse (PaginatedResponse QuorumElectionResponse)) :=
  success_response <$> paginated env params "elections"
    (Z.of_nat (length (rows (quorum_resharing_info db)))) (λ offset,
      elections ← query env 1 "Failed to query elections: "
        (page_rows offset (page_size params)
           (order_desc qr_kafka_timestamp (rows (quorum_resharing_info db))));
      multiplier_infos ← query env 2 "Failed to query multiplier info: " (scan (members_of elections db));
      Ok (election_responses multiplier_infos elections)).

(** ** Requests *)
Record RequestResponse := {
  rr_request_id : string; rr_user_address : string; rr_method : string;
  rr_kafka_timestamp : option Time
}.
Definition request_responses (fetched : list RequestRow) : list RequestResponse :=
  (λ r, {| rr_request_id := rq_request_id r; rr_user_address := rq_user_address r;
           rr_method := rq_method r; rr_kafka_timestamp := rq_kafka_timestamp r |}) <$> fetched.
Definition get_requests env params db
    : outcome ApiError (ApiResponse (PaginatedResponse RequestResponse)) :=
  success_response <$> paginated env params "requests" (Z.of_nat (length (rows (requests db))))
    (λ offset,
      fetched ← query env 1 "Failed to query requests: "
        (page_rows offset (page_size params) (order_desc rq_kafka_timestamp (rows (requests db))));
      Ok (request_responses fetched)).

Definition get_total_keys_generated env db : outcome ApiError (ApiResponse Z) :=
  _ ← connection env;
  count ← query env 0 "Failed to count total keys: " (Z.of_nat (length (rows (requests db))));
  Ok (success_response count).

(** [DATE_TRUNC('day', ...)] of the database's session. *)
Context (date_trunc_day : Time → Time).
Definition DAY : Z := 86400000000.

Definition count_le (a b : Time * Z) : Prop := a.1 ≤ b.1.
#[export] Instance count_le_dec a b : Decision (count_le a b) := decide (a.1 ≤ b.1).
Definition get_keys_generated_chart env params db : outcome ApiError (ApiResponse (list (Time * Z))) :=
  _ ← (if all_time params then Ok tt else validate_timeframe params);
  _ ← connection env;
  let cutoff_date := if all_time params then 0 else api_now env - days params * DAY in
  let recent := omap (λ r, ts ← rq_kafka_timestamp r;
    if cutoff_date <? ts then Some (date_trunc_day ts, rq_request_id r) else None) (rows (requests db)) in
  let counts : gmap Time (gset string) :=
    foldl (λ m e, <[e.1 := {[e.2]} ∪ default ∅ (m !! e.1)]> m) ∅ recent in
  chart ← query env 0 "Failed to query keys generated chart: "
    (merge_sort count_le ((λ e, (e.1, Z.of_nat (size e.2))) <$> map_to_list counts));
  Ok (success_response chart).

Record UserCreditsResponse := {
  ur_user_address : string; ur_method : string; ur_exhausted_credits : Z;
  ur_kafka_timestamp : option Time
}.
Definition credit_responses (credits : list UserCreditsRow) : list UserCreditsResponse :=
  (λ uc, {| ur_user_address := uc_user_address uc; ur_method := uc_method uc;
            ur_exhausted_credits := uc_exhausted_credits uc;
            ur_kafka_timestamp := uc_kafka_timestamp uc |}) <$> credits.
Definition get_user_credits env db : outcome ApiError (ApiResponse (list UserCreditsResponse)) :=
  _ ← connection env;
  credits ← query env 0 "Failed to query user credits: "
    (order_desc uc_kafka_timestamp (rows (user_credits db)));
  Ok (success_response (credit_responses credits)).

(** [GROUP BY] with a count, the largest first. *)
Definition larger (a b : string * Z) : Prop := b.2 ≤ a.2.
#[export] Instance larger_dec a b : Decision (larger a b) := decide (b.2 ≤ a.2).
Definition by_count (counts : gmap string Z) : list (string * Z) :=
  merge_sort larger (scan (map_to_list counts)).

Definition get_multiplier_computed_requests env db : outcome ApiError (ApiResponse (list (string * Z))) :=
  _ ← connection env;
  result ← query env 0 "Failed to query multiplier computed requests: "
    (by_count (group_with Z.add ((λ s, (sr_multiplier_peer_id s, 1))
       <$> rows (multiplier_served_requests db))));
  Ok (success_response result).

Definition get_multiplier_elected_quorums env db : outcome ApiError (ApiResponse (list (string * Z))) :=
  _ ← connection env;
  let joined := filter (λ m, Exists (λ q, qr_id q = mi_quorum_info_id m ∧ qr_success q = true)
                               (rows (quorum_resharing_info db))) (rows (multiplier_info db)) in
  let distinct : gmap string (gset Z) :=
    foldl (λ g m, <[mi_peer_id m := {[mi_quorum_info_id m]} ∪ default ∅ (g !! mi_peer_id m)]> g)
      ∅ joined in
  result ← query env 0 "Failed to query multiplier elected quorums: "
    (by_count ((λ s, Z.of_nat (size s)) <$> distinct));
  Ok (success_response result).

(** ** Reachability *)
Record PeerReachabilityStatus := {
  ps_peer_id : string; ps_last_checked : option Time; ps_success : bool; ps_details : string;
  ps_version : option string
}.
Definition tcp_statuses (peers : list TcpRow) : list PeerReachabilityStatus :=
  (λ p, {| ps_peer_id := tcp_multiplier_peer_id p; ps_last_checked := tcp_kafka_timestamp p;
           ps_success := tcp_success p; ps_details := tcp_rpc_url p; ps_version := tcp_version p |})
    <$> peers.
Definition get_peers_reachability_status_tcp env db
    : outcome ApiError (ApiResponse (list PeerReachabilityStatus)) :=
  _ ← connection env;
  peers ← query env 0 "Failed to query TCP reachability: "
    (order_desc tcp_kafka_timestamp (rows (peer_reachability_tcp db)));
  Ok (success_response (tcp_statuses peers)).
Definition quic_statuses (peers : list QuicRow) : list PeerReachabilityStatus :=
  (λ p, {| ps_peer_id := quic_multiplier_peer_id p; ps_last_checked := quic_kafka_timestamp p;
           ps_success := quic_success p;
           ps_details := from_option pretty "None"%string (quic_duration_micros p);
           ps_version := None |}) <$> peers.
Definition get_peers_reachability_status_quic env db
    : outcome ApiError (ApiResponse (list PeerReachabilityStatus)) :=
  _ ← connection env;
  peers ← query env 0 "Failed to query QUIC reachability: "
    (order_desc quic_kafka_timestamp (rows (peer_reachability_quic db)));
  Ok (success_response (quic_statuses peers)).
Definition get_node_versions env db : outcome ApiError (ApiResponse (list (string * Z))) :=
  _ ← connection env;
  counts ← query env 0 "Failed to query node versions: "
    (scan (map_to_list (group_with Z.add
      (omap (λ t, (λ v, (v, 1)) <$> tcp_version t) (rows (peer_reachability_tcp db))))));
  Ok (success_response counts).

(** ** Points *)
Definition format_address (bytes : list Z) : string := "0x" +:+ hex_encode bytes.

Record OperatorPointsResponse := { op_address : string; op_points : float }.
Definition points_response (l : list (Address * float)) : list OperatorPointsResponse :=
  (λ e, {| op_address := format_address e.1; op_points := e.2 |}) <$> l.

(** [sort_by] on [b.points.partial_cmp(&a.points)], incomparable numbers being equal. *)
Definition points_desc (a b : OperatorPointsResponse) : Prop :=
  SFcompare (op_points b) (op_points a) ≠ Some Gt.
#[export] Instance points_desc_dec a b : Decision (points_desc a b).
Proof. unfold points_desc. destruct (SFcompare _ _) as [[]|]; [left; done|left; done|right; auto|left; done]. Defined.
Definition sort_points (l : list OperatorPointsResponse) : list OperatorPointsResponse :=
  merge_sort points_desc l.

(** [SUM(task_size)::BIGINT] per member of a table joined with the tasks; a sum that does
    not fit fails the query. *)
Definition task_sizes (members : list (Z * Address)) (ts : list TaskRow) : list (Address * Z) :=
  m ← members; t ← ts; if bool_decide (t_id t = m.1) then [(m.2, t_task_size t)] else [].
Definition points_query env (i : nat) (members : list (Z * Address)) (ts : list TaskRow)
    : outcome ApiError (list (Address * Z)) :=
  let sums := group_with Z.add (task_sizes members ts) in
  if bool_decide (map_Forall (λ _ s, - 2 ^ 63 ≤ s < 2 ^ 63) sums) then
    query env i EmptyString (scan (map_to_list sums))
  else Err (DatabaseQuery "bigint out of range").

Context `{HO : HashOrder}.
(** [*map.entry(addr).or_insert(0.0) += weight(size)]. *)
Definition add_weighted (weight : float → float) (points : gmap Address float)
    (l : list (Address * Z)) : gmap Address float :=
  foldl (λ m e, <[e.1 := fadd (default (float_of_Z 0) (m !! e.1)) (weight (float_of_Z e.2))]> m) points l.
Definition get_operator_points env db : outcome ApiError (ApiResponse (list OperatorPointsResponse)) :=
  _ ← connection env;
  performer_points ← points_query env 0 (task_performers db) (rows (tasks db));
  attestor_points ← points_query env 1 (task_attestors db) (rows (tasks db));
  let operator_points := add_weighted (λ x, x) ∅ performer_points in
  let operator_points := add_weighted (fmul tenth) operator_points attestor_points in
  Ok (success_response (sort_points (points_response (hm_iter operator_points)))).

Definition ledger_points (ledger : list LedgerRow) : gmap Address float :=
  group_with fadd ((λ r, (lg_operator r, lg_points r)) <$> scan ledger).
Definition get_operator_points_v2 env db : outcome ApiError (ApiResponse (list OperatorPointsResponse)) :=
  _ ← connection env;
  results ← query env 0 EmptyString (scan (map_to_list (ledger_points (rows (operator_points_ledger db)))));
  Ok (success_response (sort_points (points_response results))).

(** [DISTINCT ON (operator)] in the order of [snapshot_time DESC]. *)
Definition latest_snapshots (daily : gmap (Address * Time) float) : gmap Address (Time * float) :=
  group_with (λ a b : Time * float, if a.1 <? b.1 then b else a)
    ((λ e, (e.1.1, (e.1.2, e.2))) <$> map_to_list daily).
Definition incomparable (l : list OperatorPointsResponse) : bool :=
  (1 <? length l)%nat && existsb (λ r, bool_decide (SFcompare (op_points r) (op_points r) = None)) l.
Definition get_operator_points_v3 env db : outcome ApiError (ApiResponse (list OperatorPointsResponse)) :=
  _ ← connection env;
  results ← query env 0 EmptyString (scan ((λ e, (e.1, e.2.2)) <$> map_to_list (latest_snapshots (operator_points_daily db))));
  let response := points_response results in
  _ ← assert_ (negb (incomparable response));
  Ok (success_response (sort_points response)).

(** ** Tasks *)
Record TaskResponse := {
  tr_task_number : Z; tr_task_definition_id : Z; tr_task_size : Z; tr_proof_of_task : string;
  tr_performers : list string; tr_attestors : list string; tr_transaction_hash : string;
  tr_timestamp : option Time
}.
Definition task_responses (performers attestors : list (Z * Address)) (ts : list TaskRow)
    : list TaskResponse :=
  let performers_map := group_rows performers in
  let attestors_map := group_rows attestors in
  (λ t, {| tr_task_number := t_task_number t; tr_task_definition_id := t_task_definition_id t;
           tr_task_size := t_task_size t; tr_proof_of_task := t_proof_of_task t;
           tr_performers := format_address <$> default [] (performers_map !! t_id t);
           tr_attestors := format_address <$> default [] (attestors_map !! t_id t);
           tr_transaction_hash := format_address (t_transaction_hash t);
           tr_timestamp := t_timestamp t |}) <$> ts.
Definition members_of_tasks (ts : list TaskRow) (members : list (Z * Address)) : list (Z * Address) :=
  filter (λ m, m.1 ∈ t_id <$> ts) members.
Definition get_tasks env params db : outcome ApiError (ApiResponse (PaginatedResponse TaskResponse)) :=
  success_response <$> paginated env params "tasks" (Z.of_nat (length (rows (tasks db)))) (λ offset,
    fetched ← query env 1 "Failed to query tasks: "
      (page_rows offset (page_size params) (order_desc t_timestamp (rows (tasks db))));
    performers ← query env 2 EmptyString (scan (members_of_tasks fetched (task_performers db)));
    attestors ← query env 3 EmptyString (scan (members_of_tasks fetched (task_attestors db)));
    Ok (task_responses performers attestors fetched)).
End Handlers.

(** ** Total value locked *)
Record TotalNetworkTvl := { tvl_usd : float; warnings : option (list string) }.

(** [fetch_symbiotic_tvl] on the stakes the service returned. *)
Definition HUMAN_NETWORK_ADDRESS : string := "0x42F15F9E4dF4994317453477e80e24797CC1A929".
Definition lower (c : ascii) : ascii :=
  let n := nat_of_ascii c in
  if ((65 <=? n) && (n <=? 90))%nat then ascii_of_nat (n + 32) else c.
Definition eq_ignore_ascii_case (a b : string) : bool :=
  bool_decide (lower <$> list_ascii_of_string a = lower <$> list_ascii_of_string b).
Definition fetch_symbiotic_tvl (stakes : outcome string (list (string * float))) : outcome string float :=
  (λ stakes : list (string * float),
     foldl fadd (float_of_Z 0)
       (snd <$> filter (λ s, eq_ignore_ascii_case s.1 HUMAN_NETWORK_ADDRESS = true) stakes)) <$> stakes.

(** [unwrap_or 0.0], with a warning. *)
Definition or_zero (what : string) (r : outcome string float) : float * list string :=
  match r with Ok v => (v, []) | Err e => (float_of_Z 0, [(what +:+ e)%string]) | Panic => (float_of_Z 0, []) end.

(** [get_network_tvl] on the state it was given: the answer and the state's cache after. *)
Definition get_network_tvl (symbiotic eigen cmc : outcome string float) (tvl_cache : option float)
    : ApiResponse TotalNetworkTvl * option float :=
  match tvl_cache with
  | Some cached_tvl => (success_response {| tvl_usd := cached_tvl; warnings := None |}, tvl_cache)
  | None =>
      let '(symbiotic_usd, w1) := or_zero "Symbiotic data unavailable: " symbiotic in
      let '(eigen_eth, w2) := or_zero "EigenLayer data unavailable: " eigen in
      let '(eth_price, w3) := or_zero "CoinMarketCap ETH price data unavailable: " cmc in
      let warnings := w1 ++ w2 ++ w3 in
      let total_restake_usd := fadd (fmul eigen_eth eth_price) symbiotic_usd in
      (success_response {| tvl_usd := total_restake_usd; warnings := Some warnings |},
       if bool_decide (warnings = []) then Some total_restake_usd else tvl_cache)
  end.

(** The router: [State] gives each request a clone of the state, whose cache the handler
    changes. *)
Definition serve_tvl (shared : option float) (upstream : outcome string float * outcome string float * outcome string float)
    : option float * ApiResponse TotalNetworkTvl :=
  let clone := shared in
  let '(symbiotic, eigen, cmc) := upstream in
  (shared, (get_network_tvl symbiotic eigen cmc clone).1).

(** ** Symbiotic points *)
Definition MAX_SYMBIOTIC_PAGE_SIZE : Z := 1000.

(** [ts.split('T').next()]. *)
Fixpoint before_T (s : list ascii) : list ascii :=
  match s with
  | c :: s => if bool_decide (c = "T"%char) then [] else c :: before_T s
  | [] => []
  end.
Definition is_ascii_digit (c : ascii) : bool :=
  let n := nat_of_ascii c in ((48 <=? n) && (n <=? 57))%nat.
Definition date_char (i : nat) (c : ascii) : bool :=
  if ((i =? 4) || (i =? 7))%nat then bool_decide (c = "-"%char) else is_ascii_digit c.
Definition parse_date_filter (ts : string) : outcome ApiError string :=
  let date_part := before_T (list_ascii_of_string ts) in
  if (length date_part =? 10)%nat && forallb (λ ic, date_char ic.1 ic.2) (imap pair date_part) then
    Ok (string_of_list_ascii date_part)
  else Err (Internal "Invalid timestamp format, expected YYYY-MM-DD").

Definition validate_receiver_type (receiver_type : string) : outcome ApiError unit :=
  if bool_decide (receiver_type = "operator"%string ∨ receiver_type = "staker"%string) then Ok tt
  else Err (Internal "receiver_type must be 'operator' or 'staker'").

Definition append_symbiotic_filters (query : string) (timestamp receiver_type : option string)
    : outcome ApiError string :=
  query ← match timestamp with
          | Some ts =>
              date_part ← parse_date_filter ts;
              Ok (query +:+ " AND date <= '" +:+ date_part +:+ "'")%string
          | None => Ok query
          end;
  match receiver_type with
  | Some rt =>
      _ ← validate_receiver_type rt;
      Ok (query +:+ " AND address_type = '" +:+ rt +:+ "'")%string
  | None => Ok query
  end.

Record StatsRow := { st_total_points : float; st_stakers : Z; st_operators : Z }.
Record PointRow := {
  pt_date : option string; pt_address : option string; pt_address_type : option string;
  pt_vault : option string; pt_points : option float
}.

Section Symbiotic.
(** The database's answer to a query in text. *)
Context (env : ApiEnv) (max_date : option string) (run_stats : string → option StatsRow)
  (run_points : string → option (list PointRow)).

Definition symbiotic_health : Z := 200.
Definition sql_connection : outcome ApiError unit :=
  if api_pool_get env then Ok tt else Err (DatabaseConnection (db_text env)).

Definition symbiotic_synced_to : outcome ApiError string :=
  _ ← sql_connection;
  last_date ← query env 0 EmptyString max_date;
  Ok (match last_date with
      | Some d => d +:+ "T00:00:00Z"
      | None => "1970-01-01T00:00:00Z"
      end)%string.

(** [(points * 1e18).floor() as i64]. *)
Definition scaled_points (points : float) : Z := floor_i64 (fmul points (float_of_Z (10 ^ 18))).

Record SymbioticStatsResponse := {
  ss_total_points : Z; ss_stakers : Z; ss_networks : Z; ss_operators : Z
}.
Definition stats_query : string :=
  "SELECT COALESCE(SUM(points), 0) AS total_points, COUNT(DISTINCT CASE WHEN address_type = 'staker' THEN address END) AS stakers, COUNT(DISTINCT CASE WHEN address_type = 'operator' THEN address END) AS operators FROM symbiotic_points_daily WHERE address_type IN ('operator', 'staker')".
Definition symbiotic_stats (timestamp receiver_type : option string)
    : outcome ApiError SymbioticStatsResponse :=
  _ ← sql_connection;
  q ← append_symbiotic_filters stats_query timestamp receiver_type;
  row ← ok_or (run_stats q) (DatabaseQuery (db_text env));
  Ok {| ss_total_points := scaled_points (st_total_points row); ss_stakers := st_stakers row;
        ss_networks := 0; ss_operators := st_operators row |}.

Record SymbioticPointRecord := {
  sp_receiver_address : string; sp_receiver_type : string; sp_timestamp : string;
  sp_network_address : string; sp_vault_address : string; sp_points : Z
}.
Definition point_record (row : PointRow) : option SymbioticPointRecord :=
  address ← pt_address row;
  address_type ← pt_address_type row;
  date ← pt_date row;
  vault ← pt_vault row;
  Some {| sp_receiver_address := address; sp_receiver_type := address_type;
          sp_timestamp := (date +:+ "T00:00:00Z")%string; sp_network_address := HUMAN_NETWORK_ADDRESS;
          sp_vault_address := vault; sp_points := scaled_points (default (float_of_Z 0) (pt_points row)) |}.
Definition points_query_text : string :=
  "SELECT date, address, address_type, vault, points FROM symbiotic_points_daily WHERE address_type IN ('operator', 'staker')".
Definition symbiotic_points (timestamp receiver_type : option string) (offset limit : Z)
    : outcome ApiError (list SymbioticPointRecord) :=
  _ ← sql_connection;
  let limit := clamp 1 MAX_SYMBIOTIC_PAGE_SIZE limit in
  let offset := Z.max offset 0 in
  q ← append_symbiotic_filters points_query_text timestamp receiver_type;
  let q := (q +:+ " ORDER BY date DESC, address ASC, vault ASC OFFSET " +:+ pretty offset +:+
            " LIMIT " +:+ pretty limit)%string in
  rows ← ok_or (run_points q) (DatabaseQuery (db_text env));
  Ok (omap (M:=list) point_record rows).
End Symbiotic.
