(* ===== verification/IngesterProofs.v ===== *)
(** * What the ingester records

    The tables are those of the sequence of accepted events ([represents]): an event is
    recorded completely or not at all.  From this the three endpoints that report points
    agree. *)
From Stdlib Require Import ZArith Lia Ascii String.
From Corelib Require Import Floats.SpecFloat.
From stdpp Require Import base list gmap sets strings pretty sorting.
From coqutil Require Import Datatypes.RecordSettersUsingExistingGetters.
Import RecordSetNotations.
From S2P Require Import Prelude Float64 Serialization Request Messages Ingester IngesterApi.

(** ** Statements *)
Section Statements.
Context (ok : Stmt → bool).

Lemma sql_bind_Ok {A B} (m : Sql A) (k : A → Sql B) db db' b :
  (m ≫= k) db = (db', Ok b) ↔ ∃ db1 a, m db = (db1, Ok a) ∧ k a db1 = (db', Ok b).
Proof.
  unfold mbind, sql_bind. destruct (m db) as [db1 [a|e|]]; split.
  - intros H. by exists db1, a.
  - by intros (? & ? & [= <- <-] & ?).
  - done.
  - by intros (? & ? & [=] & ?).
  - done.
  - by intros (? & ? & [=] & ?).
Qed.

Lemma exec_Ok s db db' : exec ok s db = (db', Ok tt) ↔ db' = db ∧ ok s = true.
Proof.
  unfold exec. destruct (ok s); unfold mret, sql_ret, sql_err; split; [by intros [= ->]| |done|].
  - by intros [-> _].
  - by intros [_ ?].
Qed.

(** The sequence of task ids never goes back, and no statement panics. *)
Definition keeps_seq {A} (m : Sql A) : Prop := ∀ db,
  next_id (tasks db) ≤ next_id (tasks (m db).1) ∧ (m db).2 ≠ Panic.

Lemma keeps_seq_bind {A B} (m : Sql A) (k : A → Sql B) :
  keeps_seq m → (∀ a, keeps_seq (k a)) → keeps_seq (m ≫= k).
Proof.
  intros Hm Hk db. unfold mbind, sql_bind. specialize (Hm db).
  destruct (m db) as [db1 [a|e|]]; cbn in *; [|by destruct Hm as [??]..].
  destruct (Hk a db1) as [??]. split; [lia|done].
Qed.
Lemma keeps_seq_ret {A} (a : A) : keeps_seq (mret a).
Proof. intros db. by split. Qed.
Lemma keeps_seq_err {A} e : keeps_seq (sql_err (A:=A) e).
Proof. intros db. by split. Qed.
Lemma keeps_seq_get {A} (f : Db → A) : keeps_seq (sql_get f).
Proof. intros db. by split. Qed.
Lemma keeps_seq_exec s : keeps_seq (exec ok s).
Proof. intros db. unfold exec. destruct (ok s); by split. Qed.
Lemma keeps_seq_modify f : (∀ db, next_id (tasks db) ≤ next_id (tasks (f db))) → keeps_seq (sql_modify f).
Proof. intros H db. split; [apply H|done]. Qed.
End Statements.

Create HintDb seq.
#[export] Hint Resolve keeps_seq_bind keeps_seq_ret keeps_seq_err keeps_seq_get keeps_seq_exec
  keeps_seq_modify : seq.

Lemma ingest_body_keeps_seq ok now ev : keeps_seq (ingest_body ok now ev).
Proof.
  assert (∀ s get (set : list (Z * Address) → Db → Db) id ms,
    (∀ l db, tasks (set l db) = tasks db) → keeps_seq (insert_members ok s get set id ms)) as Hm.
  { intros s get set id ms Hset. unfold insert_members. case_bool_decide; [auto with seq|].
    apply keeps_seq_bind; [auto with seq|]. intros _. apply keeps_seq_bind; [auto with seq|]. intros old.
    cbv zeta. case_bool_decide; [|auto with seq]. apply keeps_seq_modify. intros db. by rewrite Hset. }
  assert (∀ s id role pts ops, keeps_seq (insert_points ok s id role pts now ops)) as Hp.
  { intros. unfold insert_points. case_bool_decide; [auto with seq|].
    apply keeps_seq_bind; [auto with seq|]. intros _. by apply keeps_seq_modify. }
  unfold ingest_body, insert_task.
  repeat first [apply Hp | apply Hm; done | apply keeps_seq_bind; [|intros ?] | apply keeps_seq_modify; intros db; cbn; lia
               | apply keeps_seq_ret | apply keeps_seq_get | apply keeps_seq_exec | apply keeps_seq_err | case_match].
Qed.

(** ** The abstract state: the accepted events *)
Record Accepted := { ac_id : Z; ac_now : Time; ac_ev : TaskSubmittedEvent }.
Implicit Types (a : Accepted) (evs : list Accepted) (ev : TaskSubmittedEvent) (db : Db).

Definition task_row a : TaskRow := let ev := ac_ev a in {|
  t_id := ac_id a; t_task_number := as_i32 (ev_task_number ev);
  t_task_definition_id := as_i32 (ev_task_definition_id ev);
  t_task_size := as_i64 (ev_task_size ev); t_proof_of_task := ev_proof_of_task ev;
  t_operator := ev_operator ev; t_block_number := as_i64 (ev_block_number ev);
  t_transaction_hash := ev_transaction_hash ev; t_log_index := as_i64 (ev_log_index ev);
  t_timestamp := Some (ac_now a) |}.
Definition performer_rows a : list (Z * Address) := (λ p, (ac_id a, p)) <$> ev_performers (ac_ev a).
Definition attestor_rows a : list (Z * Address) := (λ p, (ac_id a, p)) <$> ev_attester_addresses (ac_ev a).

(** A row of the ledger without its id: who earns what for which task and when. *)
Definition Award : Type := Address * Z * string * float * Time.
Definition award_of (r : LedgerRow) : Award :=
  (lg_operator r, lg_task_id r, lg_role r, lg_points r, lg_created_at r).
Definition award a (role : OperatorRole) (points : float) (p : Address) : Award :=
  (p, ac_id a, role_as_str role, points, ac_now a).
Definition awards a : list Award :=
  (award a Performer (float_of_Z (ev_task_size (ac_ev a))) <$> ev_performers (ac_ev a)) ++
  (award a Attestor (fmul tenth (float_of_Z (ev_task_size (ac_ev a)))) <$> ev_attester_addresses (ac_ev a)).

Definition event_key ev : list Z * Z := (ev_transaction_hash ev, as_i64 (ev_log_index ev)).

(** The tables are those of [evs]. *)
Record represents evs db : Prop := {
  rep_tasks : rows (tasks db) = task_row <$> evs;
  rep_performers : task_performers db = evs ≫= performer_rows;
  rep_attestors : task_attestors db = evs ≫= attestor_rows;
  rep_ledger : award_of <$> rows (operator_points_ledger db) = evs ≫= awards;
  rep_ids : Forall (λ a, ac_id a < next_id (tasks db)) evs;
  rep_ids_nodup : NoDup (ac_id <$> evs);
  rep_members_nodup : NoDup (task_performers db) ∧ NoDup (task_attestors db);
  rep_keys : NoDup ((event_key ∘ ac_ev) <$> evs);
  rep_block : monitor_task_state db = (λ a, as_i64 (ev_block_number (ac_ev a))) <$> last evs
}.

(** When an event can be recorded: it is new, and nobody is named twice. *)
Definition recorded evs ev : Prop := event_key ev ∈ ((event_key ∘ ac_ev) <$> evs).
Definition acceptable evs ev : Prop :=
  ¬ recorded evs ev ∧ NoDup (ev_performers ev) ∧ NoDup (ev_attester_addresses ev).

Lemma represents_empty : represents [] empty_Db.
Proof. split; try done; repeat constructor. Qed.

Lemma duplicate_task evs db ev : represents evs db →
  existsb (λ t, bool_decide (t_transaction_hash t = ev_transaction_hash ev) &&
                (t_log_index t =? as_i64 (ev_log_index ev))) (rows (tasks db)) = false ↔
  ¬ recorded evs ev.
Proof.
  intros Hrep. unfold recorded. rewrite (rep_tasks _ _ Hrep), <- not_true_iff_false, existsb_exists. apply not_iff_compat.
  rewrite list_elem_of_fmap. setoid_rewrite <- list_elem_of_In. setoid_rewrite list_elem_of_fmap. split.
  - intros (? & (a & -> & Ha) & [H1%bool_decide_eq_true H2%Z.eqb_eq]%andb_true_iff). cbn in *.
    exists a. unfold event_key. cbn. by rewrite H1, H2.
  - intros (a & [= H1 H2] & Ha). exists (task_row a). split; [by exists a|]. cbn.
    rewrite H1, H2, Z.eqb_refl. by rewrite bool_decide_eq_true_2.
Qed.

(** Rows for a task that is not in the table yet. *)
Lemma NoDup_new_members evs (members_of : Accepted → list Address) (id : Z) members :
  Forall (λ a, ac_id a < id) evs → NoDup ((λ p, (id, p)) <$> members) →
  NoDup (evs ≫= λ a, (λ p, (ac_id a, p)) <$> members_of a) →
  NoDup ((evs ≫= λ a, (λ p, (ac_id a, p)) <$> members_of a) ++ ((λ p, (id, p)) <$> members)).
Proof.
  intros Hids Hnew Hold. apply NoDup_app. split; [done|]. split; [|done].
  intros [i p] (a & Hin & Ha)%list_elem_of_bind (q & [= -> _] & _)%list_elem_of_fmap.
  apply list_elem_of_fmap in Hin as (? & [= -> _] & _).
  eapply Forall_forall in Hids; [|exact Ha]. cbn in Hids. lia.
Qed.

(** Adding points for a task and a role that the ledger does not have. *)
Lemma add_points_fresh id role pts now ops t :
  NoDup ops →
  (∀ r, r ∈ rows t → lg_task_id r = id → lg_role r = role_as_str role → lg_operator r ∉ ops) →
  award_of <$> rows (foldl (add_points id role pts now) t ops)
  = (award_of <$> rows t) ++ ((λ p, (p, id, role_as_str role, pts, now)) <$> ops).
Proof.
  revert t. induction ops as [|p ops IH]; intros t Hnd Hfresh; cbn [foldl fmap list_fmap].
  - by rewrite app_nil_r.
  - apply NoDup_cons in Hnd as [Hp Hnd].
    assert (existsb (same_entry id p (role_as_str role)) (rows t) = false) as Hno.
    { rewrite <- not_true_iff_false, existsb_exists. intros (r & Hr%list_elem_of_In & Hs).
      unfold same_entry in Hs. rewrite !andb_true_iff, !bool_decide_eq_true, Z.eqb_eq in Hs.
      destruct Hs as [[H1 H2] H3]. apply (Hfresh r Hr H1 H3). rewrite H2. left. }
    unfold add_points at 2. rewrite Hno, IH; [|done|].
    + cbn [insert_row rows]. rewrite fmap_app. cbn. by rewrite <- app_assoc.
    + cbn [insert_row rows]. intros r Hr H1 H2. apply elem_of_app in Hr as [Hr|Hr].
      * pose proof (Hfresh r Hr H1 H2) as Hf. set_solver.
      * apply list_elem_of_singleton in Hr as ->. done.
Qed.

(** What an event that is recorded adds. *)
Lemma insert_members_Ok ok s get set id members db db' :
  (∀ l db, get (set l db) = l) → set (get db) db = db →
  insert_members ok s get set id members db = (db', Ok tt) ↔
  db' = set (get db ++ ((λ p, (id, p)) <$> members)) db ∧
  (members ≠ [] → ok s = true ∧ NoDup (get db ++ ((λ p, (id, p)) <$> members))).
Proof.
  intros Hgs Hsg. unfold insert_members. case_bool_decide as He.
  - subst members. cbn [fmap list_fmap]. rewrite app_nil_r, Hsg. unfold mret, sql_ret.
    split; [by intros [= <-]|]. by intros [-> _].
  - rewrite sql_bind_Ok. split.
    + intros (db1 & [] & [-> Hok]%exec_Ok & H). apply sql_bind_Ok in H as (db2 & old & Hg & H).
      unfold sql_get in Hg. injection Hg as <- <-. case_bool_decide; [|done].
      unfold sql_modify in H. by injection H as <-.
    + intros [-> [Hok Hnd]]; [done|]. exists db, tt. rewrite exec_Ok. split; [done|].
      apply sql_bind_Ok. exists db, (get db). split; [done|]. cbv zeta. by rewrite bool_decide_eq_true_2.
Qed.

Lemma insert_points_Ok ok s id role pts now ops db db' :
  insert_points ok s id role pts now ops db = (db', Ok tt) ↔
  db' = db <| operator_points_ledger ::= (λ t, foldl (add_points id role pts now) t ops) |> ∧
  (ops ≠ [] → ok s = true).
Proof.
  unfold insert_points. case_bool_decide as He.
  - subst ops. cbn [foldl]. unfold mret, sql_ret. destruct db. cbn. unfold const.
    split; [by intros [= <-]|]. by intros [-> _].
  - rewrite sql_bind_Ok. split.
    + intros (db1 & [] & [-> Hok]%exec_Ok & H). unfold sql_modify in H. by injection H as <-.
    + intros [-> Hok]. exists db, tt. rewrite exec_Ok. auto.
Qed.

Lemma insert_task_Ok ok now ev db db' id evs : represents evs db →
  insert_task ok now ev db = (db', Ok id) ↔
  id = next_id (tasks db) ∧ ok InsertTask = true ∧ ¬ recorded evs ev ∧
  db' = db <| tasks ::= insert_row (λ id, task_row {| ac_id := id; ac_now := now; ac_ev := ev |}) |>.
Proof.
  intros Hrep. unfold insert_task. rewrite sql_bind_Ok. split.
  - intros (db1 & [] & [-> Hok]%exec_Ok & H).
    apply sql_bind_Ok in H as (? & id' & [= <- <-] & H).
    apply sql_bind_Ok in H as (? & dup & [= <- <-] & H).
    destruct (existsb _ _) eqn:Hd.
    + apply sql_bind_Ok in H as (? & [] & _ & H). done.
    + apply sql_bind_Ok in H as (? & [] & [= <-] & [= <- <-]).
      rewrite <- (duplicate_task _ _ _ Hrep). auto.
  - intros (-> & Hok & Hnew & ->). exists db, tt. rewrite exec_Ok. split; [done|].
    apply sql_bind_Ok. eexists _, _. split; [done|]. apply sql_bind_Ok. eexists _, _. split; [done|].
    rewrite (proj2 (duplicate_task _ _ _ Hrep) Hnew). done.
Qed.

Lemma NoDup_pairs (id : Z) (members : list Address) : NoDup ((λ p, (id, p)) <$> members) ↔ NoDup members.
Proof. apply NoDup_fmap. by intros ?? [=]. Qed.

(** The body of the transaction, when it gets through. *)
Definition after_ingest (now : Time) ev db : Db :=
  let id := next_id (tasks db) in
  db <| tasks ::= insert_row (λ id, task_row {| ac_id := id; ac_now := now; ac_ev := ev |}) |>
     <| task_performers ::= (λ l, l ++ ((λ p, (id, p)) <$> ev_performers ev)) |>
     <| task_attestors ::= (λ l, l ++ ((λ p, (id, p)) <$> ev_attester_addresses ev)) |>
     <| operator_points_ledger ::= (λ t,
          foldl (add_points id Attestor (fmul tenth (float_of_Z (ev_task_size ev))) now)
            (foldl (add_points id Performer (float_of_Z (ev_task_size ev)) now) t (ev_performers ev))
            (ev_attester_addresses ev)) |>
     <| monitor_task_state := Some (as_i64 (ev_block_number ev)) |>.

Lemma ingest_body_Ok ok now ev db db' evs : represents evs db →
  ingest_body ok now ev db = (db', Ok tt) →
  acceptable evs ev ∧ db' = after_ingest now ev db.
Proof.
  intros Hrep H. unfold ingest_body in H.
  apply sql_bind_Ok in H as (db1 & id & H1 & H).
  apply (insert_task_Ok _ _ _ _ _ _ evs Hrep) in H1 as (-> & Hok1 & Hnew & ->).
  apply sql_bind_Ok in H as (db2 & [] & [-> Hp]%insert_members_Ok & H); [|done|by destruct db].
  apply sql_bind_Ok in H as (db3 & [] & [-> Ha]%insert_members_Ok & H); [|done|by destruct db].
  apply sql_bind_Ok in H as (db4 & [] & [-> _]%insert_points_Ok & H).
  apply sql_bind_Ok in H as (db5 & [] & [-> _]%insert_points_Ok & H).
  apply sql_bind_Ok in H as (db6 & [] & [-> _]%exec_Ok & H).
  unfold sql_modify in H. injection H as <-. split; [|by destruct db].
  assert (∀ l : list Address, (l ≠ [] → NoDup l) → NoDup l) as Hcase.
  { intros [|? ?] Hl; [constructor|by apply Hl]. }
  split; [done|]. split; apply Hcase; intros Hne.
  - destruct (Hp Hne) as [_ (_ & _ & Hnd)%NoDup_app]. by apply NoDup_pairs in Hnd.
  - destruct (Ha Hne) as [_ (_ & _ & Hnd)%NoDup_app]. by apply NoDup_pairs in Hnd.
Qed.

Lemma ingest_body_accepts ok now ev db evs : represents evs db → (∀ s, ok s = true) →
  acceptable evs ev → ingest_body ok now ev db = (after_ingest now ev db, Ok tt).
Proof.
  intros Hrep Hok (Hnew & Hp & Ha). unfold ingest_body.
  apply sql_bind_Ok. eexists _, (next_id (tasks db)). split.
  { apply (insert_task_Ok _ _ _ _ _ _ evs Hrep). auto. }
  apply sql_bind_Ok. eexists _, tt. split.
  { apply insert_members_Ok; [done|by destruct db|]. split; [done|]. intros _. split; [done|]. cbn.
    destruct (rep_members_nodup _ _ Hrep) as [Hnd _]. rewrite (rep_performers _ _ Hrep) in *.
    apply (NoDup_new_members evs (λ a, ev_performers (ac_ev a))); [apply Hrep|by apply NoDup_pairs|done]. }
  apply sql_bind_Ok. eexists _, tt. split.
  { apply insert_members_Ok; [done|by destruct db|]. split; [done|]. intros _. split; [done|]. cbn.
    destruct (rep_members_nodup _ _ Hrep) as [_ Hnd]. rewrite (rep_attestors _ _ Hrep) in *.
    apply (NoDup_new_members evs (λ a, ev_attester_addresses (ac_ev a))); [apply Hrep|by apply NoDup_pairs|done]. }
  apply sql_bind_Ok. eexists _, tt. split; [by apply insert_points_Ok|].
  apply sql_bind_Ok. eexists _, tt. split; [by apply insert_points_Ok|].
  apply sql_bind_Ok. eexists _, tt. split; [by apply exec_Ok|].
  unfold sql_modify. by destruct db.
Qed.

Lemma represents_after evs db now ev : represents evs db → acceptable evs ev →
  represents (evs ++ [{| ac_id := next_id (tasks db); ac_now := now; ac_ev := ev |}])
    (after_ingest now ev db).
Proof.
  intros Hrep (Hnew & Hp & Ha). set (a := {| ac_id := _; ac_now := now; ac_ev := ev |}).
  destruct (rep_members_nodup _ _ Hrep) as [Hndp Hnda].
  assert (∀ r, r ∈ rows (operator_points_ledger db) → lg_task_id r < next_id (tasks db)) as Hold.
  { intros r Hr. assert (award_of r ∈ evs ≫= awards) as Hin.
    { rewrite <- (rep_ledger _ _ Hrep). by apply list_elem_of_fmap_2. }
    apply list_elem_of_bind in Hin as (a' & Hin & Ha'). pose proof (rep_ids _ _ Hrep) as Hids.
    eapply Forall_forall in Hids; [|exact Ha']. unfold awards in Hin.
    apply elem_of_app in Hin as [(? & Heq & _)%list_elem_of_fmap|(? & Heq & _)%list_elem_of_fmap];
      injection Heq; intros; lia. }
  unfold after_ingest. split; cbn; unfold const.
  - by rewrite (rep_tasks _ _ Hrep), fmap_app.
  - rewrite (rep_performers _ _ Hrep), bind_app. cbn. by rewrite app_nil_r.
  - rewrite (rep_attestors _ _ Hrep), bind_app. cbn. by rewrite app_nil_r.
  - assert (award_of <$> rows (foldl (add_points (next_id (tasks db)) Performer (float_of_Z (ev_task_size ev)) now)
      (operator_points_ledger db) (ev_performers ev)) = (evs ≫= awards) ++
        (award a Performer (float_of_Z (ev_task_size ev)) <$> ev_performers ev)) as Hperf.
    { rewrite add_points_fresh, (rep_ledger _ _ Hrep); [done|done|]. intros r Hr Hid. apply Hold in Hr. lia. }
    rewrite add_points_fresh, Hperf, bind_app; [cbn; rewrite app_nil_r, <- app_assoc; done|done|].
    intros r Hr Hid Hrole. exfalso. apply (list_elem_of_fmap_2 award_of) in Hr. rewrite Hperf in Hr.
    apply elem_of_app in Hr as [Hr|(? & Heq & _)%list_elem_of_fmap].
    + rewrite <- (rep_ledger _ _ Hrep) in Hr. apply list_elem_of_fmap in Hr as (r' & Heq & Hr').
      apply Hold in Hr'. injection Heq; intros; lia.
    + injection Heq as _ _ Hrole' _ _. by rewrite Hrole in Hrole'.
  - apply Forall_app. split; [|by apply Forall_singleton; cbn; lia].
    eapply Forall_impl; [apply (rep_ids _ _ Hrep)|]. cbn. lia.
  - rewrite fmap_app. apply NoDup_app. split; [apply Hrep|]. split; [|apply NoDup_singleton].
    intros i (a' & -> & Ha')%list_elem_of_fmap [= Heq]%list_elem_of_singleton.
    pose proof (rep_ids _ _ Hrep) as Hids. eapply Forall_forall in Hids; [|exact Ha']. lia.
  - split.
    + rewrite (rep_performers _ _ Hrep) in *. apply (NoDup_new_members evs (λ a, ev_performers (ac_ev a)));
        [apply Hrep|by apply NoDup_pairs|done].
    + rewrite (rep_attestors _ _ Hrep) in *. apply (NoDup_new_members evs (λ a, ev_attester_addresses (ac_ev a)));
        [apply Hrep|by apply NoDup_pairs|done].
  - rewrite fmap_app. apply NoDup_app. split; [apply Hrep|]. split; [|apply NoDup_singleton].
    intros k Hk ->%list_elem_of_singleton. by apply Hnew.
  - by rewrite last_snoc.
Qed.

Lemma represents_rolled_back evs db db' : represents evs db →
  next_id (tasks db) ≤ next_id (tasks db') → represents evs (rolled_back db db').
Proof.
  intros Hrep Hle. unfold rolled_back. destruct Hrep. split; cbn; unfold const; auto.
  eapply Forall_impl; [done|]. cbn. lia.
Qed.

(** One [ingest]: recorded completely, or not at all. *)
Lemma ingest_cases ok pool_get now ev db evs : represents evs db →
  let '(db', r) := ingest ok pool_get now ev db in
  let new := {| ac_id := next_id (tasks db); ac_now := now; ac_ev := ev |} in
  (r = Ok tt ∧ acceptable evs ev ∧ represents (evs ++ [new]) db' ∧
   operator_points_daily db' = operator_points_daily db) ∨
  ((∃ e, r = Err e) ∧ represents evs db' ∧ operator_points_daily db' = operator_points_daily db ∧
   (pool_get = true → (∀ s, ok s = true) → ¬ acceptable evs ev)).
Proof.
  intros Hrep. unfold ingest. destruct pool_get; [|right; split; [eauto|by split]].
  unfold transaction. pose proof (ingest_body_keeps_seq ok now ev db) as Hseq.
  destruct (ingest_body ok now ev db) as [db' [[]|e|]] eqn:Hbody; cbn in Hseq;
    destruct Hseq as [Hseq Hnp]; [..|done].
  - destruct (ingest_body_Ok _ _ _ _ _ _ Hrep Hbody) as [Hacc ->]. destruct (ok Commit) eqn:Hc.
    + left. split; [done|]. split; [done|]. split; [by apply represents_after|done].
    + right. split; [eauto|]. split; [by apply represents_rolled_back|]. split; [done|].
      intros _ Hok. by rewrite Hok in Hc.
  - right. split; [eauto|]. split; [by apply represents_rolled_back|]. split; [done|].
    intros _ Hok Hacc. by rewrite (ingest_body_accepts _ _ _ _ _ Hrep Hok Hacc) in Hbody.
Qed.

(** C36: The transaction that records a task refines an abstract log of accepted events.  On
    tables that hold the events [evs], whichever statements fail, [ingest] either reports
    success and the tables then hold [evs] and the new event, or it reports an error and
    they hold [evs] unchanged; and it can only record an event that is new (by transaction
    and log index) and names no performer or attestor twice.  When no statement fails such
    an event is recorded: in particular the redelivery of a recorded event changes
    nothing. *)
Theorem ingest_refines_log ok pool_get now ev db evs : represents evs db →
  let '(db', r) := ingest ok pool_get now ev db in
  let new := {| ac_id := next_id (tasks db); ac_now := now; ac_ev := ev |} in
  (r = Ok tt ∧ acceptable evs ev ∧ represents (evs ++ [new]) db' ∨
   (∃ e, r = Err e) ∧ represents evs db') ∧
  (pool_get = true → (∀ s, ok s = true) → acceptable evs ev → r = Ok tt).
Proof.
  intros Hrep. pose proof (ingest_cases ok pool_get now ev db evs Hrep) as Hc.
  destruct (ingest ok pool_get now ev db) as [db' r].
  destruct Hc as [(-> & Hacc & Hrep' & _)|(Herr & Hrep' & _ & Hno)]; split; auto.
  intros Hpool Hok Hacc. by destruct (Hno Hpool Hok).
Qed.
