(* ===== verification/IngesterPoints.v ===== *)
(** * The points of operators: three ways to add them up

    Grouped sums of exact numbers do not depend on the order of the rows, nor on the days
    or tables they are split into; with task sizes that are multiples of ten the doubles of
    the ledger are exact, so the three endpoints agree. *)
From Stdlib Require Import ZArith Lia Ascii String.
From Corelib Require Import Floats.SpecFloat.
From stdpp Require Import base list gmap sets strings pretty sorting.
From coqutil Require Import Datatypes.RecordSettersUsingExistingGetters.
Import RecordSetNotations.
From S2P Require Import Prelude Float64 Serialization Request Messages Ingester IngesterApi IngesterProofs.

(** ** Grouped sums *)
Section Groups.
Context {K : Type} `{Countable K}.
Implicit Types (l : list (K * Z)) (k : K).

(** What the rows of one key add up to. *)
Definition total k l : Z := foldr (λ e s, if decide (e.1 = k) then e.2 + s else s) 0 l.

Lemma total_app k l1 l2 : total k (l1 ++ l2) = total k l1 + total k l2.
Proof.
  induction l1 as [|e l1 IH]; [done|]. cbn [total foldr app] in *. fold (total k (l1 ++ l2)).
  unfold total in *. cbn. rewrite IH. case_decide; lia.
Qed.
Lemma total_cons k e l : total k (e :: l) = (if decide (e.1 = k) then e.2 else 0) + total k l.
Proof. unfold total. cbn. case_decide; lia. Qed.
#[export] Instance total_perm k : Proper ((≡ₚ) ==> eq) (total k).
Proof.
  intros l1 l2 Hp. induction Hp as [|e l1 l2 _ IH|e1 e2 l|l1 l2 l3 _ IH1 _ IH2]; [done|..].
  - rewrite !total_cons. lia.
  - rewrite !total_cons. lia.
  - by rewrite IH1.
Qed.
Lemma total_nonneg k l : (∀ e, e ∈ l → 0 ≤ e.2) → 0 ≤ total k l.
Proof.
  induction l as [|e l IH]; intros Hl; [done|]. rewrite total_cons.
  assert (0 ≤ total k l) by (apply IH; intros; apply Hl; by right).
  pose proof (Hl e ltac:(left)). case_decide; lia.
Qed.
Lemma total_no_key k l : k ∉ l.*1 → total k l = 0.
Proof.
  induction l as [|e l IH]; intros Hk; [done|]. rewrite total_cons. cbn in Hk.
  apply not_elem_of_cons in Hk as [Hk1 Hk2]. rewrite IH by done. case_decide; [congruence|lia].
Qed.

Lemma group_with_snoc {V} (add : V → V → V) (l : list (K * V)) k v :
  group_with add (l ++ [(k, v)])
  = partial_alter (λ o, Some (match o with Some s => add s v | None => v end)) k (group_with add l).
Proof. unfold group_with. by rewrite foldl_snoc. Qed.

Lemma group_with_is_Some {V} (add : V → V → V) (l : list (K * V)) k :
  is_Some (group_with add l !! k) ↔ k ∈ l.*1.
Proof.
  induction l as [|[k' v] l IH] using rev_ind.
  { unfold group_with. cbn [foldl fmap list_fmap]. rewrite lookup_empty, elem_of_nil. by split; [intros []|]. }
  rewrite group_with_snoc, fmap_app, elem_of_app, <- IH. cbn. rewrite list_elem_of_singleton.
  destruct (decide (k' = k)) as [->|Hne].
  - rewrite lookup_partial_alter_eq. split; [by right|eauto].
  - rewrite lookup_partial_alter_ne by done. split; [by left|]. by intros [?| ->].
Qed.

Lemma group_Z l k :
  group_with Z.add l !! k = if decide (k ∈ l.*1) then Some (total k l) else None.
Proof.
  induction l as [|[k' v] l IH] using rev_ind.
  { unfold group_with. cbn [foldl fmap list_fmap]. rewrite lookup_empty.
    case_decide as Hk; [|done]. by apply elem_of_nil in Hk. }
  rewrite group_with_snoc, fmap_app, total_app, total_cons. cbn [fmap list_fmap fst snd].
  replace (total k []) with 0 by done. destruct (decide (k' = k)) as [->|Hne].
  - rewrite lookup_partial_alter_eq, IH. rewrite (decide_True (P:=k ∈ l.*1 ++ [k])) by set_solver.
    case_decide as Hin; f_equal; [lia|]. rewrite total_no_key by done. lia.
  - rewrite lookup_partial_alter_ne, IH by done. destruct (decide (k ∈ l.*1)) as [Hin|Hin].
    + rewrite decide_True by set_solver. f_equal. lia.
    + rewrite decide_False by set_solver. done.
Qed.

Lemma group_Z_perm l1 l2 : l1 ≡ₚ l2 → group_with Z.add l1 = group_with Z.add l2.
Proof.
  intros Hp. apply map_eq. intros k. rewrite !group_Z, (total_perm k _ _ Hp).
  destruct (decide (k ∈ l1.*1)) as [Hin|Hin], (decide (k ∈ l2.*1)) as [Hin'|Hin']; try done.
  - exfalso. apply Hin'. by rewrite <- Hp.
  - exfalso. apply Hin. by rewrite Hp.
Qed.

(** Doubles add up exactly as long as every total is below [2^53]. *)
Definition exact_rows l : Prop := (∀ e, e ∈ l → 0 ≤ e.2) ∧ ∀ k, total k l < 2 ^ 53.
Definition as_floats l : list (K * float) := (λ e, (e.1, float_of_Z e.2)) <$> l.

Lemma group_float l : exact_rows l →
  group_with fadd (as_floats l) = float_of_Z <$> group_with Z.add l.
Proof.
  induction l as [|[k v] l IH] using rev_ind; intros [Hpos Hlt]; [done|].
  assert (exact_rows l) as Hl.
  { split; [intros; apply Hpos; set_solver|]. intros k'. pose proof (Hlt k') as Hk.
    rewrite total_app, total_cons in Hk. pose proof (Hpos (k, v) ltac:(set_solver)).
    cbn in *. case_decide; lia. }
  specialize (IH Hl). unfold as_floats in *. rewrite fmap_app. cbn [fmap list_fmap fst snd].
  rewrite !group_with_snoc. apply map_eq. intros k'. destruct (decide (k = k')) as [<-|Hne].
  - rewrite lookup_fmap, !lookup_partial_alter_eq, IH, lookup_fmap, group_Z.
    case_decide as Hin; [|done]. cbn. f_equal. destruct Hl as [Hpos' _].
    pose proof (total_nonneg k l Hpos'). pose proof (Hpos (k, v) ltac:(set_solver)) as Hv.
    pose proof (Hlt k) as Hk. rewrite total_app, total_cons, decide_True in Hk by done.
    change (total k []) with 0 in Hk. cbn in Hv, Hk. apply fadd_Z; lia.
  - rewrite lookup_fmap, !lookup_partial_alter_ne, IH, lookup_fmap by done. done.
Qed.
End Groups.

Lemma bind_split {A B} (f g : A → list B) l : (l ≫= λ a, f a ++ g a) ≡ₚ (l ≫= f) ++ (l ≫= g).
Proof.
  induction l as [|a l IH]; [done|]. rewrite !bind_cons, IH.
  rewrite <- !app_assoc. apply Permutation_app_head. by rewrite !app_assoc, (Permutation_app_comm (g a)).
Qed.

(** A coarser key: grouping first by the finer one changes no total. *)
Section Regroup.
Context {K K2 : Type} `{Countable K} `{Countable K2} (f : K → K2).
Definition rekey {V} (l : list (K * V)) : list (K2 * V) := (λ e, (f e.1, e.2)) <$> l.

Lemma total_insert (m : gmap K Z) k v c : m !! k = None →
  total c (rekey (map_to_list (<[k := v]> m))) = (if decide (f k = c) then v else 0) + total c (rekey (map_to_list m)).
Proof.
  intros Hk. unfold rekey. rewrite (total_perm c _ _ (fmap_Permutation _ _ _ (map_to_list_insert m k v Hk))).
  by rewrite fmap_cons, total_cons.
Qed.
Lemma total_regroup (l : list (K * Z)) c :
  total c (rekey (map_to_list (group_with Z.add l))) = total c (rekey l).
Proof.
  induction l as [|[k v] l IH] using rev_ind; [done|]. rewrite group_with_snoc.
  unfold rekey at 2. rewrite fmap_app, total_app. fold (rekey l). rewrite <- IH, fmap_cons, total_cons. cbn [fst snd].
  change (total c (_ <$> [])) with 0. set (m := group_with Z.add l).
  replace (partial_alter _ k m) with (<[k := match m !! k with Some s => s + v | None => v end]> (delete k m)).
  - rewrite total_insert by apply lookup_delete_eq. destruct (m !! k) as [s|] eqn:Hk.
    + rewrite <- (insert_delete_id m k s Hk) at 2. rewrite total_insert by apply lookup_delete_eq. case_decide; lia.
    + rewrite delete_id by done. lia.
  - apply map_eq. intros k'. destruct (decide (k = k')) as [<-|Hne].
    + by rewrite lookup_insert_eq, lookup_partial_alter_eq.
    + by rewrite lookup_insert_ne, lookup_delete_ne, lookup_partial_alter_ne.
Qed.
Lemma total_select (l : list (K * Z)) c :
  foldr Z.add 0 (snd <$> omap (λ e, if bool_decide (f e.1 = c) then Some e else None) l) = total c (rekey l).
Proof.
  induction l as [|[k v] l IH]; [done|]. unfold rekey. rewrite fmap_cons, total_cons. cbn [fst snd omap list_omap].
  fold (rekey l). rewrite <- IH. case_bool_decide; [rewrite decide_True by done|rewrite decide_False by done]; done.
Qed.
End Regroup.

Lemma filter_all {A} (P : A → Prop) `{∀ x, Decision (P x)} (l : list A) : (∀ x, x ∈ l → P x) → filter P l = l.
Proof.
  induction l as [|a l IH]; intros Hl; [done|]. rewrite filter_cons_True by (apply Hl; left).
  f_equal. apply IH. intros x Hx. apply Hl. by right.
Qed.

(** A sum of exact doubles. *)
Lemma running_sum_Z (x : list float) zs : x ≡ₚ float_of_Z <$> zs → zs ≠ [] →
  Forall (λ z, 0 ≤ z) zs → foldr Z.add 0 zs < 2 ^ 53 → running_sum x = Some (float_of_Z (foldr Z.add 0 zs)).
Proof.
  assert (∀ l, Forall (λ z, 0 ≤ z) l → 0 ≤ foldr Z.add 0 l) as Hpos
    by (intros l; induction 1; cbn; lia).
  assert (∀ l s, Forall (λ z, 0 ≤ z) l → 0 ≤ s → s + foldr Z.add 0 l < 2 ^ 53 →
    foldl fadd (float_of_Z s) (float_of_Z <$> l) = float_of_Z (s + foldr Z.add 0 l)) as Hfold.
  { intros l. induction l as [|z l IH]; intros s Hl Hs Hlt; cbn in *; [f_equal; lia|].
    apply Forall_cons in Hl as [Hz Hl]. specialize (Hpos l Hl).
    rewrite fadd_Z, IH by (done || lia). f_equal. lia. }
  intros Hp Hne Hall Hlt. apply Permutation_map_inv in Hp as (zs' & -> & Hp).
  rewrite Hp in Hall. assert (foldr Z.add 0 zs = foldr Z.add 0 zs') as Heq.
  { clear -Hp. induction Hp; cbn; lia. }
  rewrite Heq in Hlt |- *. destruct zs' as [|z zs']; [by apply Permutation_nil_r in Hp|].
  cbn in *. apply Forall_cons in Hall as [Hz Hall]. f_equal. by apply Hfold.
Qed.

(** The latest entry of each key. *)
Lemma latest_spec {K V} `{Countable K} (l : list (K * (Time * V))) k :
  match group_with (λ a b : Time * V, if a.1 <? b.1 then b else a) l !! k with
  | Some e => (k, e) ∈ l ∧ ∀ e', (k, e') ∈ l → e'.1 ≤ e.1
  | None => ∀ e', (k, e') ∉ l
  end.
Proof.
  induction l as [|[k' e'] l IH] using rev_ind.
  { unfold group_with. cbn [foldl]. rewrite lookup_empty. intros e'. apply not_elem_of_nil. }
  rewrite group_with_snoc. destruct (decide (k' = k)) as [->|Hne].
  - rewrite lookup_partial_alter_eq. destruct (_ !! k) as [e|].
    + destruct IH as [Hin Hmax]. destruct (Z.ltb_spec e.1 e'.1); (split; [set_solver|]);
        intros e2 [Hin2|[= <-]%list_elem_of_singleton]%elem_of_app; try lia; apply Hmax in Hin2; lia.
    + split; [set_solver|]. intros e2 [Hin2|[= <-]%list_elem_of_singleton]%elem_of_app; [|lia].
      by apply IH in Hin2.
  - rewrite lookup_partial_alter_ne by done. destruct (_ !! k) as [e|].
    + destruct IH as [Hin Hmax]. split; [set_solver|].
      intros e2 [Hin2|[= <- <-]%list_elem_of_singleton]%elem_of_app; [auto|done].
    + intros e2 [Hin2|[= <- <-]%list_elem_of_singleton]%elem_of_app; [by apply IH in Hin2|done].
Qed.

(** ** The exact points of the accepted events *)
Implicit Types (a : Accepted) (evs : list Accepted) (db : Db).

Definition size a : Z := ev_task_size (ac_ev a).
Definition weight a : Z :=
  size a * Z.of_nat (length (ev_performers (ac_ev a)) + length (ev_attester_addresses (ac_ev a))).
Definition volume evs : Z := foldr (λ a s, weight a + s) 0 evs.

(** The sizes under which no double is rounded: multiples of ten (the network's tasks have
    [TASK_SIZE], 1000) that add up to less than [2^53]. *)
Definition exact_sizes evs : Prop :=
  Forall (λ a, 0 ≤ size a < 2 ^ 53 ∧ size a mod 10 = 0) evs ∧ volume evs < 2 ^ 53.

Definition performer_points a : list (Address * Z) := (λ p, (p, size a)) <$> ev_performers (ac_ev a).
Definition attestor_sizes a : list (Address * Z) := (λ p, (p, size a)) <$> ev_attester_addresses (ac_ev a).
Definition attestor_points a : list (Address * Z) :=
  (λ p, (p, size a / 10)) <$> ev_attester_addresses (ac_ev a).
Definition points a : list (Address * Z) := performer_points a ++ attestor_points a.
(** What each operator has earned. *)
Definition score evs : gmap Address Z := group_with Z.add (evs ≫= points).

Lemma volume_nonneg evs : Forall (λ a, 0 ≤ size a < 2 ^ 53 ∧ size a mod 10 = 0) evs → 0 ≤ volume evs.
Proof.
  induction 1 as [|a evs [Ha _] _ IH]; [done|]. cbn [volume foldr]. fold (volume evs).
  unfold weight. nia.
Qed.

(** Rows of the accepted events whose values weigh no more than the events. *)
Lemma total_bound {K} `{EqDecision K} (g : Accepted → list (K * Z)) k evs :
  Forall (λ a, 0 ≤ total k (g a) ≤ weight a) evs → 0 ≤ total k (evs ≫= g) ≤ volume evs.
Proof.
  induction 1 as [|a evs Ha _ IH]; [done|]. cbn [mbind list_bind]. rewrite total_app. cbn [volume foldr].
  fold (volume evs). lia.
Qed.

Lemma total_const {K} `{EqDecision K} {B} (f : B → K) k c (l : list B) : 0 ≤ c →
  0 ≤ total k ((λ p, (f p, c)) <$> l) ≤ c * Z.of_nat (length l).
Proof.
  intros Hc. induction l as [|p l IH]; [cbn; lia|]. cbn [fmap list_fmap length]. rewrite total_cons. cbn [fst snd].
  case_decide; nia.
Qed.

Lemma exact_points {K} `{EqDecision K} (g : Accepted → list (K * Z)) evs : exact_sizes evs →
  (∀ a e, 0 ≤ size a → e ∈ g a → 0 ≤ e.2) →
  (∀ a k, 0 ≤ size a → 0 ≤ total k (g a) ≤ weight a) → exact_rows (evs ≫= g).
Proof.
  intros [Hs Hv] Hnn Hw. split.
  - intros e (a & He & Ha)%list_elem_of_bind. eapply Forall_forall in Hs; [|exact Ha]. destruct Hs as [[??] ?]. eauto.
  - intros k. enough (0 ≤ total k (evs ≫= g) ≤ volume evs) by lia. apply total_bound.
    eapply Forall_impl; [exact Hs|]. intros a [[Ha _] _]. auto.
Qed.

(** A family of rows [(f p, x)] for performers and [(f p, y)] for attestors. *)
Lemma exact_family {K} `{EqDecision K} (f : Accepted → Address → K) evs : exact_sizes evs →
  exact_rows (evs ≫= λ a, ((λ p, (f a p, size a)) <$> ev_performers (ac_ev a)) ++
                          ((λ p, (f a p, size a / 10)) <$> ev_attester_addresses (ac_ev a))).
Proof.
  intros Hex. apply exact_points; [done|..].
  - intros a e Ha [(p & -> & _)%list_elem_of_fmap|(p & -> & _)%list_elem_of_fmap]%elem_of_app; cbn; [done|].
    apply Z.div_pos; lia.
  - intros a k Ha. rewrite total_app. assert (0 ≤ size a / 10 ≤ size a) as Hd.
    { split; [apply Z.div_pos; lia|]. apply Z.div_le_upper_bound; lia. }
    pose proof (total_const (f a) k (size a) (ev_performers (ac_ev a)) Ha).
    pose proof (total_const (f a) k (size a / 10) (ev_attester_addresses (ac_ev a)) ltac:(lia)).
    unfold weight. nia.
Qed.

Lemma exact_single {B K} `{EqDecision K} (members : Accepted → list B) (f : B → K) evs : exact_sizes evs →
  (∀ a, Z.of_nat (length (members a)) ≤ Z.of_nat (length (ev_performers (ac_ev a)) + length (ev_attester_addresses (ac_ev a)))) →
  exact_rows (evs ≫= λ a, (λ p, (f p, size a)) <$> members a).
Proof.
  intros Hex Hlen. apply exact_points; [done|..].
  - by intros a e Ha (p & -> & _)%list_elem_of_fmap.
  - intros a k Ha. pose proof (total_const f k (size a) (members a) Ha). specialize (Hlen a). unfold weight. nia.
Qed.

(** The awards of the ledger, as exact rows under any key. *)
Lemma awards_exact {K} (f : Address → Time → K) evs : exact_sizes evs →
  ((λ w : Award, let '(p, _, _, pts, now) := w in (f p now, pts)) <$> (evs ≫= awards))
  = as_floats (evs ≫= λ a, ((λ p, (f p (ac_now a), size a)) <$> ev_performers (ac_ev a)) ++
                           ((λ p, (f p (ac_now a), size a / 10)) <$> ev_attester_addresses (ac_ev a))).
Proof.
  intros [Hs Hv]. pose proof (volume_nonneg evs Hs) as Hv0. revert Hv. unfold as_floats.
  induction Hs as [|a evs [Ha0 Ha] Hs IH]; intros Hv; [done|].
  cbn [mbind list_bind]. rewrite !fmap_app. cbn [volume foldr] in Hv, Hv0. fold (volume evs) in Hv, Hv0.
  pose proof (volume_nonneg evs Hs). rewrite IH by (unfold weight in *; nia). f_equal.
  unfold awards. rewrite !fmap_app, <- !list_fmap_compose. f_equal.
  apply list_fmap_ext. intros i p Hp. unfold award, compose. cbn. f_equal.
  assert (0 < length (ev_attester_addresses (ac_ev a)))%nat by (apply lookup_lt_Some in Hp; lia).
  apply Z.div_exact in Ha; [|lia]. fold (size a). rewrite Ha at 1. apply tenth_Z; [apply Z.div_pos; lia|].
  unfold weight in Hv. nia.
Qed.

#[export] Instance exact_rows_perm {K} `{EqDecision K} : Proper ((≡ₚ) ==> iff) (exact_rows (K:=K)).
Proof.
  assert (∀ l1 l2 : list (K * Z), l1 ≡ₚ l2 → exact_rows l1 → exact_rows l2) as Himp.
  { intros l1 l2 Hp [H1 H2]. split.
    - intros e He. apply H1. by rewrite Hp.
    - intros k. by rewrite <- (total_perm k _ _ Hp). }
  intros l1 l2 Hp. split; apply Himp; done.
Qed.

(** Exact sums are the same in every order of the rows. *)
Lemma group_float_perm {K} `{Countable K} (l : list (K * Z)) (x : list (K * float)) :
  exact_rows l → x ≡ₚ as_floats l → group_with fadd x = float_of_Z <$> group_with Z.add l.
Proof.
  intros Hl Hx. apply Permutation_map_inv in Hx as (l' & -> & Hp).
  change (map _ l') with (as_floats l'). rewrite (group_Z_perm _ _ Hp). apply group_float. by rewrite <- Hp.
Qed.

Section Endpoints.
Context `{RO : RowOrder} `{HO : HashOrder} (date_trunc_day : Time → Time).

(** *** The ledger *)
Lemma ledger_rows {K} (f : Address → Time → K) evs db : represents evs db → exact_sizes evs →
  ((λ r, (f (lg_operator r) (lg_created_at r), lg_points r)) <$> scan (rows (operator_points_ledger db)))
  ≡ₚ as_floats (evs ≫= λ a, ((λ p, (f p (ac_now a), size a)) <$> ev_performers (ac_ev a)) ++
                            ((λ p, (f p (ac_now a), size a / 10)) <$> ev_attester_addresses (ac_ev a))).
Proof.
  intros Hrep Hex. rewrite <- (awards_exact f evs Hex), <- (rep_ledger _ _ Hrep), <- list_fmap_compose.
  by rewrite scan_perm.
Qed.

Lemma ledger_points_score evs db : represents evs db → exact_sizes evs →
  ledger_points (rows (operator_points_ledger db)) = float_of_Z <$> score evs.
Proof.
  intros Hrep Hex. unfold ledger_points, score, points, performer_points, attestor_points.
  apply (group_float_perm (evs ≫= λ a, _)); [by apply (exact_family (λ a p, p))|].
  by apply (ledger_rows (λ p _, p)).
Qed.

(** *** The tables of members, joined with the tasks *)
Lemma join_one {B} (h : TaskRow → B) all a : NoDup (ac_id <$> all) → a ∈ all →
  ((task_row <$> all) ≫= λ t, if bool_decide (t_id t = ac_id a) then [h t] else []) = [h (task_row a)].
Proof.
  assert (∀ l, ac_id a ∉ (ac_id <$> l) →
    ((task_row <$> l) ≫= λ t, if bool_decide (t_id t = ac_id a) then [h t] else []) = []) as Hnone.
  { intros l. induction l as [|b l IH]; intros Hl; [done|]. cbn in *. apply not_elem_of_cons in Hl as [H1 H2].
    rewrite bool_decide_eq_false_2 by done. by apply IH. }
  induction all as [|b all IH]; intros Hnd Ha; [by apply elem_of_nil in Ha|]. cbn in *.
  apply NoDup_cons in Hnd as [Hb Hnd]. apply elem_of_cons in Ha as [->|Ha].
  - rewrite bool_decide_eq_true_2 by done. cbn. f_equal. by apply Hnone.
  - rewrite bool_decide_eq_false_2; [by apply IH|]. intros Heq. apply Hb. rewrite Heq.
    by apply list_elem_of_fmap_2.
Qed.

Lemma join_tasks all (members : Accepted → list Address) : NoDup (ac_id <$> all) →
  Forall (λ a, 0 ≤ size a < 2 ^ 63) all →
  task_sizes (all ≫= λ a, (λ p, (ac_id a, p)) <$> members a) (task_row <$> all)
  = all ≫= λ a, (λ p, (p, size a)) <$> members a.
Proof.
  intros Hnd Hs. unfold task_sizes.
  assert (∀ evs, evs ⊆ all → ((evs ≫= λ a, (λ p, (ac_id a, p)) <$> members a) ≫= λ m,
      (task_row <$> all) ≫= λ t, if bool_decide (t_id t = m.1) then [(m.2, t_task_size t)] else [])
    = evs ≫= λ a, (λ p, (p, size a)) <$> members a) as Hind; [|by apply Hind].
  intros evs. induction evs as [|a evs IH]; intros Hsub; [done|].
  rewrite !bind_cons, bind_app, IH by set_solver. f_equal.
  assert (a ∈ all) as Ha by set_solver. induction (members a) as [|p ms IHm]; [done|].
  rewrite fmap_cons, bind_cons, IHm, fmap_cons. cbn [fst snd].
  rewrite (join_one (λ t, (p, t_task_size t)) all a Hnd Ha). cbn. f_equal. f_equal.
  eapply Forall_forall in Hs; [|exact Ha]. unfold size in *. cbn in Hs. unfold as_i64.
  rewrite Z.mod_small; lia.
Qed.

(** Sums over distinct keys, weighted and added to what is there. *)
Lemma add_weighted_lookup w m (l : list (Address * Z)) k : NoDup l.*1 →
  add_weighted w m l !! k
  = match list_to_map (M:=gmap Address Z) l !! k with
    | Some z => Some (fadd (default (float_of_Z 0) (m !! k)) (w (float_of_Z z)))
    | None => m !! k
    end.
Proof.
  unfold add_weighted. revert m. induction l as [|[k' z] l IH]; intros m Hnd; [done|].
  cbn [foldl list_to_map fst snd foldr fmap list_fmap] in *. apply NoDup_cons in Hnd as [Hk Hnd].
  rewrite IH by done. cbn. destruct (decide (k' = k)) as [->|Hne].
  - rewrite (not_elem_of_list_to_map_1 (M:=gmap Address) l k) by done. by rewrite !lookup_insert_eq.
  - by rewrite !lookup_insert_ne.
Qed.

Lemma scan_map_to_list {V} (m : gmap Address V) :
  NoDup (scan (map_to_list m)).*1 ∧ list_to_map (scan (map_to_list m)) = m.
Proof.
  assert (NoDup (scan (map_to_list m)).*1) as Hnd
    by (rewrite scan_perm; apply NoDup_fst_map_to_list).
  split; [done|]. rewrite (list_to_map_proper _ (map_to_list m)); [apply list_to_map_to_list|done|apply scan_perm].
Qed.

Lemma total_div10 k (l : list (Address * Z)) : (∀ e, e ∈ l → 0 ≤ e.2 ∧ e.2 mod 10 = 0) →
  10 * total k ((λ e, (e.1, e.2 / 10)) <$> l) = total k l.
Proof.
  induction l as [|e l IH]; intros Hl; [done|]. rewrite fmap_cons, !total_cons. cbn [fst snd].
  rewrite Z.mul_add_distr_l, IH by (intros; apply Hl; by right).
  destruct (Hl e ltac:(left)) as [_ Hm]. apply Z.div_exact in Hm; [|lia]. case_decide; lia.
Qed.

(** Points split by role: a performer's part, and a tenth of the sizes attested. *)
Lemma attestor_tenth evs :
  (evs ≫= attestor_points) = (λ e, (e.1, e.2 / 10)) <$> (evs ≫= attestor_sizes).
Proof.
  induction evs as [|a evs IH]; [done|]. rewrite !bind_cons, fmap_app, IH. f_equal.
  unfold attestor_points, attestor_sizes. by rewrite <- list_fmap_compose.
Qed.
Lemma attestor_total evs k : exact_sizes evs →
  10 * total k (evs ≫= attestor_points) = total k (evs ≫= attestor_sizes).
Proof.
  intros [Hs _]. rewrite attestor_tenth. apply total_div10.
  intros e (a & (p & -> & _)%list_elem_of_fmap & Ha)%list_elem_of_bind.
  eapply Forall_forall in Hs; [|exact Ha]. cbn in *. lia.
Qed.
Lemma score_lookup evs k :
  score evs !! k = if decide (k ∈ (evs ≫= performer_points).*1 ∨ k ∈ (evs ≫= attestor_sizes).*1)
    then Some (total k (evs ≫= performer_points) + total k (evs ≫= attestor_points)) else None.
Proof.
  unfold score. rewrite (group_Z_perm _ _ (bind_split performer_points attestor_points evs)), group_Z, total_app.
  assert ((evs ≫= attestor_points).*1 = (evs ≫= attestor_sizes).*1) as Hk
    by (by rewrite attestor_tenth, <- list_fmap_compose).
  rewrite fmap_app, Hk. by rewrite (decide_ext _ _ _ _ (elem_of_app _ _ _)).
Qed.

(** The first endpoint's map is the exact scores as doubles. *)
Lemma joined_points_score evs : exact_sizes evs →
  add_weighted (fmul tenth)
    (add_weighted (λ x, x) ∅ (scan (map_to_list (group_with Z.add (evs ≫= performer_points)))))
    (scan (map_to_list (group_with Z.add (evs ≫= attestor_sizes))))
  = float_of_Z <$> score evs.
Proof.
  intros Hex.
  assert (exact_rows (evs ≫= performer_points)) as [Hp1 Hp2]
    by (apply (exact_single (λ a, ev_performers (ac_ev a)) (λ p, p)); [done|lia]).
  assert (exact_rows (evs ≫= attestor_sizes)) as [Ha1 Ha2]
    by (apply (exact_single (λ a, ev_attester_addresses (ac_ev a)) (λ p, p)); [done|lia]).
  apply map_eq. intros k. pose proof (scan_map_to_list (group_with Z.add (evs ≫= performer_points))) as [Hn1 Hl1].
  pose proof (scan_map_to_list (group_with Z.add (evs ≫= attestor_sizes))) as [Hn2 Hl2].
  rewrite !add_weighted_lookup, Hl1, Hl2, lookup_empty, lookup_fmap, score_lookup, !group_Z by done.
  pose proof (attestor_total evs k Hex) as Ht. pose proof (total_nonneg k _ Ha1). pose proof (total_nonneg k _ Hp1).
  assert (exact_rows (evs ≫= points)) as [_ Hs] by (by apply (exact_family (λ a p, p))).
  specialize (Hs k). rewrite (total_perm k _ _ (bind_split performer_points attestor_points evs)), total_app in Hs.
  specialize (Ha2 k). rewrite <- Ht in Ha2 |- *.
  set (x := total k (evs ≫= performer_points)) in *. set (y := total k (evs ≫= attestor_points)) in *.
  change (default (float_of_Z 0) None) with (float_of_Z 0).
  destruct (decide (k ∈ (evs ≫= performer_points).*1)) as [Hp|Hp],
    (decide (k ∈ (evs ≫= attestor_sizes).*1)) as [Ha|Ha].
  - rewrite decide_True by tauto. cbn [default fmap option_fmap option_map from_option id]. f_equal.
    rewrite fadd_Z, tenth_Z, fadd_Z by lia. done.
  - rewrite decide_True by tauto. cbn [default fmap option_fmap option_map from_option id]. f_equal. rewrite fadd_Z by lia. f_equal.
    assert (y = 0) by (assert (total k (evs ≫= attestor_sizes) = 0) by (by apply total_no_key); lia). lia.
  - rewrite decide_True by tauto. cbn [default fmap option_fmap option_map from_option id]. f_equal.
    rewrite tenth_Z, fadd_Z by lia. f_equal. assert (x = 0) by (by apply total_no_key). lia.
  - rewrite decide_False by tauto. done.
Qed.

(** *** The daily table *)
Lemma cumulative_lookup D o d :
  cumulative D !! (o, d) = D !! (o, d) ≫= λ _, running_sum (snd <$> filter (λ e, e.1 ≤ d) (days_of o D)).
Proof. unfold cumulative. by rewrite map_lookup_imap. Qed.
Lemma elem_of_days D o d v : (d, v) ∈ days_of o D ↔ D !! (o, d) = Some v.
Proof.
  unfold days_of. rewrite (merge_sort_Permutation day_le), list_elem_of_omap. split.
  - intros ([[o' d'] v'] & Hin%elem_of_map_to_list & Heq). cbn in Heq. case_bool_decide; [|done].
    injection Heq as <- <-. by subst o'.
  - intros Hin. exists ((o, d), v). rewrite elem_of_map_to_list. split; [done|]. cbn. by rewrite bool_decide_eq_true_2.
Qed.
Lemma cumulative_is_Some D k : is_Some (cumulative D !! k) ↔ is_Some (D !! k).
Proof.
  destruct k as [o d]. rewrite cumulative_lookup. destruct (D !! (o, d)) as [v|] eqn:Hv; cbn; [|done].
  split; [eauto|]. intros _. destruct (filter _ _) as [|e l] eqn:Hf; [|cbn; eauto]. exfalso.
  assert ((d, v) ∈ filter (λ e : Time * float, e.1 ≤ d) (days_of o D)) as Hin.
  { apply list_elem_of_filter. split; [cbn; lia|]. by apply elem_of_days. }
  rewrite Hf in Hin. by apply elem_of_nil in Hin.
Qed.

Definition day_points evs : list ((Address * Time) * Z) :=
  evs ≫= λ a, ((λ p, ((p, date_trunc_day (ac_now a)), size a)) <$> ev_performers (ac_ev a)) ++
              ((λ p, ((p, date_trunc_day (ac_now a)), size a / 10)) <$> ev_attester_addresses (ac_ev a)).
Lemma day_points_operator evs : rekey fst (day_points evs) = evs ≫= points.
Proof.
  unfold day_points, rekey. induction evs as [|a evs IH]; [done|]. rewrite !bind_cons, fmap_app, IH. f_equal.
  unfold points, performer_points, attestor_points. by rewrite fmap_app, <- !list_fmap_compose.
Qed.
Lemma daily_points_Z evs db : represents evs db → exact_sizes evs →
  daily_points date_trunc_day (rows (operator_points_ledger db)) = float_of_Z <$> group_with Z.add (day_points evs).
Proof.
  intros Hrep Hex. unfold daily_points, day_points.
  apply (group_float_perm (evs ≫= λ a, _)); [by apply (exact_family (λ a p, (p, date_trunc_day (ac_now a))))|].
  by apply (ledger_rows (λ p t, (p, date_trunc_day t))).
Qed.

(** The running sum of an operator's last day is all it has earned. *)
Lemma cumulative_last (l : list ((Address * Time) * Z)) o d : exact_rows l → exact_rows (rekey fst l) →
  (o, d) ∈ l.*1 → (∀ d', (o, d') ∈ l.*1 → d' ≤ d) →
  cumulative (float_of_Z <$> group_with Z.add l) !! (o, d) = Some (float_of_Z (total o (rekey fst l))).
Proof.
  intros Hl [_ Hr] Hin Hmax. set (D := float_of_Z <$> group_with Z.add l).
  set (mine := omap (λ e : (Address * Time) * Z, if bool_decide (e.1.1 = o) then Some e else None) (map_to_list (group_with Z.add l))).
  assert (∀ e, e ∈ mine ↔ e.1.1 = o ∧ e.1 ∈ l.*1 ∧ e.2 = total e.1 l) as Hmine.
  { intros [k z]. unfold mine. rewrite list_elem_of_omap. setoid_rewrite elem_of_map_to_list'. setoid_rewrite group_Z. cbn. split.
    - intros ([k' z'] & Hk' & Heq). cbn in *. case_bool_decide; [|done]. injection Heq as -> ->.
      case_decide; [|done]. by injection Hk' as <-.
    - intros (Ho & Hk & Hz). exists (k, z). cbn. rewrite decide_True, bool_decide_eq_true_2 by done. by subst z. }
  assert (∀ d' v, (d', v) ∈ days_of o D → (o, d') ∈ l.*1) as Hdays.
  { intros d' v Hd%elem_of_days. unfold D in Hd. rewrite lookup_fmap, group_Z in Hd. by case_decide. }
  assert (D !! (o, d) = Some (float_of_Z (total (o, d) l))) as HD
    by (unfold D; by rewrite lookup_fmap, group_Z, decide_True).
  rewrite cumulative_lookup, HD. cbn [mbind option_bind].
  rewrite filter_all by (intros [d' v] Hd; apply Hdays in Hd; by apply Hmax).
  rewrite <- total_regroup, <- total_select. fold mine.
  assert (foldr Z.add 0 (snd <$> mine) = total o (rekey fst l)) as Hsum by (by unfold mine; rewrite total_select, total_regroup).
  apply running_sum_Z.
  - unfold days_of, D, mine. rewrite (merge_sort_Permutation day_le), map_to_list_fmap. apply reflexive_eq.
    clear. generalize (map_to_list (group_with Z.add l)). intros L0. induction L0 as [|[[o' d'] z] L IH]; [done|]. cbn. case_bool_decide; cbn; [by f_equal|done].
  - intros Hnil%fmap_nil_inv. assert (((o, d), total (o, d) l) ∈ mine) as Hm by (by apply Hmine).
    rewrite Hnil in Hm. by apply elem_of_nil in Hm.
  - apply Forall_forall. intros z (e & -> & (_ & _ & ->)%Hmine)%list_elem_of_fmap. by apply total_nonneg, Hl.
  - by rewrite Hsum.
Qed.

(** The keys of the daily table come from the ledger. *)
Definition day_key (r : LedgerRow) : Address * Time := (lg_operator r, date_trunc_day (lg_created_at r)).
Definition daily_from_ledger db : Prop :=
  ∀ k, is_Some (operator_points_daily db !! k) → k ∈ day_key <$> rows (operator_points_ledger db).

Lemma day_keys evs db : represents evs db →
  day_key <$> rows (operator_points_ledger db) = (day_points evs).*1.
Proof.
  intros Hrep. transitivity ((λ w : Award, let '(p, _, _, _, now) := w in (p, date_trunc_day now)) <$> (evs ≫= awards)).
  - rewrite <- (rep_ledger _ _ Hrep), <- list_fmap_compose. done.
  - unfold day_points. clear Hrep. induction evs as [|a evs IH]; [done|]. rewrite !bind_cons, !fmap_app, IH. f_equal.
    unfold awards. by rewrite !fmap_app, <- !list_fmap_compose.
Qed.

Lemma latest_snapshots_score evs db : represents evs db → exact_sizes evs → daily_from_ledger db →
  snd <$> latest_snapshots
    (cumulative (daily_points date_trunc_day (rows (operator_points_ledger db))) ∪ operator_points_daily db)
  = float_of_Z <$> score evs.
Proof.
  intros Hrep Hex Hold. rewrite (daily_points_Z evs) by done. set (l := day_points evs).
  assert (exact_rows l) as Hl by (by apply (exact_family (λ a p, (p, date_trunc_day (ac_now a))))).
  assert (exact_rows (rekey fst l)) as Hr by (unfold l; rewrite day_points_operator; by apply (exact_family (λ a p, p))).
  set (C := cumulative _). set (M := C ∪ _).
  assert (∀ k, is_Some (C !! k) ↔ k ∈ l.*1) as HC.
  { intros k. unfold C. rewrite cumulative_is_Some, lookup_fmap, fmap_is_Some, group_Z.
    case_decide; [by eauto|]. by split; [intros [? ?]|]. }
  assert (∀ k v, M !! k = Some v → C !! k = Some v) as HM.
  { intros k v [Hk|[Hn Hk]]%lookup_union_Some_raw; [done|]. exfalso. apply eq_None_not_Some in Hn. apply Hn, HC.
    unfold l. rewrite <- (day_keys evs db) by done. apply Hold. eauto. }
  assert (∀ o d v, (o, (d, v)) ∈ (λ e : (Address * Time) * float, (e.1.1, (e.1.2, e.2))) <$> map_to_list M ↔ M !! (o, d) = Some v) as Hin.
  { intros o d v. rewrite list_elem_of_fmap. setoid_rewrite elem_of_map_to_list'. split.
    - by intros ([[o' d'] v'] & [= <- <- <-] & Hk).
    - intros Hk. by exists ((o, d), v). }
  assert (∀ o d, (o, d) ∈ l.*1 → ∃ v, M !! (o, d) = Some v) as HlM.
  { intros o d Hk. apply HC in Hk as [v Hv]. exists v. by apply lookup_union_Some_l. }
  apply map_eq. intros o. rewrite !lookup_fmap. unfold latest_snapshots, score. rewrite <- day_points_operator. fold l.
  pose proof (latest_spec ((λ e : (Address * Time) * float, (e.1.1, (e.1.2, e.2))) <$> map_to_list M) o) as Hlat.
  rewrite group_Z. assert (∀ o, o ∈ (rekey fst l).*1 ↔ ∃ d, (o, d) ∈ l.*1) as Hkeys.
  { intros o'. unfold rekey. rewrite <- list_fmap_compose, list_elem_of_fmap. setoid_rewrite list_elem_of_fmap. split.
    - intros ([[o1 d1] z1] & -> & Hz). exists d1. by exists ((o1, d1), z1).
    - intros (d1 & ([[o2 d2] z2] & [= -> ->] & Hz)). by exists ((o2, d2), z2). }
  destruct (group_with _ _ !! o) as [[d v]|].
  - destruct Hlat as [Hv Hmax]. apply Hin, HM in Hv.
    assert ((o, d) ∈ l.*1) as Hod by (apply HC; eauto). rewrite decide_True by (apply Hkeys; eauto). cbn. f_equal.
    unfold C in Hv. rewrite cumulative_last in Hv; [by injection Hv|done|done|done|].
    intros d' Hd'. apply HlM in Hd' as [v' Hv']. apply Hin, Hmax in Hv'. done.
  - rewrite decide_False; [done|]. intros [d Hd]%Hkeys. apply HlM in Hd as [v Hv]. by apply Hin, Hlat in Hv.
Qed.

(** *** The three answers *)
Definition all_well (env : ApiEnv) : Prop := api_pool_get env = true ∧ ∀ i, query_ok env i = true.
Lemma query_well env {A} i what (x : A) : all_well env → query env i what x = Ok x.
Proof. intros [_ Hq]. unfold query. by rewrite Hq. Qed.
Lemma connection_well env : all_well env → connection env = Ok tt.
Proof. intros [Hc _]. unfold connection. by rewrite Hc. Qed.

Definition scores evs : list OperatorPointsResponse := points_response (map_to_list (float_of_Z <$> score evs)).
Lemma sorted_scores evs (l : list (Address * float)) : l ≡ₚ map_to_list (float_of_Z <$> score evs) →
  sort_points (points_response l) ≡ₚ scores evs.
Proof. intros Hl. unfold sort_points, scores, points_response. by rewrite (merge_sort_Permutation points_desc), Hl. Qed.

Lemma points_query_well env i evs (members : Accepted → list Address) db : all_well env → represents evs db → exact_sizes evs →
  (∀ a, Z.of_nat (length (members a)) ≤ Z.of_nat (length (ev_performers (ac_ev a)) + length (ev_attester_addresses (ac_ev a)))) →
  points_query env i (evs ≫= λ a, (λ p, (ac_id a, p)) <$> members a) (rows (tasks db))
  = Ok (scan (map_to_list (group_with Z.add (evs ≫= λ a, (λ p, (p, size a)) <$> members a)))).
Proof.
  intros Henv Hrep Hex Hlen. unfold points_query. rewrite (rep_tasks _ _ Hrep), join_tasks; [|apply Hrep|].
  - rewrite query_well, bool_decide_eq_true_2; [done| |done].
    destruct (exact_single members (λ p, p) evs Hex Hlen) as [Hnn Hlt].
    intros k z Hk. rewrite group_Z in Hk. case_decide; [|done]. injection Hk as <-.
    pose proof (total_nonneg k _ Hnn). specialize (Hlt k). lia.
  - destruct Hex as [Hs _]. eapply Forall_impl; [exact Hs|]. cbn. lia.
Qed.

Lemma points_v1 env evs db : all_well env → represents evs db → exact_sizes evs →
  ∃ r, get_operator_points env db = Ok r ∧ data r ≡ₚ scores evs.
Proof.
  intros Henv Hrep Hex. unfold get_operator_points.
  rewrite connection_well, (rep_performers _ _ Hrep), (rep_attestors _ _ Hrep) by done. cbn [mbind outcome_bind].
  rewrite (points_query_well env 0 evs (λ a, ev_performers (ac_ev a))) by (done || lia). cbn [mbind outcome_bind].
  rewrite (points_query_well env 1 evs (λ a, ev_attester_addresses (ac_ev a))) by (done || lia). cbn [mbind outcome_bind].
  rewrite joined_points_score by done. eexists. split; [done|]. apply sorted_scores, hm_iter_perm.
Qed.
Lemma points_v2 env evs db : all_well env → represents evs db → exact_sizes evs →
  ∃ r, get_operator_points_v2 env db = Ok r ∧ data r ≡ₚ scores evs.
Proof.
  intros Henv Hrep Hex. unfold get_operator_points_v2. rewrite connection_well, query_well by done. cbn [mbind outcome_bind].
  rewrite (ledger_points_score evs) by done. eexists. split; [done|]. apply sorted_scores, scan_perm.
Qed.
Lemma points_v3 env evs db ok : all_well env → represents evs db → exact_sizes evs → daily_from_ledger db →
  ok UpdateDaily = true →
  ∃ r, get_operator_points_v3 env (update_operator_points_daily date_trunc_day true ok db).1 = Ok r ∧ data r ≡ₚ scores evs.
Proof.
  intros Henv Hrep Hex Hold Hok. unfold get_operator_points_v3, update_operator_points_daily. cbn [negb]. rewrite Hok.
  rewrite connection_well, query_well by done. cbn [mbind outcome_bind fst]. cbn [operator_points_daily].
  set (results := scan _). assert (results ≡ₚ map_to_list (float_of_Z <$> score evs)) as Hres.
  { unfold results. rewrite scan_perm, <- (latest_snapshots_score evs db) by done. rewrite map_to_list_fmap.
    apply reflexive_eq. by apply list_fmap_ext. }
  assert (incomparable (points_response results) = false) as ->.
  { unfold incomparable. apply andb_false_iff. right. apply not_true_iff_false. rewrite existsb_exists.
    intros (x & (e & -> & He)%list_elem_of_In%list_elem_of_fmap & Hb%bool_decide_eq_true). rewrite Hres in He.
    destruct e as [o z]. apply elem_of_map_to_list in He. rewrite lookup_fmap in He.
    apply fmap_Some in He as (y & Hy & ->). unfold score in Hy. rewrite group_Z in Hy. case_decide; [|done]. injection Hy as <-.
    destruct (exact_family (λ a p, p) evs Hex) as [Hnn Hlt]. pose proof (total_nonneg o _ Hnn).
    cbn in Hb. rewrite fcompare_Z in Hb; [done|split; [done|apply Hlt]..]. }
  eexists. split; [done|]. by apply sorted_scores.
Qed.
End Endpoints.
