(* ===== verification/IngesterRun.v ===== *)
(** * The ingester as a whole

    The process interleaves three activities over one database: the monitor of the
    contract's events, the consumer of Kafka messages, and the daily update of points
    (main.rs).  Whatever comes in, and whichever statements fail, the tables stay those of a
    sequence of accepted events, from which the endpoints for points agree. *)
From Stdlib Require Import ZArith Lia Ascii String.
From Corelib Require Import Floats.SpecFloat.
From stdpp Require Import base list gmap sets strings pretty sorting.
From coqutil Require Import Datatypes.RecordSettersUsingExistingGetters.
Import RecordSetNotations.
From S2P Require Import Prelude Float64 Serialization Request Messages Ingester IngesterApi IngesterProofs.
From S2P Require Import IngesterPoints.

(** ** Steps of the process *)
Inductive IngesterStep :=
  | LogArrives (env : MonitorEnv) (log : Log)
  | KafkaArrives (ok : Stmt → bool) (now : Time) (pool_get : bool) (msg : KafkaMessage)
  | DailyUpdate (pool_get : bool) (ok : Stmt → bool).

Section Run.
Context `{KC : KafkaCodec} `{RO : RowOrder} (date_trunc_day : Time → Time).
Implicit Types (mon : Monitor) (db : Db) (evs : list Accepted).

Definition ingester_step mon (s : IngesterStep) : Monitor :=
  match s with
  | LogArrives env log => (process_log env log mon).1
  | KafkaArrives ok now pool_get msg => mon <| mon_db ::= ingest_kafka_message ok now pool_get msg |>
  | DailyUpdate pool_get ok => mon <| mon_db ::= (λ db, (update_operator_points_daily date_trunc_day pool_get ok db).1) |>
  end.
Definition initial : Monitor := {| mon_db := empty_Db; operator_address_cache := ∅ |}.
Definition ingester_run (steps : list IngesterStep) : Monitor := foldl ingester_step initial steps.

(** ** What Kafka messages leave alone *)
Definition task_tables db :=
  (tasks db, task_performers db, task_attestors db, operator_points_ledger db, operator_points_daily db,
   monitor_task_state db).
Definition frames {A} (m : Sql A) : Prop := ∀ db, task_tables (m db).1 = task_tables db.

Lemma frames_bind {A B} (m : Sql A) (k : A → Sql B) : frames m → (∀ a, frames (k a)) → frames (m ≫= k).
Proof.
  intros Hm Hk db. unfold mbind, sql_bind. specialize (Hm db).
  destruct (m db) as [db1 [a|e|]]; cbn in *; [by rewrite Hk|done..].
Qed.
Lemma frames_modify f : (∀ db, task_tables (f db) = task_tables db) → frames (sql_modify f).
Proof. intros H db. apply H. Qed.
Lemma frames_exec ok s : frames (exec ok s).
Proof. intros db. unfold exec. by destruct (ok s). Qed.
Lemma frames_each {A} (f : nat → A → Sql unit) l : (∀ i a, frames (f i a)) → ∀ i, frames (sql_each f i l).
Proof.
  intros Hf. induction l as [|a l IH]; intros i; cbn; [by intros db|]. apply frames_bind; [apply Hf|]. auto.
Qed.
Ltac frame := repeat first
  [ apply frames_bind; [|intros ?] | apply frames_exec | apply frames_each; intros ? ?
  | by apply frames_modify | by intros ? | case_match ].

Lemma kafka_frames ok now pool_get msg db :
  task_tables (ingest_kafka_message ok now pool_get msg db) = task_tables db.
Proof.
  assert (∀ ts key x, frames (ingest_request ok now ts key x)) as H1
    by (intros; unfold ingest_request, insert_request, insert_served; frame).
  assert (∀ ts key x, frames (ingest_credits ok now ts key x)) as H2 by (intros; unfold ingest_credits; frame).
  assert (∀ ts key x, frames (ingest_quic ok now ts key x)) as H3 by (intros; unfold ingest_quic; frame).
  assert (∀ ts key x, frames (ingest_tcp ok now ts key x)) as H4 by (intros; unfold ingest_tcp; frame).
  assert (∀ ts x, frames (ingest_quorum ok now ts x)) as H5
    by (intros; unfold ingest_quorum, insert_multiplier; frame).
  unfold ingest_kafka_message. repeat case_match; first [done | apply H1 | apply H2 | apply H3 | apply H4 | apply H5].
Qed.

Lemma represents_tables evs db db' : task_tables db' = task_tables db → represents evs db → represents evs db'.
Proof.
  intros [= H1 H2 H3 H4 _ H6] Hrep. destruct Hrep. split; rewrite ?H1, ?H2, ?H3, ?H4, ?H6; done.
Qed.

(** ** The invariant *)
Definition points_inv db : Prop := (∃ evs, represents evs db) ∧ daily_from_ledger date_trunc_day db.

Lemma points_inv_tables db db' : task_tables db' = task_tables db → points_inv db → points_inv db'.
Proof.
  intros Heq [[evs Hrep] Hd]. split; [exists evs; by eapply represents_tables|].
  injection Heq as _ _ _ H4 H5 _. unfold daily_from_ledger. by rewrite H4, H5.
Qed.

(** The ledger only grows. *)
Lemma daily_from_ledger_grow evs evs' db db' : represents evs db → represents (evs ++ evs') db' →
  operator_points_daily db' = operator_points_daily db →
  daily_from_ledger date_trunc_day db → daily_from_ledger date_trunc_day db'.
Proof.
  intros Hrep Hrep' Heq Hd k Hk. rewrite Heq in Hk. apply Hd in Hk.
  rewrite (day_keys date_trunc_day evs db Hrep) in Hk. rewrite (day_keys date_trunc_day _ db' Hrep').
  unfold day_points in *. rewrite bind_app, fmap_app. apply elem_of_app. by left.
Qed.

Lemma ingest_inv ok pool_get now ev db : points_inv db → points_inv (ingest ok pool_get now ev db).1.
Proof.
  intros [[evs Hrep] Hd]. pose proof (ingest_cases ok pool_get now ev db evs Hrep) as Hc.
  destruct (ingest ok pool_get now ev db) as [db' r]. cbn.
  destruct Hc as [(_ & _ & Hrep' & Heq)|(_ & Hrep' & Heq & _)]; (split; [by eexists|]).
  - exact (daily_from_ledger_grow evs _ db db' Hrep Hrep' Heq Hd).
  - apply (daily_from_ledger_grow evs [] db db'); [done|by rewrite app_nil_r|done|done].
Qed.

Lemma process_log_inv env log mon : points_inv (mon_db mon) → points_inv (mon_db (process_log env log mon).1).
Proof.
  intros Hinv. unfold process_log. repeat case_match; try done; subst; cbn.
  all: match goal with H : ingest ?a ?b ?c ?d ?e = _ |- _ => pose proof (ingest_inv a b c d e Hinv) as Hi; by rewrite H in Hi end.
Qed.

Lemma daily_update_inv pool_get ok db : points_inv db →
  points_inv (update_operator_points_daily date_trunc_day pool_get ok db).1.
Proof.
  intros Hinv. unfold update_operator_points_daily. repeat case_match; try done. destruct Hinv as [[evs Hrep] Hd]. split.
  - exists evs. by destruct Hrep.
  - intros k Hk. cbn in *. unfold const in Hk. apply lookup_union_is_Some in Hk as [Hk|Hk]; [|by apply Hd].
    apply cumulative_is_Some, group_with_is_Some in Hk. rewrite <- list_fmap_compose in Hk. by rewrite scan_perm in Hk.
Qed.

Lemma ingester_inv steps : points_inv (mon_db (ingester_run steps)).
Proof.
  induction steps as [|s steps IH] using rev_ind.
  - split; [exists []; apply represents_empty|]. intros k [? Hk]. cbn in Hk. by rewrite lookup_empty in Hk.
  - unfold ingester_run in *. rewrite foldl_snoc. destruct s; cbn [ingester_step].
    + by apply process_log_inv.
    + cbn. eapply points_inv_tables; [apply kafka_frames|done].
    + by apply daily_update_inv.
Qed.
End Run.

(** ** Points *)
Section Points.
Context `{KC : KafkaCodec} `{RO : RowOrder} `{HO : HashOrder} (date_trunc_day : Time → Time).

(** C38: The three endpoints that report the points of operators agree.  After any
    interleaving of contract events, Kafka messages and daily updates, with any statements
    failing, the tables are those of a sequence of accepted events; and when the sizes of
    its tasks are multiples of ten adding up to less than 2^53 (the network's tasks have
    size 1000), the joins of the first endpoint, the ledger of the second and, after an
    update, the daily snapshots of the third report the same operators with the same
    points, whatever the order in which the database and the hash maps deliver rows: each
    operator's exact score, the sizes of the tasks it performed and a tenth of those it
    attested. *)
Theorem points_endpoints_agree steps env ok :
  let db := mon_db (ingester_run date_trunc_day steps) in
  (∃ evs, represents evs db) ∧
  ∀ evs, represents evs db → exact_sizes evs → all_well env → ok UpdateDaily = true →
    ∃ r1 r2 r3,
      get_operator_points env db = Ok r1 ∧ get_operator_points_v2 env db = Ok r2 ∧
      get_operator_points_v3 env (update_operator_points_daily date_trunc_day true ok db).1 = Ok r3 ∧
      data r1 ≡ₚ scores evs ∧ data r2 ≡ₚ scores evs ∧ data r3 ≡ₚ scores evs.
Proof.
  intros db. destruct (ingester_inv date_trunc_day steps) as [Hrep Hd]. split; [done|].
  intros evs Hr Hex Henv Hok.
  destruct (points_v1 date_trunc_day env evs db) as (r1 & H1 & P1); [done..|].
  destruct (points_v2 env evs db) as (r2 & H2 & P2); [done..|].
  destruct (points_v3 date_trunc_day env evs db ok) as (r3 & H3 & P3); [done..|]. by exists r1, r2, r3.
Qed.
End Points.

(** ** Pages *)
Section Pages.
Context `{RO : RowOrder}.

Lemma paginated_page {T} env params what (l : list T) fetch : all_well env →
  1 ≤ page_size params ≤ 100 → Z.of_nat (length l) < 2 ^ 63 → 1 ≤ page params →
  (∀ offset, fetch offset = Ok (page_rows offset (page_size params) l)) → l ≠ [] →
  paginated env params what (Z.of_nat (length l)) fetch
  = let total_pages := (Z.of_nat (length l) + page_size params - 1) / page_size params in
    if total_pages <? page params then
      Err (InvalidPagination ("Page " +:+ pretty (page params) +:+ " does not exist. Total pages: "
                              +:+ pretty total_pages))
    else Ok {| items := page_rows ((page params - 1) * page_size params) (page_size params) l;
               total_items := Z.of_nat (length l); pg_page := page params; pg_page_size := page_size params |}.
Proof.
  intros Henv Hs Hlen Hp Hfetch Hl. unfold paginated, validate_pagination.
  rewrite (proj2 (Z.ltb_ge (page params) 1)), (proj2 (Z.ltb_ge (page_size params) 1)), (proj2 (Z.ltb_ge 100 _)) by lia.
  cbn [orb mbind outcome_bind]. rewrite connection_well, query_well by done. cbn [mbind outcome_bind].
  rewrite (proj2 (Z.eqb_neq _ 0)) by (destruct l; cbn; [done|lia]).
  rewrite Z.quot_div_nonneg by lia. cbv zeta. destruct (Z.ltb_spec ((Z.of_nat (length l) + page_size params - 1) / page_size params) (page params)) as [|Hpages]; [done|].
  rewrite Hfetch. cbn [mbind outcome_bind]. do 3 f_equal.
  assert ((page params - 1) * page_size params < Z.of_nat (length l)).
  { pose proof (Z.mul_div_le (Z.of_nat (length l) + page_size params - 1) (page_size params) ltac:(lia)). nia. }
  unfold as_i64. rewrite Z.mod_small; nia.
Qed.

Lemma pages_take {T} (size : Z) (l : list T) (n : nat) : 0 < size →
  concat ((λ p, page_rows ((p - 1) * size) size l) <$> seqZ 1 (Z.of_nat n)) = take (n * Z.to_nat size) l.
Proof.
  intros Hs. induction n as [|n IH]; [by rewrite take_0|].
  replace (Z.of_nat (S n)) with (Z.of_nat n + 1) by lia. rewrite seqZ_app, fmap_app, concat_app, IH by lia.
  cbn [seqZ fmap list_fmap concat]. change (seqZ (1 + Z.of_nat n) 1) with [0 + (1 + Z.of_nat n)]. cbn [fmap list_fmap concat].
  rewrite app_nil_r. unfold page_rows.
  replace (Z.to_nat ((0 + (1 + Z.of_nat n) - 1) * size)) with (n * Z.to_nat size)%nat
    by (replace (0 + (1 + Z.of_nat n) - 1) with (Z.of_nat n) by lia; rewrite Z2Nat.inj_mul by lia; lia).
  rewrite take_take_drop. f_equal. lia.
Qed.

Lemma request_page_rows offset size (l : list RequestRow) :
  request_responses (page_rows offset size l) = page_rows offset size (request_responses l).
Proof. unfold request_responses, page_rows. by rewrite fmap_take, fmap_drop. Qed.

(** Paging through the requests shows each of them once.  With a page size between 1 and
    100, the pages from 1 to the number of pages are answered, each with the total number of
    requests, and one after the other their items are all the requests, the newest first (those
    without a timestamp before them); a page after the last is refused with status 400.  The
    order in which the database delivers rows with equal timestamps is arbitrary but the
    same for each page. *)
Theorem requests_pages_partition env size db : all_well env →
  1 ≤ size ≤ 100 → Z.of_nat (length (rows (requests db))) < 2 ^ 63 → rows (requests db) ≠ [] →
  let total := Z.of_nat (length (rows (requests db))) in
  let pages := (total + size - 1) / size in
  let ordered := order_desc rq_kafka_timestamp (rows (requests db)) in
  let get p := get_requests env {| page := p; page_size := size |} db in
  (∃ answers, Forall2 (λ p r, get p = Ok r ∧ total_items (data r) = total) (seqZ 1 pages) answers ∧
              concat ((λ r, items (data r)) <$> answers) = request_responses ordered) ∧
  Sorted (by_ts rq_kafka_timestamp) ordered ∧ ordered ≡ₚ rows (requests db) ∧
  ∀ p, pages < p → ∃ msg, get p = Err (InvalidPagination msg) ∧ (into_status (InvalidPagination msg)).1 = 400.
Proof.
  intros Henv Hs Hlen Hne. cbv zeta.
  set (ordered := order_desc _ _). set (l := request_responses ordered).
  assert (ordered ≡ₚ rows (requests db)) as Hperm
    by (unfold ordered, order_desc; by rewrite (merge_sort_Permutation (by_ts rq_kafka_timestamp)), scan_perm).
  assert (length l = length (rows (requests db))) as Hl
    by (unfold l, request_responses; by rewrite length_fmap, Hperm).
  assert (l ≠ []) as Hnl by (intros ->; cbn in Hl; by destruct (rows (requests db))).
  assert (∀ p, 1 ≤ p → get_requests env {| page := p; page_size := size |} db = success_response <$>
    paginated env {| page := p; page_size := size |} "requests" (Z.of_nat (length l)) (λ offset,
      fetched ← query env 1 "Failed to query requests: " (page_rows offset size ordered);
      Ok (request_responses fetched))) as Hget by (intros p Hp; unfold get_requests; by rewrite Hl).
  rewrite <- Hl in Hlen |- *. split; [|split; [|split; [done|]]].
  - exists ((λ p, success_response {| items := page_rows ((p - 1) * size) size l;
      total_items := Z.of_nat (length l); pg_page := p; pg_page_size := size |}) <$> seqZ 1 ((Z.of_nat (length l) + size - 1) / size)).
    split.
    + apply Forall2_fmap_r, Forall_Forall2_diag, Forall_forall. intros p [Hp1 Hp2]%elem_of_seqZ. split; [|done].
      rewrite Hget, (paginated_page _ _ _ l) by (done || (intros; rewrite query_well by done; cbn; by rewrite request_page_rows) || (cbn; lia)).
      cbv zeta. cbn [page page_size]. rewrite (proj2 (Z.ltb_ge _ _)) by lia. done.
    + rewrite <- list_fmap_compose. unfold compose. cbn [data items success_response].
      rewrite <- (Z2Nat.id ((Z.of_nat (length l) + size - 1) / size)) by (apply Z.div_pos; lia).
      rewrite pages_take by lia. apply take_ge.
      pose proof (Z.mul_succ_div_gt (Z.of_nat (length l) + size - 1) size ltac:(lia)).
      apply Nat2Z.inj_le. rewrite Nat2Z.inj_mul, !Z2Nat.id by (lia || (apply Z.div_pos; lia)). nia.
  - apply Sorted_merge_sort. intros x y. unfold by_ts, ts_desc. repeat case_match; lia.
  - intros p Hp. pose proof (Z.div_pos (Z.of_nat (length l) + size - 1) size ltac:(lia) ltac:(lia)).
    rewrite Hget, (paginated_page _ _ _ l) by (done || (intros; rewrite query_well by done; cbn; by rewrite request_page_rows) || (cbn; lia)).
    cbv zeta. cbn [page page_size]. rewrite (proj2 (Z.ltb_lt _ _)) by lia. cbn. eauto.
Qed.
End Pages.

(** ** Filters of the Symbiotic queries *)

(** The texts that the two filters add. *)
Definition date_shape (s : string) : Prop :=
  let chars := list_ascii_of_string s in
  length chars = 10%nat ∧ ∀ i c, chars !! i = Some c →
    if ((i =? 4) || (i =? 7))%nat then c = "-"%char else is_ascii_digit c = true.
Definition date_clause (o : option string) : string :=
  match o with Some d => " AND date <= '" +:+ d +:+ "'" | None => EmptyString end%string.
Definition type_clause (o : option string) : string :=
  match o with Some rt => " AND address_type = '" +:+ rt +:+ "'" | None => EmptyString end%string.

Lemma parse_date_filter_shape ts d : parse_date_filter ts = Ok d → date_shape d.
Proof.
  unfold parse_date_filter. destruct (_ && _) eqn:Hc; [|done]. intros [= <-].
  apply andb_true_iff in Hc as [Hl%Nat.eqb_eq Hall]. unfold date_shape. rewrite list_ascii_of_string_of_list_ascii.
  split; [done|]. intros i c Hi. rewrite forallb_forall in Hall.
  assert (date_char i c = true) as Hdc.
  { apply (Hall (i, c)), list_elem_of_In, elem_of_lookup_imap. eauto. }
  unfold date_char in Hdc. case_match; [by apply bool_decide_eq_true in Hdc|done].
Qed.
Lemma append_assoc (a b c : string) : ((a +:+ b) +:+ c = a +:+ (b +:+ c))%string.
Proof.
  induction a as [|x a IH]; [done|]. change (String x ((a +:+ b) +:+ c) = String x (a +:+ (b +:+ c))). by rewrite IH.
Qed.
Lemma append_nil (a : string) : (a +:+ EmptyString = a)%string.
Proof. induction a as [|x a IH]; [done|]. change (String x (a +:+ EmptyString) = String x a). by rewrite IH. Qed.

(** A request cannot inject SQL through the filters of the Symbiotic endpoints.
    Whatever text the caller sends, the query that is built is the fixed query followed by
    at most two clauses, whose only parts taken from the request are a date of ten
    characters, digits but for two dashes, and one of the two words operator and staker;
    any other text is refused before a query is made. *)
Theorem filters_cannot_inject query timestamp receiver_type :
  match append_symbiotic_filters query timestamp receiver_type with
  | Ok q => ∃ date rt, q = (query +:+ (date_clause date +:+ type_clause rt))%string ∧
              from_option date_shape True date ∧ rt = receiver_type ∧
              (rt = None ∨ rt = Some "operator"%string ∨ rt = Some "staker"%string) ∧
              (date = None ↔ timestamp = None)
  | Err e => (into_status e).1 = 500 ∧
             ((∃ ts, timestamp = Some ts ∧ parse_date_filter ts = Err e) ∨
              ∃ rt, receiver_type = Some rt ∧ rt ≠ "operator"%string ∧ rt ≠ "staker"%string)
  | Panic => False
  end.
Proof.
  unfold append_symbiotic_filters.
  assert (∀ q0, match
      (match receiver_type with
       | Some rt => _ ← validate_receiver_type rt; Ok (q0 +:+ " AND address_type = '" +:+ rt +:+ "'")%string
       | None => Ok q0 end : outcome ApiError string) with
    | Ok q => q = (q0 +:+ type_clause receiver_type)%string ∧
              (receiver_type = None ∨ receiver_type = Some "operator"%string ∨ receiver_type = Some "staker"%string)
    | Err e => (into_status e).1 = 500 ∧ ∃ rt, receiver_type = Some rt ∧ rt ≠ "operator"%string ∧ rt ≠ "staker"%string
    | Panic => False end) as Hrt.
  { intros q0. destruct receiver_type as [rt|]; cbn; [|rewrite append_nil; auto].
    unfold validate_receiver_type. case_bool_decide as Hb; cbn.
    - split; [done|]. right. destruct Hb as [-> | ->]; auto.
    - split; [done|]. exists rt. tauto. }
  destruct timestamp as [ts|]; cbn [mbind outcome_bind].
  - destruct (parse_date_filter ts) as [d|e|] eqn:Hd; cbn [mbind outcome_bind].
    + specialize (Hrt (query +:+ " AND date <= '" +:+ d +:+ "'")%string). destruct (match receiver_type with _ => _ end) as [q|e|]; [|naive_solver..].
      destruct Hrt as [-> Hrt]. exists (Some d), receiver_type. cbn [date_clause from_option].
      rewrite !append_assoc. apply parse_date_filter_shape in Hd. naive_solver.
    + split; [|eauto]. unfold parse_date_filter in Hd. case_match; [done|]. by injection Hd as <-.
    + unfold parse_date_filter in Hd. by case_match.
  - specialize (Hrt query). destruct (match receiver_type with _ => _ end) as [q|e|]; [|naive_solver..].
    destruct Hrt as [-> Hrt]. exists None, receiver_type. cbn. naive_solver.
Qed.

(** ** Smaller facts *)

(** The state of the TVL handler is a clone, so nothing a request computes is ever found in
    the cache by a later one. *)
Lemma tvl_never_cached upstreams shared :
  (foldl (λ s u, (serve_tvl s u).1) shared upstreams) = shared.
Proof. induction upstreams as [|[[a b] c] us IH]; [done|]. apply IH. Qed.

(** Scaled by 10^18, points of ten and more do not fit an [i64]. *)
Lemma symbiotic_points_saturate :
  scaled_points (float_of_Z 9) = 9 * 10 ^ 18 ∧
  Forall (λ n, scaled_points (float_of_Z n) = 2 ^ 63 - 1) [10; 11; 100; 1000; 123456; 10 ^ 9].
Proof. split; [vm_compute; reflexivity|]. repeat constructor; vm_compute; reflexivity. Qed.

(** [run] gives up exactly when five subscriptions in a row have failed. *)
Lemma run_monitor_gives_up subs k n : (k < max_retries)%nat → run_monitor subs k = Some n →
  ∃ pre, replicate k false ++ take n subs = pre ++ replicate max_retries false ∧ (n ≤ length subs)%nat.
Proof.
  revert k n. induction subs as [|b subs IH]; intros k n Hk; [done|]. cbn [run_monitor]. destruct b.
  - intros (m & Hm & ->)%fmap_Some. apply (IH 0%nat) in Hm as (pre & Hpre & Hle); [|by unfold max_retries; lia].
    exists (replicate k false ++ true :: pre). cbn in *. rewrite Hpre, <- app_assoc. split; [done|lia].
  - destruct (Nat.leb_spec max_retries (S k)).
    + intros [= <-]. exists []. cbn [take length]. rewrite take_0. split; [|lia].
      change [false] with (replicate 1 false). rewrite <- replicate_add. cbn [app]. f_equal. unfold max_retries in *. lia.
    + intros (m & Hm & ->)%fmap_Some. apply IH in Hm as (pre & Hpre & Hle); [|lia].
      exists pre. cbn [take length]. split; [|lia]. rewrite <- Hpre.
      change (false :: take m subs) with ([false] ++ take m subs). rewrite app_assoc. f_equal.
      change [false] with (replicate 1 false). rewrite <- replicate_add. f_equal. lia.
Qed.

(** ** Examples *)
Module IngesterExamples.

(** Rows come back in reverse. *)
Definition reverse_order : RowOrder := {| scan := @reverse; scan_perm := @reverse_Permutation |}.
Definition toy_codec : KafkaCodec := {|
  peer_text := λ _, "peer"%string; address_text := λ _, "0x"%string; human_key_text := λ _, "k"%string;
  voting_power_text := λ _, "1"%string;
  json_request_info := λ b, Some {| ri_address := b; ri_method := OPRFSecp256k1; ri_served_by_multipliers := [] |};
  json_credits := λ _, None; json_tcp := λ _, None; json_quic := λ _, None; json_quorum := λ _, None;
  chrono_from_timestamp := λ secs _, Some (secs * 1000000) |}.
Definition day (t : Time) : Time := t / DAY * DAY.

Definition alice : Address := replicate 20 1.
Definition bob : Address := replicate 20 2.
Definition log_at (block index : Z) : Log := {|
  log_event := Some (alice, 7, "proof"%string, [], 10003, [2]);
  log_block_number := Some block; log_transaction_hash := Some (replicate 32 block); log_log_index := Some index |}.
Definition env_at (now : Time) (ok : Stmt → bool) : MonitorEnv := {|
  me_active := λ _, Some [(1, alice); (2, bob)]; me_payment := λ _, None;
  me_task_data := λ _, Some (1000, [alice]); me_now := now; me_pool_get := true; me_ok := ok |}.
Definition all_ok : Stmt → bool := λ _, true.
Definition fails_late (s : Stmt) : bool := match s with InsertAttestorPoints => false | _ => true end.
Definition request_message (key : string) (secs : Z) : KafkaMessage := {|
  km_topic := "requests"; km_key := Some key; km_payload := Some alice; km_timestamp := CreateTime (secs * 1000) |}.

(** Two tasks on two days; the second fails late, is delivered again and then redelivered. *)
Definition steps : list IngesterStep :=
  [LogArrives (env_at 100 all_ok) (log_at 5 0);
   KafkaArrives all_ok 101 true (request_message "r1" 10);
   DailyUpdate true all_ok;
   LogArrives (env_at (DAY + 100) fails_late) (log_at 6 1);
   LogArrives (env_at (DAY + 200) all_ok) (log_at 6 1);
   LogArrives (env_at (DAY + 300) all_ok) (log_at 6 1)].
Definition final : Db := mon_db (ingester_run (KC:=toy_codec) (RO:=reverse_order) day steps).

Definition event_of (log : Log) : TaskSubmittedEvent :=
  match from_log log with
  | Ok ev => ev <| ev_task_size := 1000 |> <| ev_performers := [alice] |> <| ev_attester_addresses := [bob] |>
  | _ => {| ev_operator := []; ev_task_number := 0; ev_proof_of_task := "x"; ev_data := []; ev_task_size := 0;
            ev_performers := []; ev_task_definition_id := 0; ev_attesters_ids := []; ev_attester_addresses := [];
            ev_block_number := 0; ev_transaction_hash := []; ev_log_index := 0 |}
  end.
Definition accepted : list Accepted :=
  [{| ac_id := 1; ac_now := 100; ac_ev := event_of (log_at 5 0) |};
   {| ac_id := 3; ac_now := DAY + 200; ac_ev := event_of (log_at 6 1) |}].

Lemma final_represents : represents accepted final.
Proof.
  split; try (vm_compute; reflexivity).
  - repeat constructor; vm_compute; reflexivity.
  - apply (bool_decide_unpack _). vm_compute. exact I.
  - split; apply (bool_decide_unpack _); vm_compute; exact I.
  - apply (bool_decide_unpack _). vm_compute. exact I.
Qed.
Lemma accepted_exact : exact_sizes accepted.
Proof. split; [|vm_compute; reflexivity]. repeat constructor; vm_compute; try reflexivity; discriminate. Qed.

Definition quiet : ApiEnv := {| api_pool_get := true; query_ok := λ _, true; db_text := "x"; api_now := 0 |}.

(** Alice performed both tasks and bob attested them. *)
Lemma points_endpoints_agree_witness :
  ∃ r1 r2 r3,
    get_operator_points (RO:=reverse_order) (HO:=map_to_list_order) quiet final = Ok r1 ∧
    get_operator_points_v2 (RO:=reverse_order) quiet final = Ok r2 ∧
    get_operator_points_v3 (RO:=reverse_order) quiet
      (update_operator_points_daily (RO:=reverse_order) day true all_ok final).1 = Ok r3 ∧
    data r1 ≡ₚ data r2 ∧ data r1 ≡ₚ data r3 ∧ scores accepted =
      [{| op_address := format_address alice; op_points := float_of_Z 2000 |};
       {| op_address := format_address bob; op_points := float_of_Z 200 |}].
Proof.
  destruct (points_endpoints_agree (KC:=toy_codec) (RO:=reverse_order) (HO:=map_to_list_order) day steps quiet all_ok)
    as [_ H].
  destruct (H accepted final_represents accepted_exact) as (r1 & r2 & r3 & H1 & H2 & H3 & P1 & P2 & P3);
    [by split|done|].
  exists r1, r2, r3. split; [done|]. split; [done|]. split; [done|].
  split; [by rewrite P1, P2|]. split; [by rewrite P1, P3|]. vm_compute. reflexivity.
Defined.

(** A failure of the fifth statement records nothing; the redelivery is refused. *)
Lemma ingest_refines_log_witness :
  represents [] (ingest fails_late true 50 (event_of (log_at 5 0)) empty_Db).1 ∧
  represents [{| ac_id := 1; ac_now := 50; ac_ev := event_of (log_at 5 0) |}]
    (ingest all_ok true 50 (event_of (log_at 5 0)) empty_Db).1.
Proof.
  pose proof (ingest_refines_log fails_late true 50 (event_of (log_at 5 0)) empty_Db [] represents_empty) as H1.
  pose proof (ingest_refines_log all_ok true 50 (event_of (log_at 5 0)) empty_Db [] represents_empty) as H2.
  split.
  - destruct (ingest fails_late _ _ _ _) as [db r] eqn:E. destruct H1 as [[(-> & _)|(_ & H1)] _]; [|done].
    exfalso. apply (f_equal snd) in E. vm_compute in E. discriminate.
  - destruct (ingest all_ok _ _ _ _) as [db r] eqn:E. destruct H2 as [[(_ & _ & H2)|([e ->] & _)] _]; [done|].
    exfalso. apply (f_equal snd) in E. vm_compute in E. discriminate.
Defined.

(** Three requests in pages of two. *)
Definition three_requests : Db := mon_db (ingester_run (KC:=toy_codec) (RO:=reverse_order) day
  [KafkaArrives all_ok 1 true (request_message "r1" 10);
   KafkaArrives all_ok 2 true (request_message "r2" 30);
   KafkaArrives all_ok 3 true (request_message "r3" 20)]).
Lemma requests_pages_partition_witness :
  (∃ answers, length answers = 2%nat ∧
     rr_request_id <$> concat ((λ r, items (data r)) <$> answers) = ["r2"; "r3"; "r1"]%string) ∧
  ∃ msg, get_requests (RO:=reverse_order) quiet {| page := 3; page_size := 2 |} three_requests = Err (InvalidPagination msg).
Proof.
  destruct (requests_pages_partition (RO:=reverse_order) quiet 2 three_requests) as [(answers & HF & HC) (_ & _ & Herr)];
    [by split|lia|vm_compute; reflexivity|discriminate|].
  split.
  - exists answers. split; [|rewrite HC; vm_compute; reflexivity].
    rewrite <- (Forall2_length _ _ _ HF). vm_compute. reflexivity.
  - destruct (Herr 3) as (msg & Hm & _); [vm_compute; reflexivity|]. by exists msg.
Defined.
End IngesterExamples.
