(* ===== verification/Kafka.v ===== *)
(** * Kafka: from the relay to the ingester's tables (messages/src/kafka.rs)

    The producer of the relay and the consumer of the ingester, with the records that the relay
    sends and the loop that takes them into the database.  The brokers are a state [B] behind
    [rdkafka]; JSON texts are a parameter.  The theorem composes the relay, the producer, the
    consumer and the tables: a request that the network served is reported once. *)
From Stdlib Require Import ZArith Lia Ascii String Zmod.
From stdpp Require Import base list gmap sets strings pretty.
From S2P Require Import Prelude Float64 PrimeField Curve ModelCurve Polynomial Dleq Serialization Request NodeSelection Messages Election AppState AppStateProofs Rpc System.
From S2P Require Import SignerProofs ElectionProofs SystemExamples Ingester.

(** ** Producer and consumer *)

#[export] Instance KafkaTopic_eq_dec : EqDecision KafkaTopic.
Proof. solve_decision. Defined.

Definition TOPIC_REPLICATION : Z := 1.
Definition TOPIC_NUM_PARTITIONS : Z := 1.
Definition ClientConfig : Type := list (string * string).

(** What can be serialized for a topic. *)
Inductive Payload :=
  | PRequest (info : RequestInfo)
  | PCredits (credits : UserCreditsByMethod)
  | PTcp (status : PeerReachabilityTCPStatus)
  | PQuic (status : PeerReachabilityQuicStatus)
  | PQuorum (info : QuorumResharingInfo).
Record FutureRecord := { fr_topic : string; fr_key : string; fr_payload : list Z }.

(** [serde_json::to_vec]. *)
Class KafkaEncoder := { to_json : Payload → option (list Z) }.
(** [rdkafka]: making a client, and what clients do to the brokers. *)
Class Rdkafka (B : Type) := {
  create_client : ClientConfig → outcome string ();
  create_topics : string → Z → Z → B → B * bool;
  producer_send : FutureRecord → B → B * bool;
  consumer_subscribe : list string → outcome string ()
}.

Record KafkaProducer := { producer : ClientConfig; admin_client : ClientConfig }.
Record KafkaConsumer := { consumer : ClientConfig }.

Section Clients.
Context {B : Type} `{RK : Rdkafka B} `{KE : KafkaEncoder}.

Definition KafkaProducer_new (brokers : string) : outcome string KafkaProducer :=
  let producer := [("bootstrap.servers", brokers); ("message.timeout.ms", "5000"); ("acks", "all");
                   ("queue.buffering.max.messages", "1000000"); ("queue.buffering.max.kbytes", "1048576");
                   ("compression.type", "lz4")]%string in
  _ ← create_client producer;
  let admin_client := [("bootstrap.servers"%string, brokers)] in
  _ ← create_client admin_client;
  Ok {| producer := producer; admin_client := admin_client |}.

Definition REGISTERED_TOPICS : list KafkaTopic :=
  [TopicQuorumResharingStatus; TopicRequests; TopicCredits; TopicPeerReachabilityTCP; TopicPeerReachabilityQUIC].
(** A topic that cannot be created is logged. *)
Definition new_with_topic_registration (brokers : string) (b : B) : B * outcome string KafkaProducer :=
  match KafkaProducer_new brokers with
  | Ok p =>
      (foldl (λ b topic, (create_topics (topic_as_str topic) TOPIC_NUM_PARTITIONS TOPIC_REPLICATION b).1)
         b REGISTERED_TOPICS, Ok p)
  | r => (b, r)
  end.

(** [KafkaProducer::send]: failures are logged, and nothing is sent again. *)
Definition send (topic : KafkaTopic) (key : string) (payload : Payload) (b : B) : B :=
  match to_json payload with
  | Some payload_bytes =>
      (producer_send {| fr_topic := topic_as_str topic; fr_key := key; fr_payload := payload_bytes |} b).1
  | None => b
  end.

Definition KafkaConsumer_new (brokers group_id : string) : outcome string KafkaConsumer :=
  let consumer := [("bootstrap.servers", brokers); ("group.id", group_id); ("enable.auto.commit", "true");
                   ("auto.offset.reset", "earliest"); ("enable.partition.eof", "false");
                   ("session.timeout.ms", "6000")]%string in
  _ ← create_client consumer;
  Ok {| consumer := consumer |}.
Definition subscribe (topics : list KafkaTopic) : outcome string () :=
  consumer_subscribe (topic_as_str <$> topics).
End Clients.

(** ** The ingester's loop (ingester/src/main.rs) *)

(** An item of the stream: a message with what the database does meanwhile, or an error. *)
Record Delivery := { d_pool : bool; d_ok : Stmt → bool; d_now : Z; d_msg : KafkaMessage }.
Inductive StreamItem := Received (d : Delivery) | StreamError (e : string).

Definition INGESTED_TOPICS : list KafkaTopic :=
  [TopicPeerReachabilityQUIC; TopicPeerReachabilityTCP; TopicQuorumResharingStatus; TopicRequests; TopicCredits].

Section Loop.
Context {B : Type} `{RK : Rdkafka B} `{KC : KafkaCodec}.
Definition ingest_item (db : Db) (item : StreamItem) : Db :=
  match item with
  | Received d => ingest_kafka_message (d_ok d) (d_now d) (d_pool d) (d_msg d) db
  | StreamError _ => db
  end.
Definition ingest_kafka_messages (items : list StreamItem) (db : Db) : Db * outcome string () :=
  match unwrap_res (E:=string) (subscribe (RK:=RK) INGESTED_TOPICS) with
  | Ok _ => (foldl ingest_item db items, Ok tt)
  | r => (db, r)
  end.
End Loop.

(** ** The records of the relay *)
Section Records.
Context (CS CB : Curve) `{E : Eth} {F : Type} {B : Type} `{RK : Rdkafka B} `{KE : KafkaEncoder}.

(** What [kafka.send] is given when a request is answered, when one is charged, and when a
    quorum is formed or given up. *)
Definition request_record (request_id : string) (m : Method) (user : Address) (served : list PeerId)
    : KafkaTopic * string * Payload :=
  (TopicRequests, request_id, PRequest {| ri_address := user; ri_method := m; ri_served_by_multipliers := served |}).
Definition credit_record (c : KafkaCredits) : KafkaTopic * string * Payload :=
  let '(user, m, n) := c in
  (TopicCredits, ("0x" +:+ hex_encode user)%string, PCredits {| ucm_method := m; ucm_exhausted_credits := n |}).
Definition quorum_record (success : bool) (multipliers : list ProverInfo) : KafkaTopic * string * Payload :=
  (TopicQuorumResharingStatus, "current_quorum"%string,
   PQuorum {| qi_multipliers := multipliers; qi_success := success |}).

Definition relay_record (x : AppOutput CS CB F) : option (KafkaTopic * string * Payload) :=
  match x with
  | KafkaRequestInfo request_id m user served => Some (request_record request_id m user served)
  | KafkaCredit c => Some (credit_record c)
  | KafkaQuorum success multipliers => Some (quorum_record success multipliers)
  | _ => None
  end.
Definition send_output (b : B) (x : AppOutput CS CB F) : B :=
  match relay_record x with
  | Some (topic, key, payload) => send topic key payload b
  | None => b
  end.
Definition send_outputs (o : list (AppOutput CS CB F)) (b : B) : B := foldl send_output b o.

(** The record as it lies in the log. *)
Definition encoded (x : AppOutput CS CB F) : option FutureRecord :=
  '(topic, key, payload) ← relay_record x;
  bytes ← to_json payload;
  Some {| fr_topic := topic_as_str topic; fr_key := key; fr_payload := bytes |}.

Lemma sent_log (log : B → list FutureRecord) :
  (∀ rec b, log (producer_send rec b).1 = log b ++ [rec]) →
  ∀ o b, log (send_outputs o b) = log b ++ omap encoded o.
Proof.
  intros Hs. induction o as [|x o IH]; intros b; cbn; [by rewrite app_nil_r|]. fold (send_outputs o (send_output b x)).
  rewrite IH. unfold send_output, encoded, send. destruct (relay_record x) as [[[topic key] payload]|]; cbn; [|done].
  destruct (to_json payload) as [bytes|]; cbn; [|done]. by rewrite Hs, <- app_assoc.
Qed.
End Records.

(** ** What the tables say about a request *)
Section Recorded.
Context `{KC : KafkaCodec} (id : string).
Implicit Types (db : Db) (d : Delivery) (info : RequestInfo).

Definition recorded db : list (string * string) * list string :=
  ((λ r, (rq_user_address r, rq_method r)) <$> filter (λ r, rq_request_id r = id) (rows (requests db)),
   sr_multiplier_peer_id <$> filter (λ r, sr_request_id r = id) (rows (multiplier_served_requests db))).

Definition keeps {A} (m : Sql A) : Prop := ∀ db, recorded (m db).1 = recorded db.
Lemma keeps_bind {A A'} (m : Sql A) (k : A → Sql A') : keeps m → (∀ a, keeps (k a)) → keeps (m ≫= k).
Proof.
  intros Hm Hk db. unfold mbind, sql_bind. specialize (Hm db).
  destruct (m db) as [db1 [a|e|]]; cbn in *; [by rewrite Hk|done..].
Qed.
Lemma keeps_exec ok s : keeps (exec ok s).
Proof. intros db. unfold exec. by destruct (ok s). Qed.
Lemma keeps_modify f : (∀ db, recorded (f db) = recorded db) → keeps (sql_modify f).
Proof. intros H db. apply H. Qed.
Lemma keeps_each {A} (f : nat → A → Sql unit) l : (∀ i a, keeps (f i a)) → ∀ i, keeps (sql_each f i l).
Proof.
  intros Hf. induction l as [|a l IH]; intros i; cbn; [by intros db|]. apply keeps_bind; [apply Hf|]. auto.
Qed.
Ltac keep := repeat first
  [ apply keeps_bind; [|intros ?] | apply keeps_exec | apply keeps_each; intros ? ?
  | by apply keeps_modify | by intros ? | case_match ].

(** Another request's message. *)
Lemma other_request ok now ts key info : key ≠ id → keeps (ingest_request ok now ts key info).
Proof.
  intros Hne. unfold ingest_request, insert_request, insert_served. keep.
  - apply keeps_modify. intros db. unfold recorded. cbn. rewrite filter_app, filter_cons_False by done.
    by rewrite filter_nil, app_nil_r.
  - apply keeps_modify. intros db. unfold recorded. cbn. rewrite filter_app, filter_cons_False by done.
    by rewrite filter_nil, app_nil_r.
Qed.

Lemma other_credits ok now ts key x : keeps (ingest_credits ok now ts key x).
Proof. unfold ingest_credits. keep. Qed.
Lemma other_tcp ok now ts key x : keeps (ingest_tcp ok now ts key x).
Proof. unfold ingest_tcp. keep. Qed.
Lemma other_quic ok now ts key x : keeps (ingest_quic ok now ts key x).
Proof. unfold ingest_quic. keep. Qed.
Lemma other_quorum ok now ts x : keeps (ingest_quorum ok now ts x).
Proof. unfold ingest_quorum, insert_multiplier. keep. Qed.

Lemma known db : existsb (λ r, bool_decide (rq_request_id r = id)) (rows (requests db)) = true ↔ (recorded db).1 ≠ [].
Proof.
  unfold recorded. cbn. rewrite existsb_exists. split.
  - intros (r & Hr%list_elem_of_In & Hid%bool_decide_eq_true) H%fmap_nil_inv.
    assert (r ∈ filter (λ r, rq_request_id r = id) (rows (requests db))) as Hin by (by apply list_elem_of_filter).
    rewrite H in Hin. by apply not_elem_of_nil in Hin.
  - intros H. destruct (filter (λ r, rq_request_id r = id) (rows (requests db))) as [|r l] eqn:Hf; [done|].
    assert (r ∈ filter (λ r, rq_request_id r = id) (rows (requests db))) as [Hid Hr]%list_elem_of_filter by (rewrite Hf; left).
    exists r. split; [by apply list_elem_of_In|by apply bool_decide_eq_true].
Qed.

(** A request that is recorded stays as it is. *)
Lemma repeated_request ok now ts info db : (recorded db).1 ≠ [] →
  recorded (ingest_request ok now ts id info db).1 = recorded db.
Proof.
  intros Hk%known. unfold ingest_request, insert_request, mbind, sql_bind, exec, sql_get.
  destruct (ok InsertRequest); cbn; [|done]. by rewrite Hk.
Qed.

(** Who is stored before the first statement that fails. *)
Fixpoint stored (ok : Stmt → bool) (i : nat) (l : list PeerId) : list PeerId :=
  match l with
  | [] => []
  | peer :: l => if ok (InsertServed i) then peer :: stored ok (S i) l else []
  end.
Lemma stored_all ok l : (∀ i, ok (InsertServed i) = true) → ∀ i, stored ok i l = l.
Proof. intros Hok. induction l as [|a l IH]; intros i; cbn; [done|]. by rewrite Hok, IH. Qed.

Lemma served_rows ok now ts l : ∀ i db, (recorded db).1 ≠ [] →
  recorded (sql_each (insert_served ok now ts id) i l db).1
  = ((recorded db).1, (recorded db).2 ++ (peer_text <$> stored ok i l)).
Proof.
  induction l as [|peer l IH]; intros i db Hk; [cbn; by rewrite app_nil_r|].
  cbn [sql_each stored]. unfold mbind at 1, sql_bind at 1. unfold insert_served at 1, mbind, sql_bind, exec, sql_get.
  destruct (ok (InsertServed i)); [|cbn; by rewrite app_nil_r].
  unfold mret, sql_ret. rewrite (proj2 (known db) Hk). unfold sql_modify at 1. rewrite IH by exact Hk. unfold recorded. cbn. f_equal.
  rewrite filter_app, filter_cons_True by done. rewrite filter_nil, fmap_app, <- app_assoc. done.
Qed.

(** The first message about a request. *)
Lemma first_request ok now ts info db : recorded db = ([], []) → ok InsertRequest = true →
  recorded (ingest_request ok now ts id info db).1
  = ([(address_text (ri_address info), method_as_str (ri_method info))],
     peer_text <$> stored ok 0 (ri_served_by_multipliers info)).
Proof.
  intros Hdb Hok. assert (existsb (λ r, bool_decide (rq_request_id r = id)) (rows (requests db)) = false) as Hd.
  { apply not_true_iff_false. rewrite known, Hdb. by intros []. }
  unfold ingest_request, insert_request, mbind, sql_bind, exec, sql_get. rewrite Hok. unfold mret, sql_ret. rewrite Hd.
  unfold sql_modify at 1.
  match goal with |- context [sql_each _ 0 _ ?db'] => set (db1 := db') end.
  assert (recorded db1 = ([(address_text (ri_address info), method_as_str (ri_method info))], [])) as H1.
  { unfold recorded in Hdb |- *. injection Hdb as Ha Hb. unfold db1. cbn. f_equal; [|done].
    rewrite filter_app, filter_cons_True by done. rewrite filter_nil, fmap_app, Ha. done. }
  rewrite served_rows by (rewrite H1; done). by rewrite H1.
Qed.

(** ** The loop *)
Definition about d : Prop :=
  topic_from_str (km_topic (d_msg d)) = Some TopicRequests ∧ default "no key"%string (km_key (d_msg d)) = id.
#[local] Instance about_dec d : Decision (about d) := and_dec _ _.
(** The message reaches the table. *)
Definition reaches d : bool := d_pool d && d_ok d InsertRequest.
Definition carries info d : Prop := km_payload (d_msg d) ≫= json_request_info = Some info.

Lemma not_about d db : ¬ about d → recorded (ingest_item db (Received d)) = recorded db.
Proof.
  intros Hn. cbn. unfold ingest_kafka_message. destruct (d_pool d); [|done].
  destruct (topic_from_str _) as [[]|] eqn:Ht; try done; (destruct (km_payload _ ≫= _) as [x|]; [|done]).
  - apply other_request. intros Hid. by apply Hn.
  - apply other_credits.
  - apply other_tcp.
  - apply other_quic.
  - apply other_quorum.
Qed.

Lemma about_ingested d db info : about d → carries info d → reaches d = true →
  ingest_item db (Received d) = (ingest_request (d_ok d) (d_now d) (kafka_timestamp (km_timestamp (d_msg d))) id info db).1.
Proof.
  intros [Ht Hk] Hc [Hp _]%andb_true_iff. cbn. unfold ingest_kafka_message. by rewrite Hp, Ht, Hc, Hk.
Qed.
Lemma not_reaching d db : about d → reaches d = false → recorded (ingest_item db (Received d)) = recorded db.
Proof.
  intros [Ht Hk] Hr. cbn. unfold ingest_kafka_message. rewrite Ht, Hk. unfold reaches in Hr.
  destruct (d_pool d); [|done]. destruct (km_payload _ ≫= _) as [x|]; [|done]. cbn in Hr.
  unfold ingest_request, insert_request, mbind, sql_bind, exec. by rewrite Hr.
Qed.

(** Nothing that is delivered later changes a record. *)
Lemma item_keeps item db : (recorded db).1 ≠ [] → recorded (ingest_item db item) = recorded db.
Proof.
  intros Hk. destruct item as [d|e]; [|done]. destruct (decide (about d)) as [[Ht Hid]|Hn]; [|by apply not_about].
  cbn. unfold ingest_kafka_message. rewrite Ht, Hid. destruct (d_pool d); [|done].
  destruct (km_payload _ ≫= _) as [x|]; [|done]. by apply repeated_request.
Qed.
Lemma items_keep items : ∀ db, (recorded db).1 ≠ [] → recorded (foldl ingest_item db items) = recorded db.
Proof.
  induction items as [|item items IH]; intros db Hk; [done|]. cbn [foldl].
  rewrite IH; rewrite item_keeps by done; done.
Qed.

(** However often the messages about a request are delivered, and whatever else is, it is
    recorded by the first one that reaches the table. *)
Lemma recorded_once info items : (∀ d, Received d ∈ items → about d → carries info d) →
  (∃ d, Received d ∈ items ∧ about d ∧ reaches d = true) → ∀ db, recorded db = ([], []) →
  ∃ d, Received d ∈ items ∧ about d ∧ reaches d = true ∧
    recorded (foldl ingest_item db items)
    = ([(address_text (ri_address info), method_as_str (ri_method info))],
       peer_text <$> stored (d_ok d) 0 (ri_served_by_multipliers info)).
Proof.
  induction items as [|item items IH]; intros Hc Hex db Hdb; [destruct Hex as (? & []%not_elem_of_nil & _)|].
  cbn [foldl].
  assert ((∃ d, item = Received d ∧ about d ∧ reaches d = true) ∨ ¬ (∃ d, item = Received d ∧ about d ∧ reaches d = true))
    as [(d & -> & Ha & Hr)|Hno].
  { destruct item as [d|e]; [|right; by intros (? & ? & _)].
    destruct (decide (about d ∧ reaches d = true)) as [?|Hn]; [left; by exists d|right].
    by intros (? & [= <-] & ?). }
  - exists d. split; [left|]. split_and!; [done..|]. pose proof Hr as [_ Hok]%andb_true_iff.
    assert (carries info d) as Hd by (apply Hc; [left|done]).
    assert (recorded (ingest_item db (Received d)) = ([(address_text (ri_address info), method_as_str (ri_method info))],
      peer_text <$> stored (d_ok d) 0 (ri_served_by_multipliers info))) as H1
      by (rewrite (about_ingested d db info) by done; by apply first_request).
    rewrite items_keep by (rewrite H1; done). done.
  - assert (recorded (ingest_item db item) = ([], [])) as H1.
    { rewrite <- Hdb. destruct item as [d|e]; [|done]. destruct (decide (about d)) as [Ha|Ha]; [|by apply not_about].
      apply not_reaching; [done|]. destruct (reaches d) eqn:Hr; [|done]. destruct Hno. by exists d. }
    destruct (IH) with (db := ingest_item db item) as (d & Hin & Hd); [| |done|].
    + intros d Hd. apply Hc. by right.
    + destruct Hex as (d & [Heq|Hin]%elem_of_cons & Ha & Hr); [destruct Hno; by exists d|by exists d].
    + exists d. split; [by right|done].
Qed.
End Recorded.

(** ** From the request to the tables *)

(** The consumer's contract: only records of the log are delivered, any number of times and in
    any order, and those of a subscribed topic at least once while the database takes the
    message; a message that reaches its table is not cut off. *)
Definition of_record (rec : FutureRecord) (d : Delivery) : Prop :=
  km_topic (d_msg d) = fr_topic rec ∧ km_key (d_msg d) = Some (fr_key rec) ∧ km_payload (d_msg d) = Some (fr_payload rec).
Definition delivered (log : list FutureRecord) (items : list StreamItem) : Prop :=
  (∀ d, Received d ∈ items → ∃ rec, rec ∈ log ∧ of_record rec d) ∧
  (∀ rec, rec ∈ log → fr_topic rec ∈ topic_as_str <$> INGESTED_TOPICS →
    ∃ d, Received d ∈ items ∧ of_record rec d ∧ reaches d = true) ∧
  (∀ d, Received d ∈ items → reaches d = true → ∀ i, d_ok d (InsertServed i) = true).

Section Reported.
Context (CS CB : Curve) {CL : CurveLaws CS} `{HH : Hashes} `{E : Eth} `{J : !Jwt}
  `{RC : !RequestCodec CB CS} `{RG : Rng} `{FL : !F64} `{TF : !ThresholdFloat} `{DR : Drand} `{AT : !AppTexts}.
Context (relay_order : HashOrder) (prover_order : PeerId → HashOrder).
Context {B : Type} `{RK : Rdkafka B} `{KE : KafkaEncoder} `{KC : KafkaCodec} (log : B → list FutureRecord).
Hypothesis H_send : ∀ rec b, log (producer_send rec b).1 = log b ++ [rec].
Hypothesis H_json : ∀ info, ∃ bytes, to_json (PRequest info) = Some bytes ∧ json_request_info bytes = Some info.
Hypothesis H_subscribe : consumer_subscribe (Rdkafka:=RK) (topic_as_str <$> INGESTED_TOPICS) = Ok tt.

(** One record about a request in the log is recorded once. *)
Lemma logged_recorded id info bytes recs items db : json_request_info bytes = Some info →
  {| fr_topic := topic_as_str TopicRequests; fr_key := id; fr_payload := bytes |} ∈ recs →
  (∀ rec, rec ∈ recs → fr_topic rec = topic_as_str TopicRequests → fr_key rec = id → fr_payload rec = bytes) →
  delivered recs items → recorded id db = ([], []) →
  recorded id (foldl ingest_item db items)
  = ([(address_text (ri_address info), method_as_str (ri_method info))], peer_text <$> ri_served_by_multipliers info).
Proof using.
  intros Hjson Hin Huniq (Hfrom & Hall & Hcomplete) Hdb.
  assert (∀ s, topic_from_str s = Some TopicRequests → s = topic_as_str TopicRequests) as Htopic.
  { intros s. unfold topic_from_str. repeat case_bool_decide; by intros [=]. }
  destruct (recorded_once id info items) with (db := db) as (d & Hd & _ & Hr & ->); [| |done|].
  - intros d Hd [Ht%Htopic Hk]. destruct (Hfrom d Hd) as (rec & Hrec & Hrt & Hrk & Hrp). unfold carries.
    rewrite Hrp. cbn. rewrite (Huniq rec); [done|done|congruence|]. rewrite Hrk in Hk. done.
  - destruct (Hall _ Hin) as (d & Hd & (Ht & Hk & _) & Hr); [apply (bool_decide_unpack _); vm_compute; exact I|].
    exists d. split_and!; [done| |done]. split; [by rewrite Ht|by rewrite Hk].
  - by rewrite stored_all by eauto.
Qed.

Lemma credits_records (credits : list KafkaCredits) rec :
  rec ∈ omap (encoded CS CB (F:=f64)) (KafkaCredit <$> credits) → fr_topic rec = topic_as_str TopicCredits.
Proof using.
  intros (x & Hx & Hrec)%list_elem_of_omap. apply list_elem_of_fmap in Hx as ([[usr m] n] & -> & _).
  cbn in Hrec. destruct (to_json _); [|done]. by injection Hrec as <-.
Qed.

(** C8: A served request is reported.  A relay with a ready quorum takes a signed request with
    credits left, and the provers that it chose answer in some order.  The outputs of this run,
    sent to Kafka and consumed by the ingester in any order, with any repetitions, between any
    other messages of the log and stream errors, leave exactly one row for the request, with the
    signer's address and the method, and one row for each of the [t] provers whose answers came
    first. *)
Theorem served_request_reported request_id (request : RequestToNetwork) (X : Point (Curve:=CS))
    (p : Polynomial (FieldEl (Curve:=CS))) node_idx r w env hash usr incr counters' credits envs provers b db :
  method request = OPRFSecp256k1 ∨ method request = JWTPRFSecp256k1 →
  from_encoded (Request.point request) = Ok X → in_subgroup X → X ≠ ZERO →
  node_state w = Some (Relay r) → relay_quorum CS request p node_idx r →
  (∀ a, a ∈ active_provers r →
    serving_prover CS CB request p node_idx r a (envs (peer_id a)) (provers (peer_id a))) →
  epoch request = current_epoch (rl_common r) →
  req_cache r !! request_id = None ∧ res_cache r !! request_id = None →
  request_hash_of request = Some hash ∧ (hash ∉ batch_cache r) →
  recover CB CS request = Ok usr →
  account_request_from_signer CB CS request true (counters (redis (rl_common r)))
    = Ok (incr, counters', credits) →
  0 ≤ batch_size r + incr < TASK_SIZE →
  ae_redis env GetProofs = true ∧ ae_redis env SetProofs = true →
  (∀ pr : DLEQProof (C:=CS), is_Some (proof_to_json CS pr)) →
  Z.of_nat (length (coefficients p)) ≤ rl_t r → eval p 0%F ≠ 0%F →
  (∀ a, a ∈ active_provers r → node_idx a = idx a) →
  (∀ rec, rec ∈ log b → fr_topic rec = topic_as_str TopicRequests → fr_key rec ≠ request_id) →
  recorded request_id db = ([], []) →
  ∃ chosen, Z.of_nat (length chosen) = rl_t r + rl_epsilon r ∧ chosen ⊆ active_provers r ∧
    ∀ order, order ≡ₚ chosen → ∃ w2 o,
      app_run CS CB (HO:=relay_order) (F:=f64) env
        (MulRequest request request_id :: arrivals CS CB prover_order request_id request envs provers order) w
      = (w2, o, HOk) ∧
      ∀ items, delivered (log (send_outputs CS CB (F:=f64) o b)) items → ∃ db',
        ingest_kafka_messages (RK:=RK) items db = (db', Ok tt) ∧
        recorded request_id db'
        = ([(address_text usr, method_as_str (method request))],
           (λ a, peer_text (peer_id a)) <$> take (Z.to_nat (rl_t r)) order).
Proof using All.
  intros Hm HX Hsub HX0 Hw Hq Hsp Hep Hfresh Hhash Husr Hacc Hbatch Hredis Hjson Hdeg Hsec Hidx Hb Hdb.
  destruct (network_serves CS CB relay_order prover_order request_id request X p node_idx Hm HX Hsub HX0 r w env hash
    usr incr counters' credits envs provers) as (w1 & chosen & Hrun & Hlen & Hin & Hserve); try done.
  exists chosen. split_and!; [done..|]. intros order Ho. destruct (Hserve order Ho) as (w2 & info & [Hrun2 Hinfo] & _).
  specialize (Hinfo Hidx). subst info. eexists _, _. split; [cbn [app_run]; rewrite Hrun, Hrun2; reflexivity|].
  intros items. rewrite sent_log by done. intros Hdel. eexists. split.
  { unfold ingest_kafka_messages, subscribe. by rewrite H_subscribe. }
  set (info := {| ri_address := usr; ri_method := method request;
                  ri_served_by_multipliers := peer_id <$> take (Z.to_nat (rl_t r)) order |}).
  destruct (H_json info) as (bytes & Hto & Hfrom).
  erewrite (logged_recorded request_id info bytes _ items db Hfrom); [| | |exact Hdel|exact Hdb].
  - unfold info. cbn. by rewrite <- list_fmap_compose.
  - rewrite !omap_app, !elem_of_app. right. right. cbn. unfold encoded. cbn. fold info. rewrite Hto. cbn. left.
  - intros rec. rewrite !omap_app, !elem_of_app. intros [Hrec|[[Hrec|Hrec]|Hrec]] Ht Hk.
    + by destruct (Hb rec Hrec Ht).
    + apply credits_records in Hrec. by rewrite Hrec in Ht.
    + cbn in Hrec. by apply not_elem_of_nil in Hrec.
    + cbn in Hrec. unfold encoded in Hrec. cbn in Hrec. fold info in Hrec. rewrite Hto in Hrec. cbn in Hrec.
      apply list_elem_of_singleton in Hrec. by subst rec.
Qed.
End Reported.

(** ** The network of [SystemExamples], with every record delivered twice *)
Module KafkaExamples.
Import ModelCurve.ModelInstances SmallNetwork.
#[local] Existing Instance NodeSelection.Examples.toy_rng.
#[local] Existing Instance NodeSelection.Examples.toy_f64.
#[local] Existing Instance ElectionExamples.toy_threshold.
#[local] Existing Instance ElectionExamples.toy_drand.
#[local] Existing Instance RequestExamples.toy_eth.
#[local] Existing Instance RequestExamples.toy_jwt.
#[local] Existing Instance RequestExamples.toy_codec.
#[local] Existing Instance SmallNetwork.toy_texts.
Abbreviation mc := model_curve.

Definition methods : list Method := [OPRFSecp256k1; OPRFBabyJubJub; DecryptBabyJubJub; JWTPRFSecp256k1].
Definition method_code (m : Method) : Z :=
  match m with OPRFSecp256k1 => 0 | OPRFBabyJubJub => 1 | DecryptBabyJubJub => 2 | JWTPRFSecp256k1 => 3 end.
Definition request_json (bytes : list Z) : option RequestInfo :=
  match bytes with
  | code :: n :: bytes =>
      m ← methods !! Z.to_nat code;
      Some {| ri_address := take (Z.to_nat n) bytes; ri_method := m; ri_served_by_multipliers := drop (Z.to_nat n) bytes |}
  | _ => None
  end.
#[local] Instance toy_encoder : KafkaEncoder := {|
  to_json payload := match payload with
    | PRequest info => Some (method_code (ri_method info) :: Z.of_nat (length (ri_address info))
                               :: ri_address info ++ ri_served_by_multipliers info)
    | _ => Some []
    end |}.
#[local] Instance toy_kafka_codec : KafkaCodec := {|
  peer_text peer := pretty peer; address_text := hex_encode; human_key_text _ := "k"%string;
  voting_power_text _ := "1"%string; json_request_info := request_json; json_credits _ := None; json_tcp _ := None;
  json_quic _ := None; json_quorum _ := None; chrono_from_timestamp secs _ := Some (secs * 1000000) |}.
#[local] Instance toy_rdkafka : Rdkafka (list FutureRecord) := {|
  create_client _ := Ok tt; create_topics _ _ _ b := (b, true); producer_send rec b := (b ++ [rec], true);
  consumer_subscribe _ := Ok tt |}.

Definition delivery (rec : FutureRecord) : Delivery := {|
  d_pool := true; d_ok _ := true; d_now := 7;
  d_msg := {| km_topic := fr_topic rec; km_key := Some (fr_key rec); km_payload := Some (fr_payload rec);
              km_timestamp := NotAvailable |} |}.
Definition twice (log : list FutureRecord) : list StreamItem :=
  mjoin ((λ rec, [Received (delivery rec); StreamError "broker down"; Received (delivery rec)]) <$> log).

Lemma twice_from log d : Received d ∈ twice log → ∃ rec, rec ∈ log ∧ d = delivery rec.
Proof.
  unfold twice. intros (l & Hd & Hl)%list_elem_of_join. apply list_elem_of_fmap in Hl as (rec & -> & Hrec). exists rec.
  split; [done|]. repeat (apply elem_of_cons in Hd as [Heq|Hd]; [by simplify_eq|]). by apply not_elem_of_nil in Hd.
Qed.
Lemma twice_delivered log : delivered log (twice log).
Proof.
  split_and!.
  - intros d (rec & Hrec & ->)%twice_from. by exists rec.
  - intros rec Hrec _. exists (delivery rec). split; [|by split_and!]. unfold twice. apply list_elem_of_join.
    eexists. split; [|by apply list_elem_of_fmap_2]. left.
  - by intros d (rec & Hrec & ->)%twice_from.
Qed.

Lemma served_request_reported_witness :
  ∃ chosen items db', length chosen = 3%nat ∧
    ingest_kafka_messages (RK:=toy_rdkafka) items empty_Db = (db', Ok tt) ∧
    recorded "r" db' = ([(hex_encode [1; 2], "OPRFSecp256k1"%string)],
                        (λ a : ProverInfo, pretty (peer_id a)) <$> take 2 (reverse chosen)).
Proof.
  assert (match account_request_from_signer mc mc request true ∅ with
          | Ok (i, _, _) => i =? 1 | _ => false end = true) as Hi by (vm_compute; reflexivity).
  destruct (account_request_from_signer mc mc request true ∅) as [[[incr counters'] credits]| |]
    eqn:Hacc; [|discriminate Hi..]. apply Z.eqb_eq in Hi.
  destruct (served_request_reported mc mc map_to_list_order (λ _, map_to_list_order) (λ b : list FutureRecord, b))
    with (request_id := "r"%string) (request := request) (X := (f_of_Z 7 : Z101)) (p := poly) (node_idx := idx)
      (r := relay) (w := relay_world relay) (env := env) (hash := hex_encode (be_bytes 32 7)) (usr := [1; 2])
      (incr := incr) (counters' := counters') (credits := credits) (envs := λ _ : PeerId, env) (provers := prover_world)
      (b := @nil FutureRecord) (db := empty_Db)
    as (ch & Hlen & _ & Hserve); try done.
  - intros [a m l]. eexists. split; [reflexivity|]. cbn. rewrite Nat2Z.id, take_app_length, drop_app_length.
    by destruct m.
  - by left.
  - apply small_quorum.
  - apply small_provers.
  - cbn. subst incr. unfold TASK_SIZE. lia.
  - by intros rec Hrec%not_elem_of_nil.
  - destruct (Hserve (reverse ch)) as (w2 & o & _ & Hitems); [apply reverse_Permutation|].
    destruct (Hitems _ (twice_delivered _)) as (db' & Hdb' & Hrec).
    eexists ch, _, db'. split_and!; [cbn in Hlen; lia|exact Hdb'|exact Hrec].
Defined.
End KafkaExamples.
