(* ===== verification/TaskProofs.v ===== *)
(** * Proofs of tasks and their verifier (messages/src/task_proofs.rs, verifier/src/main.rs)

    The relay batches the requests it has served with the proofs of the nodes, pins the
    batch on IPFS and announces it; a verifier fetches it and checks every proof.  IPFS, the
    decoding of JSON, ABI encoding and the announcement's signature are parameters.  The
    theorem composes the relay with the verifier: what the relay submits, the verifier
    accepts; and it says what acceptance means, which is less than the documentation says. *)
From Stdlib Require Import ZArith Lia Ascii String Zmod.
From stdpp Require Import base list gmap sets strings pretty sorting.
From coqutil Require Import Datatypes.RecordSettersUsingExistingGetters.
Import RecordSetNotations.
From S2P Require Import Prelude PrimeField Curve ModelCurve Polynomial Dleq Reconstruct Serialization Request NodeSelection Messages.
From S2P Require Import Election ElectionProofs AppState AppStateProofs.

(** ** The verifier *)
Section Verify.
Context (CS CB : Curve) `{HH : Hashes} `{E : Eth}.

(** [serde_json::from_slice] of a proof. *)
Class ProofDecoder := proof_from_json : ∀ C : Curve, list Z → option (DLEQProof (C:=C)).
Context `{PD : ProofDecoder}.

Definition map_err {A B X} (f : A → B) (o : outcome A X) : outcome B X :=
  match o with Ok x => Ok x | Err e => Err (f e) | Panic => Panic end.

Definition verify_proof {C : Curve} (proof : string * string * string * string) : outcome string unit :=
  let '(dleq_proof_hex, pub_key_share_hex, masked_point_hex, _) := proof in
  proof_bytes ← ok_or (hex_decode dleq_proof_hex) "Failed to decode DLEQ proof"%string;
  deserialized_proof ← ok_or (proof_from_json C proof_bytes) "Failed to deserialize DLEQ proof"%string;
  pub_key_share_bytes ← ok_or (hex_decode pub_key_share_hex) "Failed to decode pub key share"%string;
  pub_key_share ← map_err (λ _, "Failed to decode pub key share point"%string)
    (from_encoded (Curve:=C) pub_key_share_bytes);
  masked_point_bytes ← ok_or (hex_decode masked_point_hex) "Failed to decode masked point"%string;
  masked_point ← map_err (λ _, "Failed to decode masked point"%string)
    (from_encoded (Curve:=C) masked_point_bytes);
  _ ← map_err error_debug (verify_and_get_output deserialized_proof pub_key_share masked_point);
  Ok tt.
Definition verify_proofs {C : Curve} (l : list (string * string * string * string)) : outcome string unit :=
  foldM (λ _ p, verify_proof (C:=C) p) tt l.

Definition TaskProof : Type := list RequestToNetworkWithProofs.
Definition verify_request (q : RequestToNetworkWithProofs) : outcome string unit :=
  match method (base q) with
  | OPRFSecp256k1 | JWTPRFSecp256k1 => verify_proofs (C:=CS) (proofs q)
  | OPRFBabyJubJub | DecryptBabyJubJub => verify_proofs (C:=CB) (proofs q)
  end.
Definition TaskProof_verify (self : TaskProof) : outcome string unit :=
  foldM (λ _ q, verify_request q) tt self.

(** [verify_task]: the answer is the hash that was asked about. *)
Definition verify_task (ipfs_host : string) (ipfs_get : string → option TaskProof) (proof_of_task : string)
    : outcome string string :=
  proof ← ok_or (ipfs_get (ipfs_host +:+ proof_of_task)%string) "Failed to get task proof from IPFS"%string;
  _ ← TaskProof_verify proof;
  Ok proof_of_task.

(** ** The announcement *)
Record TaskData := { td_task_size : Z; td_performers : list Address }.

(** [post_to_othentic_nodes]: the parameters of [sendTask]; the key, its address and
    signature and the encodings are [alloy]'s. *)
Definition task_definition_id : Z := 1.
Definition post_to_othentic_nodes (abi_encode : TaskData → list Z)
    (abi_encode_params : string → list Z → Address → Z → list Z) (sign_hash : list Z → option (list Z))
    (decoded_key : option Address) (proof_of_task : string) (performers : list Address)
    : outcome string (string * list Z * Z * Address * string) :=
  let result := abi_encode {| td_task_size := TASK_SIZE; td_performers := performers |} in
  performer_address ← unwrap decoded_key;
  let encoded_data := abi_encode_params proof_of_task result performer_address task_definition_id in
  signature ← ok_or (sign_hash (keccak256 encoded_data)) "sign"%string;
  Ok (proof_of_task, result, task_definition_id, performer_address, ("0x" +:+ hex_encode signature)%string).
End Verify.

(** ** What the relay submits verifies *)
Section Accepted.
Context (CS CB : Curve) `{HH : Hashes} `{HO : HashOrder} `{E : Eth} `{J : !Jwt}
  `{RC : !RequestCodec CB CS} `{RG : Rng} `{AT : !AppTexts} {F : Type} `{PD : ProofDecoder}.
Implicit Types (env : AppEnv CS CB) (r : RelayState) (w : AppWorld) (q : RequestToNetwork).

(** A point that was decoded can be encoded and decoded again, and a proof comes back from
    its JSON. *)
Class ProofCodecLaws (C : Curve) : Prop := {
  reencode bs bs' (P : Point (Curve:=C)) : from_encoded bs = Ok P → encode P = Ok bs' →
    Forall is_byte bs' ∧ from_encoded bs' = Ok P;
  proof_json (pr : DLEQProof (C:=C)) js : proof_to_json C pr = Some js →
    Forall is_byte js ∧ proof_from_json C js = Some pr
}.
Context `{LS : !ProofCodecLaws CS} `{LB : !ProofCodecLaws CB}.

Definition on_secp (m : Method) : bool :=
  match m with OPRFSecp256k1 | JWTPRFSecp256k1 => true | _ => false end.
(** The point of a request is a point of its method's curve only (the encodings of the two
    curves differ in length and first byte). *)
Definition own_curve q : Prop :=
  if on_secp (method q) then ∀ P, from_encoded (Curve:=CB) (Request.point q) ≠ Ok P
  else ∀ P, from_encoded (Curve:=CS) (Request.point q) ≠ Ok P.

(** The requests that the relay gets: on their own curves, and with different hashes when
    their methods are on different curves. *)
Record proper_requests (qs : RequestToNetwork → Prop) : Prop := {
  pr_own q : qs q → own_curve q;
  pr_hash q1 q2 h : qs q1 → qs q2 → request_hash_of q1 = Some h → request_hash_of q2 = Some h →
    on_secp (method q1) = on_secp (method q2)
}.
Context (qs : RequestToNetwork → Prop) (Hqs : proper_requests qs).

Definition verifies (v : RequestToNetworkWithProofs) : Prop := verify_request CS CB v = Ok tt.

Record relay_proofs r : Prop := {
  rp_requests : map_Forall (λ _ d, qs (rec_request d)) (req_cache r);
  rp_stored : map_Forall (λ h v, qs (base v) ∧ request_hash_of (base v) = Some h ∧ verifies v)
    (stored_proofs (redis (rl_common r)));
  rp_batch : Forall verifies (request_batch (redis (rl_common r)))
}.
Definition proofs_inv w : Prop := match node_state w with Some (Relay r) => relay_proofs r | _ => True end.
Definition submits_verified (o : AppOutput CS CB F) : Prop :=
  match o with SubmitBatch b _ => TaskProof_verify CS CB b = Ok tt | _ => True end.

Lemma verify_proofs_app {C : Curve} l1 l2 : verify_proofs (C:=C) (l1 ++ l2) = Ok tt ↔
  verify_proofs (C:=C) l1 = Ok tt ∧ verify_proofs (C:=C) l2 = Ok tt.
Proof. unfold verify_proofs. by rewrite !foldM_unit, Forall_app. Qed.

(** A proof that the relay has accepted verifies from the texts it stores. *)
Lemma check_proof_inv {C : Curve} peer rid (pr : DLEQProof (C:=C)) m r data pk mp out :
  check_proof peer rid pr m r = Ok (data, pk, mp, out) →
  req_cache r !! rid = Some data ∧ from_encoded (Request.point (rec_request data)) = Ok mp ∧
  (∃ bs, from_encoded bs = Ok pk) ∧ verify_and_get_output pr pk mp = Ok out.
Proof.
  intros Hc. unfold check_proof in Hc.
  destruct (req_cache r !! rid) as [d|] eqn:Hd; [|done]. cbn [mbind outcome_bind ok_or] in Hc.
  destruct (pubkey_shares r !! peer) as [shares|]; [|done]. cbn [mbind outcome_bind ok_or] in Hc.
  destruct (shares !! share_name m) as [bs|]; [|done]. cbn [mbind outcome_bind ok_or] in Hc.
  destruct (from_encoded (Request.point (rec_request d))) as [mp'| |] eqn:Emp; [|done..]. cbn [mbind outcome_bind] in Hc.
  destruct (from_encoded bs) as [pk'| |] eqn:Epk; [|done..]. cbn [mbind outcome_bind] in Hc.
  destruct (verify_and_get_output pr pk' mp') as [out'| |] eqn:Ev; [|done..]. cbn [mbind outcome_bind] in Hc.
  injection Hc as <- <- <- <-. eauto.
Qed.
Lemma accepted_verifies {C : Curve} `{L : !ProofCodecLaws C} peer rid (pr : DLEQProof (C:=C)) m r data pk mp out js pkb mpb t :
  check_proof peer rid pr m r = Ok (data, pk, mp, out) → proof_to_json C pr = Some js →
  encode pk = Ok pkb → encode mp = Ok mpb →
  verify_proofs (C:=C) [(hex_encode js, hex_encode pkb, hex_encode mpb, t)] = Ok tt.
Proof.
  intros (_ & Emp & [bs Epk] & Ev)%check_proof_inv Hjs Hpk Hmp.
  destruct (proof_json _ _ Hjs) as [Hb1 Hj]. destruct (reencode _ _ _ Epk Hpk) as [Hb2 H2].
  destruct (reencode _ _ _ Emp Hmp) as [Hb3 H3]. cbn [verify_proofs foldM verify_proof].
  rewrite (hex_decode_encode js Hb1), (hex_decode_encode pkb Hb2), (hex_decode_encode mpb Hb3).
  cbn [mbind outcome_bind ok_or]. rewrite Hj. cbn [mbind outcome_bind ok_or]. rewrite H2.
  cbn [mbind outcome_bind map_err]. rewrite H3. cbn [mbind outcome_bind map_err]. by rewrite Ev.
Qed.

Lemma relay_proofs_ext r r' : relay_proofs r → req_cache r' = req_cache r →
  stored_proofs (redis (rl_common r')) = stored_proofs (redis (rl_common r)) →
  request_batch (redis (rl_common r')) = request_batch (redis (rl_common r)) → relay_proofs r'.
Proof. intros [] H1 H2 H3. split; by rewrite ?H1, ?H2, ?H3. Qed.
Lemma relay_proofs_record r rid d : relay_proofs r → qs (rec_request d) →
  relay_proofs (r <| req_cache ::= <[rid := d]> |>).
Proof. intros [] Hd. split; try done. cbn. unfold const. by apply map_Forall_insert_2. Qed.

Abbreviation handled_well x := (relay_proofs x.1.1 ∧ Forall submits_verified x.1.2).

Lemma process_batch_proofs env h ps r : relay_proofs r → handled_well (process_batch CS CB (F:=F) env h ps r).
Proof.
  intros [H1 H2 H3]. unfold process_batch. cbv zeta.
  set (batch := match _, _ with true, Some _ => _ | _, _ => _ end).
  assert (Forall verifies batch) as Hb.
  { unfold batch. destruct (ae_redis env GetForBatch); [|done].
    destruct (stored_proofs _ !! h) as [v|] eqn:Hv; [|done]. destruct (ae_redis env PushBatch); [|done].
    apply Forall_app. split; [done|]. apply Forall_singleton. by apply H2 in Hv as (_ & _ & ?). }
  clearbody batch.
  assert (∀ m, m = stored_proofs (redis (rl_common r)) ∨ m = delete h (stored_proofs (redis (rl_common r))) →
    map_Forall (λ h v, qs (base v) ∧ request_hash_of (base v) = Some h ∧ verifies v) m) as Hm.
  { intros m [-> | ->]; [done|]. by apply map_Forall_delete. }
  repeat case_match; cbn; (split; [split; cbn; unfold const; first [done|apply Hm; auto|constructor]|]);
    repeat constructor; unfold submits_verified, TaskProof_verify; by apply foldM_unit.
Qed.

Lemma process_verification_proofs {C : Curve} env rid h data res r : relay_proofs r → qs (rec_request data) →
  handled_well (process_verification CS CB (C:=C) (F:=F) env rid h data res r).
Proof.
  intros Hr Hq. unfold process_verification. case_match; [|by split].
  destruct (mapM _ _) as [points| |]; [|by split..]. cbv zeta.
  destruct (threshold_unchecked _ _ ≫= _) as [encoded| |]; [|by split..].
  set (r1 := r <| res_cache ::= _ |> <| req_cache ::= _ |>).
  assert (relay_proofs r1) as Hr1.
  { apply (relay_proofs_ext (r <| req_cache ::= <[rid := data <| rec_status := Verified |>]> |>)); [|done..].
    by apply relay_proofs_record. }
  clearbody r1.
  destruct (if bool_decide (rid ∈ pubsub_cache r1) then _ else _) as [[r2 o2] h2] eqn:Hd.
  assert (relay_proofs r2 ∧ Forall submits_verified o2) as [Hr2 Ho2].
  { destruct (bool_decide (rid ∈ pubsub_cache r1)); [|by simplify_eq].
    destruct (fetch_reconstructed_point_v2 _ _ _ _ _); simplify_eq; [|by split..].
    split; [by apply (relay_proofs_ext r1)|by repeat constructor]. }
  clear Hd. destruct h2; [|by split..]. case_match; [by split|].
  match goal with |- context [process_batch CS CB env h ?a ?s] =>
    pose proof (process_batch_proofs env h a s) as Hb;
    destruct (process_batch CS CB env h a s) as [[r3 o] hh] end.
  cbn in *. destruct Hb as [? ?]; [by apply (relay_proofs_ext r2)|]. split; [done|]. by apply Forall_app.
Qed.

(** The curve of the message is the curve of the request. *)
Definition on_curve_of (secp : bool) q : Prop := on_secp (method q) = secp.

Lemma process_received_proofs {C : Curve} `{L : !ProofCodecLaws C} curve env i peer rid (pr : DLEQProof (C:=C)) m w :
  (∀ q mp, qs q → from_encoded (Curve:=C) (Request.point q) = Ok mp →
     ∀ v, on_secp (method (base v)) = on_secp (method q) → verify_request CS CB v = verify_proofs (C:=C) (proofs v)) →
  proofs_inv w →
  let x := process_received_proof CS CB (C:=C) (F:=F) curve env i peer rid pr m w in
  proofs_inv x.1.1 ∧ Forall submits_verified x.1.2.
Proof.
  intros Hcurve Hw. cbv zeta. unfold process_received_proof, proofs_inv in *.
  destruct (node_state w) as [[r|p|]|] eqn:Hst; [|by split; [cbn; rewrite ?Hst|]..].
  destruct (check_proof peer rid pr m r) as [[[[data pk] mp] result]| |] eqn:Hc; [|by split; [cbn; rewrite ?Hst|]..].
  destruct (encode result) as [encoded| |]; [|by split; [cbn; rewrite ?Hst|]..]. cbv zeta.
  set (res := push_result curve i encoded (res_cache r !! rid)) in *. clearbody res.
  destruct (check_proof_inv _ _ _ _ _ _ _ _ _ Hc) as (Hd & Hmp & _ & _).
  assert (qs (rec_request data)) as Hq by (destruct Hw as [H1 _ _]; by apply (H1 rid)).
  set (r1 := r <| res_cache ::= <[rid := res]> |>).
  assert (relay_proofs r1) as Hr1 by (by apply (relay_proofs_ext r)).
  assert (stored_proofs (redis (rl_common r1)) = stored_proofs (redis (rl_common r))) as Hst1 by done. clearbody r1.
  assert (∀ st, relay_proofs (r1 <| req_cache ::= <[rid := data <| rec_status := st |>]> |>)) as Hrec
    by (intros st; by apply relay_proofs_record).
  destruct (proof_to_json C pr) as [js|] eqn:Hjs; [|by split].
  destruct (request_hash_of (rec_request data)) as [h|] eqn:Hh; [|by split].
  destruct (bool_decide (h ∈ batch_cache r1)); [by split; [exact (Hrec Verified)|]|].
  destruct (ae_redis env GetProofs); [|by split; [exact (Hrec ConstructedProof)|]]. cbn [negb].
  destruct (encode pk) as [pkb| |] eqn:Hpk; [|by split; [exact (Hrec ConstructedProof)|]..]. cbn [mbind outcome_bind].
  destruct (encode mp) as [mpb| |] eqn:Hmpb; [|by split; [exact (Hrec ConstructedProof)|]..]. cbn [mbind outcome_bind].
  unfold store_proof. destruct (ae_redis env SetProofs); [|by split; [exact (Hrec ConstructedProof)|]]. cbv zeta.
  match goal with |- context [process_verification CS CB env rid h ?d ?c ?s] =>
    pose proof (process_verification_proofs (C:=C) env rid h d c s) as Hb;
    destruct (process_verification CS CB env rid h d c s) as [[r2 o] hh] end.
  cbn in *. apply Hb; [|done]. clear Hb. specialize (Hrec ConstructedProof).
  destruct Hrec as [G1 G2 G3]. split; [exact G1| |exact G3]. cbn in *. unfold const in *. apply map_Forall_insert_2; [|done].
  pose proof (accepted_verifies _ _ _ _ _ _ _ _ _ _ _ _ (peer_to_string peer) Hc Hjs Hpk Hmpb) as Hone.
  destruct (stored_proofs (redis (rl_common r1)) !! h) as [v|] eqn:Hv.
  - destruct (G2 h v Hv) as (Hqv & Hhv & Hvv). split; [done|]. split; [done|].
    pose proof (pr_hash _ Hqs _ _ h Hqv Hq Hhv Hh) as Hsame. unfold verifies in *.
    rewrite (Hcurve _ mp Hq Hmp) in Hvv |- *; [|done..]. cbn. by apply verify_proofs_app.
  - split; [done|]. split; [done|]. unfold verifies. by rewrite (Hcurve _ mp Hq Hmp).
Qed.

Abbreviation keeps x := (proofs_inv x.1.1 ∧ Forall submits_verified x.1.2).

Lemma on_relay_proofs f w : proofs_inv w → (∀ r, relay_proofs r → relay_proofs (f r)) → proofs_inv (on_relay f w).
Proof.
  intros Hw Hf. unfold on_relay, proofs_inv in *. destruct (node_state w) as [[]|] eqn:Hst; cbn; rewrite ?Hst; auto.
Qed.

Lemma rollback_proofs env w : proofs_inv w → proofs_inv (rollback_to_previous_state CS CB env w).
Proof.
  intros Hw. unfold rollback_to_previous_state, proofs_inv in *. cbv zeta.
  destruct (node_state w) as [[r|p|]|] eqn:Hst; rewrite ?Hst; try done.
  destruct (if bool_decide _ then _ else _) as [nodes st]. by apply (relay_proofs_ext r).
Qed.

Lemma handle_plain_proofs env m w : proofs_inv w → keeps (handle_plain CS CB (F:=F) env m w).
Proof.
  intros Hw. destruct m; cbn [handle_plain fst snd]; (split; [|repeat case_match; repeat constructor]).
  all: unfold update_elected_provers, store_kset, store_quorum_map, store_resharing_kset, update_node_idx,
    update_threshold, backup_state, save_current_state; try done; try by apply rollback_proofs.
  all: try (apply on_relay_proofs; [done|]; intros r0 Hr0; repeat case_match; by apply (relay_proofs_ext r0)).
  all: unfold proofs_inv in *; cbv zeta; destruct (node_state w) as [[r|p|]|] eqn:Hst; cbn; rewrite ?Hst; try done;
    try (by apply (relay_proofs_ext r)).
  apply (on_relay_proofs (λ r0, r0 <| no_of_shares_received := 0 |>) w); [unfold proofs_inv; by rewrite Hst|].
  intros r0 Hr0. by apply (relay_proofs_ext r0).
Qed.

Lemma handle_mul_proofs env q fwd rid w : qs q → proofs_inv w →
  keeps (handle_multiplication_request CS CB (F:=F) env q fwd rid w).
Proof.
  intros Hq Hw. unfold handle_multiplication_request, proofs_inv in *.
  destruct (node_state w) as [[r|p|]|] eqn:Hst; [|by split; [cbn; rewrite ?Hst|]..]. cbv zeta.
  set (r1 := (if _ && _ then _ else r) <| pubsub_cache ::= _ |>).
  assert (relay_proofs r1) as Hr1 by (unfold r1; destruct (_ && _); by apply (relay_proofs_ext r)).
  clearbody r1. destruct (Z.of_nat (size (ready_nodes r1)) <? rl_t r1); [by split; [|repeat constructor]|].
  destruct (negb _); [by split; [|repeat constructor]|].
  assert (∀ r2 o, account_signed CS CB (F:=F) rid q r1 = Ok (r2, o) → relay_proofs r2 ∧ Forall submits_verified o) as Hacc.
  { unfold account_signed. intros r2 o. destruct (recover CB CS q); [|by intros [= <- <-]|done].
    destruct (account_request_from_signer _ _ _ _ _) as [[[? ?] credits]| |]; [|done..].
    intros [= <- <-]. split; [by apply (relay_proofs_ext r1)|]. apply Forall_fmap, Forall_true. done. }
  destruct (account_signed CS CB rid q r1) as [[r2 o]| |]; [|by split; [|repeat constructor]..].
  destruct (Hacc r2 o eq_refl) as [Hr2 Ho].
  match goal with |- context [match ?x with Ok _ => _ | Err _ => _ | Panic => _ end] => destruct x end; [|by split..].
  split; [|apply Forall_app; split; [done|by repeat constructor]]. destruct Hr2 as [G1 G2 G3]. split; cbn; unfold const; [|done..].
  intros k d Hk. destruct (decide (rid = k)) as [<-|Hne].
  - rewrite lookup_partial_alter_eq in Hk. injection Hk as <-. destruct (req_cache r2 !! rid) as [d|] eqn:Hd; [by apply (G1 rid)|done].
  - rewrite lookup_partial_alter_ne in Hk by done. by apply (G1 k).
Qed.

Definition admits (m : AppMessage CS CB) : Prop := match m with MulRequest q _ => qs q | _ => True end.

Ltac silent := repeat first
  [ apply Forall_nil_2 | apply Forall_cons_2; [exact I|] | apply Forall_fmap, Forall_true; intros; exact I | progress cbn | case_match ].

Lemma app_handle_proofs env m w : admits m → proofs_inv w → keeps (app_handle CS CB (F:=F) env m w).
Proof.
  intros Hm Hw. destruct m; cbn [app_handle].
  - by apply handle_plain_proofs.
  - unfold handle_state_request. split; [by repeat case_match|silent].
  - by apply handle_mul_proofs.
  - unfold process_request. split; [by repeat case_match|silent].
  - apply (process_received_proofs (C:=CS)); [|done]. intros q mp Hq Hmp v Hv. pose proof (pr_own _ Hqs q Hq) as Hown.
    unfold own_curve in Hown. unfold verify_request. destruct (on_secp (method q)); [|by apply Hown in Hmp].
    by destruct (method (base v)).
  - apply (process_received_proofs (C:=CB)); [|done]. intros q mp Hq Hmp v Hv. pose proof (pr_own _ Hqs q Hq) as Hown.
    unfold own_curve in Hown. unfold verify_request. destruct (on_secp (method q)); [by apply Hown in Hmp|].
    by destruct (method (base v)).
  - unfold fetch_reconstructed_point. split; [by repeat case_match|silent].
  - unfold fetch_key_share. split; [by repeat case_match|silent].
  - unfold restore_key_share. split; [|silent]. unfold proofs_inv in *. destruct (node_state w) as [[r|p|]|] eqn:Hst; cbn; by rewrite ?Hst.
  - unfold fetch_election_state. split; [by repeat case_match|silent].
  - unfold restore_election_state. split; [|silent]. unfold proofs_inv in *.
    destruct (node_state w) as [[r|p|]|] eqn:Hst; [cbn; by rewrite Hst| |cbn; by rewrite Hst..].
    destruct (relay_rpc_url _); [|cbn; by rewrite Hst..]. destruct (ae_relay_answer env _) as [[]|]; cbn; by rewrite ?Hst.
  - unfold sync_peer_data, send_or_fail. split; [|silent]. unfold proofs_inv in *.
    destruct (node_state w) as [[r|p|]|] eqn:Hst; destruct (ae_receiver env); cbn; rewrite ?Hst; try done; by apply (relay_proofs_ext r).
  - unfold fetch_election_info, send_or_fail. split; [by repeat case_match|silent].
  - unfold quic_ping. split; [|silent]. unfold proofs_inv in *. destruct (node_state w) as [[r|p|]|] eqn:Hst; cbn; rewrite ?Hst; try done.
    unfold populate_provers_cache. destruct (bool_decide _); [by apply (relay_proofs_ext r)|done].
  - unfold fetch_voting_power. split; [|silent]. unfold proofs_inv in *. destruct (node_state w) as [[r|p|]|] eqn:Hst; cbn; rewrite ?Hst; try done.
    unfold populate_provers_cache. destruct (bool_decide _); [by apply (relay_proofs_ext r)|done].
  - unfold forward_error_response. split; [by repeat case_match|silent].
  - unfold set_resharing_enabled. split; [|silent]. unfold proofs_inv in *. destruct (node_state w) as [[r|p|]|] eqn:Hst; cbn; rewrite ?Hst; try done.
    by apply (relay_proofs_ext r).
  - unfold fetch_finalized_group_pubkeys. split; [by repeat case_match|silent].
Qed.

Lemma app_run_proofs env ms : ∀ w, Forall admits ms → proofs_inv w → keeps (app_run CS CB (F:=F) env ms w).
Proof.
  induction ms as [|m ms IH]; intros w Hms Hw; [by split|]. apply Forall_cons in Hms as [Hm Hms]. cbn [app_run].
  pose proof (app_handle_proofs env m w Hm Hw) as [Hw1 Ho]. destruct (app_handle CS CB env m w) as [[w1 o] h].
  cbn in Hw1, Ho. destruct h; [|by split..]. pose proof (IH w1 Hms Hw1) as [Hw2 Ho'].
  destruct (app_run CS CB env ms w1) as [[w2 o'] h']. split; [done|]. by apply Forall_app.
Qed.
End Accepted.

(** ** What the verifier checks *)
Section Checked.
Context (CS CB : Curve) `{HH : Hashes} `{E : Eth} `{PD : ProofDecoder}.

(** The four texts of a proof: the proof, the key share and the point decode, and the proof
    verifies against the two; the fourth, the peer, is not used. *)
Definition proof_holds {C : Curve} (p : string * string * string * string) : Prop :=
  let '(dleq_proof, pub_key_share, masked_point, _) := p in
  ∃ js pr kb pk mb X out, hex_decode dleq_proof = Some js ∧ proof_from_json C js = Some pr ∧
    hex_decode pub_key_share = Some kb ∧ from_encoded (Curve:=C) kb = Ok pk ∧
    hex_decode masked_point = Some mb ∧ from_encoded (Curve:=C) mb = Ok X ∧ verify_and_get_output pr pk X = Ok out.

Lemma map_err_inv {A B X} (f : A → B) (o : outcome A X) x : map_err f o = Ok x ↔ o = Ok x.
Proof. destruct o; cbn; split; intros; by simplify_eq. Qed.

Lemma verify_proof_iff {C : Curve} p : verify_proof (C:=C) p = Ok tt ↔ proof_holds (C:=C) p.
Proof.
  destruct p as [[[d k] m] t]. unfold verify_proof, proof_holds. split.
  - intros (js & Hjs%ok_or_Ok & H)%bind_Ok. apply bind_Ok in H as (pr & Hpr%ok_or_Ok & H).
    apply bind_Ok in H as (kb & Hkb%ok_or_Ok & H). apply bind_Ok in H as (pk & Hpk%map_err_inv & H).
    apply bind_Ok in H as (mb & Hmb%ok_or_Ok & H). apply bind_Ok in H as (X & HX%map_err_inv & H).
    apply bind_Ok in H as (out & Hout%map_err_inv & _). exists js, pr, kb, pk, mb, X, out. done.
  - intros (js & pr & kb & pk & mb & X & out & -> & Hpr & -> & Hpk & -> & HX & Hout). cbn [ok_or mbind outcome_bind].
    rewrite Hpr. cbn [ok_or mbind outcome_bind]. rewrite Hpk. cbn [map_err mbind outcome_bind].
    rewrite HX. cbn [map_err mbind outcome_bind]. by rewrite Hout.
Qed.

(** Every proof of the request, on the curve of its method. *)
Definition proofs_hold (v : RequestToNetworkWithProofs) : Prop :=
  Forall (if on_secp (method (base v)) then proof_holds (C:=CS) else proof_holds (C:=CB)) (proofs v).

Lemma verify_request_iff v : verify_request CS CB v = Ok tt ↔ proofs_hold v.
Proof.
  unfold verify_request, proofs_hold, verify_proofs. destruct (method (base v)); cbn [on_secp];
    rewrite foldM_unit; apply Forall_iff; intros p; apply verify_proof_iff.
Qed.
Lemma TaskProof_verify_iff batch : TaskProof_verify CS CB batch = Ok tt ↔ Forall proofs_hold batch.
Proof. unfold TaskProof_verify. rewrite foldM_unit. apply Forall_iff. apply verify_request_iff. Qed.

Lemma verify_task_iff host get hash batch : get (host +:+ hash)%string = Some batch →
  verify_task CS CB host get hash = Ok hash ↔ Forall proofs_hold batch.
Proof.
  intros Hget. unfold verify_task. rewrite Hget, <- TaskProof_verify_iff. cbn [ok_or mbind outcome_bind].
  destruct (TaskProof_verify CS CB batch) as [[]| |]; done.
Qed.

(** Requests with the methods of an accepted batch and some of its proofs. *)
Definition drawn_from (batch batch' : TaskProof) : Prop :=
  ∀ v', v' ∈ batch' → ∃ v, v ∈ batch ∧ method (base v') = method (base v) ∧ proofs v' ⊆ proofs v.
Lemma drawn_holds batch batch' : drawn_from batch batch' → Forall proofs_hold batch → Forall proofs_hold batch'.
Proof.
  intros Hd Hb. apply Forall_forall. intros v' (v & Hv & Hm & Hp)%Hd. eapply Forall_forall in Hb; [|exact Hv].
  unfold proofs_hold in *. rewrite Hm. apply Forall_forall. intros p Hin%Hp. by eapply Forall_forall in Hb.
Qed.
End Checked.

Section Claim.
Context (CS CB : Curve) `{HH : Hashes} `{HO : HashOrder} `{E : Eth} `{J : !Jwt}
  `{RC : !RequestCodec CB CS} `{RG : Rng} `{AT : !AppTexts} {F : Type} `{PD : ProofDecoder}
  `{LS : !ProofCodecLaws CS} `{LB : !ProofCodecLaws CB}.

(** The requests among the messages. *)
Definition requests_of (ms : list (AppMessage CS CB)) (q : RequestToNetwork) : Prop :=
  ∃ rid, MulRequest q rid ∈ ms.

(** C37: The verifier accepts what the relay batches, and checks the proofs only.  A relay without
    pending requests, proofs or batch handles any messages, with any Redis commands failing and
    any proofs from provers.  When the requests are points of their own method's curve only and
    requests on different curves have different hashes, every proof in the batch that it keeps,
    and in every batch that it submits, verifies: [verify_task] on the pinned batch succeeds.
    [verify_task] accepts a batch if and only if every proof in it verifies, on its method's
    curve, against the key share and the point stored beside it.  So every batch drawn from an
    accepted one is accepted: with fewer than [TASK_SIZE] requests, or none, with other requests
    around the proofs, or without their signatures.  The documentation of [TaskProof::verify]
    and the tests [test_verify_fails_if_too_few_requests] and
    [test_verify_fails_if_one_proof_bad] expect such batches to be refused. *)
Theorem batches_verify env (ms : list (AppMessage CS CB)) w r w' o h :
  node_state w = Some (Relay r) → req_cache r = ∅ →
  stored_proofs (redis (rl_common r)) = ∅ → request_batch (redis (rl_common r)) = [] →
  proper_requests CS CB (requests_of ms) →
  app_run CS CB (F:=F) env ms w = (w', o, h) →
  ∀ ipfs_host ipfs_get hash batch, ipfs_get (ipfs_host +:+ hash)%string = Some batch →
  ((∃ r', node_state w' = Some (Relay r') ∧ batch = request_batch (redis (rl_common r'))) ∨
   (∃ performers, SubmitBatch batch performers ∈ o) → verify_task CS CB ipfs_host ipfs_get hash = Ok hash) ∧
  (verify_task CS CB ipfs_host ipfs_get hash = Ok hash ↔ Forall (proofs_hold CS CB) batch) ∧
  (verify_task CS CB ipfs_host ipfs_get hash = Ok hash → ∀ ipfs_get' hash' batch', drawn_from batch batch' →
    ipfs_get' (ipfs_host +:+ hash')%string = Some batch' → verify_task CS CB ipfs_host ipfs_get' hash' = Ok hash').
Proof.
  intros Hw Hreq Hst Hb Hqs Hrun host get hash batch Hget. split_and!; cycle 1.
  { by apply verify_task_iff. }
  { rewrite (verify_task_iff _ _ _ _ _ _ Hget). intros Hok get' hash' batch' Hd Hget'.
    apply (verify_task_iff _ _ _ _ _ _ Hget'). by eapply drawn_holds. }
  intros Hbatch. assert (proofs_inv CS CB (requests_of ms) w) as Hinv.
  { unfold proofs_inv. rewrite Hw. split; rewrite ?Hreq, ?Hst, ?Hb; done. }
  assert (Forall (admits CS CB (requests_of ms)) ms) as Hadm.
  { apply Forall_forall. intros m Hm. destruct m; try done. by eexists. }
  pose proof (app_run_proofs CS CB (F:=F) (requests_of ms) Hqs env ms w Hadm Hinv) as [Hw' Ho].
  rewrite Hrun in Hw', Ho. cbn in Hw', Ho. unfold verify_task. rewrite Hget. cbn [mbind outcome_bind ok_or].
  assert (TaskProof_verify CS CB batch = Ok tt) as ->; [|done]. destruct Hbatch as [(r' & Hr' & ->)|[ps Hin]].
  - unfold proofs_inv in Hw'. rewrite Hr' in Hw'. by apply foldM_unit, Hw'.
  - by eapply Forall_forall in Ho; [|exact Hin].
Qed.
End Claim.

(** ** Example *)
Module TaskProofExamples.
Import ModelInstances.
#[local] Existing Instance NodeSelection.Examples.toy_rng.
#[local] Existing Instance RequestExamples.toy_eth.
#[local] Existing Instance RequestExamples.toy_jwt.

(** A second curve, whose encodings start with a zero. *)
Definition other_curve : Curve := {|
  Point := Z101; Scalar := Z101; FieldEl := Z101; repr_len := 1; FIELD_MODULUS_BE := be_bytes 32 q101;
  ZERO := Zmod.zero; base_point_or_generator := Zmod.one; add_self := Zmod.add;
  scalar_mul P a := Zmod.mul P a; neg := Zmod.opp; is_on_curve _ := true;
  is_in_subgroup_assuming_on_curve _ := true; encode P := Ok [0; Zmod.unsigned P];
  from_encoded bs :=
    match bs with [0; b] => if b <? q101 then Ok (Zmod.of_Z q101 b) else Err InvalidInput | _ => Err InvalidInput end;
  scalar_of_field x := x; field_of_scalar x := x; mul_inv s := Ok (f_invert s);
  from_biguint_vartime z := Ok (Zmod.of_Z q101 z); scalar_from_bytes bs := Ok (Zmod.of_Z q101 (be_val bs));
  scalar_to_bytes s := be_bytes 1 (Zmod.unsigned s); hash_to_curve m := Ok (Zmod.of_Z q101 (be_val m + 1));
  hash_from_curve P := Ok (Zmod.unsigned P)
|}.
#[local] Instance other_codec : RequestCodec other_curve model_curve := {|
  serialize_request _ := Some []; deserialize_conditions _ := None; deserialize_frontend _ := None |}.

(** Proofs in bytes: each part with its length before it; a proof that does not come back
    is not written. *)
Definition part (bs : list Z) : list Z := Z.of_nat (length bs) :: bs.
Definition take_part (l : list Z) : option (list Z * list Z) :=
  match l with
  | n :: l => if (n <=? Z.of_nat (length l)) then Some (take (Z.to_nat n) l, drop (Z.to_nat n) l) else None
  | [] => None
  end.
Definition to_option {A B} (o : outcome A B) : option B := match o with Ok x => Some x | _ => None end.
#[local] Instance toy_decoder : ProofDecoder := λ C l,
  '(a, l) ← take_part l; a ← to_option (from_encoded a);
  '(b, l) ← take_part l; b ← to_option (from_encoded b);
  '(c, l) ← take_part l; c ← to_option (from_encoded c);
  '(d, l) ← take_part l; d ← to_option (from_encoded d);
  '(e, l) ← take_part l; e ← to_option (from_encoded e);
  '(s, l) ← take_part l; s ← to_option (scalar_from_bytes s);
  '(t, l) ← take_part l; t ← to_option (scalar_from_bytes t);
  Some {| input_point := a; pubkey := b; output_point := c; r_pub := d; r_in := e; challenge := s; response := t |}.
Definition toy_bytes {C : Curve} (pr : DLEQProof (C:=C)) : option (list Z) :=
  a ← to_option (encode (input_point pr)); b ← to_option (encode (pubkey pr)); c ← to_option (encode (output_point pr));
  d ← to_option (encode (r_pub pr)); e ← to_option (encode (r_in pr));
  Some (concat (part <$> [a; b; c; d; e; scalar_to_bytes (challenge pr); scalar_to_bytes (response pr)])).
Definition same_proof {C : Curve} (p q : DLEQProof (C:=C)) : bool :=
  bool_decide (input_point p = input_point q) && bool_decide (pubkey p = pubkey q) &&
  bool_decide (output_point p = output_point q) && bool_decide (r_pub p = r_pub q) &&
  bool_decide (r_in p = r_in q) && bool_decide (challenge p = challenge q) && bool_decide (response p = response q).
#[local] Instance toy_texts : AppTexts := {|
  peer_to_string p := pretty p; address_to_string _ := "0x"; request_to_json q := Some (Request.point q);
  proof_to_json C pr :=
    js ← toy_bytes pr;
    pr' ← toy_decoder C js;
    if same_proof pr' pr && forallb (λ b, (0 <=? b) && (b <? 256)) js then Some js else None
|}.
Lemma same_proof_eq {C : Curve} (p q : DLEQProof (C:=C)) : same_proof p q = true → p = q.
Proof.
  unfold same_proof. rewrite !andb_true_iff, !bool_decide_eq_true. destruct p, q. cbn.
  intros [[[[[[-> ->] ->] ->] ->] ->] ->]. done.
Qed.
Lemma toy_proof_json (C : Curve) (pr : DLEQProof (C:=C)) js : proof_to_json C pr = Some js →
  Forall is_byte js ∧ proof_from_json C js = Some pr.
Proof.
  cbn. destruct (toy_bytes pr) as [js'|]; [|done]. cbn. destruct (toy_decoder C js') as [pr'|] eqn:Hd; [|done]. cbn.
  destruct (same_proof pr' pr && _) eqn:Hs; [|done]. intros [= <-]. apply andb_true_iff in Hs as [Hs%same_proof_eq Hb]. split.
  - apply Forall_forall. intros x Hx. rewrite forallb_forall in Hb. apply list_elem_of_In, Hb in Hx. unfold is_byte. lia.
  - unfold proof_from_json. by rewrite Hd, Hs.
Qed.
#[local] Instance model_proof_laws : ProofCodecLaws model_curve.
Proof.
  split; [|apply toy_proof_json]. cbn. intros bs bs' P _ [= <-]. pose proof (Zmod.unsigned_pos_bound P ltac:(unfold q101; lia)).
  split; [repeat constructor; unfold q101 in *; lia|]. destruct (Z.ltb_spec (Zmod.unsigned P) q101); [|lia]. by rewrite Zmod.of_Z_to_Z.
Qed.
#[local] Instance other_proof_laws : ProofCodecLaws other_curve.
Proof.
  split; [|apply toy_proof_json]. cbn. intros bs bs' P _ [= <-]. pose proof (Zmod.unsigned_pos_bound P ltac:(unfold q101; lia)).
  split; [repeat constructor; unfold q101 in *; lia|]. destruct (Z.ltb_spec (Zmod.unsigned P) q101); [|lia]. by rewrite Zmod.of_Z_to_Z.
Qed.

(** Three provers with threshold two; provers 2 and 3 answer the request. *)
Abbreviation num z := (f_of_Z z : Z101).
Definition members : list ProverInfo := ElectionExamples.prover <$> [1; 2; 3].
Definition share_of (i : Z) : Z101 := num (23 + 56 * i).
Definition request : RequestToNetwork := RequestExamples.toy_request 5.
Definition relay : RelayState := {|
  rl_common := {| cm_peer_id := 100; cm_relay_peer_id := 100; current_epoch := 1;
                  redis := {| counters := ∅; stored_proofs := ∅; request_batch := [] |} |};
  active_provers := members; rl_n := 3; rl_t := 2; rl_epsilon := 1; batch_size := 0; req_cache := ∅; res_cache := ∅;
  pubkey_shares := list_to_map ((λ a, (peer_id a,
    {["OPRFSecp256k1"%string := [Zmod.unsigned (share_of (idx a))]]})) <$> members);
  ready := true; ready_nodes := {[1; 2; 3]}; new_cached_elected_provers := []; rl_tstar_provers := ∅;
  rl_new_provers := list_to_map ((λ a, (peer_id a, (a, idx a))) <$> members); finalized_group_public_keys := ∅;
  received_group_public_keys := []; no_of_shares_received := 3; monitor_request_queue := []; batch_cache := ∅;
  pubsub_cache := ∅; all_provers_cache := ∅; is_resharing_enabled := true; resharing_failure_count := 0 |}.
Definition relay_world : AppWorld :=
  {| node_type := NodeRelay; node_state := Some (Relay relay); app_db := AppState.empty_db |}.
Definition env : AppEnv model_curve other_curve :=
  Build_AppEnv (CS:=model_curve) (CB:=other_curve) (λ _, true) members (λ _, None) (num 17) (num 17) (λ _, true)
    false true.
Definition proof_of (i : Z) : DLEQProof (C:=model_curve) :=
  match DLEQProof_new (C:=model_curve) (num 17) (num 7) (share_of i) with
  | Ok pr => pr
  | _ => Build_DLEQProof (C:=model_curve) Zmod.zero Zmod.zero Zmod.zero Zmod.zero Zmod.zero Zmod.zero Zmod.zero
  end.
Definition messages : list (AppMessage model_curve other_curve) :=
  MulRequest request "r" ::
  ((λ i, ProcessReceivedProofSecp256k1 i (100 + i) "r" (proof_of i) OPRFSecp256k1) <$> [2; 3]).

Lemma messages_proper : proper_requests model_curve other_curve (requests_of model_curve other_curve messages).
Proof.
  assert (∀ q, requests_of model_curve other_curve messages q → q = request) as Hone.
  { intros q [rid Hq]. unfold messages in Hq. cbn [fmap list_fmap] in Hq.
    rewrite !elem_of_cons, elem_of_nil in Hq. destruct Hq as [Hq|[Hq|[Hq|[]]]]; [by injection Hq|discriminate Hq..]. }
  split.
  - intros q ->%Hone P Hp. discriminate Hp.
  - by intros q1 q2 h ->%Hone ->%Hone.
Qed.

(** The batch of the relay is accepted, with two proofs; and so is a batch of one request without
    a signature around the first of them, and the empty one. *)
Definition unsigned (v : RequestToNetworkWithProofs) : RequestToNetworkWithProofs :=
  {| base := with_signature None (base v); proofs := take 1 (proofs v) |}.
Definition pinned (b : TaskProof) (url : string) : option TaskProof :=
  if bool_decide (url = "ipfs/abc"%string) then Some b else None.
Lemma batches_verify_witness :
  ∃ w' r' v, (app_run model_curve other_curve (HO:=map_to_list_order) (F:=unit) env messages relay_world).1.1 = w' ∧
    node_state w' = Some (Relay r') ∧ request_batch (redis (rl_common r')) = [v] ∧ length (proofs v) = 2%nat ∧
    let verify b := verify_task model_curve other_curve "ipfs/" (pinned b) "abc" in
    verify [v] = Ok "abc"%string ∧ verify [unsigned v] = Ok "abc"%string ∧ verify [] = Ok "abc"%string.
Proof.
  destruct (app_run model_curve other_curve (HO:=map_to_list_order) (F:=unit) env messages relay_world)
    as [[w' o] h] eqn:Hrun.
  assert (match node_state w' with Some (Relay r') =>
      match request_batch (redis (rl_common r')) with [v] => length (proofs v) = 2%nat | _ => False end
      | _ => False end) as Hb.
  { apply (f_equal (λ x, x.1.1)) in Hrun. cbn [fst] in Hrun. rewrite <- Hrun. vm_compute. reflexivity. }
  destruct (node_state w') as [[r'|?|?]|] eqn:Hst; [|destruct Hb..].
  destruct (request_batch (redis (rl_common r'))) as [|v [|? ?]] eqn:Hv; [destruct Hb| |destruct Hb].
  assert (∀ b, pinned b ("ipfs/" +:+ "abc")%string = Some b) as Hpin by (intros b; unfold pinned; by rewrite bool_decide_eq_true_2).
  destruct (batches_verify model_curve other_curve (HO:=map_to_list_order) (F:=unit) env messages relay_world relay w' o h
    eq_refl eq_refl eq_refl eq_refl messages_proper Hrun "ipfs/" (pinned [v]) "abc" [v] (Hpin [v])) as (Hok & _ & Hdrawn).
  clear Hrun. pose proof (Hok (or_introl (ex_intro _ r' (conj Hst (eq_sym Hv))))) as Hacc.
  exists w', r', v. split; [reflexivity|]. split; [exact Hst|]. split; [exact Hv|]. split; [exact Hb|].
  split; [exact Hacc|]. split; (eapply Hdrawn; [exact Hacc| |apply Hpin]).
  - intros v' ->%list_elem_of_singleton. exists v. split; [by left|]. split; [reflexivity|]. cbn.
    intros p Hp. apply (elem_of_take p 1) in Hp as (i & Hi & _). by eapply list_elem_of_lookup_2.
  - intros v' Hv'. by apply not_elem_of_nil in Hv'.
Defined.
End TaskProofExamples.
