(* ===== verification/Sdk.v ===== *)
(** * The client library (human-network-sdk/src/lib.rs)

    What a browser calls: encryption to the network's key and decryption through the
    network, the two ways to an OPRF output (directly, or through the signer service), and
    the helpers around them.  The library's functions are actions on the servers' state
    ([Service]) and the cached public key; an exception is [Err], a panic of the WebAssembly
    module [Panic].  JSON, [bincode], keys and numbers in text are parameters ([SdkTexts]),
    random values are arguments, and logging is left out. *)
From Stdlib Require Import ZArith Lia Ascii String Zmod.
From stdpp Require Import base list gmap sets strings pretty.
From coqutil Require Import Datatypes.RecordSettersUsingExistingGetters.
Import RecordSetNotations.
From S2P Require Import Prelude PrimeField Curve ModelCurve Dleq Schnorr Encryption Serialization ZkMask Request.
From S2P Require Import ConcreteCurves Messages AppState.

Definition RELAY_URL : string := "http://44.217.242.218:8081".
Definition MAX_POLL_ATTEMPTS : nat := 30.
(** [CONDITIONS_CONTRACT]. *)
Definition CONDITIONS_CONTRACT : Address :=
  [58; 13; 74; 82; 74; 165; 58; 41; 149; 154; 174; 241; 207; 248; 153; 243; 92; 199; 247; 102].

(** [str::split] with a text. *)
Fixpoint split_str (sep : list ascii) (skip : nat) (cur s : list ascii) : list (list ascii) :=
  match s with
  | [] => [reverse cur]
  | c :: s' =>
      match skip with
      | S k => split_str sep k cur s'
      | O => if bool_decide (take (length sep) s = sep)
             then reverse cur :: split_str sep (length sep - 1) [] s'
             else split_str sep 0 (c :: cur) s'
      end
  end.
Definition split_text (sep s : string) : list string :=
  string_of_list_ascii <$> split_str (list_ascii_of_string sep) 0 [] (list_ascii_of_string s).

(** ** Answers of the servers *)
Section Types.
Context {CS CB : Curve}.

Inductive MessageStateResponse :=
  | SdkStateSuccess (epoch : Z) (method : Method) (requests_from_user : Z)
  | SdkStateError (message : string).

Record SdkStateResponse := { ssr_epoch : Z; ssr_method : Method; ssr_requests_from_user : Z }.

Inductive SdkResponse :=
  | SdkSubmitted (request_id : string)
  | SdkConstructedSecp256k1 (node_idx : Z) (peer : PeerId) (request_id : string)
      (proof : DLEQProof (C:=CS)) (m : Method)
  | SdkConstructedBabyJubJub (node_idx : Z) (peer : PeerId) (request_id : string)
      (proof : DLEQProof (C:=CB)) (m : Method)
  | SdkVerifiedSecp256k1 (request_id : string) (reconstructed_point : Point (Curve:=CS))
  | SdkVerifiedBabyJubJub (request_id : string) (reconstructed_point : BabyJubJub.EncodedBabyJubJubPoint)
  | SdkParticipated
  | SdkError (message : string)
  | SdkKeyshare (shares : gmap string string).

(** Text of coordinates, and the ciphertext a caller passes. *)
Record PointInput := { pi_x : string; pi_y : string }.
Record CiphertextInput := { c1 : PointInput; c2 : PointInput }.

Record EphemeralPrivateKeyWithSig := { private_key : string; eph_signature : SchnorrSig (C:=CB) }.

(** What [encrypt] returns as a JSON object. *)
Record EncryptOutput := {
  eo_ciphertext : CiphertextInput; eo_contract : string; eo_sig : string; eo_c1_hash : string
}.
End Types.
Arguments SdkResponse : clear implicits.

(** The servers in state [W]: an error is a request that failed or whose answer did not
    decode as a result. *)
Class Service (CS CB : Curve) `{Eth} (W : Type) := {
  post_fetch_state : string → Address → Method → W → W * outcome string MessageStateResponse;
  post_threshold_mul : string → RequestToNetwork → W → W * outcome string (SdkResponse CS CB);
  (** [mishti_threshold_mul] with a text instead of a request. *)
  post_threshold_mul_id : string → string → W → W * outcome string (SdkResponse CS CB);
  post_fetch_result : string → string → W → W * outcome string (SdkResponse CS CB);
  post_get_pubkey : string → W → W * outcome string (SdkResponse CS CB);
  (** The signer service: whether the status is a success, and the body. *)
  post_signer : string → RequestToNetwork → W → W * outcome string (bool * string)
}.

(** Texts. *)
Class SdkTexts (CS CB : Curve) `{Eth} := {
  parse_address : string → option Address;
  parse_wallet : string → option Wallet;
  (** [BigUint] in decimal. *)
  biguint_to_string : Z → string;
  biguint_from_str : string → option Z;
  (** Coordinates of a BabyJubJub point, and the point with given ones. *)
  coords : Point (Curve:=CB) → Z * Z;
  from_coords : Z * Z → Point (Curve:=CB);
  point_to_string : Point (Curve:=CB) → string;
  ciphertext_to_json : CiphertextInput → string;
  ciphertext_from_json : string → option CiphertextInput;
  sig_to_json : SchnorrSig (C:=CB) → string;
  sig_from_json : string → option (SchnorrSig (C:=CB));
  request_from_json : string → option RequestToNetwork;
  encoded_from_json : string → option BabyJubJub.EncodedBabyJubJubPoint;
  serialize_conditions : ElGamalCiphertextWithSignedConditions (C:=CB) → option (list Z);
  serialize_frontend : FrontendData CS → option (list Z);
  error_text : Error → string;
  hex_error : string → string;
  response_debug : SdkResponse CS CB → string
}.

(** The library: the servers and [NETWORK_BABYJUB_PUBKEY]. *)
Record SdkWorld (CB : Curve) (W : Type) := { net : W; babyjub_pubkey : option (Point (Curve:=CB)) }.
Arguments net {CB W} _.
Arguments babyjub_pubkey {CB W} _.
Arguments Build_SdkWorld {CB W} _ _.

Section Sdk.
Context (CS CB : Curve) `{HH : Hashes} `{KDF : Kdf} `{E : Eth} `{J : !Jwt} `{RC : !RequestCodec CB CS}
  `{MC : !MapCurve CB} {W : Type} `{SV : !Service CS CB W} `{ST : !SdkTexts CS CB}.

Definition Action (A : Type) : Type := SdkWorld CB W → SdkWorld CB W * outcome string A.
#[local] Instance action_ret : MRet Action := λ A a w, (w, Ok a).
#[local] Instance action_bind : MBind Action := λ A B k m w,
  match m w with
  | (w, Ok a) => k a w
  | (w, Err e) => (w, Err e)
  | (w, Panic) => (w, Panic)
  end.
Definition lift {A} (o : outcome string A) : Action A := λ w, (w, o).
Definition call {A} (f : W → W * outcome string A) : Action A := λ w,
  let '(n, r) := f (net w) in ({| net := n; babyjub_pubkey := babyjub_pubkey w |}, r).
(** [await.unwrap()]. *)
Definition call_unwrap {A} (f : W → W * outcome string A) : Action A := λ w,
  let '(w, r) := call f w in (w, unwrap_res r).

(** [Result] with another error: panics stay. *)
Definition text_err {A} (f : Error → string) (o : outcome Error A) : outcome string A :=
  match o with Ok a => Ok a | Err e => Err (f e) | Panic => Panic end.

(** ** Encryption *)
Definition pad24 (msg : list Z) : list Z := replicate (24 - length msg) 0 ++ msg.

Definition generate_ephemeral_key_and_sign_conditions_with_it (secret nonce : Scalar (Curve:=CB))
    (conditions_contract : string) : outcome string (EphemeralPrivateKeyWithSig (CB:=CB)) :=
  contract_bytes ← unwrap (parse_address conditions_contract);
  signed ← unwrap_res (sign nonce secret contract_bytes);
  Ok {| private_key := biguint_to_string (f_to_Z secret); eph_signature := signed |}.

Definition msg_to_point (msg : list Z) : outcome string string :=
  if (24 <? length msg)%nat then Ok "Message must be less than or equal to 24 bytes"%string
  else point ← unwrap_res (koblitz_map (pad24 msg)); Ok (point_to_string point).

Definition point_input (P : Point (Curve:=CB)) : PointInput :=
  let '(x, y) := coords P in {| pi_x := biguint_to_string x; pi_y := biguint_to_string y |}.

(** [secret], [rand] and [nonce] are drawn by [encrypt_with_conditions]. *)
Definition encrypt (secret rand nonce : Scalar (Curve:=CB)) (pubkey_hex msg_hex conditions_contract : string)
    : outcome string EncryptOutput :=
  pubkey_bytes ← unwrap (hex_decode pubkey_hex);
  pubkey ← unwrap_res (from_encoded (Curve:=CB) pubkey_bytes);
  msg_bytes ← unwrap (hex_decode msg_hex);
  _ ← assert_ (length msg_bytes <=? 24)%nat;
  parsed_contract ← unwrap (parse_address conditions_contract);
  enc ← unwrap_res (encrypt_with_conditions secret rand nonce (pad24 msg_bytes) pubkey parsed_contract);
  encoded ← unwrap_res (encode (ephemeral_dh_pubkey (ciphertext enc)));
  Ok {| eo_ciphertext := {| c1 := point_input (ephemeral_dh_pubkey (ciphertext enc));
                            c2 := point_input (encrypted_msg (ciphertext enc)) |};
        eo_contract := ("0x" +:+ hex_encode (contract (signed_conditions enc)))%string;
        eo_sig := sig_to_json (sig (signed_conditions enc));
        eo_c1_hash := ("0x" +:+ hex_encode (keccak256 encoded))%string |}.

Definition pubkey_to_circom_format (encoded_pubkey_hex : string) : outcome string (string * string) :=
  bytes ← unwrap (hex_decode encoded_pubkey_hex);
  pubkey ← unwrap_res (from_encoded (Curve:=CB) bytes);
  let twisted := BabyJubJub.edwards_to_twisted (coords pubkey) in
  Ok (biguint_to_string twisted.1, biguint_to_string twisted.2).

Definition get_network_babyjub_pubkey (relay_url : string) : Action string :=
  r ← call_unwrap (post_get_pubkey relay_url);
  lift (match r with
        | SdkKeyshare map => unwrap (map !! "DecryptBabyJubjub"%string)
        | _ => Panic
        end).

Definition set_pubkey (pubkey : Point (Curve:=CB)) : Action (Point (Curve:=CB)) := λ w,
  ({| net := net w; babyjub_pubkey := Some pubkey |}, Ok pubkey).
Definition network_babyjub_pubkey (relay_url : string) : Action (Point (Curve:=CB)) := λ w,
  match babyjub_pubkey w with
  | Some pubkey => (w, Ok pubkey)
  | None =>
      (pubkey_hex ← get_network_babyjub_pubkey relay_url;
       pubkey_bytes ← lift (unwrap (hex_decode pubkey_hex));
       pubkey ← lift (unwrap_res (from_encoded (Curve:=CB) pubkey_bytes));
       set_pubkey pubkey : Action (Point (Curve:=CB))) w
  end.

(** ** Decryption *)
Definition request_user_state (m : Method) (address : Address) : Action SdkStateResponse :=
  r ← call_unwrap (post_fetch_state RELAY_URL address m);
  lift (match r with
        | SdkStateSuccess epoch method requests_from_user =>
            Ok {| ssr_epoch := epoch; ssr_method := method; ssr_requests_from_user := requests_from_user |}
        | SdkStateError _ => Panic
        end).

Definition get_user_state (m address : string) : Action SdkStateResponse :=
  parsed_method ← lift (if bool_decide (m = "OPRFSecp256k1"%string) then Ok OPRFSecp256k1
                        else if bool_decide (m = "DecryptBabyJubJub"%string) then Ok DecryptBabyJubJub
                        else Panic);
  parsed_address ← lift (unwrap (parse_address address));
  request_user_state parsed_method parsed_address.

(** [signed], which panics where the node's version returns an error. *)
Definition sdk_signed (q : RequestToNetwork) (wallet : Wallet) : outcome string RequestToNetwork :=
  unwrap_res (signed CB CS q wallet).
Definition sign_request_to_network (request private_key : string) : outcome string RequestToNetwork :=
  req ← unwrap (request_from_json request);
  wallet ← unwrap (parse_wallet private_key);
  sdk_signed req wallet.

Definition parse_point (p : PointInput) : outcome string (Point (Curve:=CB)) :=
  x ← unwrap (biguint_from_str (pi_x p));
  y ← unwrap (biguint_from_str (pi_y p));
  let P := from_coords (x, y) in
  _ ← assert_ (is_on_curve P);
  Ok P.

Definition parse_decrypt_args (human_user_privkey ciphertext conditions_contract sig : string)
    : outcome string (Wallet * ElGamalCiphertextWithSignedConditions (C:=CB)) :=
  wallet ← unwrap (parse_wallet human_user_privkey);
  ciphertext ← unwrap (ciphertext_from_json ciphertext);
  ephemeral_dh_pubkey ← parse_point (c1 ciphertext);
  encrypted_msg ← parse_point (c2 ciphertext);
  parsed_contract ← unwrap (parse_address conditions_contract);
  parsed_sig ← unwrap (sig_from_json sig);
  Ok (wallet, {| ciphertext := {| encrypted_msg := encrypted_msg; ephemeral_dh_pubkey := ephemeral_dh_pubkey |};
                 signed_conditions := {| contract := parsed_contract; Encryption.sig := parsed_sig |} |}).

(** The message, from the point that the network reconstructed. *)
Definition finish_decrypt (c : ElGamalCiphertextWithSignedConditions (C:=CB))
    (reconstructed_point : BabyJubJub.EncodedBabyJubJubPoint) : outcome string (list Z) :=
  shared_sec ← unwrap_res (from_encoded (Curve:=CB) (BabyJubJub.bincode_serialize reconstructed_point));
  unwrap_res (decrypt_elgamal_from_shared_secret (ciphertext c) shared_sec).

(** The loop, with [attempts] tries left. *)
Fixpoint poll_decrypt (attempts : nat) (c : ElGamalCiphertextWithSignedConditions (C:=CB)) (request_id : string)
    : Action (list Z) :=
  match attempts with
  | O => lift Panic
  | S attempts =>
      r ← call_unwrap (post_fetch_result RELAY_URL request_id);
      match r with
      | SdkVerifiedBabyJubJub _ reconstructed_point => lift (finish_decrypt c reconstructed_point)
      | SdkSubmitted _ => poll_decrypt attempts c request_id
      | SdkError message =>
          if bool_decide (message = "Not yet verified"%string) then poll_decrypt attempts c request_id
          else lift Panic
      | _ => lift Panic
      end
  end.

Definition decrypt (human_user_privkey ciphertext conditions_contract sig : string) : Action string :=
  '(wallet, c) ← lift (parse_decrypt_args human_user_privkey ciphertext conditions_contract sig);
  state ← request_user_state DecryptBabyJubJub (wallet_address wallet);
  point ← lift (unwrap_res (encode (ephemeral_dh_pubkey (Encryption.ciphertext c))));
  req ← lift (sdk_signed {| method := ssr_method state; Request.point := point; Request.epoch := ssr_epoch state;
                            request_per_user := wrap 128 (ssr_requests_from_user state + 1); signature := None;
                            extra_data := serialize_conditions c |} wallet);
  r ← call_unwrap (post_threshold_mul RELAY_URL req);
  output ← match r with
           | SdkVerifiedBabyJubJub _ reconstructed_point => lift (finish_decrypt c reconstructed_point)
           | SdkSubmitted request_id => poll_decrypt MAX_POLL_ATTEMPTS c request_id
           | _ => lift Panic
           end;
  mret (biguint_to_string (be_val output)).

(** ** Masked requests *)
Definition new_mask (secret : Scalar (Curve:=CS)) : Mask (C:=CS) := Mask_new secret.

(** [r] is the nonce of the mask's proof. *)
Definition make_jwt_request (r : Scalar (Curve:=CS)) (secret_mask jwt : string) : outcome string RequestToNetwork :=
  bytes ← ok_or (hex_decode secret_mask) (hex_error secret_mask);
  secret_mask ← text_err error_text (scalar_from_bytes (Curve:=CS) bytes);
  claims ← from_raw_token_unchecked jwt;
  unique_str ← unique_string claims;
  mask_proof ← unwrap_res (MaskProof_create (C:=CS) r secret_mask unique_str);
  point ← unwrap_res (encode (output_point mask_proof));
  frontend ← ok_or (serialize_frontend {| Request.jwt := jwt; key_idx := 0; mask_proof := mask_proof |}) "bincode"%string;
  Ok {| method := JWTPRFSecp256k1; Request.point := point; Request.epoch := 0; request_per_user := 0;
        signature := None; extra_data := Some frontend |}.

Definition unmask_point_and_hash_to_field {C : Curve} (mask point : string) : outcome string string :=
  bytes ← ok_or (hex_decode mask) (hex_error mask);
  mask ← text_err error_text (scalar_from_bytes (Curve:=C) bytes);
  bytes ← ok_or (hex_decode point) (hex_error point);
  network_output ← text_err error_text (from_encoded (Curve:=C) bytes);
  inv ← unwrap_res (mul_inv mask);
  match inv with
  | None => Err "Mask is zero"%string
  | Some inv =>
      h ← unwrap_res (hash_from_curve (scalar_mul network_output inv));
      Ok (biguint_to_string h)
  end.
Definition unmask_and_hash_to_field_secp256k1 (mask point : string) : outcome string string :=
  unmask_point_and_hash_to_field (C:=CS) mask point.

(** ** The OPRF *)

(** The salt is the same for every user. *)
Definition compute_oprf {C : Curve} (secret_mask : Scalar (Curve:=C)) (input : string)
    : outcome string (list Z * Scalar (Curve:=C)) :=
  unwrap_res (oprf_client_1 secret_mask (as_bytes "test-salt") (as_bytes input)).

(** The output from the network's point and the mask's bytes. *)
Definition unmask {C : Curve} (mask : list Z) (reconstructed_point : Point (Curve:=C)) : outcome string string :=
  mask ← unwrap_res (scalar_from_bytes (Curve:=C) mask);
  inv ← unwrap_res (mul_inv mask);
  inv ← unwrap inv;
  h ← unwrap_res (hash_from_curve (scalar_mul reconstructed_point inv));
  Ok (biguint_to_string h).

Definition unsigned_request (m : Method) (point : list Z) : RequestToNetwork :=
  {| method := m; Request.point := point; Request.epoch := 0; request_per_user := 0; signature := None;
     extra_data := None |}.

(** [replace] of every double quote by nothing. *)
Definition strip_quotes (s : string) : string :=
  string_of_list_ascii (filter (λ c, nat_of_ascii c ≠ 34%nat) (list_ascii_of_string s)).

(** The masks are the values the two curves' [rand_vartime] return. *)
Definition handle_oprf_request_from_signer (mask_s : Scalar (Curve:=CS)) (mask_b : Scalar (Curve:=CB))
    (input : string) (m : Method) (signer_url : string) : Action string :=
  match m with
  | OPRFSecp256k1 =>
      '(point, mask) ← lift (compute_oprf (C:=CS) mask_s input);
      '(success, text) ← call (post_signer signer_url (unsigned_request OPRFSecp256k1 point));
      lift (if success : bool then
              bytes ← ok_or (hex_decode (strip_quotes text)) (hex_error text);
              reconstructed_point ← text_err error_text (from_encoded (Curve:=CS) bytes);
              unmask (C:=CS) (scalar_to_bytes mask) reconstructed_point
            else Err text)
  | OPRFBabyJubJub =>
      '(point, mask) ← lift (compute_oprf (C:=CB) mask_b input);
      '(success, text) ← call (post_signer signer_url (unsigned_request OPRFBabyJubJub point));
      lift (if success : bool then
              encoded_point ← ok_or (encoded_from_json text) "json"%string;
              reconstructed_point ← text_err error_text
                (from_encoded (Curve:=CB) (BabyJubJub.bincode_serialize encoded_point));
              unmask (C:=CB) (scalar_to_bytes mask) reconstructed_point
            else Err text)
  | DecryptBabyJubJub => lift (Err "DecryptBabyJubJub not implemented in handle_oprf_request_from_signer"%string)
  | JWTPRFSecp256k1 => lift (Err "JWTPRFSecp256k1 not implemented in handle_oprf_request_from_signer"%string)
  end.
Definition request_from_signer mask_s mask_b (input m signer_url : string) : Action string :=
  match method_from_str m with
  | Some m => handle_oprf_request_from_signer mask_s mask_b input m signer_url
  | None => lift Panic
  end.

Definition process_finished_response (response : SdkResponse CS CB) (mask : list Z) : outcome string string :=
  match response with
  | SdkVerifiedSecp256k1 _ reconstructed_point => unmask (C:=CS) mask reconstructed_point
  | SdkVerifiedBabyJubJub _ reconstructed_point =>
      reconstructed_point ← unwrap_res
        (from_encoded (Curve:=CB) (BabyJubJub.bincode_serialize reconstructed_point));
      unmask (C:=CB) mask reconstructed_point
  | _ => Panic
  end.

Definition query_threshold_multiplication (rpc_url request_id : string) (w : SdkWorld CB W)
    : SdkWorld CB W * outcome string (SdkResponse CS CB) :=
  call (post_threshold_mul_id rpc_url request_id) w.
Definition process_response (rpc_url request_id : string) (mask : list Z) : Action string := λ w,
  let '(w, response) := query_threshold_multiplication rpc_url request_id w in
  (w, match response with
      | Ok (SdkVerifiedBabyJubJub _ _ as r) | Ok (SdkVerifiedSecp256k1 _ _ as r) => process_finished_response r mask
      | Panic => Panic
      | _ => Err "Unexpected response for process_response"%string
      end).

Definition create_request (wallet : Wallet) (point : list Z) (m : Method) (epoch requests_from_user : Z)
    (extra_data : option (list Z)) : outcome string RequestToNetwork :=
  sdk_signed {| method := m; Request.point := point; Request.epoch := epoch;
                request_per_user := wrap 128 (requests_from_user + 1); signature := None;
                Request.extra_data := extra_data |} wallet.

(** The random values of one call: the masks, and what encryption draws. *)
Record OprfRandom := {
  mask_s : Scalar (Curve:=CS); mask_b : Scalar (Curve:=CB);
  enc_secret : Scalar (Curve:=CB); enc_rand : Scalar (Curve:=CB); enc_nonce : Scalar (Curve:=CB)
}.

(** The first [match] of [handle_oprf_request]: the point, the extra data and the secrets. *)
Definition prepare_request (rnd : OprfRandom) (input : option string) (rpc_url : string) (m : Method)
    : Action (list Z * option (list Z) * list Z) :=
  match m with
  | OPRFSecp256k1 =>
      '(point, mask) ← lift (input ← unwrap input; compute_oprf (C:=CS) (mask_s rnd) input);
      mret (point, None, scalar_to_bytes mask)
  | OPRFBabyJubJub =>
      '(point, mask) ← lift (input ← unwrap input; compute_oprf (C:=CB) (mask_b rnd) input);
      mret (point, None, scalar_to_bytes mask)
  | DecryptBabyJubJub =>
      network_pubkey ← network_babyjub_pubkey rpc_url;
      lift (c ← unwrap_res (encrypt_with_conditions (enc_secret rnd) (enc_rand rnd) (enc_nonce rnd)
                              (replicate 24 123) network_pubkey CONDITIONS_CONTRACT);
            point ← unwrap_res (encode (ephemeral_dh_pubkey (ciphertext c)));
            data ← unwrap (serialize_conditions c);
            secrets ← unwrap_res (encode (encrypted_msg (ciphertext c)));
            Ok (point, Some data, secrets))
  | JWTPRFSecp256k1 =>
      lift (input ← unwrap input;
            let split := split_text "--SILK-JWT-SEPARATOR--" input in
            first ← unwrap (split !! 0%nat);
            bytes ← ok_or (hex_decode first) ("Invalid hex mask: " +:+ hex_error first)%string;
            secret_mask ← text_err (λ e, "Invalid scalar mask: " +:+ error_debug e)%string
              (scalar_from_bytes (Curve:=CS) bytes);
            second ← unwrap (split !! 1%nat);
            unfilled_req ← ok_or (request_from_json second) "Invalid request JSON: "%string;
            Ok (Request.point unfilled_req, extra_data unfilled_req, scalar_to_bytes secret_mask))
  end.

Definition response_error (response : outcome string (SdkResponse CS CB)) : string :=
  match response with
  | Ok (SdkError message) => "Node error: " +:+ message
  | Err e => "Request error: " +:+ e
  | Ok resp => "Unexpected response type: " +:+ response_debug resp
  | Panic => EmptyString
  end.

(** The last [match]: the method is the one of the state's answer. *)
Definition conclude_request (m : Method) (rpc_url : string) (extra_data : option (list Z))
    (client_secrets : list Z) (response : outcome string (SdkResponse CS CB)) : Action string :=
  match m, response with
  | _, Panic => lift Panic
  | (OPRFSecp256k1 | JWTPRFSecp256k1), Ok (SdkVerifiedSecp256k1 _ _ as r) =>
      lift (process_finished_response r client_secrets)
  | OPRFBabyJubJub, Ok (SdkVerifiedBabyJubJub _ _ as r) => lift (process_finished_response r client_secrets)
  | (OPRFSecp256k1 | OPRFBabyJubJub | JWTPRFSecp256k1), Ok (SdkSubmitted request_id) =>
      process_response rpc_url request_id client_secrets
  | OPRFSecp256k1, _ => lift (Err (response_error response))
  | (OPRFBabyJubJub | JWTPRFSecp256k1), _ => lift Panic
  | DecryptBabyJubJub, Ok (SdkVerifiedBabyJubJub _ reconstructed_point) =>
      lift (shared_sec ← unwrap_res (from_encoded (Curve:=CB) (BabyJubJub.bincode_serialize reconstructed_point));
            data ← ok_or extra_data "DecryptBabyJubJub while decrypting"%string;
            c ← unwrap (deserialize_conditions CB CS data);
            output ← unwrap_res (decrypt_elgamal_from_shared_secret (ciphertext c) shared_sec);
            Ok (hex_encode output))
  | DecryptBabyJubJub, _ => lift (Err "DecryptBabyJubJub while decrypting"%string)
  end.

Definition send_and_conclude (req : RequestToNetwork) (m : Method) (rpc_url : string) (extra_data : option (list Z))
    (client_secrets : list Z) : Action string := λ w,
  let '(w, response) := call (post_threshold_mul rpc_url req) w in
  conclude_request m rpc_url extra_data client_secrets response w.

Definition handle_oprf_request (rnd : OprfRandom) (private_key input : option string) (rpc_url : string) (m : Method)
    : Action string :=
  private_key ← lift (unwrap private_key);
  wallet ← lift (ok_or (parse_wallet private_key) "Failed to parse private key: "%string);
  '(point, extra_data, client_secrets) ← prepare_request rnd input rpc_url m;
  state ← call (λ n, let '(n, r) := post_fetch_state rpc_url (wallet_address wallet) m n in
                     (n, match r with Err e => Err ("Failed to fetch state: " +:+ e)%string | r => r end));
  match state with
  | SdkStateSuccess epoch m requests_from_user =>
      req ← lift (create_request wallet point m epoch requests_from_user extra_data);
      send_and_conclude req m rpc_url extra_data client_secrets
  | SdkStateError message => lift (Err ("State error: " +:+ message)%string)
  end.
Definition generate_oprf (rnd : OprfRandom) (private_key input : option string) (m rpc_url : string) : Action string :=
  match method_from_str m with
  | Some m => handle_oprf_request rnd private_key input rpc_url m
  | None => lift (Err ("Invalid method: " +:+ m)%string)
  end.
End Sdk.
