(* ===== verification/SdkProofs.v ===== *)
(** * What a client of the network gets

    The mask cancels: both ways to the OPRF give the same output for an input, and a message
    that was encrypted to the network comes back from [decrypt], polls included. *)
From Stdlib Require Import ZArith Lia Ascii String Zmod Field.
From stdpp Require Import base list gmap sets strings pretty.
From S2P Require Import Prelude PrimeField Curve ModelCurve Dleq Schnorr Encryption Serialization ZkMask Request.
From S2P Require Import ConcreteCurves NodeSelection Messages Election AppState Gossip Rpc Sdk.

Section Unmask.
Context (CS CB : Curve) `{HH : Hashes} `{KDF : Kdf} `{E : Eth} `{ST : !SdkTexts CS CB} {C : Curve} {CL : CurveLaws C}.
Add Field S_field : (f_field_theory (F:=Scalar (Curve:=C))).

(** The mask of a request cancels in the output. *)
Lemma compute_unmask (mask k : Scalar (Curve:=C)) input kdf H prf :
  local_kdf (as_bytes "test-salt") (as_bytes input) = Ok kdf → hash_to_curve (Curve:=C) kdf = Ok H → H ≠ ZERO →
  mask ≠ 0%F → hash_from_curve (scalar_mul H k) = Ok prf →
  ∃ bs, compute_oprf (C:=C) mask input = Ok (bs, mask) ∧ from_encoded bs = Ok (scalar_mul H mask) ∧
    unmask CS CB (C:=C) (scalar_to_bytes mask) (scalar_mul (scalar_mul H mask) k) = Ok (biguint_to_string prf).
Proof.
  intros Hkdf Hh Hnz Hm Hprf. pose proof (hash_to_curve_sub _ _ Hh) as Hs. pose proof (sub_mul _ mask Hs) as HM.
  pose proof (encode_total _ HM (smul_nonzero _ _ Hs Hnz Hm)) as Henc.
  destruct (encode (scalar_mul H mask)) as [bs| |] eqn:Hbs; [|done..]. exists bs. split; [|split].
  - unfold compute_oprf, oprf_client_1. rewrite Hkdf. cbn [mbind outcome_bind]. rewrite Hh. cbn [mbind outcome_bind].
    by rewrite Hbs.
  - by apply encode_decode.
  - unfold unmask. rewrite scalar_bytes. cbn [mbind outcome_bind unwrap_res]. rewrite mul_inv_nonzero by done.
    cbn [mbind outcome_bind unwrap_res unwrap]. rewrite !smul_mul by auto with subgroup.
    replace (mask * (k * f_inv mask))%F with k by (by field). by rewrite Hprf.
Qed.
End Unmask.

Section Oprf.
Context (CS CB : Curve) {LS : CurveLaws CS} {LB : CurveLaws CB} `{HH : Hashes} `{KDF : Kdf} `{E : Eth} `{J : !Jwt}
  `{RC : !RequestCodec CB CS} `{MC : !MapCurve CB} {W : Type} `{SV : !Service CS CB W} `{ST : !SdkTexts CS CB}.

(** A relay at [url] and a signer service at [surl] of a network with the keys [kS] and [kB]. *)
Record network_multiplies (url surl : string) (kS : Scalar (Curve:=CS)) (kB : Scalar (Curve:=CB)) : Prop := {
  nm_state user m n : ∃ n' ep c, post_fetch_state url user m n = (n', Ok (SdkStateSuccess ep m c));
  nm_secp q n X : method q = OPRFSecp256k1 → from_encoded (Request.point q) = Ok X →
    ∃ n' rid, post_threshold_mul url q n = (n', Ok (SdkVerifiedSecp256k1 rid (scalar_mul X kS)));
  nm_bjj q n X : method q = OPRFBabyJubJub → from_encoded (Request.point q) = Ok X →
    ∃ n' rid e, post_threshold_mul url q n = (n', Ok (SdkVerifiedBabyJubJub rid e)) ∧
      from_encoded (BabyJubJub.bincode_serialize e) = Ok (scalar_mul X kB);
  nm_signer_secp q n X : method q = OPRFSecp256k1 → from_encoded (Request.point q) = Ok X →
    ∃ n' text bs, post_signer surl q n = (n', Ok (true, text)) ∧ hex_decode (strip_quotes text) = Some bs ∧
      from_encoded bs = Ok (scalar_mul X kS);
  nm_signer_bjj q n X : method q = OPRFBabyJubJub → from_encoded (Request.point q) = Ok X →
    ∃ n' text e, post_signer surl q n = (n', Ok (true, text)) ∧ encoded_from_json text = Some e ∧
      from_encoded (BabyJubJub.bincode_serialize e) = Ok (scalar_mul X kB)
}.

(** The wallet of a key signs every request that has no signature yet. *)
Definition signs (key : string) : Prop :=
  ∃ wallet, parse_wallet key = Some wallet ∧ ∀ q, signature q = None → ∃ q', signed CB CS q wallet = Ok q'.

Lemma signed_keeps q wallet q' : signed CB CS q wallet = Ok q' →
  method q' = method q ∧ Request.point q' = Request.point q.
Proof. unfold signed. destruct (signature q); [done|]. by intros (sg & _ & [= <-])%bind_Ok. Qed.

(** One call of [generate_oprf], for a method whose request is prepared and whose answer
    concludes with [out]. *)
Lemma handle_oprf_request_Ok rnd key input url surl kS kB m point secrets out w : signs key →
  network_multiplies url surl kS kB →
  (∀ w, prepare_request CS CB rnd input url m w = (w, Ok (point, None, secrets))) →
  (∀ q n, method q = m → Request.point q = point → ∃ n' resp, post_threshold_mul url q n = (n', Ok resp) ∧
     ∀ w, conclude_request CS CB m url None secrets (Ok resp) w = (w, Ok out)) →
  ∃ w', handle_oprf_request CS CB rnd (Some key) input url m w = (w', Ok out).
Proof.
  intros (wallet & Hw & Hsign) Hnet Hprep Hpost. unfold handle_oprf_request, mbind, action_bind, lift. cbn [unwrap].
  rewrite Hw. cbn [ok_or]. rewrite Hprep. unfold call at 1.
  destruct (nm_state _ _ _ _ Hnet (wallet_address wallet) m (net w)) as (n1 & ep & c & Hst). rewrite Hst. cbn [net babyjub_pubkey].
  set (q := {| method := m; Request.point := point; Request.epoch := ep; request_per_user := wrap 128 (c + 1);
               signature := None; extra_data := None |}).
  destruct (Hsign q eq_refl) as [q' Hq']. unfold create_request, sdk_signed. fold q. rewrite Hq'. cbn [unwrap_res].
  apply signed_keeps in Hq' as [Hm Hp]. unfold send_and_conclude, call. cbn [net babyjub_pubkey].
  destruct (Hpost q' n1 Hm Hp) as (n2 & resp & Hr & Hc). rewrite Hr. eexists. apply Hc.
Qed.

(** The evaluation of an input: the network's key times the point of the input. *)
Definition evaluates {C : Curve} (k : Scalar (Curve:=C)) (input : string) (prf : Z) : Prop :=
  ∃ kdf H, local_kdf (as_bytes "test-salt") (as_bytes input) = Ok kdf ∧ hash_to_curve (Curve:=C) kdf = Ok H ∧
    H ≠ ZERO ∧ hash_from_curve (scalar_mul H k) = Ok prf.

(** C39: Both ways to the OPRF give the same output, and it does not depend on the masks.  On a
    network with keys [kS] and [kB], for an input that hashes to a nonzero point,
    [generate_oprf] with any nonzero mask and [request_from_signer] with any other return
    the decimal text of [hash_from_curve] of the key times the input's point, for both
    OPRF methods. *)
Theorem sdk_oprf_output rnd rnd' key input url surl kS kB prfS prfB w :
  signs key → network_multiplies url surl kS kB →
  mask_s _ _ rnd ≠ 0%F → mask_s _ _ rnd' ≠ 0%F → mask_b _ _ rnd ≠ 0%F → mask_b _ _ rnd' ≠ 0%F →
  evaluates kS input prfS → evaluates kB input prfB →
  (∃ w1 w2, generate_oprf CS CB rnd (Some key) (Some input) "OPRFSecp256k1" url w = (w1, Ok (biguint_to_string prfS)) ∧
     request_from_signer CS CB (mask_s _ _ rnd') (mask_b _ _ rnd') input "OPRFSecp256k1" surl w = (w2, Ok (biguint_to_string prfS))) ∧
  (∃ w1 w2, generate_oprf CS CB rnd (Some key) (Some input) "OPRFBabyJubJub" url w = (w1, Ok (biguint_to_string prfB)) ∧
     request_from_signer CS CB (mask_s _ _ rnd') (mask_b _ _ rnd') input "OPRFBabyJubJub" surl w = (w2, Ok (biguint_to_string prfB))).
Proof.
  intros Hsigns Hnet Hs Hs' Hb Hb' (kdfS & HS & K1 & K2 & K3 & K4) (kdfB & HB & B1 & B2 & B3 & B4).
  destruct (compute_unmask CS CB _ kS input _ _ _ K1 K2 K3 Hs K4) as (bs & Hc & Hd & Hu).
  destruct (compute_unmask CS CB _ kS input _ _ _ K1 K2 K3 Hs' K4) as (bs' & Hc' & Hd' & Hu').
  destruct (compute_unmask CS CB _ kB input _ _ _ B1 B2 B3 Hb B4) as (bb & Hcb & Hdb & Hub).
  destruct (compute_unmask CS CB _ kB input _ _ _ B1 B2 B3 Hb' B4) as (bb' & Hcb' & Hdb' & Hub').
  split.
  - destruct (handle_oprf_request_Ok rnd key (Some input) url surl kS kB OPRFSecp256k1 bs
      (scalar_to_bytes (mask_s _ _ rnd)) (biguint_to_string prfS) w Hsigns Hnet) as [w1 Hw1].
    + intros w0. cbn [prepare_request unwrap mbind action_bind outcome_bind lift]. by rewrite Hc.
    + intros q n Hm Hp. rewrite <- Hp in Hd. destruct (nm_secp _ _ _ _ Hnet q n _ Hm Hd) as (n' & rid & Hr).
      eexists _, _. split; [exact Hr|]. intros w0. cbn [conclude_request process_finished_response lift]. by rewrite Hu.
    + destruct (nm_signer_secp _ _ _ _ Hnet (unsigned_request OPRFSecp256k1 bs') (net w) _ eq_refl Hd')
        as (n' & text & b & Hr & Hx & Hdec).
      eexists _, _. split; [exact Hw1|].
      change (request_from_signer CS CB (mask_s _ _ rnd') (mask_b _ _ rnd') input "OPRFSecp256k1" surl w) with
        (handle_oprf_request_from_signer CS CB (mask_s _ _ rnd') (mask_b _ _ rnd') input OPRFSecp256k1 surl w).
      unfold handle_oprf_request_from_signer, mbind, action_bind, lift. rewrite Hc'. unfold call. rewrite Hr. cbn [outcome_bind].
      rewrite Hx. cbn [ok_or outcome_bind]. rewrite Hdec. cbn [text_err outcome_bind]. by rewrite Hu'.
  - destruct (handle_oprf_request_Ok rnd key (Some input) url surl kS kB OPRFBabyJubJub bb
      (scalar_to_bytes (mask_b _ _ rnd)) (biguint_to_string prfB) w Hsigns Hnet) as [w1 Hw1].
    + intros w0. cbn [prepare_request unwrap mbind action_bind outcome_bind lift]. by rewrite Hcb.
    + intros q n Hm Hp. rewrite <- Hp in Hdb. destruct (nm_bjj _ _ _ _ Hnet q n _ Hm Hdb) as (n' & rid & e & Hr & He).
      eexists _, _. split; [exact Hr|]. intros w0. cbn [conclude_request process_finished_response lift].
      rewrite He. cbn [unwrap_res mbind outcome_bind]. by rewrite Hub.
    + destruct (nm_signer_bjj _ _ _ _ Hnet (unsigned_request OPRFBabyJubJub bb') (net w) _ eq_refl Hdb')
        as (n' & text & e & Hr & Hx & Hdec).
      eexists _, _. split; [exact Hw1|].
      change (request_from_signer CS CB (mask_s _ _ rnd') (mask_b _ _ rnd') input "OPRFBabyJubJub" surl w) with
        (handle_oprf_request_from_signer CS CB (mask_s _ _ rnd') (mask_b _ _ rnd') input OPRFBabyJubJub surl w).
      unfold handle_oprf_request_from_signer, mbind, action_bind, lift. rewrite Hcb'. unfold call. rewrite Hr. cbn [outcome_bind].
      rewrite Hx. cbn [ok_or outcome_bind]. rewrite Hdec. cbn [text_err outcome_bind]. by rewrite Hub'.
Qed.
End Oprf.

Section Decrypt.
Context (CS CB : Curve) {LB : CurveLaws CB} `{HH : Hashes} `{KDF : Kdf} `{E : Eth} `{J : !Jwt}
  `{RC : !RequestCodec CB CS} `{MC : !MapCurve CB} {W : Type} `{SV : !Service CS CB W} `{ST : !SdkTexts CS CB}.

(** Texts come back. *)
Class SdkTextsLaws : Prop := {
  address_text_roundtrip a : Forall is_byte a → length a = 20%nat →
    parse_address (("0x" +:+ hex_encode a)%string) = Some a;
  biguint_roundtrip z : 0 ≤ z → biguint_from_str (biguint_to_string z) = Some z;
  coords_roundtrip P : from_coords (coords P) = P;
  coords_nonneg P : 0 ≤ (coords P).1 ∧ 0 ≤ (coords P).2;
  ciphertext_json_roundtrip c : ciphertext_from_json (ciphertext_to_json c) = Some c;
  sig_json_roundtrip s : sig_from_json (sig_to_json s) = Some s
}.
Context {TL : SdkTextsLaws}.

Lemma parse_point_input P : is_on_curve P = true → parse_point CS CB (point_input CS CB P) = Ok P.
Proof.
  intros HP. unfold parse_point, point_input. pose proof (coords_nonneg P) as [Hx Hy]. pose proof (coords_roundtrip P) as Hc.
  destruct (coords P) as [x y]. cbn in *. rewrite biguint_roundtrip by done. cbn [unwrap mbind outcome_bind].
  rewrite biguint_roundtrip by done. cbn [unwrap mbind outcome_bind]. rewrite Hc, HP. done.
Qed.

(** The relay answers [j] polls for a request with nothing yet, and the next with [e]. *)
Definition not_yet (r : SdkResponse CS CB) : Prop :=
  (∃ id, r = SdkSubmitted id) ∨ r = SdkError "Not yet verified"%string.
Inductive polls (rid : string) (e : BabyJubJub.EncodedBabyJubJubPoint) : nat → W → W → Prop :=
  | polls_ready n n' id : post_fetch_result RELAY_URL rid n = (n', Ok (SdkVerifiedBabyJubJub id e)) → polls rid e 0 n n'
  | polls_later j n n1 n' r : post_fetch_result RELAY_URL rid n = (n1, Ok r) → not_yet r →
      polls rid e j n1 n' → polls rid e (S j) n n'.

Lemma poll_decrypt_spec attempts c rid e j n n' pk : polls rid e j n n' →
  (poll_decrypt CS CB attempts c rid {| net := n; babyjub_pubkey := pk |}).2
  = if (j <? attempts)%nat then finish_decrypt CB c e else Panic.
Proof.
  intros Hp. revert attempts. induction Hp as [n n' id Hr|j n n1 n' r Hr Hny Hp IH]; intros [|a]; cbn [poll_decrypt]; try done.
  - unfold mbind, action_bind, call_unwrap, call, lift. cbn [net babyjub_pubkey]. by rewrite Hr.
  - unfold mbind, action_bind, call_unwrap, call. cbn [net babyjub_pubkey]. rewrite Hr. cbn [unwrap_res].
    specialize (IH a). change (S j <? S a)%nat with (j <? a)%nat.
    destruct Hny as [[id ->]| ->]; [exact IH|]. rewrite bool_decide_eq_true_2 by done. exact IH.
Qed.

Lemma pad24_val msg : be_val (pad24 msg) = be_val msg.
Proof. apply be_val_zeros_app. Qed.

Lemma subgroup_on_curve (P : Point (Curve:=CB)) : in_subgroup P → is_on_curve P = true.
Proof. unfold in_subgroup. by destruct (is_on_curve P). Qed.

(** The relay has accepted the request and its threshold is met after [j] polls. *)
Definition serves_decryption (x : Scalar (Curve:=CB)) (wallet : Wallet) (j : nat) (n : W) : Prop :=
  ∃ n1 ep c,
    post_fetch_state RELAY_URL (wallet_address wallet) DecryptBabyJubJub n
      = (n1, Ok (SdkStateSuccess ep DecryptBabyJubJub c)) ∧
    ∀ q P, method q = DecryptBabyJubJub → from_encoded (Curve:=CB) (Request.point q) = Ok P →
      ∃ n2 n3 rid e, post_threshold_mul RELAY_URL q n1 = (n2, Ok (SdkSubmitted rid)) ∧ polls rid e j n2 n3 ∧
        from_encoded (BabyJubJub.bincode_serialize e) = Ok (scalar_mul P x).

(** The ciphertext of a message, and how it looks in text. *)
Definition sealed (x secret : Scalar (Curve:=CB)) (M : Point (Curve:=CB)) addr sg
    : ElGamalCiphertextWithSignedConditions (C:=CB) :=
  {| ciphertext := {| encrypted_msg := add_self (scalar_mul (scalar_mul G x) secret) M;
                      ephemeral_dh_pubkey := scalar_mul G secret |};
     signed_conditions := {| contract := addr; Encryption.sig := sg |} |}.

Lemma encrypt_sealed x secret rand nonce pk_bytes msg addr text M :
  encode (scalar_mul G x) = Ok pk_bytes → Forall is_byte pk_bytes → (length msg ≤ 24)%nat → Forall is_byte msg →
  koblitz_map (pad24 msg) = Ok M → parse_address text = Some addr → secret ≠ 0%F → nonce ≠ 0%F →
  ∃ sg out c1b, encrypt CS CB secret rand nonce (hex_encode pk_bytes) (hex_encode msg) text = Ok out ∧
    encode (scalar_mul G secret) = Ok c1b ∧
    eo_ciphertext out = {| c1 := point_input CS CB (scalar_mul G secret);
                           c2 := point_input CS CB (encrypted_msg (ciphertext (sealed x secret M addr sg))) |} ∧
    eo_contract out = ("0x" +:+ hex_encode addr)%string ∧ eo_sig out = sig_to_json sg.
Proof.
  intros Hpk Hpkb Hlen Hmb HM Hca Hsec Hnon.
  pose proof (encode_decode _ _ (sub_mul _ x sub_base) Hpk) as Hdec.
  destruct (sign_total nonce secret addr Hnon Hsec) as [sg Hsg].
  pose proof (encode_total _ (sub_mul _ secret sub_base) (smul_nonzero _ _ sub_base base_nonzero Hsec)) as Hc1e.
  destruct (encode (scalar_mul G secret)) as [c1b| |] eqn:Hc1b; [|done..]. 
  exists sg, {| eo_ciphertext := {| c1 := point_input CS CB (scalar_mul G secret);
                  c2 := point_input CS CB (encrypted_msg (ciphertext (sealed x secret M addr sg))) |};
                eo_contract := ("0x" +:+ hex_encode addr)%string; eo_sig := sig_to_json sg;
                eo_c1_hash := ("0x" +:+ hex_encode (keccak256 c1b))%string |}, c1b.
  split; [|done]. unfold encrypt. rewrite (hex_decode_encode _ Hpkb). cbn [unwrap mbind outcome_bind]. rewrite Hdec.
  cbn [unwrap_res mbind outcome_bind]. rewrite (hex_decode_encode _ Hmb). cbn [unwrap mbind outcome_bind].
  rewrite (proj2 (Nat.leb_le _ _) Hlen). cbn [assert_ mbind outcome_bind]. rewrite Hca. cbn [unwrap mbind outcome_bind].
  unfold encrypt_with_conditions. rewrite (encrypt_Ok _ _ _ _ M HM). cbn [mbind outcome_bind]. rewrite Hsg.
  cbn [unwrap_res mbind outcome_bind ciphertext ephemeral_dh_pubkey signed_conditions contract from_option id].
  rewrite Hc1b. reflexivity.
Qed.

Lemma parse_sealed x secret M addr sg key wallet : in_subgroup M → parse_wallet key = Some wallet →
  Forall is_byte addr → length addr = 20%nat →
  parse_decrypt_args CS CB key (ciphertext_to_json {| c1 := point_input CS CB (scalar_mul G secret);
      c2 := point_input CS CB (encrypted_msg (ciphertext (sealed x secret M addr sg))) |})
    ("0x" +:+ hex_encode addr)%string (sig_to_json sg) = Ok (wallet, sealed x secret M addr sg).
Proof.
  intros HM Hwal Hb Hl. unfold parse_decrypt_args. rewrite Hwal. cbn [unwrap mbind outcome_bind].
  rewrite ciphertext_json_roundtrip. cbn [unwrap mbind outcome_bind c1 c2].
  rewrite (parse_point_input (scalar_mul G secret)) by (apply subgroup_on_curve, sub_mul, sub_base). cbn [mbind outcome_bind].
  rewrite parse_point_input by (apply subgroup_on_curve; cbn; auto with subgroup). cbn [mbind outcome_bind].
  rewrite address_text_roundtrip by done. cbn [unwrap mbind outcome_bind]. rewrite sig_json_roundtrip. done.
Qed.

Lemma finish_sealed x secret M addr sg e msg : in_subgroup M → reverse_koblitz M = Ok msg →
  from_encoded (BabyJubJub.bincode_serialize e) = Ok (scalar_mul (scalar_mul G secret) x) →
  finish_decrypt CB (sealed x secret M addr sg) e = Ok msg.
Proof.
  intros HM Hrev He. unfold finish_decrypt. rewrite He. cbn [unwrap_res mbind outcome_bind].
  unfold decrypt_elgamal_from_shared_secret. cbn [sealed ciphertext encrypted_msg].
  replace (scalar_mul (scalar_mul G secret) x) with (scalar_mul (scalar_mul G x) secret).
  - rewrite unmask_point by auto with subgroup. by rewrite Hrev.
  - rewrite !smul_mul by auto with subgroup. apply smul_eq. apply f_to_Z_inj. rewrite !f_to_Z_mul. f_equal. lia.
Qed.

(** C40: A message encrypted to the network comes back.  For a message of at most 24 bytes that
    the curve's map takes to a subgroup point and back, [encrypt] under the network's key
    [x⋅G] succeeds for all nonzero random values; and when the relay answers the client's
    request with a request id and is still working at the first [j] polls, [decrypt] on the
    texts that [encrypt] returned gives the decimal value of the message if [j] is below 30,
    and panics otherwise. *)
Theorem sdk_decrypt_roundtrip (x secret rand nonce : Scalar (Curve:=CB)) pk_bytes msg addr text M
    key wallet j n pk :
  encode (scalar_mul G x) = Ok pk_bytes → Forall is_byte pk_bytes →
  (length msg ≤ 24)%nat → Forall is_byte msg →
  koblitz_map (pad24 msg) = Ok M → in_subgroup M → reverse_koblitz M = Ok (pad24 msg) →
  parse_address text = Some addr → Forall is_byte addr → length addr = 20%nat →
  secret ≠ 0%F → nonce ≠ 0%F →
  parse_wallet key = Some wallet → (∀ q, signature q = None → ∃ q', signed CB CS q wallet = Ok q') →
  serves_decryption x wallet j n →
  ∃ out, encrypt CS CB secret rand nonce (hex_encode pk_bytes) (hex_encode msg) text = Ok out ∧
    (decrypt CS CB key (ciphertext_to_json (eo_ciphertext out)) (eo_contract out) (eo_sig out)
       {| net := n; babyjub_pubkey := pk |}).2
    = if (j <? 30)%nat then Ok (biguint_to_string (be_val msg)) else Panic.
Proof.
  intros Hpk Hpkb Hlen Hmb HM HMs Hrev Hca Hcb Hcl Hsec Hnon Hwal Hsign (n1 & ep & cnt & Hst & Hserve).
  destruct (encrypt_sealed x secret rand nonce pk_bytes msg addr text M) as (sg & out & c1b & Hout & Hc1b & E1 & E2 & E3); [done..|].
  exists out. split; [exact Hout|]. rewrite E1, E2, E3. unfold decrypt, mbind, action_bind, lift.
  rewrite (parse_sealed x secret M addr sg key wallet HMs Hwal Hcb Hcl).
  unfold request_user_state, mbind, action_bind, call_unwrap, call, lift. cbn [net babyjub_pubkey]. rewrite Hst.
  cbn [unwrap_res ssr_method ssr_epoch ssr_requests_from_user]. cbn [sealed Encryption.ciphertext ephemeral_dh_pubkey]. rewrite Hc1b.
  cbn [unwrap_res]. set (q := {| method := DecryptBabyJubJub |}). destruct (Hsign q eq_refl) as [q' Hq'].
  unfold sdk_signed. rewrite Hq'. cbn [unwrap_res]. apply signed_keeps in Hq' as [Hm Hp].
  pose proof (encode_decode _ _ (sub_mul _ secret sub_base) Hc1b) as Hd. 
  destruct (Hserve q' (scalar_mul G secret)) as (n2 & n3 & rid & e & Hmul & Hpolls & He); [done|by rewrite Hp|].
  cbn [net babyjub_pubkey]. rewrite Hmul. cbn [unwrap_res]. fold (sealed x secret M addr sg).
  pose proof (poll_decrypt_spec MAX_POLL_ATTEMPTS (sealed x secret M addr sg) rid e j n2 n3 pk Hpolls) as Hpoll.
  rewrite (finish_sealed x secret M addr sg e (pad24 msg)) in Hpoll by done. change MAX_POLL_ATTEMPTS with 30%nat in Hpoll.
  unfold MAX_POLL_ATTEMPTS. destruct (poll_decrypt _ _ _ _ _ _) as [w' r]. cbn [snd] in Hpoll. subst r.
  destruct (j <? 30)%nat; cbn; [by rewrite pad24_val|done].
Qed.
End Decrypt.

(** ** The relay behind the library *)
Section RelayService.
Context (CS CB : Curve) `{HH : Hashes} `{KDF : Kdf} `{HO : HashOrder} `{E : Eth} `{J : !Jwt}
  `{RC : !RequestCodec CB CS} `{MC : !MapCurve CB} `{RG : Rng} `{F : !F64} `{AT : !AppTexts} `{ST : !SdkTexts CS CB}.

(** What the library's types make of an answer of the relay. *)
Definition sdk_of_rpc (r : RpcResult CS CB) : outcome string (SdkResponse CS CB) :=
  match r with
  | RSubmitted _ _ id => Ok (SdkSubmitted id)
  | RNode _ _ (ConstructedProofSecp256k1 i peer id proof m) => Ok (SdkConstructedSecp256k1 i peer id proof m)
  | RNode _ _ (ConstructedProofBabyJubJub i peer id proof m) => Ok (SdkConstructedBabyJubJub i peer id proof m)
  | RNode _ _ (VerifiedProofSecp256k1 id p) => Ok (SdkVerifiedSecp256k1 id p)
  | RNode _ _ (VerifiedProofBabyJubJub id p) => Ok (SdkVerifiedBabyJubJub id p)
  | RNode _ _ (ErrorResponse _ message) => Ok (SdkError message)
  | RNode _ _ (Keyshare shares) => Ok (SdkKeyshare shares)
  | _ => Err "Failed to parse"%string
  end.

(** The relay's RPC server; a text where a request is expected is refused as invalid
    parameters, an answer without a result. *)
#[local] Instance relay_service (env : AppEnv CS CB) (uuid : string) (during : list (AppMessage CS CB))
    : Service CS CB RpcWorld := {|
  post_fetch_state _ user m w :=
    let '(w, r) := fetch_state CS CB env user m w in
    (w, match r with
        | RState _ _ (StateSuccess ep m c) => Ok (SdkStateSuccess ep m c)
        | RState _ _ (StateError message) => Ok (SdkStateError message)
        | _ => Err "Failed to parse"%string
        end);
  post_threshold_mul _ q w := let '(w, r) := threshold_mul CS CB env q uuid during w in (w, sdk_of_rpc r);
  post_threshold_mul_id _ _ w := (w, Err "missing field `result`"%string);
  post_fetch_result _ id w := let '(w, r) := fetch_threshold_mul_result CS CB env id w in (w, sdk_of_rpc r);
  post_get_pubkey _ w := let '(w, r) := get_pubkey CS CB env w in (w, sdk_of_rpc r);
  post_signer _ _ w := (w, Err "connect"%string)
|}.

(** When the relay's first answer is a request id, [generate_oprf] fails, whatever the relay
    would answer to a poll; [decrypt] makes that poll. *)
Lemma submitted_oprf_fails env uuid during m url data mask rid w :
  m = OPRFSecp256k1 ∨ m = OPRFBabyJubJub ∨ m = JWTPRFSecp256k1 →
  conclude_request CS CB (SV:=relay_service env uuid during) m url data mask (Ok (SdkSubmitted rid)) w
  = (w, Err "Unexpected response for process_response"%string).
Proof. intros [->|[->| ->]]; cbn; by destruct w. Qed.
End RelayService.

(** ** Examples *)
Module SdkExamples.
Import ModelInstances.
#[local] Existing Instance RequestExamples.toy_eth.
#[local] Existing Instance RequestExamples.toy_jwt.

(** The model curve with encodings in the form of BabyJubJub's. *)
Definition box (P : Z101) : BabyJubJub.EncodedBabyJubJubPoint :=
  {| BabyJubJub.greatest := false; BabyJubJub.y := [Zmod.unsigned P] |}.
Definition boxed_curve : Curve := {|
  Point := Z101; Scalar := Z101; FieldEl := Z101; repr_len := 1; FIELD_MODULUS_BE := be_bytes 32 q101;
  ZERO := Zmod.zero; base_point_or_generator := Zmod.one; add_self := Zmod.add;
  scalar_mul P a := Zmod.mul P a; neg := Zmod.opp; is_on_curve _ := true;
  is_in_subgroup_assuming_on_curve _ := true; encode P := Ok (BabyJubJub.bincode_serialize (box P));
  from_encoded bs :=
    match BabyJubJub.bincode_deserialize bs with
    | Some {| BabyJubJub.y := [b] |} => if b <? q101 then Ok (Zmod.of_Z q101 b) else Err InvalidInput
    | _ => Err InvalidInput
    end;
  scalar_of_field x := x; field_of_scalar x := x; mul_inv s := Ok (f_invert s);
  from_biguint_vartime z := Ok (Zmod.of_Z q101 z); scalar_from_bytes bs := Ok (Zmod.of_Z q101 (be_val bs));
  scalar_to_bytes s := be_bytes 1 (Zmod.unsigned s); hash_to_curve m := Ok (Zmod.of_Z q101 (be_val m + 1));
  hash_from_curve P := Ok (Zmod.unsigned P)
|}.
Abbreviation from_boxed := (from_encoded (Curve:=boxed_curve)).
Lemma from_box P : from_boxed (BabyJubJub.bincode_serialize (box P)) = Ok (P : Point (Curve:=boxed_curve)).
Proof.
  cbn [from_encoded boxed_curve]. rewrite BabyJubJub.bincode_roundtrip by (cbn; lia). cbn [box].
  pose proof (Zmod.unsigned_pos_bound P ltac:(unfold q101; lia)).
  destruct (Z.ltb_spec (Zmod.unsigned P) q101); [|lia]. by rewrite Zmod.of_Z_to_Z.
Qed.
#[local] Instance boxed_laws : CurveLaws boxed_curve.
Proof.
  pose proof model_curve_laws as []. constructor; cycle 21.
  { intros P bs _ [= <-]. apply from_box. }
  all: try done; try assumption.
Qed.

(** Values in text: a countable value as a binary number. *)
Fixpoint pos_text (p : positive) : string :=
  match p with xH => EmptyString | xO p => String "0" (pos_text p) | xI p => String "1" (pos_text p) end.
Fixpoint text_pos (s : string) : positive :=
  match s with
  | EmptyString => xH
  | String c s => if bool_decide (c = "0"%char) then xO (text_pos s) else xI (text_pos s)
  end.
Lemma text_pos_text p : text_pos (pos_text p) = p.
Proof. induction p as [p IH|p IH|]; cbn [pos_text text_pos]; [| |done]; by rewrite IH. Qed.
Definition to_text {A} `{Countable A} (a : A) : string := pos_text (countable.encode a).
Definition of_text {A} `{Countable A} (s : string) : option A := countable.decode (text_pos s).
Lemma of_to_text {A} `{Countable A} (a : A) : of_text (to_text a) = Some a.
Proof. unfold of_text, to_text. by rewrite text_pos_text, decode_encode. Qed.

#[local] Instance toy_request_codec : RequestCodec boxed_curve model_curve := {|
  serialize_request _ := Some []; deserialize_conditions _ := None; deserialize_frontend _ := None |}.
#[local] Instance toy_texts : SdkTexts model_curve boxed_curve := @Build_SdkTexts model_curve boxed_curve _
  (λ s, match s with String _ (String _ s) => hex_decode s | _ => None end) (λ _, Some [1; 2])
  to_text of_text
  (λ P, (Zmod.unsigned (P : Z101), 0)) (λ c, Zmod.of_Z q101 c.1) (λ _, "p"%string)
  (λ c, to_text (pi_x (c1 c), pi_y (c1 c), pi_x (c2 c), pi_y (c2 c)))
  (λ s, (λ t : string * string * string * string, let '(a, b, c, d) := t in
    {| c1 := {| pi_x := a; pi_y := b |}; c2 := {| pi_x := c; pi_y := d |} |}) <$> of_text s)
  (λ sg, to_text (Zmod.unsigned (@R boxed_curve sg : Z101), Zmod.unsigned (@s boxed_curve sg : Z101)))
  (λ t, (λ p : Z * Z, Build_SchnorrSig (C:=boxed_curve) (Zmod.of_Z q101 p.1) (Zmod.of_Z q101 p.2)) <$> of_text t)
  (λ _, None)
  (λ s, (λ z : Z, {| BabyJubJub.greatest := false; BabyJubJub.y := [z] |}) <$> of_text s)
  (λ _, Some []) (λ _, None) (λ _, "e"%string) (λ _, "e"%string) (λ _, "r"%string).
#[local] Instance toy_texts_laws : SdkTextsLaws model_curve boxed_curve.
Proof.
  constructor.
  - intros a Ha _. by apply hex_decode_encode.
  - intros z _. apply of_to_text.
  - intros P. apply Zmod.of_Z_to_Z.
  - intros P. cbn. pose proof (Zmod.unsigned_pos_bound (P : Z101) ltac:(unfold q101; lia)). lia.
  - intros [[a b] [c d]]. cbn. by rewrite of_to_text.
  - intros [r s0]. cbn. rewrite of_to_text. cbn. by rewrite !Zmod.of_Z_to_Z.
Qed.

(** A network with the keys 7 and 5 whose state is the number of polls it still needs and the
    point it will answer with. *)
Abbreviation num z := (f_of_Z z : Z101).
Abbreviation mul x k := (Zmod.mul x (num k) : Z101).
#[local] Instance toy_service : Service model_curve boxed_curve (nat * Z101) := @Build_Service model_curve boxed_curve _ _
  (λ _ _ m n, (n, Ok (SdkStateSuccess 1 m 0)))
  (λ _ q n, match method q with
            | OPRFBabyJubJub =>
                match from_boxed (Request.point q) with
                | Ok X => (n, Ok (SdkVerifiedBabyJubJub "r" (box (mul X 5)))) | _ => (n, Err "e"%string) end
            | DecryptBabyJubJub =>
                match from_boxed (Request.point q) with
                | Ok X => ((n.1, mul X 5), Ok (SdkSubmitted "r")) | _ => (n, Err "e"%string) end
            | _ =>
                match from_encoded (Curve:=model_curve) (Request.point q) with
                | Ok X => (n, Ok (SdkVerifiedSecp256k1 "r" (mul X 7 : Point (Curve:=model_curve)))) | _ => (n, Err "e"%string) end
            end)
  (λ _ _ n, (n, Err "e"%string))
  (λ _ id n, match n.1 with
             | S j => ((j, n.2), Ok (SdkError "Not yet verified"))
             | O => (n, Ok (SdkVerifiedBabyJubJub id (box n.2)))
             end)
  (λ _ n, (n, Err "e"%string))
  (λ _ q n, match method q with
            | OPRFBabyJubJub =>
                match from_boxed (Request.point q) with
                | Ok X => (n, Ok (true, to_text (Zmod.unsigned (mul X 5)))) | _ => (n, Err "e"%string) end
            | _ =>
                match from_encoded (Curve:=model_curve) (Request.point q) with
                | Ok X => (n, Ok (true, hex_encode [Zmod.unsigned (mul X 7)])) | _ => (n, Err "e"%string) end
            end).
#[local] Instance toy_kdf : Kdf := {| encode_b64 b := Some b; hash_password p salt := Some (p ++ salt) |}.
#[local] Instance toy_map : MapCurve boxed_curve := @Build_MapCurve boxed_curve
  (λ m, Ok (Zmod.of_Z q101 (be_val m))) (λ P, Ok (be_bytes 24 (Zmod.unsigned (P : Z101)))).

Lemma hex_text z : 0 ≤ z < 101 → hex_decode (strip_quotes (hex_encode [z])) = Some [z].
Proof.
  intros Hz. assert (forallb (λ z, bool_decide (hex_decode (strip_quotes (hex_encode [z])) = Some [z])) (seqZ 0 101) = true) as H
    by (vm_compute; reflexivity).
  rewrite forallb_forall in H. specialize (H z). rewrite <- list_elem_of_In, elem_of_seqZ in H.
  eapply bool_decide_eq_true, H. lia.
Qed.
Lemma toy_multiplies : network_multiplies model_curve boxed_curve "relay" "signer"
  (num 7 : Scalar (Curve:=model_curve)) (num 5 : Scalar (Curve:=boxed_curve)).
Proof.
  constructor.
  - intros user m n. by exists n, 1, 0.
  - intros q n X Hm HX. exists n, "r"%string. cbn [post_threshold_mul toy_service]. by rewrite Hm, HX.
  - intros q n X Hm HX. exists n, "r"%string, (box (mul X 5)). cbn [post_threshold_mul toy_service]. rewrite Hm, HX.
    split; [done|]. apply from_box.
  - intros q n X Hm HX. exists n, (hex_encode [Zmod.unsigned (mul X 7)]), [Zmod.unsigned (mul X 7)].
    cbn [post_signer toy_service]. rewrite Hm, HX. split; [done|].
    pose proof (Zmod.unsigned_pos_bound (mul X 7) ltac:(unfold q101; lia)). split; [apply hex_text; unfold q101 in *; lia|].
    by apply (encode_decode (C:=model_curve) (mul X 7)).
  - intros q n X Hm HX. exists n, (to_text (Zmod.unsigned (mul X 5))), (box (mul X 5)). cbn [post_signer toy_service].
    rewrite Hm, HX. split; [done|]. split; [|apply from_box]. cbn [encoded_from_json toy_texts]. by rewrite of_to_text.
Qed.
Lemma toy_signs q : signature q = None → ∃ q', signed boxed_curve model_curve q [1; 2] = Ok q'.
Proof. intros Hq. unfold signed. rewrite Hq. eexists. reflexivity. Qed.

Definition random (a b : Z) : OprfRandom model_curve boxed_curve := Build_OprfRandom model_curve boxed_curve
  (num a) (num b) (num 1) (num 1) (num 1).
Lemma toy_evaluates {C : Curve} (k : Scalar (Curve:=C)) input kdf H prf :
  local_kdf (as_bytes "test-salt") (as_bytes input) = Ok kdf → hash_to_curve (Curve:=C) kdf = Ok H → H ≠ ZERO →
  hash_from_curve (scalar_mul H k) = Ok prf → evaluates k input prf.
Proof. intros. by exists kdf, H. Qed.

Lemma sdk_oprf_output_witness :
  ∃ (prf : Z) w1 w2,
    generate_oprf model_curve boxed_curve (random 3 4) (Some "key"%string) (Some "input"%string) "OPRFSecp256k1" "relay"
      {| net := (0%nat, num 1); babyjub_pubkey := None |} = (w1, Ok (to_text prf)) ∧
    request_from_signer model_curve boxed_curve (num 8) (num 9) "input" "OPRFSecp256k1" "signer"
      {| net := (0%nat, num 1); babyjub_pubkey := None |} = (w2, Ok (to_text prf)).
Proof.
  set (kdf := match local_kdf (as_bytes "test-salt") (as_bytes "input") with Ok k => k | _ => [] end).
  destruct (sdk_oprf_output model_curve boxed_curve (random 3 4) (random 8 9) "key" "input" "relay" "signer"
    (num 7) (num 5) (Zmod.unsigned (mul (Zmod.of_Z q101 (be_val kdf + 1)) 7)) (Zmod.unsigned (mul (Zmod.of_Z q101 (be_val kdf + 1)) 5))
    {| net := (0%nat, num 1); babyjub_pubkey := None |}) as [(w1 & w2 & H1 & H2) _].
  - exists [1; 2]. split; [done|]. apply toy_signs.
  - apply toy_multiplies.
  - discriminate.
  - discriminate.
  - discriminate.
  - discriminate.
  - eapply (toy_evaluates (C:=model_curve)); [reflexivity|reflexivity|vm_compute; discriminate|reflexivity].
  - eapply (toy_evaluates (C:=boxed_curve)); [reflexivity|reflexivity|vm_compute; discriminate|reflexivity].
  - eexists _, w1, w2. split; [exact H1|exact H2].
Defined.

(** The message 42 is encrypted, and comes back at the thirtieth poll. *)
Definition message : list Z := [42].
Definition contract_hex : string := "0x" +:+ hex_encode (replicate 20 7).
Definition key_hex : list Z := BabyJubJub.bincode_serialize (box (num 5)).
Lemma sdk_decrypt_roundtrip_witness :
  ∃ out, encrypt model_curve boxed_curve (num 9) (num 3) (num 8) (hex_encode key_hex) (hex_encode message) contract_hex
    = Ok out ∧
    (decrypt model_curve boxed_curve "key" (ciphertext_to_json (SdkTexts:=toy_texts) (eo_ciphertext out)) (eo_contract out) (eo_sig out)
       {| net := (29%nat, num 1); babyjub_pubkey := None |}).2 = Ok (to_text (42 : Z)).
Proof.
  destruct (sdk_decrypt_roundtrip model_curve boxed_curve (E:=RequestExamples.toy_eth) (num 5) (num 9) (num 3) (num 8) key_hex message (replicate 20 7)
    contract_hex (num 42) "key" [1; 2] 29 (29%nat, num 1) None) as (out & H1 & H2).
  - reflexivity.
  - apply (bool_decide_unpack _). vm_compute. exact I.
  - cbn. lia.
  - repeat constructor; unfold is_byte; lia.
  - reflexivity.
  - exact I.
  - vm_compute. reflexivity.
  - vm_compute. reflexivity.
  - apply (bool_decide_unpack _). vm_compute. exact I.
  - reflexivity.
  - discriminate.
  - discriminate.
  - reflexivity.
  - apply toy_signs.
  - exists (29%nat, num 1), 1, 0. split; [reflexivity|]. intros q P Hm HP. exists (29%nat, mul P 5), (0%nat, mul P 5), "r"%string, (box (mul P 5)).
    cbn [post_threshold_mul toy_service]. rewrite Hm, HP. split; [reflexivity|]. split; [|apply from_box].
    assert (∀ j, polls model_curve boxed_curve "r" (box (mul P 5)) j (j, mul P 5) (0%nat, mul P 5)) as Hpolls; [|apply Hpolls].
    intros j. induction j as [|j IH]; [by eapply polls_ready|]. eapply polls_later; [reflexivity|by right|exact IH].
  - exists out. split; [exact H1|]. rewrite H2. vm_compute. reflexivity.
Defined.
End SdkExamples.
