(* ===== verification/Cli.v ===== *)
(** * The command-line tool (crates/cli/src/main.rs)

    One run of the tool: the method named on the command line is an administrative call of
    a node's RPC server, or a request to the network.  A run is an action on the state [W] of
    the server behind [rpc_url] ([HumanRpcClient]) and on the cached public key; it prints
    lines and ends, or panics.  Texts and [bincode] are those of [SdkTexts]; random values are
    arguments. *)
From Stdlib Require Import ZArith Lia Ascii String Zmod.
From stdpp Require Import base list gmap sets strings pretty.
From S2P Require Import Prelude PrimeField Curve ModelCurve Dleq Schnorr Encryption Serialization ZkMask Request.
From S2P Require Import ConcreteCurves NodeSelection Messages Election AppState Rpc Sdk.

(** ** Key shares on the command line *)

(** [KeyShareMap::from_str]: "key1:value1,key2:value2". *)
Fixpoint insert_pairs (pairs : list string) (map : gmap string string) : outcome string (gmap string string) :=
  match pairs with
  | [] => Ok map
  | text :: pairs =>
      match split ":" text with
      | [key; value] => insert_pairs pairs (<[key := value]> map)
      | _ => Err ("Invalid key-value pair: " +:+ text)%string
      end
  end.
Definition KeyShareMap_from_str (s : string) : outcome string (gmap string string) :=
  if bool_decide (s = EmptyString) then Ok ∅ else insert_pairs (split "," s) ∅.

Record Args := {
  arg_private_key : option string; arg_input : option string; arg_method : string;
  arg_api_token : option string; arg_keyshares : option (gmap string string);
  arg_rpc_url : string; arg_peer_id : option string; arg_is_resharing_enabled : option bool
}.

(** The calls of the RPC server that the tool makes, by a client built for a URL; an error is
    a call that failed. *)
Class HumanRpcClient (CS CB : Curve) `{Hashes} `{Eth} `{Rng} `{!F64} (W : Type) := {
  build_http_client : string → bool;
  cl_fetch_state : string → Address → Method → W → W * outcome string StateResponse;
  cl_threshold_mul : string → RequestToNetwork → W → W * outcome string (RpcResult CS CB);
  cl_fetch_threshold_mul_result : string → string → W → W * outcome string (RpcResult CS CB);
  cl_get_pubkey : string → W → W * outcome string (RpcResult CS CB);
  cl_backup : string → W → W * outcome string (RpcResult CS CB);
  cl_fetch_key_share : string → string → W → W * outcome string (RpcResult CS CB);
  cl_restore_key_share : string → gmap string string → W → W * outcome string (RpcResult CS CB);
  cl_restore_election_state : string → W → W * outcome string (RpcResult CS CB);
  cl_quic_ping : string → string → W → W * outcome string (RpcResult CS CB);
  cl_sync_peer_data : string → W → W * outcome string (RpcResult CS CB);
  cl_fetch_election_info : string → string → W → W * outcome string (RpcResult CS CB);
  cl_fetch_voting_power : string → string → W → W * outcome string (RpcResult CS CB);
  cl_set_resharing_enabled : string → string → bool → W → W * outcome string (RpcResult CS CB)
}.

Section Cli.
Context (CS CB : Curve) `{HH : Hashes} `{KDF : Kdf} `{E : Eth} `{J : !Jwt} `{RC : !RequestCodec CB CS}
  `{MC : !MapCurve CB} `{RG : Rng} `{FL : !F64} {W : Type} `{CL : !HumanRpcClient CS CB W} `{ST : !SdkTexts CS CB}.

(** What a run prints: an answer under a label, the final result, a text, or a complaint. *)
Inductive Line :=
  | Printed (label : string) (response : RpcResult CS CB)
  | FinalMultiplicationResult (output : Z)
  | PrintedText (text : string)
  | EPrinted (text : string).

(** The servers and [NETWORK_BABYJUB_PUBKEY]. *)
Record CliWorld := { server : W; pubkey_cell : option (Point (Curve:=CB)) }.

Definition Run (A : Type) : Type := CliWorld → CliWorld * list Line * outcome string A.
#[local] Instance run_ret : MRet Run := λ A a w, (w, [], Ok a).
#[local] Instance run_bind : MBind Run := λ A B k m w,
  match m w with
  | (w, o, Ok a) => let '(w, o', r) := k a w in (w, o ++ o', r)
  | (w, o, Err e) => (w, o, Err e)
  | (w, o, Panic) => (w, o, Panic)
  end.
Definition pure_run {A} (r : outcome string A) : Run A := λ w, (w, [], r).
Definition print (l : Line) : Run () := λ w, (w, [l], Ok tt).
(** [.await.expect(..)]. *)
Definition expect_call {A} (f : W → W * outcome string A) : Run A := λ w,
  let '(s, r) := f (server w) in ({| server := s; pubkey_cell := pubkey_cell w |}, [], unwrap_res r).
Definition client (rpc_url : string) : Run () := pure_run (assert_ (build_http_client rpc_url)).

(** ** Requests to the network *)

Definition cli_compute_oprf {C : Curve} (secret_mask : Scalar (Curve:=C)) (input : string)
    : outcome string (list Z * Scalar (Curve:=C)) :=
  unwrap_res (oprf_client_1 secret_mask (as_bytes "test-salt") (as_bytes input)).

Definition fetch_network_pubkey (rpc_url : string) : Run (Point (Curve:=CB)) :=
  response ← expect_call (cl_get_pubkey rpc_url);
  pure_run (match response with
            | RNode _ _ (Keyshare pubkeys) =>
                encoded ← unwrap (pubkeys !! "DecryptBabyJubjub"%string);
                bytes ← unwrap (hex_decode encoded);
                unwrap_res (from_encoded (Curve:=CB) bytes)
            | _ => Panic
            end).
Definition cli_get_network_babyjub_pubkey (rpc_url : string) : Run (Point (Curve:=CB)) := λ w,
  match pubkey_cell w with
  | Some pubkey => (w, [], Ok pubkey)
  | None =>
      match fetch_network_pubkey rpc_url w with
      | (w, o, Ok pubkey) => ({| server := server w; pubkey_cell := Some pubkey |}, o, Ok pubkey)
      | r => r
      end
  end.

Definition cli_create_request (wallet : Wallet) (point : list Z) (m : Method) (epoch requests_from_user : Z)
    (extra_data : option (list Z)) : outcome string RequestToNetwork :=
  unwrap_res (signed CB CS {| method := m; Request.point := point; Request.epoch := epoch;
                              request_per_user := wrap 128 (requests_from_user + 1); signature := None;
                              Request.extra_data := extra_data |} wallet).

(** The output from the network's point and the mask's bytes. *)
Definition unmask_output {C : Curve} (mask : list Z) (reconstructed_point : Point (Curve:=C)) : outcome string Z :=
  mask ← unwrap_res (scalar_from_bytes (Curve:=C) mask);
  inv ← unwrap_res (mul_inv mask);
  inv ← unwrap inv;
  unwrap_res (hash_from_curve (scalar_mul reconstructed_point inv)).
Definition cli_process_finished_response (response : RpcResult CS CB) (mask : list Z) : Run () :=
  output ← pure_run (match response with
    | RNode _ _ (VerifiedProofSecp256k1 _ reconstructed_point) => unmask_output (C:=CS) mask reconstructed_point
    | RNode _ _ (VerifiedProofBabyJubJub _ reconstructed_point) =>
        reconstructed_point ← unwrap_res
          (from_encoded (Curve:=CB) (BabyJubJub.bincode_serialize reconstructed_point));
        unmask_output (C:=CB) mask reconstructed_point
    | _ => Panic
    end);
  print (FinalMultiplicationResult output).

Definition cli_query_threshold_multiplication (rpc_url request_id : string) : Run (RpcResult CS CB) :=
  expect_call (cl_fetch_threshold_mul_result rpc_url request_id).
(** Two polls, three seconds apart: the answer to the first is not looked at. *)
Definition cli_process_response (rpc_url request_id : string) (mask : list Z) : Run () :=
  _ ← cli_query_threshold_multiplication rpc_url request_id;
  response ← cli_query_threshold_multiplication rpc_url request_id;
  _ ← print (Printed "Response: " response);
  match response with
  | RNode _ _ (VerifiedProofBabyJubJub _ _) | RNode _ _ (VerifiedProofSecp256k1 _ _) =>
      cli_process_finished_response response mask
  | _ => pure_run Panic
  end.

(** The first [match] of [handle_method]: the point, the extra data and the client's secrets. *)
Definition prepare_method (rnd : OprfRandom CS CB) (args : Args) (m : Method)
    : Run (list Z * option (list Z) * list Z) :=
  match m with
  | OPRFSecp256k1 =>
      pure_run (input ← unwrap (arg_input args);
                '(point, mask) ← cli_compute_oprf (C:=CS) (mask_s _ _ rnd) input;
                Ok (point, None, scalar_to_bytes mask))
  | OPRFBabyJubJub =>
      pure_run (input ← unwrap (arg_input args);
                '(point, mask) ← cli_compute_oprf (C:=CB) (mask_b _ _ rnd) input;
                Ok (point, None, scalar_to_bytes mask))
  | DecryptBabyJubJub =>
      _ ← client (arg_rpc_url args);
      network_pubkey ← cli_get_network_babyjub_pubkey (arg_rpc_url args);
      pure_run (c ← unwrap_res (encrypt_with_conditions (enc_secret _ _ rnd) (enc_rand _ _ rnd) (enc_nonce _ _ rnd)
                                  (replicate 24 123) network_pubkey CONDITIONS_CONTRACT);
                point ← unwrap_res (encode (ephemeral_dh_pubkey (ciphertext c)));
                data ← unwrap (serialize_conditions c);
                secrets ← unwrap_res (encode (encrypted_msg (ciphertext c)));
                Ok (point, Some data, secrets))
  | JWTPRFSecp256k1 =>
      pure_run (input ← unwrap (arg_input args);
                let split := split_text "--SILK-JWT-SEPARATOR--" input in
                first ← unwrap (split !! 0%nat);
                bytes ← unwrap (hex_decode first);
                secret_mask ← unwrap_res (scalar_from_bytes (Curve:=CS) bytes);
                second ← unwrap (split !! 1%nat);
                unfilled_req ← unwrap (request_from_json second);
                Ok (Request.point unfilled_req, extra_data unfilled_req, scalar_to_bytes secret_mask))
  end.

(** The last [match]: the method is the one of the state's answer. *)
Definition finish_method (rpc_url : string) (m : Method) (extra_data : option (list Z)) (client_secrets : list Z)
    (response : RpcResult CS CB) : Run () :=
  match m, response with
  | (OPRFSecp256k1 | JWTPRFSecp256k1), RNode _ _ (VerifiedProofSecp256k1 _ _) =>
      cli_process_finished_response response client_secrets
  | OPRFBabyJubJub, RNode _ _ (VerifiedProofBabyJubJub _ _) => cli_process_finished_response response client_secrets
  | (OPRFSecp256k1 | OPRFBabyJubJub | JWTPRFSecp256k1), RSubmitted _ _ request_id =>
      cli_process_response rpc_url request_id client_secrets
  | (OPRFSecp256k1 | OPRFBabyJubJub | JWTPRFSecp256k1), _ => pure_run Panic
  | DecryptBabyJubJub, RNode _ _ (VerifiedProofBabyJubJub _ reconstructed_point) =>
      shared_sec ← pure_run (unwrap_res (from_encoded (Curve:=CB) (BabyJubJub.bincode_serialize reconstructed_point)));
      match extra_data with
      | Some data =>
          output ← pure_run (c ← unwrap (deserialize_conditions CB CS data);
                             unwrap_res (decrypt_elgamal_from_shared_secret (ciphertext c) shared_sec));
          print (PrintedText (hex_encode output))
      | None => mret tt
      end
  | DecryptBabyJubJub, _ => mret tt
  end.

Definition handle_method (rnd : OprfRandom CS CB) (args : Args) (m : Method) : Run () :=
  wallet ← pure_run (key ← unwrap (arg_private_key args); unwrap (parse_wallet key));
  '(point, extra_data, client_secrets) ← prepare_method rnd args m;
  let rpc_url := arg_rpc_url args in
  _ ← client rpc_url;
  state ← expect_call (cl_fetch_state rpc_url (wallet_address wallet) m);
  match state with
  | StateSuccess epoch m requests_from_user =>
      req ← pure_run (cli_create_request wallet point m epoch requests_from_user extra_data);
      response ← expect_call (cl_threshold_mul rpc_url req);
      _ ← print (Printed "Response: " response);
      finish_method rpc_url m extra_data client_secrets response
  | StateError _ => mret tt
  end.

(** ** Administrative calls *)

(** A call whose answer is printed. *)
Definition administer (rpc_url label : string) (f : W → W * outcome string (RpcResult CS CB)) : Run () :=
  _ ← client rpc_url;
  resp ← expect_call f;
  print (Printed label resp).

(** A call with an argument that may be missing. *)
Definition with_arg {A} (arg : option A) (missing : string) (f : A → Run ()) : Run () :=
  match arg with
  | Some a => f a
  | None => print (EPrinted missing)
  end.

Definition cli_main (rnd : OprfRandom CS CB) (args : Args) : Run () :=
  let url := arg_rpc_url args in
  let is_ name := String.eqb (arg_method args) name in
  if is_ "OPRFSecp256k1" then handle_method rnd args OPRFSecp256k1
  else if is_ "OPRFBabyJubJub" then handle_method rnd args OPRFBabyJubJub
  else if is_ "DecryptBabyJubJub" then handle_method rnd args DecryptBabyJubJub
  else if is_ "JWTPRFSecp256k1" then handle_method rnd args JWTPRFSecp256k1
  else if is_ "backup" then administer url "Backup response " (cl_backup url)
  else if is_ "fetch_keyshare" then
    tok ← pure_run (unwrap (arg_api_token args));
    administer url "Key share response " (cl_fetch_key_share url tok)
  else if is_ "restore_keyshare" then
    with_arg (arg_keyshares args) "No keyshares provided"
      (λ keyshares, administer url "restore Key share response " (cl_restore_key_share url keyshares))
  else if is_ "restore_election_state" then
    administer url "Restore election state response " (cl_restore_election_state url)
  else if is_ "quic_ping" then
    with_arg (arg_peer_id args) "No peer id provided" (λ peer, administer url "" (cl_quic_ping url peer))
  else if is_ "sync_peer_data" then administer url "" (cl_sync_peer_data url)
  else if is_ "fetch_election_info" then
    with_arg (arg_peer_id args) "No peer id provided" (λ peer, administer url "" (cl_fetch_election_info url peer))
  else if is_ "fetch_voting_power" then
    with_arg (arg_peer_id args) "No peer id provided" (λ peer, administer url "" (cl_fetch_voting_power url peer))
  else if is_ "set_resharing_enabled" then
    tok ← pure_run (unwrap (arg_api_token args));
    with_arg (arg_is_resharing_enabled args) "No is resharing enabled flag provided"
      (λ is_enabled, administer url "set resharing response " (cl_set_resharing_enabled url tok is_enabled))
  else pure_run Panic.
End Cli.
