(* ===== verification/CliProofs.v ===== *)
(** * What the command-line tool does

    Which texts the [--keyshares] option accepts, and two runs of the tool against nodes:
    key shares move from one prover to another, and a request is evaluated by the network. *)
From Stdlib Require Import ZArith Lia Ascii String Zmod Field.
From stdpp Require Import base list gmap sets strings pretty sorting.
From coqutil Require Import Datatypes.RecordSettersUsingExistingGetters.
Import RecordSetNotations.
From S2P Require Import Prelude PrimeField Curve ModelCurve Polynomial Dleq Reconstruct Schnorr Encryption Serialization ZkMask Request.
From S2P Require Import ConcreteCurves NodeSelection Messages Election ElectionProofs AppState AppStateProofs AppStateSafety Gossip Rpc System SystemExamples Sdk Cli.

(** ** Splitting is the inverse of joining *)
Section Split.
Context (sep : ascii).
Implicit Types (s cur : list ascii) (l : list (list ascii)).

Fixpoint join l : list ascii :=
  match l with
  | [] => []
  | [s] => s
  | s :: l => s ++ sep :: join l
  end.

Lemma split_on_ne s cur : split_on sep s cur ≠ [].
Proof. revert cur. induction s as [|c s IH]; intros cur; cbn; [done|]. by case_bool_decide. Qed.

Lemma split_on_app s rest cur : sep ∉ s → split_on sep (s ++ sep :: rest) cur = (cur ++ s) :: split_on sep rest [].
Proof.
  revert cur. induction s as [|c s IH]; intros cur Hs; cbn.
  - rewrite bool_decide_eq_true_2 by done. by rewrite app_nil_r.
  - apply not_elem_of_cons in Hs as [Hc Hs]. rewrite bool_decide_eq_false_2 by done. by rewrite IH, <- app_assoc.
Qed.

Lemma split_on_last s cur : sep ∉ s → split_on sep s cur = [cur ++ s].
Proof.
  revert cur. induction s as [|c s IH]; intros cur Hs; cbn; [by rewrite app_nil_r|].
  apply not_elem_of_cons in Hs as [Hc Hs]. rewrite bool_decide_eq_false_2 by done. by rewrite IH, <- app_assoc.
Qed.

Lemma split_join l : l ≠ [] → Forall (λ s, sep ∉ s) l → split_on sep (join l) [] = l.
Proof.
  intros Hne Hl. induction Hl as [|s l Hs Hl IH]; [done|]. destruct l as [|s' l].
  - cbn [join]. by rewrite split_on_last.
  - change (join (s :: s' :: l)) with (s ++ sep :: join (s' :: l)). rewrite split_on_app by done. by rewrite IH.
Qed.

Lemma join_split s : ∀ cur, sep ∉ cur →
  join (split_on sep s cur) = cur ++ s ∧ Forall (λ s, sep ∉ s) (split_on sep s cur).
Proof.
  induction s as [|c s IH]; intros cur Hcur; cbn [split_on].
  { rewrite app_nil_r. split; [done|]. by apply Forall_singleton. }
  case_bool_decide as Hc.
  - subst c. destruct (IH []) as [Hj Hf]; [by apply not_elem_of_nil|]. split; [|by constructor].
    pose proof (split_on_ne s []) as Hne. destruct (split_on sep s []) as [|s' l] eqn:Hs; [done|].
    change (join (cur :: s' :: l)) with (cur ++ sep :: join (s' :: l)). by rewrite Hj.
  - destruct (IH (cur ++ [c])) as [Hj Hf]; [set_solver|]. split; [|done]. by rewrite Hj, <- app_assoc.
Qed.
End Split.

(** The same for texts. *)
Definition free_of (sep : ascii) (s : string) : Prop := sep ∉ list_ascii_of_string s.
Definition join_text (sep : ascii) (l : list string) : string :=
  string_of_list_ascii (join sep (list_ascii_of_string <$> l)).

Lemma fmap_same {A} (f : A → A) (l : list A) : (∀ x, f x = x) → f <$> l = l.
Proof. intros Hf. induction l as [|x l IH]; [done|]. cbn. by rewrite Hf, IH. Qed.

Lemma texts_of_texts (l : list string) : string_of_list_ascii <$> (list_ascii_of_string <$> l) = l.
Proof. rewrite <- list_fmap_compose. apply fmap_same, string_of_list_ascii_of_string. Qed.

Lemma split_spec sep s l : split sep s = l ↔ s = join_text sep l ∧ l ≠ [] ∧ Forall (free_of sep) l.
Proof.
  unfold split, join_text. split.
  - intros <-. destruct (join_split sep (list_ascii_of_string s) []) as [Hj Hf]; [by apply not_elem_of_nil|].
    assert (list_ascii_of_string <$> (string_of_list_ascii <$> split_on sep (list_ascii_of_string s) [])
      = split_on sep (list_ascii_of_string s) []) as Heq.
    { rewrite <- list_fmap_compose. apply fmap_same, list_ascii_of_string_of_list_ascii. }
    rewrite Heq, Hj. cbn [app]. rewrite string_of_list_ascii_of_string. split; [done|]. split.
    + intros H%fmap_nil_inv. by eapply split_on_ne.
    + apply Forall_fmap. eapply Forall_impl; [exact Hf|]. intros x Hx. unfold free_of. cbn.
      by rewrite list_ascii_of_string_of_list_ascii.
  - intros (-> & Hne & Hf). rewrite list_ascii_of_string_of_list_ascii, split_join.
    + apply texts_of_texts.
    + by intros H%fmap_nil_inv.
    + by apply Forall_fmap.
Qed.

(** ** The [--keyshares] option *)
Definition pair_text (kv : string * string) : string := join_text ":" [kv.1; kv.2].
Definition format_pairs (l : list (string * string)) : string := join_text "," (pair_text <$> l).
Definition insert_all (l : list (string * string)) (m : gmap string string) : gmap string string :=
  foldl (λ m kv, <[kv.1 := kv.2]> m) m l.
Definition plain (s : string) : Prop := free_of "," s ∧ free_of ":" s.

Lemma pair_text_split text k v : split ":" text = [k; v] ↔ text = pair_text (k, v) ∧ free_of ":" k ∧ free_of ":" v.
Proof.
  rewrite split_spec. unfold pair_text. cbn [fst snd]. rewrite Forall_cons, Forall_singleton. naive_solver.
Qed.

Lemma insert_pairs_spec ts : ∀ m0 m, insert_pairs ts m0 = Ok m ↔
  ∃ l, ts = pair_text <$> l ∧ Forall (λ kv, free_of ":" kv.1 ∧ free_of ":" kv.2) l ∧ m = insert_all l m0.
Proof.
  induction ts as [|text ts IH]; intros m0 m; cbn [insert_pairs].
  { split; [intros [= <-]; by exists []|]. by intros ([|] & ? & _ & ->). }
  split.
  - destruct (split ":" text) as [|k [|v [|]]] eqn:Hs; try done. apply pair_text_split in Hs as (-> & Hk & Hv).
    intros (l & -> & Hl & ->)%IH. exists ((k, v) :: l). split; [done|]. split; [by constructor|done].
  - intros ([|[k v] l] & [= -> ->] & Hl & ->). apply Forall_cons in Hl as [[Hk Hv] Hl]. cbn in Hk, Hv.
    rewrite (proj2 (pair_text_split (pair_text (k, v)) k v)) by done. apply IH. by exists l.
Qed.

Lemma pair_text_chars k v : list_ascii_of_string (pair_text (k, v))
  = list_ascii_of_string k ++ ":"%char :: list_ascii_of_string v.
Proof. unfold pair_text, join_text. by rewrite list_ascii_of_string_of_list_ascii. Qed.

Lemma pair_text_free k v : free_of "," (pair_text (k, v)) ↔ free_of "," k ∧ free_of "," v.
Proof.
  unfold free_of. rewrite pair_text_chars, not_elem_of_app, not_elem_of_cons. split; [tauto|]. intros []. by split_and!.
Qed.

Lemma format_pairs_nonempty k v l : format_pairs ((k, v) :: l) ≠ EmptyString.
Proof.
  intros Hf. unfold format_pairs, join_text in Hf. apply (f_equal list_ascii_of_string) in Hf.
  rewrite list_ascii_of_string_of_list_ascii in Hf. cbn [fmap list_fmap] in Hf.
  destruct l as [|kv l]; cbn [join fmap list_fmap] in Hf; rewrite pair_text_chars in Hf; by destruct (list_ascii_of_string k).
Qed.

Lemma format_pairs_split l : l ≠ [] → Forall (λ kv, plain kv.1 ∧ plain kv.2) l →
  insert_pairs (split "," (format_pairs l)) ∅ = Ok (insert_all l ∅).
Proof.
  intros Hne Hp. apply insert_pairs_spec. exists l.
  split_and!; [|eapply Forall_impl; [exact Hp|]; by intros ? [[] []]|done].
  apply split_spec. split_and!; [done|by intros H%fmap_nil_inv|]. apply Forall_fmap. eapply Forall_impl; [exact Hp|].
  intros [k v] [[] []]. by apply pair_text_free.
Qed.

Lemma keyshares_option_intro l m : insert_all l ∅ = m → Forall (λ kv, plain kv.1 ∧ plain kv.2) l →
  KeyShareMap_from_str (format_pairs l) = Ok m.
Proof.
  intros <- Hp. unfold KeyShareMap_from_str. destruct l as [|[k v] l]; [done|].
  rewrite bool_decide_eq_false_2 by apply format_pairs_nonempty. by apply format_pairs_split.
Qed.

(** What the option accepts.  [KeyShareMap::from_str] accepts the empty text, as no shares,
    and exactly the texts made of pairs whose two parts are free of commas and colons, as the
    map in which the last value of a key counts; every other text is an error. *)
Theorem keyshares_option s m : KeyShareMap_from_str s = Ok m ↔
  s = EmptyString ∧ m = ∅ ∨
  ∃ l, l ≠ [] ∧ Forall (λ kv, plain kv.1 ∧ plain kv.2) l ∧ s = format_pairs l ∧ m = insert_all l ∅.
Proof.
  unfold KeyShareMap_from_str. case_bool_decide as Hs; [subst s|].
  - split; [intros [= <-]; by left|]. intros [[_ ->]|([|[k v] l] & ? & _ & Hf & _)]; [done..|].
    symmetry in Hf. by apply format_pairs_nonempty in Hf.
  - split.
    + rewrite insert_pairs_spec. intros (l & Hl & Hf & ->). right. exists l. apply split_spec in Hl as (-> & Hne & Hc).
      split_and!; [by intros ->| |done..]. apply Forall_forall. intros [k v] Hkv.
      rewrite Forall_fmap, Forall_forall in Hc. specialize (Hc _ Hkv). cbn in Hc. apply pair_text_free in Hc as [].
      rewrite Forall_forall in Hf. specialize (Hf _ Hkv) as []. by split_and!.
    + intros [[]|(l & Hne & Hp & -> & ->)]; [done|]. by apply format_pairs_split.
Qed.

Lemma keyshares_option_witness :
  KeyShareMap_from_str "a:1,b:2,a:3" = Ok (insert_all [("a", "1"); ("b", "2"); ("a", "3")] ∅)%string.
Proof.
  apply keyshares_option. right. exists [("a", "1"); ("b", "2"); ("a", "3")]%string.
  split_and!; [done| |reflexivity..]. unfold plain, free_of.
  repeat constructor; apply (bool_decide_unpack _); vm_compute; exact I.
Defined.

(** Pairs with distinct keys give the map they list. *)
Lemma insert_all_union l : ∀ m, insert_all l m = list_to_map (reverse l) ∪ m.
Proof.
  induction l as [|[k v] l IH]; intros m; [rewrite reverse_nil; cbn; by rewrite map_empty_union|]. cbn [insert_all foldl fst snd].
  fold (insert_all l (<[k := v]> m)). rewrite IH, reverse_cons, list_to_map_app, <- map_union_assoc. f_equal.
  cbn [list_to_map foldr fst snd]. by rewrite <- insert_union_l, map_empty_union.
Qed.
Lemma insert_all_perm l (m : gmap string string) : l ≡ₚ map_to_list m → insert_all l ∅ = m.
Proof.
  intros Hl. rewrite insert_all_union, map_union_empty, <- (list_to_map_to_list m).
  assert (reverse l ≡ₚ map_to_list m) as Hr by (by rewrite reverse_Permutation).
  apply list_to_map_proper; [rewrite Hr; apply NoDup_fst_map_to_list|done].
Qed.

(** Hexadecimal texts are plain. *)
Lemma hex_free sep bytes : hex_value sep = None → Forall is_byte bytes → free_of sep (hex_encode bytes).
Proof.
  intros Hsep Hb. unfold free_of, hex_encode. rewrite list_ascii_of_string_of_list_ascii.
  induction Hb as [|b l Hb Hl IH]; [by apply not_elem_of_nil|]. cbn [fmap list_fmap concat app].
  unfold is_byte in Hb. pose proof (Z.div_mod b 16 ltac:(lia)). pose proof (Z.mod_pos_bound b 16 ltac:(lia)). assert (0 ≤ b / 16 < 16) by lia.
  rewrite !not_elem_of_cons. split_and!; [intros ->; by rewrite hex_value_digit in Hsep by done..|exact IH].
Qed.

Lemma hex_map_option shares l : map_Forall (λ name bytes, plain name ∧ Forall is_byte bytes) shares →
  l ≡ₚ map_to_list (hex_map shares) → KeyShareMap_from_str (format_pairs l) = Ok (hex_map shares).
Proof.
  intros Hp Hl. apply keyshares_option_intro. { by apply insert_all_perm. }
  apply Forall_forall. intros [k v] Hkv. rewrite Hl in Hkv. apply elem_of_map_to_list in Hkv.
  unfold hex_map in Hkv. rewrite lookup_fmap in Hkv. apply fmap_Some in Hkv as (bs & Hbs & ->).
  destruct (Hp _ _ Hbs) as [Hk Hb]. split; [done|]. split; by apply hex_free.
Qed.

(** ** The tool against a node *)
Section Runs.
Context (CS CB : Curve) {LS : CurveLaws CS} `{HH : Hashes} `{KDF : Kdf} `{E : Eth} {EL : EthLaws E} `{J : !Jwt}
  `{RC : !RequestCodec CB CS} `{MC : !MapCurve CB} `{RG : Rng} `{FL : !F64} `{TF : !ThresholdFloat} `{DR : Drand}
  `{AT : !AppTexts} `{ST : !SdkTexts CS CB}.
Context (node_order : HashOrder) (prover_order : PeerId → HashOrder) (parse_peer_id : string → option PeerId).

(** A node's RPC server: a request gets the number [uuid], [during] are the messages that the
    application state handles while the call waits, and [pong] is the gossip engine's answer
    to a ping. *)
#[local] Instance node_client (env : AppEnv CS CB) (uuid : string) (during : list (AppMessage CS CB))
    (pong : option Response) : HumanRpcClient CS CB RpcWorld :=
  let ok (x : RpcWorld * RpcResult CS CB) : RpcWorld * outcome string (RpcResult CS CB) := (x.1, Ok x.2) in
  {|
    build_http_client _ := true;
    cl_fetch_state _ user m w :=
      match fetch_state CS CB (HO:=node_order) env user m w with
      | (w, RState _ _ s) => (w, Ok s)
      | (w, _) => (w, Err "not a state"%string)
      end;
    cl_threshold_mul _ q w := ok (threshold_mul CS CB (HO:=node_order) env q uuid during w);
    cl_fetch_threshold_mul_result _ id w := ok (fetch_threshold_mul_result CS CB (HO:=node_order) env id w);
    cl_get_pubkey _ w := ok (get_pubkey CS CB (HO:=node_order) env w);
    cl_backup _ w := ok (backup CS CB (HO:=node_order) env w);
    cl_fetch_key_share _ tok w := ok (fetch_key_share_rpc CS CB (HO:=node_order) env tok w);
    cl_restore_key_share _ shares w := ok (restore_key_share_rpc CS CB (HO:=node_order) env shares w);
    cl_restore_election_state _ w := ok (restore_election_state_rpc CS CB (HO:=node_order) env w);
    cl_quic_ping _ peer w := ok (quic_ping_rpc CS CB (HO:=node_order) parse_peer_id env peer pong w);
    cl_sync_peer_data _ w := ok (sync_peer_data_rpc CS CB (HO:=node_order) env w);
    cl_fetch_election_info _ peer w := ok (fetch_election_info_rpc CS CB (HO:=node_order) parse_peer_id env peer w);
    cl_fetch_voting_power _ peer w := ok (fetch_voting_power_rpc CS CB (HO:=node_order) parse_peer_id env peer w);
    cl_set_resharing_enabled _ tok value w := ok (set_resharing_enabled_rpc CS CB (HO:=node_order) env tok value w)
  |}.

(** A command line with only a method. *)
Definition command (url m : string) : Args := {|
  arg_private_key := None; arg_input := None; arg_method := m; arg_api_token := None; arg_keyshares := None;
  arg_rpc_url := url; arg_peer_id := None; arg_is_resharing_enabled := None |}.
Definition with_token (tok : string) (a : Args) : Args := {|
  arg_private_key := arg_private_key a; arg_input := arg_input a; arg_method := arg_method a;
  arg_api_token := Some tok; arg_keyshares := arg_keyshares a; arg_rpc_url := arg_rpc_url a;
  arg_peer_id := arg_peer_id a; arg_is_resharing_enabled := arg_is_resharing_enabled a |}.
Definition with_keyshares (m : gmap string string) (a : Args) : Args := {|
  arg_private_key := arg_private_key a; arg_input := arg_input a; arg_method := arg_method a;
  arg_api_token := arg_api_token a; arg_keyshares := Some m; arg_rpc_url := arg_rpc_url a;
  arg_peer_id := arg_peer_id a; arg_is_resharing_enabled := arg_is_resharing_enabled a |}.
Definition fresh (w : RpcWorld) : CliWorld CB (W:=RpcWorld) := {| server := w; pubkey_cell := None |}.

Lemma bind_run {W A B} (m : Run CS CB (W:=W) A) (k : A → Run CS CB B) w w1 o1 a w2 o2 o r :
  m w = (w1, o1, Ok a) → k a w1 = (w2, o2, r) → o = o1 ++ o2 → run_bind CS CB A B k m w = (w2, o, r).
Proof. intros H1 H2 ->. unfold run_bind. by rewrite H1, H2. Qed.

Lemma client_Ok env uuid during pong url (w : CliWorld CB (W:=RpcWorld)) :
  client CS CB (CL:=node_client env uuid during pong) url w = (w, [], Ok tt).
Proof. done. Qed.

Lemma administer_Ok env uuid during pong url label (f : RpcWorld → RpcWorld * outcome string (RpcResult CS CB)) w s resp :
  f (server CB w) = (s, Ok resp) →
  administer CS CB (CL:=node_client env uuid during pong) url label f w
  = ({| server := s; pubkey_cell := pubkey_cell CB w |}, [Printed CS CB label resp], Ok tt).
Proof. intros Hf. unfold administer, mbind, run_bind, client, pure_run, expect_call. cbn. by rewrite Hf. Qed.

(** C31: The tool moves key shares.  After a run of [backup] on a prover, a run of
    [fetch_keyshare] with the node's unused token prints its key shares; however they are listed
    in the [--keyshares] option, a run of [restore_keyshare] on any other prover accepts them,
    and leaves that prover with the key shares of the first one, in memory and saved. *)
Theorem cli_moves_key_shares env env' uuid during pong rnd url tok w w2 (p p2 : ProverState) :
  token (api_token w) = tok → used (api_token w) = false →
  node_state (rpc_app w) = Some (Prover p) → node_state (rpc_app w2) = Some (Prover p2) →
  map_Forall (λ name bytes, plain name ∧ Forall is_byte bytes) (private_keyshares p) →
  let main env := cli_main CS CB (CL:=node_client env uuid during pong) rnd in
  ∃ w0 w1 exported,
    main env (command url "backup") (fresh w) = (w0, [Printed CS CB "Backup response " (RBool CS CB true)], Ok tt) ∧
    main env (with_token tok (command url "fetch_keyshare")) w0
      = (w1, [Printed CS CB "Key share response " (RNode CS CB (Keyshare exported))], Ok tt) ∧
    ∀ l, l ≡ₚ map_to_list exported → ∃ m w2',
      KeyShareMap_from_str (format_pairs l) = Ok m ∧
      main env' (with_keyshares m (command url "restore_keyshare")) (fresh w2)
        = (w2', [Printed CS CB "restore Key share response " (RNode CS CB Restored)], Ok tt) ∧
      node_state (rpc_app (server CB w2')) = Some (Prover (p2 <| private_keyshares := private_keyshares p |>)) ∧
      db_private_keyshares (app_db (rpc_app (server CB w2'))) = Some (private_keyshares p).
Proof.
  intros Ht Hu Hp Hp2 Hb main.
  destruct (key_share_export_import CS CB (HO:=node_order) env env' tok w w2 p p2) as (exported & Hf & Hr); try done.
  { intros k bs Hk. by destruct (Hb k bs Hk). }
  assert (exported = hex_map (private_keyshares p)) as ->.
  { revert Hf. unfold fetch_key_share_rpc, backup, ask_app, wrong_token. cbn [app_handle handle_plain].
    unfold backup_state. rewrite Hp. cbn. rewrite Hu, <- Ht, String.eqb_refl. cbn. unfold ask_app. cbn [app_handle].
    unfold fetch_key_share. cbn. rewrite Hp. by intros [= <-]. }
  set (w0 := (backup CS CB (HO:=node_order) env w).1) in *.
  exists {| server := w0; pubkey_cell := None |}. eexists _, _. split; [|split].
  - apply administer_Ok. cbn -[backup]. fold w0.
    assert ((backup CS CB (HO:=node_order) env w).2 = RBool CS CB true) as ->; [|done].
    unfold backup. by destruct (ask_app _ _ _ _ _).
  - unfold main, cli_main. cbn [arg_method with_token command String.eqb Ascii.eqb Bool.eqb].
    unfold mbind, run_bind, pure_run. cbn [arg_api_token with_token unwrap].
    rewrite (administer_Ok env uuid during pong _ _ _ _ (fetch_key_share_rpc CS CB (HO:=node_order) env tok w0).1
      (RNode CS CB (Keyshare (hex_map (private_keyshares p))))); [reflexivity|]. by rewrite <- Hf.
  - intros l Hl. exists (hex_map (private_keyshares p)).
    destruct (restore_key_share_rpc CS CB (HO:=node_order) env' (hex_map (private_keyshares p)) w2) as [w2' r] eqn:Hw2.
    destruct Hr as (-> & Hn & Hd). exists {| server := w2'; pubkey_cell := None |}.
    split; [by apply hex_map_option|]. split; [|done].
    apply (administer_Ok env' uuid during pong). cbn -[restore_key_share_rpc]. by rewrite Hw2.
Qed.

(** The number of requests that the relay's answer to [fetch_state] reports. *)
Definition counted (r : RelayState) (m : Method) (usr : Address) : Z :=
  match redis_get_u32 (counters (redis (rl_common r))) (count_key m usr) with
  | Ok (Some v) => v
  | _ => 0
  end.

Lemma state_of_relay env uuid during pong url usr m node r : node_state (rpc_app node) = Some (Relay r) →
  ∃ node', cl_fetch_state (HumanRpcClient:=node_client env uuid during pong) url usr m node
    = (node', Ok (StateSuccess (current_epoch (rl_common r)) m (counted r m usr))) ∧ rpc_app node' = rpc_app node.
Proof.
  intros Hr. cbn [cl_fetch_state node_client]. unfold fetch_state, ask_app. cbn [app_handle].
  unfold handle_state_request. rewrite Hr. eexists. split; reflexivity.
Qed.

Lemma created_request wallet point m ep c request :
  cli_create_request CS CB wallet point m ep c None = Ok request →
  Request.point request = point ∧ method request = m ∧ Request.epoch request = ep ∧
  recover CB CS request = Ok (wallet_address wallet).
Proof using EL.
  unfold cli_create_request. destruct (signed _ _ _ _) as [q| |] eqn:Hs; [|done..]. intros [= ->].
  pose proof (λ H0, signed_recover CB CS _ _ _ H0 Hs) as Hrec. specialize (Hrec eq_refl). unfold signed in Hs. cbn in Hs.
  by apply bind_Ok in Hs as (sg & _ & [= <-]).
Qed.

Section Unmasked.
Add Field S_field : (f_field_theory (F:=Scalar (Curve:=CS))).
Lemma unmasks mask H k : in_subgroup H → mask ≠ 0%F →
  unmask_output (C:=CS) (scalar_to_bytes mask) (scalar_mul (scalar_mul H mask) k)
  = unwrap_res (hash_from_curve (scalar_mul H k)).
Proof using LS.
  intros HH' Hm. unfold unmask_output. rewrite scalar_bytes. cbn [mbind outcome_bind unwrap_res].
  rewrite mul_inv_nonzero by done. cbn [mbind outcome_bind unwrap_res unwrap].
  rewrite !smul_mul by auto with subgroup. by replace (mask * (k * f_inv mask))%F with k by (by field).
Qed.
End Unmasked.

(** C7: The tool evaluates the PRF.  A user runs the tool with [OPRFSecp256k1] against a relay
    with a ready quorum that holds the shares of a polynomial with at most [t] coefficients, and
    has credits left.  Then the request that the tool signs goes to exactly [t + epsilon]
    provers, which all answer, and in whatever order their answers reach the relay, the tool
    prints the relay's answer and then [hash_from_curve] of the shared secret times the input's
    point, which does not depend on the mask. *)
Theorem cli_evaluates_prf rnd args key wallet input kdf H point prf request hash node r env p node_idx request_id
    incr counters' credits envs provers pong :
  arg_method args = "OPRFSecp256k1"%string → arg_private_key args = Some key → parse_wallet key = Some wallet →
  arg_input args = Some input → local_kdf (as_bytes "test-salt") (as_bytes input) = Ok kdf →
  hash_to_curve (Curve:=CS) kdf = Ok H → H ≠ ZERO → mask_s CS CB rnd ≠ 0%F →
  encode (scalar_mul H (mask_s CS CB rnd)) = Ok point →
  node_state (rpc_app node) = Some (Relay r) →
  cli_create_request CS CB wallet point OPRFSecp256k1 (current_epoch (rl_common r))
    (counted r OPRFSecp256k1 (wallet_address wallet)) None = Ok request →
  relay_quorum CS request p node_idx r →
  (∀ a, a ∈ active_provers r →
    serving_prover CS CB request p node_idx r a (envs (peer_id a)) (provers (peer_id a))) →
  req_cache r !! request_id = None ∧ res_cache r !! request_id = None →
  request_hash_of request = Some hash ∧ (hash ∉ batch_cache r) →
  account_request_from_signer CB CS request true (counters (redis (rl_common r)))
    = Ok (incr, counters', credits) →
  0 ≤ batch_size r + incr < TASK_SIZE →
  ae_redis env GetProofs = true ∧ ae_redis env SetProofs = true →
  (∀ pr : DLEQProof (C:=CS), is_Some (proof_to_json CS pr)) →
  Z.of_nat (length (coefficients p)) ≤ rl_t r → eval p 0%F ≠ 0%F →
  hash_from_curve (fmul_point H (eval p 0%F)) = Ok prf →
  ∃ chosen, Z.of_nat (length chosen) = rl_t r + rl_epsilon r ∧ chosen ⊆ active_provers r ∧
    ∀ order, order ≡ₚ chosen → ∃ w' answer,
      cli_main CS CB (CL:=node_client env request_id
          (arrivals CS CB prover_order request_id request envs provers order) pong) rnd args (fresh node)
      = (w', [Printed CS CB "Response: " answer; FinalMultiplicationResult CS CB prf], Ok tt).
Proof using EL LS TF DR.
  intros Hmeth Hkey Hwallet Hinput Hkdf HH' Hnz Hmask Henc Hr Hreq Hq Hsp Hfresh Hhash Hacc Hbatch Hredis Hjson Hdeg Hsec Hprf.
  pose proof (created_request _ _ _ _ _ _ Hreq) as (Hpt & Hm & Hep & Hrec).
  pose proof (hash_to_curve_sub _ _ HH') as Hsub. pose proof (sub_mul _ (mask_s CS CB rnd) Hsub) as HM.
  destruct (network_serves CS CB node_order prover_order request_id request (scalar_mul H (mask_s CS CB rnd)) p node_idx)
    with (r := r) (w := rpc_app node) (env := env) (hash := hash) (usr := wallet_address wallet) (incr := incr)
      (counters' := counters') (credits := credits) (envs := envs) (provers := provers)
    as (w1 & chosen & _ & Hlen & Hin & Hserve); try done;
    [by left|rewrite Hpt; by apply encode_decode|by apply smul_nonzero|].
  exists chosen. split_and!; [done..|]. intros order Ho. destruct (Hserve order Ho) as (_ & _ & _ & Hmul).
  set (during := arrivals CS CB prover_order request_id request envs provers order) in *.
  destruct (state_of_relay env request_id during pong (arg_rpc_url args) (wallet_address wallet) OPRFSecp256k1 node r Hr)
    as (node' & Hst & Hnode').
  specialize (Hmul node' Hnode').
  assert (cli_compute_oprf (C:=CS) (mask_s CS CB rnd) input = Ok (point, mask_s CS CB rnd)) as Hc.
  { unfold cli_compute_oprf, oprf_client_1. rewrite Hkdf. cbn [mbind outcome_bind]. rewrite HH'. cbn [mbind outcome_bind].
    by rewrite Henc. }
  unfold cli_main. rewrite Hmeth. cbn [String.eqb Ascii.eqb Bool.eqb]. unfold handle_method. eexists _, _.
  eapply bind_run; [unfold pure_run; rewrite Hkey; cbn [unwrap mbind outcome_bind]; by rewrite Hwallet| |reflexivity].
  eapply bind_run; [unfold prepare_method, pure_run; rewrite Hinput; cbn [unwrap mbind outcome_bind]; by rewrite Hc| |reflexivity].
  eapply bind_run; [apply client_Ok| |reflexivity].
  eapply bind_run; [unfold expect_call; cbn [server fresh]; by rewrite Hst| |reflexivity].
  eapply bind_run; [unfold pure_run; by rewrite Hreq| |reflexivity].
  eapply bind_run; [unfold expect_call; cbn [server cl_threshold_mul node_client]; by rewrite Hmul| |reflexivity].
  eapply bind_run; [reflexivity| |reflexivity]. cbn [finish_method]. unfold cli_process_finished_response.
  unfold fmul_point in Hprf.
  eapply bind_run; [unfold pure_run, fmul_point; rewrite unmasks by done; by rewrite Hprf|reflexivity|reflexivity].
Qed.
End Runs.

(** ** The tool against the network of [SystemExamples] *)
Module CliExamples.
Import ModelCurve.ModelInstances SmallNetwork.
#[local] Existing Instance NodeSelection.Examples.toy_rng.
#[local] Existing Instance NodeSelection.Examples.toy_f64.
#[local] Existing Instance ElectionExamples.toy_threshold.
#[local] Existing Instance ElectionExamples.toy_drand.
#[local] Existing Instance RequestExamples.toy_eth.
#[local] Existing Instance RequestExamples.toy_eth_laws.
#[local] Existing Instance RequestExamples.toy_jwt.
#[local] Existing Instance RequestExamples.toy_codec.
#[local] Existing Instance SmallNetwork.toy_texts.
Abbreviation mc := model_curve.
Abbreviation num z := (f_of_Z z : Z101).
#[local] Instance toy_kdf : Kdf := {| encode_b64 b := Some b; hash_password p salt := Some (p ++ salt) |}.
#[local] Instance toy_map : MapCurve mc := @Build_MapCurve mc
  (λ m, Ok (Zmod.of_Z q101 (be_val m))) (λ P, Ok (be_bytes 24 (Zmod.unsigned (P : Z101)))).
#[local] Instance toy_cli_texts : SdkTexts mc mc := @Build_SdkTexts mc mc _
  (λ _, None) (λ _, Some [1; 2]) (λ _, "z"%string) (λ _, None) (λ _, (0, 0)) (λ _, num 0) (λ _, "p"%string)
  (λ _, "c"%string) (λ _, None) (λ _, "s"%string) (λ _, None) (λ _, None) (λ _, None) (λ _, Some []) (λ _, None)
  (λ _, "e"%string) (λ _, "e"%string) (λ _, "r"%string).
Definition random (a : Z) : OprfRandom mc mc := Build_OprfRandom mc mc (num a) (num 1) (num 1) (num 1) (num 1).

Lemma cli_moves_key_shares_witness :
  ∃ w0 w1 exported,
    cli_main mc mc (CL:=node_client mc mc map_to_list_order (λ _, None) env "r" [] None) (random 5)
      (with_token "t" (command "url" "fetch_keyshare")) w0
    = (w1, [Printed mc mc "Key share response " (RNode mc mc (Keyshare exported))], Ok tt).
Proof.
  destruct (cli_moves_key_shares mc mc map_to_list_order (λ _, None) env env "r" [] None (random 5) "url" "t"
    SmallNetwork.node SmallNetwork.node (prover_state 1) (prover_state 1)) as (w0 & w1 & exported & _ & H & _);
    [reflexivity..| |by exists w0, w1, exported].
  apply map_Forall_singleton. split.
  - split; unfold free_of; apply (bool_decide_unpack _); vm_compute; exact I.
  - repeat constructor; vm_compute; done.
Defined.

(** A user with the key of [[1; 2]] and the mask 5. *)
Definition user_args : Args := {|
  arg_private_key := Some "key"; arg_input := Some "in"; arg_method := "OPRFSecp256k1"; arg_api_token := None;
  arg_keyshares := None; arg_rpc_url := "url"; arg_peer_id := None; arg_is_resharing_enabled := None |}%string.
Definition or_else {E A} (a : A) (o : outcome E A) : A := match o with Ok a => a | _ => a end.
Definition in_kdf : list Z := or_else [] (local_kdf (as_bytes "test-salt") (as_bytes "in")).
Definition in_point : Z101 := or_else (num 0) (hash_to_curve (Curve:=mc) in_kdf).
Definition masked : list Z := or_else [] (encode (Curve:=mc) (scalar_mul (Curve:=mc) in_point (num 5))).
Definition user_request : RequestToNetwork :=
  or_else request (cli_create_request mc mc signer_wallet masked OPRFSecp256k1 1 0 None).

Lemma cli_evaluates_prf_witness :
  ∃ chosen_provers w' answer prf, length chosen_provers = 3%nat ∧
    cli_main mc mc (CL:=node_client mc mc map_to_list_order (λ _, None) env "r"
      (arrivals mc mc (λ _, map_to_list_order) "r" user_request (λ _, env) prover_world (reverse chosen_provers)) None)
      (random 5) user_args (fresh mc relay_node)
    = (w', [Printed mc mc "Response: " answer; FinalMultiplicationResult mc mc prf], Ok tt).
Proof.
  assert (match account_request_from_signer mc mc user_request true ∅ with
          | Ok (i, _, _) => i =? 1 | _ => false end = true) as Hi by (vm_compute; reflexivity).
  destruct (account_request_from_signer mc mc user_request true ∅) as [[[incr counters'] credits]| |]
    eqn:Hacc; [|discriminate Hi..]. apply Z.eqb_eq in Hi.
  destruct (cli_evaluates_prf mc mc map_to_list_order (λ _, map_to_list_order) (λ _, None) (random 5) user_args
    "key" signer_wallet "in" in_kdf in_point masked (or_else 0 (hash_from_curve (Curve:=mc) (fmul_point (C:=mc) in_point (eval poly 0%F))))
    user_request (default ""%string (request_hash_of user_request)) relay_node relay env poly idx "r" incr counters' credits
    (λ _, env) prover_world None)
    as (ch & Hlen & _ & Hserve); try reflexivity.
  - apply (bool_decide_unpack _). vm_compute. exact I.
  - apply (bool_decide_unpack _). vm_compute. exact I.
  - destruct small_quorum as [H1 H2 H3 H4 H5 H6 H7 H8 H9]. by constructor.
  - intros a Ha. destruct (small_provers a Ha) as [H1 H2 H3]. by constructor.
  - split; reflexivity.
  - split; [vm_compute; reflexivity|]. apply (bool_decide_unpack _). vm_compute. exact I.
  - exact Hacc.
  - cbn. subst incr. unfold TASK_SIZE. lia.
  - split; reflexivity.
  - intros pr. by eexists.
  - apply (bool_decide_unpack _). vm_compute. exact I.
  - destruct (Hserve (reverse ch)) as (w' & answer & Hrun); [apply reverse_Permutation|].
    eexists ch, w', answer, _. split; [cbn in Hlen; lia|exact Hrun].
Defined.
End CliExamples.
