(* ===== verification/Supervision.v ===== *)
(** * Supervision of the actors (crates/node/src/main.rs, crates/actors/src/actor_manager.rs)

    A node runs four actors, each linked to a supervisor.  An actor whose handler panics or
    returns an error stops; its supervisor hands it to the loop of the node that spawns it
    again from its database.  The actors are looked up by name ([get_actor_ref],
    [cast_message!]), so a message for a stopped actor is dropped. *)
From Stdlib Require Import ZArith Lia Ascii String.
From stdpp Require Import base list gmap sets strings pretty sorting.
From coqutil Require Import Datatypes.RecordSettersUsingExistingGetters.
Import RecordSetNotations.
From S2P Require Import Prelude PrimeField Curve Polynomial Dleq NodeSelection Request Messages Election.
From S2P Require Import Dkg DkgEngine AppState AppStateSafety Gossip System.

(** ** Names (messages/src/actor_type.rs) *)
Module Names.
Inductive ActorType := GossipEngine | ElectionEngine | Relay | DkgEngine | AppStateEngine | Rpc.
Definition actor_to_string (a : ActorType) : string :=
  match a with
  | GossipEngine => "gossip_engine"
  | ElectionEngine => "election_engine"
  | Relay => "relay"
  | DkgEngine => "dkg_engine"
  | Rpc => "rpc"
  | AppStateEngine => "app_state_engine"
  end.
(** [resolve_actor_type]: any other name is [unreachable!]. *)
Definition resolve_actor_type (name : string) : outcome string ActorType :=
  if bool_decide (name = "gossip_engine"%string) then Ok GossipEngine
  else if bool_decide (name = "election_engine"%string) then Ok ElectionEngine
  else if bool_decide (name = "relay"%string) then Ok Relay
  else if bool_decide (name = "dkg_engine"%string) then Ok DkgEngine
  else if bool_decide (name = "rpc"%string) then Ok Rpc
  else if bool_decide (name = "app_state_engine"%string) then Ok AppStateEngine
  else Panic.

Inductive SupervisorType :=
  | AppEngineStateSuperVisor | ElectionEngineSuperVisor | DkgEngineSuperVisor | GossipEngineSuperVisor.
Definition supervisor_to_string (s : SupervisorType) : string :=
  match s with
  | AppEngineStateSuperVisor => "app_engine_state_supervisor"
  | ElectionEngineSuperVisor => "election_engine_supervisor"
  | DkgEngineSuperVisor => "dkg_engine_supervisor"
  | GossipEngineSuperVisor => "gossip_engine_supervisor"
  end.

Lemma resolve_to_string a : resolve_actor_type (actor_to_string a) = Ok a.
Proof. by destruct a. Qed.
Lemma actor_to_string_inj a b : actor_to_string a = actor_to_string b → a = b.
Proof. by destruct a, b. Qed.
End Names.
Import Names (actor_to_string, resolve_actor_type, supervisor_to_string).

(** The engines of a node, and the supervisor of each. *)
Definition engines : list Names.ActorType :=
  [Names.AppStateEngine; Names.ElectionEngine; Names.DkgEngine; Names.GossipEngine].
Definition supervisors : list Names.SupervisorType :=
  [Names.AppEngineStateSuperVisor; Names.ElectionEngineSuperVisor; Names.DkgEngineSuperVisor;
   Names.GossipEngineSuperVisor].

(** ** Supervisors *)

(** [ractor::ActorCell], and the events a supervisor gets of it. *)
Record ActorCell := { cell_name : option string }.
Inductive SupervisionEvent :=
  | ActorStarted (actor : ActorCell)
  | ActorFailed (who : ActorCell)
  | ActorTerminated (who : ActorCell)
  | PidLifecycleEvent
  | ProcessGroupChanged.

(** [handle_supervisor_evt], the same code in all four supervisors, with what waits in the
    channel [panic_tx]. *)
Definition handle_supervisor_evt (message : SupervisionEvent) (panics : list ActorCell) : list ActorCell :=
  match message with
  | ActorFailed who => panics ++ [who]
  | ActorStarted _ | ActorTerminated _ | PidLifecycleEvent | ProcessGroupChanged => panics
  end.

(** ** The actor manager *)

(** The references to the four actors; the builder has them as options. *)
Record ActorManager := { app_state : nat; election_engine : nat; dkg_engine : nat; gossip_engine : nat }.
Record ActorManagerBuilder := {
  b_app_state_engine : option nat; b_election_engine : option nat; b_dkg_engine : option nat;
  b_gossip_engine : option nat
}.
Definition ActorManagerBuilder_default : ActorManagerBuilder := {|
  b_app_state_engine := None; b_election_engine := None; b_dkg_engine := None; b_gossip_engine := None |}.
Definition build (self : ActorManagerBuilder) : outcome string ActorManager :=
  a ← unwrap (b_app_state_engine self);
  e ← unwrap (b_election_engine self);
  d ← unwrap (b_dkg_engine self);
  g ← unwrap (b_gossip_engine self);
  Ok {| app_state := a; election_engine := e; dkg_engine := d; gossip_engine := g |}.

(** The ends of the channels between the gossip engine and the listener: where it sends
    and where it receives. *)
Record Ends := { tx : nat; rx : nat }.

(** [NetworkConfig], as far as the actors get it. *)
Record NodeConfig := {
  cf_local_peer_id : PeerId; cf_relay_peer_id : PeerId; cf_node_type : NodeType;
  cf_relay_multi_addr : list Protocol
}.

Section Node.
Context (CS CB : Curve) `{HH : Hashes} `{HO : HashOrder} `{R : Rsa} `{ET : !EngineTexts} `{E : Eth}
  `{J : !Jwt} `{RC : !RequestCodec CB CS} `{RG : Rng} `{FL : !F64} `{TF : !ThresholdFloat} `{DR : Drand}
  `{AT : !AppTexts}.
Context (cfg : NodeConfig).

(** The process: the registry of names, the states of the four actors (of a stopped one, what
    it left behind), the listeners, the manager and the stopped actors to respawn. *)
Record NodeWorld := {
  registry : gmap string nat;
  next_actor : nat; next_channel : nat;
  nw_app : AppWorld; nw_election : World; nw_dkg : Wrapper CS CB; nw_gossip : Ends;
  listeners : list Ends;
  manager : ActorManager;
  panic_rx : list ActorCell
}.

(** What a respawn meets: the status of the cell that was received, whether ractor spawns
    the actor, whether the listener starts, and the application state's surroundings. *)
Record RespawnEnv := {
  re_stopped : bool; re_spawn : bool; re_listener : bool; re_app : AppEnv CS CB
}.
Implicit Types (nw : NodeWorld) (name : string).

(** [get_actor_ref]. *)
Definition get_actor_ref name nw : option nat := registry nw !! name.

(** [Actor::spawn_linked] under a name, which must be free. *)
Definition spawn_linked (ok : bool) name nw : option (nat * NodeWorld) :=
  match registry nw !! name with
  | Some _ => None
  | None => if ok then Some (next_actor nw, nw <| registry ::= <[name := next_actor nw]> |>
                                               <| next_actor ::= S |>)
            else None
  end.

(** Redis is outside the process. *)
Definition redis_of (w : AppWorld) : RedisStore :=
  match node_state w with
  | Some (Relay r) => redis (rl_common r)
  | Some (Prover p) => redis (pv_common p)
  | Some (Verifier c _) => redis c
  | None => {| counters := ∅; stored_proofs := ∅; request_batch := [] |}
  end.

(** The [pre_start] of each actor on what is left of the one before it. *)
Definition restart_app (env : AppEnv CS CB) (w : AppWorld) : AppWorld :=
  AppState.pre_start CS CB env (cf_local_peer_id cfg) (cf_relay_peer_id cfg) (cf_node_type cfg)
    (cf_relay_multi_addr cfg) (app_db w) (redis_of w).
Definition restart_election (w : World) : World :=
  Election.pre_start (cf_local_peer_id cfg) (cf_relay_peer_id cfg) (settings w) (db w).

(** [ActorManager::reboot_*]: the supervisor must be found, the spawn must succeed, then the
    manager gets the new reference. *)
Definition reboot (supervisor : Names.SupervisorType) name (ok : bool)
    (start : NodeWorld → NodeWorld) (set : nat → ActorManager → ActorManager) nw
    : outcome string NodeWorld :=
  match get_actor_ref (supervisor_to_string supervisor) nw with
  | None => Err ("A " +:+ name +:+ " actor that experienced a panic was successfully respawned, but the supervisor actor could not be retrieved from the registry.")%string
  | Some _ =>
      match spawn_linked ok name nw with
      | None => Err "spawn"%string
      | Some (id, nw) => Ok (start nw <| manager ::= set id |>)
      end
  end.
Definition reboot_app_state_engine (env : RespawnEnv) name : NodeWorld → outcome string NodeWorld :=
  reboot Names.AppEngineStateSuperVisor name (re_spawn env)
    (λ nw, nw <| nw_app ::= restart_app (re_app env) |>) (λ id m, m <| app_state := id |>).
Definition reboot_election_engine (env : RespawnEnv) name : NodeWorld → outcome string NodeWorld :=
  reboot Names.ElectionEngineSuperVisor name (re_spawn env)
    (λ nw, nw <| nw_election ::= restart_election |>) (λ id m, m <| election_engine := id |>).
Definition reboot_dkg_engine (env : RespawnEnv) name : NodeWorld → outcome string NodeWorld :=
  reboot Names.DkgEngineSuperVisor name (re_spawn env)
    (λ nw, nw <| nw_dkg := None |>) (λ id m, m <| dkg_engine := id |>).
Definition reboot_gossip_engine (env : RespawnEnv) name (ends : Ends) : NodeWorld → outcome string NodeWorld :=
  reboot Names.GossipEngineSuperVisor name (re_spawn env)
    (λ nw, nw <| nw_gossip := ends |>) (λ id m, m <| gossip_engine := id |>).

(** The arm of [handle_actor_panic] for the gossip engine: two new channels, both ends of
    the first for the actor and both ends of the second for a new listener. *)
Definition respawn_gossip (env : RespawnEnv) name nw : NodeWorld :=
  let c := next_channel nw in
  let nw := nw <| next_channel := S (S c) |> in
  match reboot_gossip_engine env name {| tx := c; rx := c |} nw with
  | Ok nw => if re_listener env then nw <| listeners ::= (λ l, l ++ [{| tx := S c; rx := S c |}]) |> else nw
  | _ => nw
  end.

(** One round of [handle_actor_panic]: [None] is a panic, which ends the loop. *)
Definition or_keep nw (r : outcome string NodeWorld) : NodeWorld := match r with Ok nw' => nw' | _ => nw end.
Definition handle_actor_panic (env : RespawnEnv) (actor : ActorCell) nw : option NodeWorld :=
  if re_stopped env then
    match cell_name actor with
    | Some name =>
        match resolve_actor_type name with
        | Ok Names.AppStateEngine => Some (or_keep nw (reboot_app_state_engine env name nw))
        | Ok Names.ElectionEngine => Some (or_keep nw (reboot_election_engine env name nw))
        | Ok Names.DkgEngine => Some (or_keep nw (reboot_dkg_engine env name nw))
        | Ok Names.GossipEngine => Some (respawn_gossip env name nw)
        | _ => None
        end
    | None => Some nw
    end
  else Some nw.

(** ** The node as a whole *)

(** How a handler's end reaches the supervisor: a failed actor leaves the registry. *)
Definition settle (a : Names.ActorType) (h : HandlerResult) nw : NodeWorld :=
  match h with
  | HOk | HWaiting => nw
  | HErr _ | HPanic =>
      let name := actor_to_string a in
      nw <| registry ::= delete name |>
         <| panic_rx ::= handle_supervisor_evt (ActorFailed {| cell_name := Some name |}) |>
  end.

(** [cast_message!] to an actor, and its handling. *)
Definition cast (a : Names.ActorType) (run : NodeWorld → NodeWorld * HandlerResult) nw : NodeWorld :=
  match get_actor_ref (actor_to_string a) nw with
  | Some _ => let '(nw, h) := run nw in settle a h nw
  | None => nw
  end.
Definition cast_app (env : AppEnv CS CB) (m : AppMessage CS CB) : NodeWorld → NodeWorld :=
  cast Names.AppStateEngine (λ nw, let '(w, _, h) := app_handle CS CB (F:=f64) env m (nw_app nw) in
                                   (nw <| nw_app := w |>, h)).
Definition cast_election (env : Env) (m : ElectionEngineMessage f64) : NodeWorld → NodeWorld :=
  cast Names.ElectionEngine (λ nw, let '(w, _, h) := Election.handle env m (nw_election nw) in
                                   (nw <| nw_election := w |>, h)).
Definition cast_dkg (env : DkgEnv CS CB) (m : DkgEngineMessage) : NodeWorld → NodeWorld :=
  cast Names.DkgEngine (λ nw, let '(w, _, h) := handle_dkg CS CB (F:=f64) env m (nw_dkg nw) in
                              (nw <| nw_dkg := w |>, h)).

(** The steps of the process: a message to an actor, or a round of the respawning loop. *)
Inductive NodeStep :=
  | AppStep (env : AppEnv CS CB) (m : AppMessage CS CB)
  | ElectionStep (env : Env) (m : ElectionEngineMessage f64)
  | DkgStep (env : DkgEnv CS CB) (m : DkgEngineMessage)
  | RespawnStep (env : RespawnEnv).
(** [while let Some(actor) = panic_rx.recv()]; the cells carry the names of engines, so the
    panic of [resolve_actor_type] that would end the loop is not met. *)
Definition respawn (env : RespawnEnv) nw : NodeWorld :=
  match panic_rx nw with
  | [] => nw
  | actor :: rest =>
      let nw := nw <| panic_rx := rest |> in
      default nw (handle_actor_panic env actor nw)
  end.
Definition node_step nw (s : NodeStep) : NodeWorld :=
  match s with
  | AppStep env m => cast_app env m nw
  | ElectionStep env m => cast_election env m nw
  | DkgStep env m => cast_dkg env m nw
  | RespawnStep env => respawn env nw
  end.
Definition node_run (steps : list NodeStep) nw : NodeWorld := foldl node_step nw steps.

(** The start in [main]: four supervisors, two channels whose ends are crossed, the
    listener, then the four actors through the builder. *)
Definition start_node (env : AppEnv CS CB) (st : Settings) (edb : Election.Db) (adb : AppDb) (rd : RedisStore)
    : outcome string NodeWorld :=
  let ids := imap (λ i s, (supervisor_to_string s, i)) supervisors ++
             imap (λ i a, (actor_to_string a, (4 + i)%nat)) engines in
  m ← build {| b_app_state_engine := Some 4%nat; b_election_engine := Some 5%nat;
               b_dkg_engine := Some 6%nat; b_gossip_engine := Some 7%nat |};
  Ok {| registry := list_to_map ids; next_actor := 8; next_channel := 2;
        nw_app := AppState.pre_start CS CB env (cf_local_peer_id cfg) (cf_relay_peer_id cfg)
                    (cf_node_type cfg) (cf_relay_multi_addr cfg) adb rd;
        nw_election := Election.pre_start (cf_local_peer_id cfg) (cf_relay_peer_id cfg) st edb;
        nw_dkg := None; nw_gossip := {| tx := 0; rx := 1 |};
        listeners := [{| tx := 1; rx := 0 |}]; manager := m; panic_rx := [] |}.
End Node.

Arguments registry {CS CB R E RG FL} n : rename.
Arguments next_actor {CS CB R E RG FL} n : rename.
Arguments next_channel {CS CB R E RG FL} n : rename.
Arguments nw_app {CS CB R E RG FL} n : rename.
Arguments nw_election {CS CB R E RG FL} n : rename.
Arguments nw_dkg {CS CB R E RG FL} n : rename.
Arguments nw_gossip {CS CB R E RG FL} n : rename.
Arguments listeners {CS CB R E RG FL} n : rename.
Arguments manager {CS CB R E RG FL} n : rename.
Arguments panic_rx {CS CB R E RG FL} n : rename.
Arguments re_stopped {CS CB} r : rename.
Arguments re_spawn {CS CB} r : rename.
Arguments re_listener {CS CB} r : rename.
Arguments re_app {CS CB} r : rename.
Arguments AppStep {CS CB R E RG FL} env m.
Arguments ElectionStep {CS CB R E RG FL} env m.
Arguments DkgStep {CS CB R E RG FL} env m.
Arguments RespawnStep {CS CB R E RG FL} env.
