(* ===== verification/SupervisionProofs.v ===== *)
(** * Respawning and recovery

    Every stopped engine waits in the channel of the respawning loop and comes back; an
    engine the loop drops is gone for good.  A relay or prover that saved its state and
    then fails is respawned as one that serves the same quorum. *)
From Stdlib Require Import ZArith Lia Ascii String.
From stdpp Require Import base list gmap sets strings pretty sorting.
From coqutil Require Import Datatypes.RecordSettersUsingExistingGetters.
Import RecordSetNotations.
From S2P Require Import Prelude PrimeField Curve Polynomial Dleq NodeSelection Request Messages Election.
From S2P Require Import ElectionProofs Dkg DkgProtocol DkgEngine EngineRun AppState AppStateSafety Gossip System SystemExamples.
From S2P Require Import ModelCurve Supervision.
Import Names (actor_to_string, resolve_actor_type, supervisor_to_string).

#[local] Instance ActorType_eq_dec : EqDecision Names.ActorType.
Proof. solve_decision. Defined.
#[local] Instance ActorCell_eq_dec : EqDecision ActorCell.
Proof. solve_decision. Defined.

Definition cell (a : Names.ActorType) : ActorCell := {| cell_name := Some (actor_to_string a) |}.
#[export] Instance cell_inj : Inj (=) (=) cell.
Proof. intros a b [= H]. by apply Names.actor_to_string_inj. Qed.
Lemma supervisor_not_actor s a : supervisor_to_string s ≠ actor_to_string a.
Proof. by destruct s, a. Qed.

Lemma app_engine : Names.AppStateEngine ∈ engines.
Proof. left. Qed.

Section Respawn.
Context (CS CB : Curve) `{HH : Hashes} `{HO : HashOrder} `{R : Rsa} `{ET : !EngineTexts} `{E : Eth}
  `{J : !Jwt} `{RC : !RequestCodec CB CS} `{RG : Rng} `{FL : !F64} `{TF : !ThresholdFloat} `{DR : Drand}
  `{AT : !AppTexts}.
Context (cfg : NodeConfig).
Abbreviation NodeWorld := (NodeWorld CS CB).
Abbreviation NodeStep := (NodeStep CS CB).
Abbreviation RespawnEnv := (RespawnEnv CS CB).
Abbreviation node_run := (node_run CS CB cfg).
Abbreviation node_step := (node_step CS CB cfg).
Abbreviation respawn := (respawn CS CB cfg).
Implicit Types (nw : NodeWorld) (a b : Names.ActorType).

(** An engine is registered exactly when it does not wait to be respawned. *)
Record supervised nw : Prop := {
  sv_supervisors : ∀ s, is_Some (registry nw !! supervisor_to_string s);
  sv_cells : panic_rx nw ⊆ cell <$> engines;
  sv_nodup : NoDup (panic_rx nw);
  sv_engines : ∀ a, a ∈ engines → (registry nw !! actor_to_string a = None ↔ cell a ∈ panic_rx nw)
}.

(** The loop respawns what it is handed. *)
Definition respawns (s : NodeStep) : Prop :=
  match s with RespawnStep env => re_stopped env = true ∧ re_spawn env = true | _ => True end.

Lemma settle_supervised a h nw : a ∈ engines → is_Some (registry nw !! actor_to_string a) →
  supervised nw → supervised (settle CS CB a h nw).
Proof.
  intros Ha Hreg Hsv. assert (cell a ∉ panic_rx nw) as Hno.
  { intros Hin%(sv_engines nw Hsv a Ha). by rewrite Hin in Hreg; destruct Hreg. }
  assert (supervised (nw <| registry ::= delete (actor_to_string a) |> <| panic_rx ::= λ l, l ++ [cell a] |>)).
  { split; cbn.
    - intros s. rewrite lookup_delete_ne by (intros H; by apply (supervisor_not_actor s a)). apply Hsv.
    - intros c [Hc| ->%list_elem_of_singleton]%elem_of_app; [by apply Hsv|]. exact (list_elem_of_fmap_2 cell engines a Ha).
    - apply NoDup_app. split; [apply Hsv|]. split; [|apply NoDup_singleton].
      by intros c Hc ->%list_elem_of_singleton.
    - intros b Hb. rewrite elem_of_app, list_elem_of_singleton. destruct (decide (b = a)) as [->|Hne].
      + rewrite lookup_delete_eq. by split; [right|].
      + rewrite lookup_delete_ne by (by intros H%Names.actor_to_string_inj).
        rewrite (sv_engines nw Hsv b Hb). split; [by left|]. intros [?|H%(inj cell)]; [done|]. by destruct Hne. }
  by destruct h.
Qed.

Lemma cast_supervised a run nw : a ∈ engines →
  (∀ nw, registry (run nw).1 = registry nw ∧ panic_rx (run nw).1 = panic_rx nw) →
  supervised nw → supervised (cast CS CB a run nw).
Proof.
  intros Ha Hrun Hsv. unfold cast, get_actor_ref. destruct (registry nw !! actor_to_string a) as [i|] eqn:Hi; [|done].
  destruct (Hrun nw) as [Hr Hp]. destruct (run nw) as [nw' h]. cbn in Hr, Hp. apply settle_supervised; [done| |].
  - by rewrite Hr, Hi.
  - destruct Hsv as [S1 S2 S3 S4]. split; by rewrite ?Hr, ?Hp.
Qed.

Lemma reboot_Ok sup a ok start set nw : ok = true → is_Some (registry nw !! supervisor_to_string sup) →
  registry nw !! actor_to_string a = None →
  reboot CS CB sup (actor_to_string a) ok start set nw =
    Ok (start (nw <| registry ::= <[actor_to_string a := next_actor nw]> |> <| next_actor ::= S |>)
          <| manager ::= set (next_actor nw) |>).
Proof. intros -> [i Hi] Ha. unfold reboot, get_actor_ref, spawn_linked. by rewrite Hi, Ha. Qed.

Lemma resume_supervised a nw nw' rest : a ∈ engines → supervised nw → panic_rx nw = cell a :: rest →
  registry nw' = <[actor_to_string a := next_actor nw]> (registry nw) → panic_rx nw' = rest → supervised nw'.
Proof.
  intros Ha [S1 S2 S3 S4] Hp Hr Hp'. rewrite Hp in *. apply NoDup_cons in S3 as [Hno S3]. split.
  - intros s. rewrite Hr, lookup_insert_ne by (intros H; by apply (supervisor_not_actor s a)). apply S1.
  - rewrite Hp'. intros c Hc. apply S2. by right.
  - by rewrite Hp'.
  - intros b Hb. rewrite Hr, Hp'. destruct (decide (b = a)) as [->|Hne].
    + by rewrite lookup_insert_eq.
    + rewrite lookup_insert_ne by (by intros H%Names.actor_to_string_inj). rewrite (S4 b Hb), elem_of_cons.
      split; [|by right]. intros [H%(inj cell)|?]; [by destruct Hne|done].
Qed.

(** One round of the loop brings the first waiting engine back. *)
Lemma respawn_supervised env nw a rest : supervised nw → panic_rx nw = cell a :: rest →
  re_stopped env = true → re_spawn env = true →
  supervised (respawn env nw) ∧ panic_rx (respawn env nw) = rest ∧
  is_Some (registry (respawn env nw) !! actor_to_string a).
Proof.
  intros Hsv Hp Hst Hsp. assert (a ∈ engines) as Ha.
  { assert (cell a ∈ cell <$> engines) as H by (apply (sv_cells nw Hsv); rewrite Hp; by left).
    by apply list_elem_of_fmap in H as (b & ->%(inj cell) & Hb). }
  assert (registry nw !! actor_to_string a = None) as Hnone by (apply (sv_engines nw Hsv a Ha); rewrite Hp; by left).
  assert (registry (respawn env nw) = <[actor_to_string a := next_actor nw]> (registry nw) ∧
          panic_rx (respawn env nw) = rest) as [Hr Hp'].
  { unfold Supervision.respawn. rewrite Hp. unfold handle_actor_panic. rewrite Hst. cbn [cell_name cell].
    rewrite Names.resolve_to_string. unfold reboot_app_state_engine, reboot_election_engine, reboot_dkg_engine,
      respawn_gossip, reboot_gossip_engine.
    pose proof (λ s, sv_supervisors nw Hsv s) as Hs.
    destruct a; try (by unfold engines in Ha; set_solver); rewrite reboot_Ok by done; [by case_match|done..]. }
  split; [by eapply resume_supervised|]. split; [done|]. rewrite Hr, lookup_insert_eq. by eexists.
Qed.

Lemma step_supervised s nw : respawns s → supervised nw → supervised (node_step nw s).
Proof.
  intros Hs Hsv. destruct s as [env m|env m|env m|env]; cbn [Supervision.node_step].
  1,2,3: apply cast_supervised; [unfold engines; set_solver| |done]; intros nw'; by case_match; case_match.
  destruct Hs as [Hst Hsp]. destruct (panic_rx nw) as [|c rest] eqn:Hp; [by unfold Supervision.respawn; rewrite Hp|].
  assert (c ∈ cell <$> engines) as (a & -> & Ha)%list_elem_of_fmap by (apply (sv_cells nw Hsv); rewrite Hp; by left).
  by eapply respawn_supervised.
Qed.

Lemma run_supervised steps nw : Forall respawns steps → supervised nw → supervised (node_run steps nw).
Proof.
  revert nw. induction steps as [|s steps IH]; intros nw Hs Hsv; [done|]. apply Forall_cons in Hs as [H1 H2].
  cbn. apply IH; [done|]. by apply step_supervised.
Qed.

Lemma start_supervised env st edb adb rd nw : start_node CS CB cfg env st edb adb rd = Ok nw → supervised nw.
Proof.
  intros [= <-]. split; cbn.
  - intros s. by destruct s; vm_compute; eexists.
  - set_solver.
  - constructor.
  - intros a Ha. split; [|set_solver]. unfold engines in Ha. intros Hn. by destruct a; try (by set_solver); vm_compute in Hn.
Qed.

(** The rounds of the loop that empty the channel. *)
Lemma drain_supervised envs nw : supervised nw → Forall (λ e, re_stopped e = true ∧ re_spawn e = true) envs →
  (length (panic_rx nw) ≤ length envs)%nat →
  let nw' := node_run (RespawnStep <$> envs) nw in
  panic_rx nw' = [] ∧ ∀ a, a ∈ engines → is_Some (registry nw' !! actor_to_string a).
Proof.
  revert nw. induction envs as [|e envs IH]; intros nw Hsv He Hlen; cbn zeta.
  - destruct (panic_rx nw) eqn:Hp; [|cbn in Hlen; lia]. split; [done|]. intros a Ha. cbn.
    destruct (registry nw !! actor_to_string a) eqn:Hr; [done|].
    apply (sv_engines nw Hsv a Ha) in Hr. rewrite Hp in Hr. set_solver.
  - apply Forall_cons in He as [[Hst Hsp] He]. cbn [fmap list_fmap Supervision.node_run foldl Supervision.node_step].
    destruct (panic_rx nw) as [|c rest] eqn:Hp.
    + assert (respawn e nw = nw) as -> by (unfold Supervision.respawn; by rewrite Hp).
      apply IH; [done|done|]. rewrite Hp. cbn. lia.
    + assert (c ∈ cell <$> engines) as (a & -> & Ha)%list_elem_of_fmap by (apply (sv_cells nw Hsv); rewrite Hp; by left).
      destruct (respawn_supervised e nw a rest) as (Hsv' & Hp' & _); [done..|].
      apply IH; [done|done|]. rewrite Hp'. cbn in Hlen. lia.
Qed.

Lemma pending_bound nw : supervised nw → (length (panic_rx nw) ≤ 4)%nat.
Proof.
  intros Hsv. change 4%nat with (length (cell <$> engines)).
  apply submseteq_length, NoDup_submseteq; [apply Hsv|apply Hsv].
Qed.

(** A listener that hears the gossip engine, or is heard by it. *)
Definition connected (nw : NodeWorld) : Prop :=
  Exists (λ l, tx l = rx (nw_gossip nw) ∨ rx l = tx (nw_gossip nw)) (listeners nw).
Lemma start_connected env st edb adb rd nw : start_node CS CB cfg env st edb adb rd = Ok nw → connected nw.
Proof. intros [= <-]. by repeat constructor. Qed.
(** A respawned gossip engine is connected to no listener, neither an old one nor the new. *)
Lemma respawned_gossip_disconnected env nw :
  supervised nw → registry nw !! actor_to_string Names.GossipEngine = None → re_spawn env = true →
  Forall (λ l, tx l < next_channel nw ∧ rx l < next_channel nw)%nat (listeners nw) →
  ¬ connected (respawn_gossip CS CB env (actor_to_string Names.GossipEngine) nw).
Proof.
  intros Hsv Hr Hsp Hl. unfold respawn_gossip. cbv zeta. unfold reboot_gossip_engine.
  rewrite (reboot_Ok Names.GossipEngineSuperVisor Names.GossipEngine); [|done|apply (sv_supervisors nw Hsv)|done].
  unfold connected. rewrite Exists_exists. rewrite Forall_forall in Hl. intros (l & Hin & Hc).
  assert (l ∈ listeners nw ∨ tx l = S (next_channel nw) ∧ rx l = S (next_channel nw)) as Hcase.
  { destruct (re_listener env); cbn in Hin; [|by left]. apply elem_of_app in Hin as [Hin| ->%list_elem_of_singleton]; auto. }
  assert (tx l = next_channel nw ∨ rx l = next_channel nw) as Hc' by (destruct (re_listener env); cbn in Hc; lia).
  destruct Hcase as [H%Hl|[? ?]]; lia.
Qed.

(** What a round of the loop does to the registry: at most the name of the cell is added. *)
Lemma reboot_frame sup name ok start set nw nw' :
  (∀ n, registry (start n) = registry n ∧ panic_rx (start n) = panic_rx n) →
  reboot CS CB sup name ok start set nw = Ok nw' →
  registry nw' = <[name := next_actor nw]> (registry nw) ∧ panic_rx nw' = panic_rx nw.
Proof.
  intros Hstart. unfold reboot, spawn_linked. case_match; [|done]. destruct (registry nw !! name); [done|].
  destruct ok; [|done]. intros [= <-]. cbn. match goal with |- context [start ?n] => by destruct (Hstart n) as [-> ->] end.
Qed.
Lemma handle_panic_frame env c nw nw' : handle_actor_panic CS CB cfg env c nw = Some nw' →
  panic_rx nw' = panic_rx nw ∧ (registry nw' = registry nw ∨
    ∃ name, cell_name c = Some name ∧ registry nw' = <[name := next_actor nw]> (registry nw)).
Proof.
  unfold handle_actor_panic. destruct (re_stopped env); [|intros [= <-]; auto].
  destruct (cell_name c) as [name|]; [|intros [= <-]; auto].
  destruct (resolve_actor_type name) as [[]| |]; try done; intros [= <-].
  1: unfold respawn_gossip; cbv zeta; destruct (reboot_gossip_engine _ _ _ _ _ _) as [n1| |] eqn:H; [|by auto..];
    apply reboot_frame in H as [Hr Hp]; [|done]; cbn in Hr, Hp; case_match; cbn; eauto.
  all: unfold or_keep; match goal with |- context [match ?r with Ok _ => _ | _ => _ end] =>
    destruct r as [n1| |] eqn:H; [|by auto..] end; apply reboot_frame in H as [Hr Hp]; [|done]; eauto.
Qed.

(** An engine that neither is registered nor waits in the channel never comes back. *)
Lemma lost_step s nw a : registry nw !! actor_to_string a = None → cell a ∉ panic_rx nw →
  registry (node_step nw s) !! actor_to_string a = None ∧ cell a ∉ panic_rx (node_step nw s).
Proof.
  intros Hr Hp.
  assert (∀ b run, (∀ nw, registry (run nw).1 = registry nw ∧ panic_rx (run nw).1 = panic_rx nw) →
    registry (cast CS CB b run nw) !! actor_to_string a = None ∧ cell a ∉ panic_rx (cast CS CB b run nw)) as Hcast.
  { intros b run Hrun. unfold cast, get_actor_ref. destruct (registry nw !! actor_to_string b) as [i|] eqn:Hb; [|done].
    assert (a ≠ b) as Hne by (intros ->; congruence). destruct (Hrun nw) as [H1 H2].
    destruct (run nw) as [nw' h]. cbn in H1, H2. destruct h; cbn; rewrite ?H1, ?H2; try done.
    1,2: (split; [rewrite lookup_delete_ne; [done|by intros H%Names.actor_to_string_inj]|]);
      rewrite elem_of_app, list_elem_of_singleton; intros [?|H%(inj cell)]; done. }
  destruct s as [env m|env m|env m|env]; cbn [Supervision.node_step].
  1,2,3: apply Hcast; intros nw'; by case_match; case_match.
  unfold Supervision.respawn. destruct (panic_rx nw) as [|c rest] eqn:Hc; [by rewrite Hc|].
  apply not_elem_of_cons in Hp as [Hne Hrest].
  destruct (handle_actor_panic CS CB cfg env c _) as [nw'|] eqn:H; [|done]. cbn.
  apply handle_panic_frame in H as [-> [->|(name & Hn & ->)]]; [done|]. cbn. split; [|done].
  rewrite lookup_insert_ne; [done|]. intros ->. apply Hne. destruct c. by cbn in Hn; rewrite Hn.
Qed.
Lemma lost_run steps nw a : registry nw !! actor_to_string a = None → cell a ∉ panic_rx nw →
  registry (node_run steps nw) !! actor_to_string a = None.
Proof.
  revert nw. induction steps as [|s steps IH]; intros nw Hr Hp; [done|]. cbn.
  destruct (lost_step s nw a Hr Hp). by apply IH.
Qed.

(** A round that finds the status not yet stopped, or whose spawn fails, drops the cell. *)
Lemma dropped env nw a rest : supervised nw → panic_rx nw = cell a :: rest →
  re_stopped env = false ∨ re_spawn env = false →
  registry (respawn env nw) !! actor_to_string a = None ∧ cell a ∉ panic_rx (respawn env nw).
Proof.
  intros Hsv Hp Hbad. pose proof (sv_nodup nw Hsv) as Hnd. rewrite Hp in Hnd. apply NoDup_cons in Hnd as [Hno _].
  assert (a ∈ engines) as Ha.
  { assert (cell a ∈ cell <$> engines) as H by (apply (sv_cells nw Hsv); rewrite Hp; by left).
    by apply list_elem_of_fmap in H as (b & ->%(inj cell) & Hb). }
  assert (registry nw !! actor_to_string a = None) as Hnone by (apply (sv_engines nw Hsv a Ha); rewrite Hp; by left).
  unfold Supervision.respawn, handle_actor_panic. rewrite Hp. destruct (re_stopped env) eqn:Hst; [|done].
  destruct Hbad as [|Hsp]; [done|]. cbn [cell cell_name]. rewrite Names.resolve_to_string.
  destruct a; try (by unfold engines in Ha; set_solver); cbn [default];
    unfold reboot_app_state_engine, reboot_election_engine, reboot_dkg_engine, respawn_gossip, reboot_gossip_engine, reboot, spawn_linked;
    cbv zeta; rewrite Hsp; repeat case_match; done.
Qed.

(** C17: A node's engines come back.  From its start on, whatever messages the engines get and
    however often their handlers fail, an engine is registered under its name or waits to be
    respawned, and four rounds of the respawning loop, each finding its actor stopped and
    able to be spawned, bring all engines back.  But a round that finds the actor not yet
    stopped, or whose spawn fails, drops it: whatever happens later, the engine is not
    registered again. *)
Theorem engines_respawn env st edb adb rd nw0 steps : start_node CS CB cfg env st edb adb rd = Ok nw0 →
  Forall respawns steps →
  let nw := node_run steps nw0 in
  (∀ a, a ∈ engines → is_Some (registry nw !! actor_to_string a) ∨ cell a ∈ panic_rx nw) ∧
  (∀ envs a, length envs = 4%nat → Forall (λ e, re_stopped e = true ∧ re_spawn e = true) envs → a ∈ engines →
     is_Some (registry (node_run (RespawnStep <$> envs) nw) !! actor_to_string a)) ∧
  (∀ e a rest later, panic_rx nw = cell a :: rest → re_stopped e = false ∨ re_spawn e = false →
     registry (node_run (RespawnStep e :: later) nw) !! actor_to_string a = None).
Proof.
  intros H0 Hs nw. assert (supervised nw) as Hsv by (eapply run_supervised; [done|by eapply start_supervised]).
  split_and!.
  - intros a Ha. destruct (registry nw !! actor_to_string a) eqn:Hr; [by left|]. right. by apply Hsv.
  - intros envs a Hlen He Ha. apply drain_supervised; [done|done| |done]. rewrite Hlen. by apply pending_bound.
  - intros e a rest later Hp Hbad. destruct (dropped e nw a rest) as [H1 H2]; [done..|]. exact (lost_run later (respawn e nw) a H1 H2).
Qed.
End Respawn.

(** ** Recovery of the application state *)
Section Recovery.
Context (CS CB : Curve) `{HH : Hashes} `{HO : HashOrder} `{R : Rsa} `{ET : !EngineTexts} `{E : Eth}
  `{J : !Jwt} `{RC : !RequestCodec CB CS} `{RG : Rng} `{FL : !F64} `{TF : !ThresholdFloat} `{DR : Drand}
  `{AT : !AppTexts}.
Context (cfg : NodeConfig) (request : RequestToNetwork) (p : Polynomial.Polynomial (FieldEl (Curve:=CS)))
  (node_idx : ProverInfo → Z).
Abbreviation relay_quorum := (relay_quorum CS request p node_idx).
Abbreviation serving_prover := (serving_prover CS CB request p node_idx).
Implicit Types (nw : NodeWorld CS CB) (r : RelayState) (w : AppWorld).

(** The entries of the database that a restart reads. *)
Definition saved_db (d : AppDb) :=
  (db_n d, db_t d, db_app_epsilon d, db_idx d, db_new_provers d, db_tstar_provers d, db_pubkey_shares d,
   db_finalized d, db_private_keyshares d).
Definition keeps_db (s : NodeStep CS CB) : Prop :=
  match s with AppStep _ m => writes_db CS CB m = false | _ => True end.

Lemma cast_app_state a run nw : nw_app (cast CS CB a run nw) = nw_app nw ∨
  nw_app (cast CS CB a run nw) = nw_app (run nw).1.
Proof.
  unfold cast. case_match; [|by left]. right. destruct (run nw) as [nw' h]. by destruct h.
Qed.
Lemma reboot_app sup name ok start set nw nw' : reboot CS CB sup name ok start set nw = Ok nw' →
  ∃ n, nw_app n = nw_app nw ∧ nw_app nw' = nw_app (start n).
Proof.
  unfold reboot, spawn_linked. case_match; [|done]. destruct (registry nw !! name); [done|].
  destruct ok; [|done]. intros [= <-]. eexists. split; cycle 1; [reflexivity|done].
Qed.
Lemma handle_panic_app env c nw nw' : handle_actor_panic CS CB cfg env c nw = Some nw' →
  nw_app nw' = nw_app nw ∨ nw_app nw' = restart_app CS CB cfg (re_app env) (nw_app nw).
Proof.
  unfold handle_actor_panic. destruct (re_stopped env); [|intros [= <-]; auto].
  destruct (cell_name c) as [name|]; [|intros [= <-]; auto].
  destruct (resolve_actor_type name) as [[]| |]; try done; intros [= <-].
  1: unfold respawn_gossip; cbv zeta; destruct (reboot_gossip_engine _ _ _ _ _ _) as [n1| |] eqn:H; [|by auto..];
    apply reboot_app in H as (n & Hn & H'); cbn in Hn, H'; left; case_match; cbn; congruence.
  all: unfold or_keep; match goal with |- context [match ?r with Ok _ => _ | _ => _ end] =>
    destruct r as [n1| |] eqn:H; [|by auto..] end; apply reboot_app in H as (n & Hn & H'); cbn in H'; rewrite ?Hn in H'; auto.
Qed.

Lemma step_saved s nw : keeps_db s →
  saved_db (app_db (nw_app (node_step CS CB cfg nw s))) = saved_db (app_db (nw_app nw)).
Proof.
  intros Hs. destruct s as [env m|env m|env m|env]; cbn [node_step].
  - unfold cast_app. match goal with |- context [cast CS CB ?a ?run nw] =>
      destruct (cast_app_state a run nw) as [->| ->]; [done|] end.
    pose proof (app_handle_same_db CS CB (F:=f64) env m (nw_app nw) Hs) as [H _].
    destruct (app_handle CS CB env m (nw_app nw)) as [[w o] h]. cbn in H |- *. unfold const. by rewrite H.
  - unfold cast_election. match goal with |- context [cast CS CB ?a ?run nw] =>
      destruct (cast_app_state a run nw) as [->| ->]; [done|] end. by destruct (Election.handle env m _) as [[]].
  - unfold cast_dkg. match goal with |- context [cast CS CB ?a ?run nw] =>
      destruct (cast_app_state a run nw) as [->| ->]; [done|] end. by destruct (handle_dkg _ _ _ _ _) as [[]].
  - unfold respawn. destruct (panic_rx nw) as [|c rest]; [done|].
    destruct (handle_actor_panic CS CB cfg env c _) as [nw'|] eqn:H; [|done]. cbn.
    by apply handle_panic_app in H as [->| ->].
Qed.
Lemma run_saved steps nw : Forall keeps_db steps →
  saved_db (app_db (nw_app (node_run CS CB cfg steps nw))) = saved_db (app_db (nw_app nw)).
Proof.
  revert nw. induction steps as [|s steps IH]; intros nw Hs; [done|]. apply Forall_cons in Hs as [H1 H2].
  cbn. etransitivity; [by apply IH|]. by apply step_saved.
Qed.

(** The quorum that a restarted relay reads back. *)
Lemma quorum_pairs r : relay_quorum r →
  hm_values (rl_new_provers r) ≡ₚ (λ a, (a, node_idx a)) <$> active_provers r.
Proof.
  intros Hq. unfold hm_values. rewrite hm_iter_perm, (rq_map _ _ _ _ _ Hq), map_to_list_to_map.
  - by rewrite <- list_fmap_compose.
  - rewrite <- list_fmap_compose. apply (rq_peers _ _ _ _ _ Hq).
Qed.
Lemma answering_size r (ping : ProverInfo → bool) : relay_quorum r →
  Z.of_nat (size (default ∅ (ping_nodes ping (rl_new_provers r))))
  = Z.of_nat (length (filter (λ a, ping a = true) (active_provers r))).
Proof.
  intros Hq. unfold ping_nodes. cbv zeta.
  set (l := snd <$> filter _ (hm_values (rl_new_provers r))).
  assert (l ≡ₚ node_idx <$> filter (λ a, ping a = true) (active_provers r)) as Hl.
  { unfold l. rewrite (quorum_pairs r Hq). clear. induction (active_provers r) as [|a m IH]; [done|].
    cbn [fmap list_fmap]. rewrite !filter_cons. cbn. case_decide; [|done]. cbn. by rewrite IH. }
  assert (NoDup l) as Hnd.
  { rewrite Hl. apply NoDup_fmap_filter, (rq_idx _ _ _ _ _ Hq). }
  assert (length l = length (filter (λ a, ping a = true) (active_provers r))) as Hlen
    by (by rewrite Hl, length_fmap).
  rewrite <- Hlen. case_bool_decide as Hemp.
  - cbn. assert (l = []) as ->; [|done]. destruct l as [|x l']; [done|]. set_solver.
  - cbn. by rewrite size_list_to_set.
Qed.

(** A relay with the saved fields, and the provers of its quorum that answer, is one that a
    quorum can serve. *)
Lemma restored_quorum r r' : relay_quorum r → saved_relay r' = saved_relay r →
  active_provers r' = (hm_values (rl_new_provers r)).*1 → rl_t r ≤ Z.of_nat (size (ready_nodes r')) →
  relay_quorum r'.
Proof.
  intros Hq [= Hn Ht He Hmap _ Hpk _] Hact Hready.
  assert (active_provers r' ≡ₚ active_provers r) as Hperm.
  { rewrite Hact, (quorum_pairs r Hq), <- list_fmap_compose. cbn. by rewrite list_fmap_id. }
  destruct Hq as [Q1 Q2 Q3 Q4 Q5 Q6 Q7 Q8 Q9]. split; rewrite ?Ht, ?He, ?Hpk, ?Hperm; try done.
  - rewrite Hmap, Q1. apply list_to_map_proper; [|by rewrite Hperm]. by rewrite <- list_fmap_compose.
  - intros a Ha. apply Q9. by rewrite <- Hperm.
Qed.

Lemma restarted_app nw env rest : supervised CS CB nw → panic_rx nw = cell Names.AppStateEngine :: rest →
  re_stopped env = true → re_spawn env = true →
  is_Some (registry (respawn CS CB cfg env nw) !! actor_to_string Names.AppStateEngine) ∧
  nw_app (respawn CS CB cfg env nw) = restart_app CS CB cfg (re_app env) (nw_app nw).
Proof.
  intros Hsv Hp Hst Hsp. destruct (respawn_supervised CS CB cfg env nw _ rest Hsv Hp Hst Hsp) as (_ & _ & Hreg).
  split; [done|]. unfold respawn, handle_actor_panic. rewrite Hp, Hst. cbn [cell cell_name].
  rewrite Names.resolve_to_string. unfold reboot_app_state_engine. rewrite reboot_Ok; [done|done|apply Hsv|].
  apply (sv_engines CS CB nw Hsv); [apply app_engine|]. rewrite Hp. by left.
Qed.

(** C6: The network survives the failure of its application states.  When a node has saved
    its state, and after any steps of the process that do not write the database (messages to
    any of its actors, failures and respawns) its application state has failed and is
    respawned, then: a relay has again the parameters, quorum, key shares and group keys it
    saved and can serve requests if at least [t] provers of its quorum answer its pings; its
    counters and batch, in Redis, are those of the moment of the failure, the requests that
    were pending are forgotten; and a prover serves the relay's quorum as it did before. *)
Theorem crash_recovery nw w steps env rest : nw_app nw = save_current_state w → Forall keeps_db steps →
  let nw1 := node_run CS CB cfg steps nw in
  supervised CS CB nw1 → panic_rx nw1 = cell Names.AppStateEngine :: rest →
  re_stopped env = true → re_spawn env = true →
  let w2 := nw_app (respawn CS CB cfg env nw1) in
  is_Some (registry (respawn CS CB cfg env nw1) !! actor_to_string Names.AppStateEngine) ∧
  (∀ r, node_state w = Some (Relay r) → cf_node_type cfg = NodeRelay → relay_quorum r →
     rl_t r ≤ Z.of_nat (length (filter (λ a, ae_ping (re_app env) a = true) (active_provers r))) →
     ∃ r', node_state w2 = Some (Relay r') ∧ saved_relay r' = saved_relay r ∧ relay_quorum r' ∧
       current_epoch (rl_common r') = 0 ∧ redis (rl_common r') = redis_of (nw_app nw1) ∧
       req_cache r' = ∅ ∧ res_cache r' = ∅) ∧
  (∀ r a env', cf_node_type cfg = NodeProver → cf_local_peer_id cfg = peer_id a → epoch request = 0 →
     serving_prover r a env' w → serving_prover r a env' w2).
Proof.
  intros Hw Hs nw1 Hsv Hp Hst Hsp w2. destruct (restarted_app nw1 env rest Hsv Hp Hst Hsp) as [Hreg Hw2].
  split; [exact Hreg|]. pose proof (run_saved steps nw Hs) as Hdb. fold nw1 in Hdb. rewrite Hw in Hdb.
  subst w2. rewrite Hw2. clear Hw2 Hreg Hp Hsv Hw. generalize dependent (nw_app nw1). clear nw1.
  intros w1 Hdb. unfold restart_app, AppState.pre_start. split.
  - intros r Hr -> Hq Hping. unfold save_current_state in Hdb. rewrite Hr in Hdb. cbn in Hdb.
    injection Hdb as H1 H2 H3 _ H5 H6 H7 H8 _. cbn. unfold const. rewrite H1, H2, H3, H5, H6, H7, H8. cbn.
    eexists. split; [reflexivity|]. split; [done|]. split; [|done].
    apply (restored_quorum r); [done|done|done|]. cbn. case_bool_decide as Hemp.
    + cbn. assert (hm_values (rl_new_provers r) ≡ₚ []) as Hnil
        by (unfold hm_values; rewrite hm_iter_perm, Hemp; by rewrite map_to_list_empty).
      rewrite (quorum_pairs r Hq) in Hnil. apply Permutation_nil_r, fmap_nil_inv in Hnil. by rewrite Hnil in Hping.
    + by rewrite (answering_size r _ Hq).
  - intros r a env' -> Hpeer Hep [(q & Hq & Q1 & Q2 & Q3 & Q4 & Q5 & Q6 & bs & Q7 & Q8) Hshare Hnonce].
    unfold save_current_state in Hdb. rewrite Hq in Hdb. cbn in Hdb.
    injection Hdb as H1 H2 H3 H4 H5 _ _ _ H9. split; [|done..].
    eexists. split; [reflexivity|]. cbn. unfold const. rewrite H2, H3, H4, H5, H9. cbn.
    split_and!; eauto.
Qed.
End Recovery.

(** ** Examples *)
Module SupervisionExamples.
Import ModelCurve.ModelInstances SmallNetwork.
#[local] Existing Instance DkgProtocol.model_rsa.
#[local] Existing Instance EngineExamples.model_texts.
#[local] Existing Instance NodeSelection.Examples.toy_rng.
#[local] Existing Instance NodeSelection.Examples.toy_f64.
#[local] Existing Instance ElectionExamples.toy_threshold.
#[local] Existing Instance ElectionExamples.toy_drand.
#[local] Existing Instance RequestExamples.toy_eth.
#[local] Existing Instance RequestExamples.toy_jwt.
#[local] Existing Instance RequestExamples.toy_codec.
#[local] Existing Instance SmallNetwork.toy_texts.

Definition cfg : NodeConfig := {|
  cf_local_peer_id := 100; cf_relay_peer_id := 100; cf_node_type := NodeRelay; cf_relay_multi_addr := [] |}.
(** A caller that does not wait for its answer makes the handler fail. *)
Definition hung_up : AppEnv mc mc := env <| ae_receiver := false |>.
Definition steady : RespawnEnv mc mc := {| re_stopped := true; re_spawn := true; re_listener := true; re_app := env |}.
Definition too_early : RespawnEnv mc mc := steady <| re_stopped := false |>.
Definition rd : RedisStore := {| counters := ∅; stored_proofs := ∅; request_batch := [] |}.
Definition start : outcome string (NodeWorld mc mc) :=
  start_node mc mc cfg env ElectionExamples.defaults ElectionExamples.empty_db AppState.empty_db rd.
Definition steps : list (NodeStep mc mc) :=
  [AppStep hung_up SyncPeerData; DkgStep {| env_coins := EngineExamples.all_coins3 3; env_rsa_key := 3;
     env_saved_shares := None |} Round1; AppStep env SyncPeerData].

Definition start_world (w : AppWorld) : NodeWorld mc mc := {|
  registry := list_to_map (imap (λ i s, (supervisor_to_string s, i)) supervisors ++
                           imap (λ i a, (actor_to_string a, (4 + i)%nat)) engines);
  next_actor := 8; next_channel := 2; nw_app := w;
  nw_election := Election.pre_start 100 100 ElectionExamples.defaults ElectionExamples.empty_db;
  nw_dkg := None; nw_gossip := {| tx := 0; rx := 1 |}; listeners := [{| tx := 1; rx := 0 |}];
  manager := {| app_state := 4; election_engine := 5; dkg_engine := 6; gossip_engine := 7 |}; panic_rx := [] |}.
Definition started : NodeWorld mc mc :=
  start_world (AppState.pre_start mc mc env 100 100 NodeRelay [] AppState.empty_db rd).
Lemma start_Ok : start = Ok started.
Proof. reflexivity. Qed.
Lemma start_fails :
  panic_rx (node_run mc mc cfg steps started) = [cell Names.AppStateEngine] ∧
  registry (node_run mc mc cfg steps started) !! actor_to_string Names.AppStateEngine = None.
Proof. split; vm_compute; reflexivity. Qed.

Lemma engines_respawn_witness :
  let nw := node_run mc mc cfg steps started in
  registry nw !! actor_to_string Names.AppStateEngine = None ∧
  is_Some (registry (node_run mc mc cfg (RespawnStep <$> [steady; steady; steady; steady]) nw)
             !! actor_to_string Names.AppStateEngine) ∧
  registry (node_run mc mc cfg (RespawnStep too_early :: (RespawnStep <$> [steady; steady])) nw)
    !! actor_to_string Names.AppStateEngine = None.
Proof.
  assert (Forall (respawns mc mc) steps) as Hs by (by repeat constructor).
  destruct (engines_respawn mc mc cfg env ElectionExamples.defaults ElectionExamples.empty_db AppState.empty_db rd
    started steps start_Ok Hs) as (_ & H2 & H3). destruct start_fails as [Hp Hr]. cbv zeta.
  split; [exact Hr|]. split.
  - refine (H2 [steady; steady; steady; steady] Names.AppStateEngine eq_refl _ app_engine). by repeat constructor.
  - exact (H3 too_early Names.AppStateEngine [] (RespawnStep <$> [steady; steady]) Hp (or_introl eq_refl)).
Defined.

(** The relay of the small network saves its state and fails. *)
Definition served : NodeWorld mc mc := start_world (save_current_state (relay_world relay)).
Lemma served_supervised : supervised mc mc served.
Proof. destruct (start_supervised mc mc cfg _ _ _ _ _ _ start_Ok) as [S1 S2 S3 S4]. by split. Qed.
Lemma served_fails : panic_rx (node_run mc mc cfg steps served) = [cell Names.AppStateEngine].
Proof. vm_compute. reflexivity. Qed.

Lemma crash_recovery_witness : ∃ r',
  node_state (nw_app (respawn mc mc cfg steady (node_run mc mc cfg steps served))) = Some (Relay r') ∧
  relay_quorum mc request poly idx r' ∧ rl_new_provers r' = members_map.
Proof.
  destruct (crash_recovery mc mc cfg request poly idx served (relay_world relay) steps steady []) as (_ & H & _).
  - reflexivity.
  - by repeat constructor.
  - apply run_supervised; [by repeat constructor|apply served_supervised].
  - apply served_fails.
  - reflexivity.
  - reflexivity.
  - destruct (H relay eq_refl eq_refl small_quorum) as (r' & H1 & [= _ _ _ H2 _ _ _] & H3 & _); [vm_compute; discriminate|].
    exists r'. split; [exact H1|]. split; [exact H3|exact H2].
Defined.
End SupervisionExamples.
