(* ===== verification/Startup.v ===== *)
(** * Configuration and start-up of a node

    crates/env/src/environment.rs, crates/network/src/utils.rs and network.rs, and the
    arguments in crates/node/src/main.rs: what a node reads before its actors run, the
    provers of the registry contract, and how the swarm is set up. *)
From Stdlib Require Import ZArith Lia Ascii String.
From stdpp Require Import base list gmap sets strings pretty sorting.
From S2P Require Import Prelude Serialization Request Messages AppState Signer.

(** ** The environment *)
Record Environment := {
  rsa_seed : string; secp256k1_seed : string; env_node_type : string; node_multiaddr : string;
  l1_rpc : string; l2_rpc : string; redis_url : string; env_othentic_rpc_url : string;
  avs_governance_address : string; attestation_center_address : string;
  othentic_bootstrap_id : string; othentic_bootstrap_seed : string; peer_registry_address : string;
  l1_chain : Z; l2_chain : Z
}.

Section Env.
(** [env::var]. *)
Context (var : string → option string).

(** [get_var_or_err], with the buffer of missing names. *)
Definition get_var_or_err (name err_buf : string) : string * string :=
  match var name with
  | Some val => (trim val, err_buf)
  | None => (EmptyString, err_buf +:+ name +:+ ", ")%string
  end.

(** [Environment::new]; the chain ids are parsed, and may panic, before the buffer is looked
    at. *)
Definition Environment_new : outcome string Environment :=
  let '(rsa_seed, e) := get_var_or_err "RSA_SEED" EmptyString in
  let '(secp256k1_seed, e) := get_var_or_err "SECP256K1_SEED" e in
  let '(node_type, e) := get_var_or_err "NODE_TYPE" e in
  let '(node_multiaddr, e) := get_var_or_err "NODE_MULTIADDR" e in
  let '(l1_rpc, e) := get_var_or_err "L1_RPC" e in
  let '(l2_rpc, e) := get_var_or_err "L2_RPC" e in
  let '(redis_url, e) := get_var_or_err "REDIS_URL" e in
  let '(othentic_rpc_url, e) := get_var_or_err "OTHENTIC_RPC_URL" e in
  let '(avs_governance_address, e) := get_var_or_err "AVS_GOVERNANCE_ADDRESS" e in
  let '(attestation_center_address, e) := get_var_or_err "ATTESTATION_CENTER_ADDRESS" e in
  let '(othentic_bootstrap_id, e) := get_var_or_err "OTHENTIC_BOOTSTRAP_ID" e in
  let '(othentic_bootstrap_seed, e) := get_var_or_err "OTHENTIC_BOOTSTRAP_SEED" e in
  let '(peer_registry_address, e) := get_var_or_err "PEER_REGISTRY_ADDRESS" e in
  let '(l1, e) := get_var_or_err "L1_CHAIN" e in
  l1_chain ← unwrap (parse_u64 (trim l1));
  let '(l2, e) := get_var_or_err "L2_CHAIN" e in
  l2_chain ← unwrap (parse_u64 (trim l2));
  _ ← assert_ (bool_decide (e = EmptyString));
  Ok {| rsa_seed := rsa_seed; secp256k1_seed := secp256k1_seed; env_node_type := node_type;
        node_multiaddr := node_multiaddr; l1_rpc := l1_rpc; l2_rpc := l2_rpc; redis_url := redis_url;
        env_othentic_rpc_url := othentic_rpc_url; avs_governance_address := avs_governance_address;
        attestation_center_address := attestation_center_address;
        othentic_bootstrap_id := othentic_bootstrap_id; othentic_bootstrap_seed := othentic_bootstrap_seed;
        peer_registry_address := peer_registry_address; l1_chain := l1_chain; l2_chain := l2_chain |}.

(** ** The node's own details *)
Definition NodeType_from_str (input : string) : outcome string NodeType :=
  if bool_decide (input = "Bootstrap"%string) then Ok NodeBootstrap
  else if bool_decide (input = "Relay"%string) then Ok NodeRelay
  else if bool_decide (input = "Prover"%string) then Ok NodeProver
  else if bool_decide (input = "Verifier"%string) then Ok NodeVerifier
  else Err ("Invalid NodeType: " +:+ input)%string.
Definition NodeType_to_string (t : NodeType) : string :=
  match t with
  | NodeBootstrap => "Bootstrap Node" | NodeRelay => "Relay Node"
  | NodeProver => "Prover Node" | NodeVerifier => "Verifier Node"
  end.
Definition fetch_node_type : outcome string NodeType :=
  s ← unwrap (var "NODE_TYPE"); unwrap_res (NodeType_from_str s).

(** The 32 bytes of a seed, for [fetch_secp256k1_keypair] and [fetch_rsa_key]. *)
Definition seed_bytes (seed : string) : outcome string (list Z) :=
  bytes ← unwrap (hex_decode seed);
  _ ← assert_ (length bytes =? 32)%nat;
  Ok bytes.
Definition fetch_rsa_key {RsaKey} (generate : list Z → option RsaKey) : outcome string RsaKey :=
  seed ← unwrap (var "RSA_SEED");
  bytes ← seed_bytes seed;
  unwrap (generate bytes).
Definition fetch_secp256k1_keypair {Keypair} (generate : list Z → option Keypair) (env : Environment)
    : outcome string Keypair :=
  bytes ← seed_bytes (secp256k1_seed env);
  unwrap (generate bytes).

(** ** The registry of provers *)

(** The struct [Peer] of the registry contract. *)
Record Peer := {
  pr_addr : Address; pr_peer_id : string; pr_multiaddr : string; pr_rpc_addr : string;
  pr_libp2p_pubkey : string; pr_rsa_pubkey : string
}.

(** Where [get_peers] asks: the URL and the contract's address. *)
Definition registry_endpoint (env : Environment) : outcome string (string * string) :=
  match var "ANVIL_RPC_FOR_PEER_REGISTRY" with
  | Some url => Ok (url, "0x5FbDB2315678afecb367f032d93F642f64180aa3"%string)
  | None => url ← unwrap (var "L1_RPC"); Ok (url, peer_registry_address env)
  end.
(** [get_peers]: a call that fails is an empty registry.  [provider] and [parse_h160] are
    [Provider::try_from] and [H160::from_str]. *)
Definition get_peers (env : Environment) (provider : string → bool) (parse_h160 : string → option Address)
    (call : string → Address → option (list Peer)) : outcome string (list Peer) :=
  '(url, address) ← registry_endpoint env;
  _ ← assert_ (provider url);
  address ← unwrap (parse_h160 address);
  Ok (default [] (call url address)).
End Env.

(** [PeerId::from_str], [Multiaddr::from_str], [PublicKey::try_decode_protobuf] and
    [RSAPublicKey::from_str]. *)
Class PeerTexts := {
  parse_peer_id : string → option PeerId;
  parse_multiaddr : string → option string;
  decode_public_key : list Z → option (list Z);
  parse_rsa_key : string → option string
}.

(** The registry's address is that of the variable. *)
Lemma env_registry_address var env : Environment_new var = Ok env →
  peer_registry_address env = (get_var_or_err var "PEER_REGISTRY_ADDRESS" EmptyString).1.
Proof.
  intros H. unfold Environment_new in H. do 14 case_match. apply bind_Ok in H as (? & _ & H). case_match.
  apply bind_Ok in H as (? & _ & H). apply bind_Ok in H as (? & _ & [= <-]). cbn.
  match goal with H : get_var_or_err var "PEER_REGISTRY_ADDRESS" _ = _ |- _ =>
    apply (f_equal fst) in H; cbn [fst] in H; rewrite <- H end.
  unfold get_var_or_err. by destruct (var _).
Qed.

Section Provers.
Context `{PT : PeerTexts}.

(** [parse_prover_info]; the voting power comes with [get_prover_stake]. *)
Definition parse_prover_info (idx : nat) (prover : Peer) : option (list Z → ProverInfo) :=
  peer_id ← parse_peer_id (pr_peer_id prover);
  multiaddr ← parse_multiaddr (pr_multiaddr prover);
  bytes ← hex_decode (pr_libp2p_pubkey prover);
  peer_pub_key ← decode_public_key bytes;
  rsa_pub_key ← parse_rsa_key (pr_rsa_pubkey prover);
  Some (λ voting_power, {|
    evm_address := pr_addr prover; Messages.peer_id := peer_id; address := multiaddr;
    rpcaddr := pr_rpc_addr prover; human_pub_key := peer_pub_key; rsa_pub_key := rsa_pub_key;
    voting_power := voting_power; idx := Z.of_nat idx |}).

(** [get_prover_stake]: the call is unwrapped. *)
Definition get_prover_stake (voting_power : Address → option (list Z)) (prover : list Z → ProverInfo)
    (addr : Address) : outcome string ProverInfo :=
  power ← unwrap (voting_power addr); Ok (prover power).

Fixpoint prover_infos (voting_power : Address → option (list Z)) (idx : nat) (peers : list Peer)
    : outcome string (list ProverInfo) :=
  match peers with
  | [] => Ok []
  | prover :: peers =>
      match parse_prover_info idx prover with
      | Some info =>
          match get_prover_stake voting_power info (pr_addr prover) with
          | Ok info_with_stake => l ← prover_infos voting_power (S idx) peers; Ok (info_with_stake :: l)
          | Err _ => prover_infos voting_power (S idx) peers
          | Panic => Panic
          end
      | None => prover_infos voting_power (S idx) peers
      end
  end.
Definition fetch_provers_v2 (voting_power : Address → option (list Z)) (peers : list Peer)
    : outcome string (list ProverInfo) :=
  prover_info ← prover_infos voting_power 0 peers;
  _ ← assert_ (bool_decide (prover_info ≠ []));
  Ok prover_info.

(** The entries of the registry that parse, with their positions. *)
Definition valid_peers (peers : list Peer) : list (nat * Peer) :=
  filter (λ ip, is_Some (parse_prover_info ip.1 ip.2)) (imap pair peers).
End Provers.

(** ** Arguments *)
Record Args := {
  bootstrap_peer_id : option string; bootstrap_multiaddr : option string; relay_peer_id : option string;
  relay_multiaddr : option string; port : option string; arg_redis : option string
}.
Record StartConfig := {
  sc_port : Z; sc_bootstrap_peer_id : PeerId; sc_bootstrap_multi_addr : string;
  sc_relay_peer_id : PeerId; sc_relay_multi_addr : string
}.
(** How the start ends: the process exits with a code, panics, or goes on. *)
Inductive Start (A : Type) := Exit (code : Z) | StartPanic | Started (a : A).
Arguments Exit {A}. Arguments StartPanic {A}. Arguments Started {A}.

(** [str::parse::<u16>]. *)
Definition parse_u16 (s : string) : option Z :=
  n ← parse_u64 s; if n <? 2 ^ 16 then Some n else None.
Definition validate_port (is_port_available : Z → bool) (port_str : string) : Start Z :=
  match parse_u16 port_str with
  | Some port => if is_port_available port then Started port else Exit 1
  | None => Exit 1
  end.

Section Main.
Context `{PT : PeerTexts} (is_port_available : Z → bool).

(** [args.x.expect(..).parse().expect(..)]. *)
Definition required {A} (parse : string → option A) (arg : option string) : option A := arg ≫= parse.

(** The checks of [main] before anything runs. *)
Definition check_args (args : Args) (node_type : NodeType) : Start StartConfig :=
  if bool_decide (relay_multiaddr args = None) && bool_decide (node_type = NodeProver ∨ node_type = NodeBootstrap)
  then Exit 0
  else
    match port args with
    | None => Exit 0
    | Some port =>
        match validate_port is_port_available port with
        | Started port =>
            match required parse_peer_id (bootstrap_peer_id args),
                  required parse_multiaddr (bootstrap_multiaddr args),
                  required parse_peer_id (relay_peer_id args),
                  required parse_multiaddr (relay_multiaddr args) with
            | Some bootstrap_peer_id, Some bootstrap_multi_addr, Some relay_peer_id, Some relay_multi_addr =>
                Started {| sc_port := port; sc_bootstrap_peer_id := bootstrap_peer_id;
                           sc_bootstrap_multi_addr := bootstrap_multi_addr; sc_relay_peer_id := relay_peer_id;
                           sc_relay_multi_addr := relay_multi_addr |}
            | _, _, _, _ => StartPanic
            end
        | Exit code => Exit code
        | StartPanic => StartPanic
        end
    end.
End Main.

(** ** The swarm (network.rs) *)
Inductive SwarmCmd :=
  | AddAddress (peer : PeerId) (addr : string)
  | Dial (addr : string)
  | KadBootstrap
  | SubscribeTopic (topic : string)
  | ListenOn (addr : string)
  | AddExternalAddress.

(** [find_map] for the UDP port; a node without one panics. *)
Definition udp_port (multi_addr : list Protocol) : outcome string Z :=
  unwrap (head (omap (λ p, match p with Udp port => Some port | _ => None end) multi_addr)).

(** [init_swarm]: what is asked of the swarm in order, until a command fails ([?]). *)
Fixpoint until_error (ok : SwarmCmd → bool) (cmds : list SwarmCmd) : list SwarmCmd * bool :=
  match cmds with
  | [] => ([], true)
  | c :: cmds => if ok c then let '(l, b) := until_error ok cmds in (c :: l, b) else ([c], false)
  end.
Definition init_swarm (ok : SwarmCmd → bool) (topic : string) (bootstrap_addresses : option (list (PeerId * string)))
    (multi_addr : list Protocol) : outcome string (list SwarmCmd * bool) :=
  port ← udp_port multi_addr;
  let listen_address := ("/ip4/0.0.0.0/udp/" +:+ pretty port +:+ "/quic-v1")%string in
  let bootstrap := match bootstrap_addresses with
                   | Some l => (pa ← l; [AddAddress pa.1 pa.2; Dial pa.2]) ++ [KadBootstrap]
                   | None => []
                   end in
  Ok (until_error (λ c, match c with AddAddress _ _ | AddExternalAddress => true | _ => ok c end)
        (bootstrap ++ [SubscribeTopic topic; ListenOn listen_address; AddExternalAddress])).

(** ** Properties *)
Section ProversFacts.
Context `{PT : PeerTexts} (voting_power : Address → option (list Z)).

(** What becomes of an entry of the registry at a position. *)
Definition prover_of (ip : nat * Peer) (info : ProverInfo) : Prop :=
  ∃ f power, parse_prover_info ip.1 ip.2 = Some f ∧ voting_power (pr_addr ip.2) = Some power ∧ info = f power.

Definition valid_from (i : nat) (peers : list Peer) : list (nat * Peer) :=
  filter (λ ip, is_Some (parse_prover_info ip.1 ip.2)) (imap (λ j p, ((i + j)%nat, p)) peers).
Lemma valid_from_cons i p peers : valid_from i (p :: peers) =
  if decide (is_Some (parse_prover_info i p)) then (i, p) :: valid_from (S i) peers else valid_from (S i) peers.
Proof.
  unfold valid_from. cbn [imap]. rewrite filter_cons. cbn. rewrite Nat.add_0_r.
  assert (imap ((λ j p, ((i + j)%nat, p)) ∘ S) peers = imap (λ j p, ((S i + j)%nat, p)) peers) as ->; [|done].
  apply imap_ext. intros j x _. cbn. by rewrite Nat.add_succ_r.
Qed.
Lemma valid_from_0 peers : valid_from 0 peers = valid_peers peers.
Proof. done. Qed.

Lemma parse_prover_info_idx i p f power : parse_prover_info i p = Some f →
  idx (f power) = Z.of_nat i ∧ evm_address (f power) = pr_addr p ∧
  parse_peer_id (pr_peer_id p) = Some (peer_id (f power)) ∧ Messages.voting_power (f power) = power.
Proof.
  unfold parse_prover_info. destruct (parse_peer_id _) eqn:Hp; cbn; [|done].
  destruct (parse_multiaddr _); cbn; [|done]. destruct (hex_decode _); cbn; [|done].
  destruct (decode_public_key _); cbn; [|done]. destruct (parse_rsa_key _); cbn; [|done]. by intros [= <-].
Qed.

(** The loop over the registry: the provers in order, or a panic at the first valid peer
    whose voting power is not answered; never an error. *)
Lemma prover_infos_spec peers i :
  (∃ l, prover_infos voting_power i peers = Ok l ∧ Forall2 prover_of (valid_from i peers) l) ∨
  (prover_infos voting_power i peers = Panic ∧ ∃ ip, ip ∈ valid_from i peers ∧ voting_power (pr_addr ip.2) = None).
Proof.
  revert i. induction peers as [|p peers IH]; intros i; [left; by exists []|].
  rewrite valid_from_cons. cbn [prover_infos].
  destruct (parse_prover_info i p) as [f|] eqn:Hf; [|case_decide as H; [by destruct H|apply IH]].
  rewrite decide_True by done. unfold get_prover_stake. destruct (voting_power (pr_addr p)) as [power|] eqn:Hv; cbn.
  - destruct (IH (S i)) as [(l & -> & Hl)|(-> & ip & Hip & Hn)].
    + left. eexists. split; [done|]. constructor; [by exists f, power|done].
    + right. split; [done|]. exists ip. split; [by right|done].
  - right. split; [done|]. exists (i, p). split; [by left|done].
Qed.

Lemma prover_of_func ip a b : prover_of ip a → prover_of ip b → a = b.
Proof. intros (f & p & H1 & H2 & ->) (g & q & H3 & H4 & ->). congruence. Qed.
Lemma prover_of_answered l1 l2 ip : Forall2 prover_of l1 l2 → ip ∈ l1 → is_Some (voting_power (pr_addr ip.2)).
Proof.
  intros H Hip. apply list_elem_of_lookup in Hip as [j Hj]. destruct (Forall2_lookup_l _ _ _ _ _ H Hj) as (x & _ & f & p & _ & -> & _). done.
Qed.

Lemma valid_from_sorted i peers : StronglySorted (λ a b, (a.1 < b.1)%nat) (valid_from i peers) ∧
  Forall (λ ip, (i ≤ ip.1 < i + length peers)%nat ∧ peers !! (ip.1 - i)%nat = Some ip.2) (valid_from i peers).
Proof.
  revert i. induction peers as [|p peers IH]; intros i; [split; constructor|].
  rewrite valid_from_cons. destruct (IH (S i)) as [IH1 IH2].
  assert (Forall (λ ip, (S i ≤ ip.1 < i + length (p :: peers))%nat ∧ (p :: peers) !! (ip.1 - i)%nat = Some ip.2)
            (valid_from (S i) peers)) as H.
  { eapply Forall_impl; [apply IH2|]. intros [j q] [Hj Hq]. cbn in *. split; [lia|].
    by replace (j - i)%nat with (S (j - S i)) by lia. }
  case_decide; [|split; [done|]; eapply Forall_impl; [apply H|]; intros ip; cbn; intros [? ?]; split; [lia|done]]. split.
  - constructor; [done|]. eapply Forall_impl; [apply H|]. intros ip [? _]. cbn. lia.
  - constructor; [split; [cbn; lia|by rewrite Nat.sub_diag]|].
    eapply Forall_impl; [apply H|]. intros ip; cbn; intros [? ?]; split; [lia|done].
Qed.

Lemma Forall2_sorted {A B} (R : A → B → Prop) (lt1 : relation A) (lt2 : relation B) l1 l2 :
  (∀ a a' b b', R a b → R a' b' → lt1 a a' → lt2 b b') →
  StronglySorted lt1 l1 → Forall2 R l1 l2 → StronglySorted lt2 l2.
Proof.
  intros Hmono Hs. revert l2. induction Hs as [|a l1 Hs IH Ha]; intros l2 H; inversion H as [|? b ? l2' Hab Hl]; subst; constructor; [by apply IH|].
  apply Forall_forall. intros b' Hb'. apply list_elem_of_lookup in Hb' as [j Hj].
  destruct (Forall2_lookup_r _ _ _ _ _ Hl Hj) as (a' & Ha' & HR). eapply Hmono; [done|done|].
  rewrite Forall_forall in Ha. apply Ha. by eapply list_elem_of_lookup_2.
Qed.

(** C29: [fetch_provers_v2] gives well-formed provers.  It answers exactly when some entry of the
    registry parses and the voting power of every entry that parses is answered, and it panics
    otherwise; a list it gives holds, in the order of the registry, one prover for each entry that
    parses and none else.  The index of a prover is the position of its entry, so indices are
    distinct, increasing and below the size of the registry, also when entries before it do
    not parse; its address, peer id and voting power are those of its entry. *)
Theorem registry_provers_well_formed peers :
  (fetch_provers_v2 voting_power peers = Panic ∨ ∃ l, fetch_provers_v2 voting_power peers = Ok l) ∧
  (fetch_provers_v2 voting_power peers = Panic ↔
     valid_peers peers = [] ∨ ∃ ip, ip ∈ valid_peers peers ∧ voting_power (pr_addr ip.2) = None) ∧
  ∀ l, fetch_provers_v2 voting_power peers = Ok l →
    l ≠ [] ∧ Forall2 prover_of (valid_peers peers) l ∧
    StronglySorted (λ a b, idx a < idx b) l ∧
    Forall (λ info, 0 ≤ idx info ∧ ∃ p, peers !! Z.to_nat (idx info) = Some p ∧ evm_address info = pr_addr p ∧
      parse_peer_id (pr_peer_id p) = Some (peer_id info) ∧ voting_power (pr_addr p) = Some (Messages.voting_power info)) l.
Proof.
  rewrite <- valid_from_0. destruct (valid_from_sorted 0 peers) as [Hsort Hpos]. unfold fetch_provers_v2.
  destruct (prover_infos_spec peers 0) as [(l & -> & Hl)|(-> & ip & Hip & Hn)]; cbn; cycle 1.
  { split_and!; [by left|split; [by eauto|done]|done]. }
  destruct l as [|info l].
  { inversion Hl as [Hv|]. cbn. split_and!; [by left|split; [by left|done]|done]. }
  cbn. split_and!; [right; by eexists| |].
  - split; [done|]. intros [Hv|(ip & Hip & Hn)].
    + rewrite Hv in Hl. inversion Hl.
    + destruct (prover_of_answered _ _ _ Hl Hip). congruence.
  - intros l' [= <-]. split_and!; [done|done| |].
    + eapply Forall2_sorted; [|exact Hsort|exact Hl]. intros a a' b b' (f & p & Hf & _ & ->) (f' & p' & Hf' & _ & ->) Hlt.
      destruct (parse_prover_info_idx _ _ _ p Hf) as [-> _], (parse_prover_info_idx _ _ _ p' Hf') as [-> _]. lia.
    + apply Forall_forall. intros x Hx. apply list_elem_of_lookup in Hx as [j Hj].
      destruct (Forall2_lookup_r _ _ _ _ _ Hl Hj) as (ip & Hip & f & p & Hf & Hv & ->).
      destruct (parse_prover_info_idx _ _ _ p Hf) as (Hi & Ha & Hid & Hvp).
      apply list_elem_of_lookup_2 in Hip. rewrite Forall_forall in Hpos. destruct (Hpos _ Hip) as [_ Hat].
      rewrite Nat.sub_0_r in Hat. rewrite Hi, Nat2Z.id. split; [lia|]. exists ip.2. split_and!; try done.
      by rewrite Hv, Hvp.
Qed.
End ProversFacts.

(** A registry of three entries, the second of which does not parse. *)
Module StartupExamples.
#[local] Instance texts : PeerTexts := {|
  parse_peer_id := λ s, if bool_decide (s = "bad"%string) then None else Some (Z.of_nat (String.length s));
  parse_multiaddr := Some; decode_public_key := Some; parse_rsa_key := Some |}.
Definition peer (a : Z) (id : string) : Peer := {|
  pr_addr := [a]; pr_peer_id := id; pr_multiaddr := "/ip4/10.0.0.1/udp/9000/quic-v1"; pr_rpc_addr := "10.0.0.1:80";
  pr_libp2p_pubkey := "0801"; pr_rsa_pubkey := "rsa" |}.
Definition entries : list Peer := [peer 1 "one"; peer 2 "bad"; peer 3 "three"].
Definition power (a : Address) : option (list Z) := Some a.

Lemma registry_provers_well_formed_witness : ∃ l, fetch_provers_v2 power entries = Ok l ∧
  (idx <$> l) = [0; 2] ∧ StronglySorted (λ a b, idx a < idx b) l.
Proof.
  destruct (fetch_provers_v2 power entries) as [l| |] eqn:H; [|by vm_compute in H..].
  destruct (registry_provers_well_formed power entries) as (_ & _ & Hl).
  exists l. split; [done|]. split; [by vm_compute in H; injection H as <-|]. by apply Hl.
Defined.

(** A prover without the address of the relay exits cleanly; a relay without it panics. *)
Definition args : Args := {|
  bootstrap_peer_id := Some "b"%string; bootstrap_multiaddr := Some "m"%string; relay_peer_id := Some "r"%string;
  relay_multiaddr := None; port := Some "8080"%string; arg_redis := None |}.
Example prover_exits : check_args (λ _, true) args NodeProver = Exit 0.
Proof. reflexivity. Qed.
Example relay_panics : check_args (λ _, true) args NodeRelay = StartPanic.
Proof. reflexivity. Qed.
(** Without [L1_CHAIN] the start panics whatever else is set. *)
Lemma missing_chain_panics var : var "L1_CHAIN"%string = None → Environment_new var = Panic.
Proof.
  intros H. unfold Environment_new. do 13 case_match.
  unfold get_var_or_err at 1. rewrite H. reflexivity.
Qed.
End StartupExamples.
