(* ===== verification/Registry.v ===== *)
(** * The registration of a node (crates/registry_iface/src/main.rs)

    The tool sends one transaction to the registry contract with the node's peer id,
    addresses and public keys, derived from the same seeds that the node itself starts from
    ([Startup]).  The chains with their contracts, keys, texts of keys and URLs are parameters;
    what is proved is when a run ends well, that the entry the tool sends is one that the
    nodes read back from the registry they use, with this node's keys, and that a reverted
    transaction is not noticed. *)
From Stdlib Require Import ZArith Lia Ascii String.
From stdpp Require Import base list gmap sets strings pretty sorting.
From S2P Require Import Prelude PrimeField Curve ModelCurve Dkg DkgProtocol Serialization Request Messages AppState Signer DkgEngine EngineRun Startup.

Record RegisterArgs := {
  reg_rpc_url : string; reg_private_key : string; reg_multiaddr : string; reg_rpcaddr : string;
  reg_test : option bool
}.
Inductive Command := Register (args : RegisterArgs) | Update (args : RegisterArgs).

(** The transaction: who signs it, where it goes and what it calls ([register] or
    [updatePeer]). *)
Record PeerCall := {
  pc_update : bool; pc_peer_id : string; pc_multiaddr : string; pc_rpc_addr : string;
  pc_libp2p_pubkey : string; pc_rsa_pubkey : string
}.
Record Transaction := {
  tx_rpc_url : string; tx_chain_id : Z; tx_sender : Address; tx_contract : Address; tx_call : PeerCall
}.

(** Libraries: [Provider::try_from], [LocalWallet::from_str], [H160::from_str], [Url::parse]
    with [scheme], and the texts of a key pair and of an RSA key. *)
Class RegistryTexts `{Eth} `{Rsa} := {
  provider_from : string → bool;
  wallet_from_str : string → option Wallet;
  parse_h160 : string → option Address;
  url_scheme : string → option string;
  Keypair : Type;
  generate_keypair : list Z → option Keypair;
  keypair_protobuf : Keypair → list Z;
  keypair_peer_id : Keypair → string;
  generate_rsa : list Z → option RsaPrivateKey;
  to_pkcs1_pem : RsaPublicKey → option string
}.

Section Registry.
Context `{E : Eth} `{R : Rsa} `{RT : !RegistryTexts} `{PT : PeerTexts} (var : string → option string).

Definition ANVIL_REGISTRY : string := "0x5FbDB2315678afecb367f032d93F642f64180aa3".

Definition validate_url (url : string) : bool :=
  match url_scheme url with
  | Some scheme => bool_decide (scheme = "http"%string) || bool_decide (scheme = "https"%string)
  | None => false
  end.

(** [register_or_update] up to the transaction; every failure is a panic.  The result of
    [validate_url] is not used. *)
Definition prepare_transaction (args : RegisterArgs) (update : bool) : outcome string Transaction :=
  env ← Environment_new var;
  let using_anvil := default false (reg_test args) in
  let chain_id := if using_anvil : bool then 31337 else l1_chain env in
  _ ← assert_ (provider_from (reg_rpc_url args));
  wallet ← unwrap (wallet_from_str (reg_private_key args));
  address ← unwrap (parse_h160 (if using_anvil : bool then ANVIL_REGISTRY else peer_registry_address env));
  _ ← unwrap (parse_multiaddr (reg_multiaddr args));
  let _parsed_rpcaddr := validate_url (reg_rpcaddr args) in
  libp2p_keypair ← fetch_secp256k1_keypair generate_keypair env;
  let libp2p_pubkey := hex_encode (keypair_protobuf libp2p_keypair) in
  let peer_id := keypair_peer_id libp2p_keypair in
  rsa_private_key ← fetch_rsa_key var generate_rsa;
  rsa_pubkey ← unwrap (to_pkcs1_pem (rsa_public rsa_private_key));
  Ok {| tx_rpc_url := reg_rpc_url args; tx_chain_id := chain_id; tx_sender := wallet_address wallet;
        tx_contract := address;
        tx_call := {| pc_update := update; pc_peer_id := peer_id; pc_multiaddr := reg_multiaddr args;
                      pc_rpc_addr := reg_rpcaddr args; pc_libp2p_pubkey := libp2p_pubkey;
                      pc_rsa_pubkey := rsa_pubkey |} |}.

(** What comes of sending a transaction: [send] fails, waiting for the receipt fails, there is
    no receipt, or there is one, whose status is that of the execution: 1, or 0 when it was
    reverted. *)
Inductive SendResult := SendFailed | PendingFailed | NoReceipt | Receipt (status : option Z).
(** The three [expect]s; the status of the receipt is not looked at. *)
Definition expect_receipt (r : SendResult) : outcome string (option Z) :=
  match r with
  | Receipt status => Ok status
  | SendFailed | PendingFailed | NoReceipt => Panic
  end.

(** The chains in state [C]. *)
Context {C : Type} (send : Transaction → C → C * SendResult).
Definition register_or_update (args : RegisterArgs) (update : bool) (chain : C) : C * outcome string () :=
  match prepare_transaction args update with
  | Ok tx =>
      let '(chain, result) := send tx chain in
      (chain, _tx_receipt ← expect_receipt result; Ok tt)
  | Err e => (chain, Err e)
  | Panic => (chain, Panic)
  end.
Definition register (args : RegisterArgs) : C → C * outcome string () := register_or_update args false.
Definition update (args : RegisterArgs) : C → C * outcome string () := register_or_update args true.
Definition registry_main (command : Command) : C → C * outcome string () :=
  match command with
  | Register args => register args
  | Update args => update args
  end.
End Registry.

(** ** The entry is read back *)

(** The engines replace a backslash followed by an r; a PEM text has none. *)
Lemma replace_cr_id s : "\"%char ∉ list_ascii_of_string s → replace_cr s = s.
Proof.
  induction s as [|c1 [|c2 s] IH]; intros Hs; [done..|]. cbn [list_ascii_of_string] in Hs.
  apply not_elem_of_cons in Hs as [Hc Hs]. cbn [replace_cr].
  destruct (Ascii.eqb_spec c1 "\"%char) as [->|_]; [done|]. cbn [andb]. f_equal. by apply IH.
Qed.

Section Listed.
Context `{E : Eth} `{R : Rsa} `{RT : !RegistryTexts} `{PT : PeerTexts} `{ET : !EngineTexts} (var : string → option string).
(** The public key and the peer id of a key pair. *)
Context (keypair_public : Keypair → list Z) (keypair_id : Keypair → PeerId).
(** The chains: sending a transaction, and the answer of [getPeers] of the contract at an
    address, asked through the node at a URL; it is [None] where there is no such contract. *)
Context {C : Type} (send : Transaction → C → C * SendResult) (peers_at : C → string → Address → option (list Peer)).

Definition entry (tx : Transaction) : Peer := {|
  pr_addr := tx_sender tx; pr_peer_id := pc_peer_id (tx_call tx); pr_multiaddr := pc_multiaddr (tx_call tx);
  pr_rpc_addr := pc_rpc_addr (tx_call tx); pr_libp2p_pubkey := pc_libp2p_pubkey (tx_call tx);
  pr_rsa_pubkey := pc_rsa_pubkey (tx_call tx) |}.

(** A transaction that was executed on a contract leaves the sender's entry in the list of this
    contract on this chain; a reverted one leaves every list as it was. *)
Hypothesis H_executed : ∀ tx c c' l, send tx c = (c', Receipt (Some 1)) →
  peers_at c' (tx_rpc_url tx) (tx_contract tx) = Some l → entry tx ∈ l.
Hypothesis H_reverted : ∀ tx c c', send tx c = (c', Receipt (Some 0)) → peers_at c' = peers_at c.
Hypothesis H_id : ∀ kp, parse_peer_id (keypair_peer_id kp) = Some (keypair_id kp).
Hypothesis H_protobuf : ∀ kp, Forall is_byte (keypair_protobuf kp) ∧
  decode_public_key (keypair_protobuf kp) = Some (keypair_public kp).
(** An RSA key travels as a text; its PEM form, which has no backslash, reads as the key. *)
Hypothesis H_text : ∀ s, parse_rsa_key s = Some s.
Hypothesis H_pem : ∀ k s, to_pkcs1_pem k = Some s → from_pkcs1_pem s = Ok k ∧ "\"%char ∉ list_ascii_of_string s.

(** The keys a node of this environment starts with. *)
Definition node_keys (kp : Keypair) (sk : RsaPrivateKey) : Prop :=
  ∃ env, Environment_new var = Ok env ∧ fetch_secp256k1_keypair generate_keypair env = Ok kp ∧
    fetch_rsa_key var generate_rsa = Ok sk.

(** The tool and a node with the variables [nvar] mean the same registry: both a local test
    chain, or both the L1 chain with one registry address. *)
Definition same_registry (args : RegisterArgs) (nvar : string → option string) : Prop :=
  if default false (reg_test args) : bool
  then nvar "ANVIL_RPC_FOR_PEER_REGISTRY"%string = Some (reg_rpc_url args)
  else nvar "ANVIL_RPC_FOR_PEER_REGISTRY"%string = None ∧ nvar "L1_RPC"%string = Some (reg_rpc_url args) ∧
    nvar "PEER_REGISTRY_ADDRESS"%string = var "PEER_REGISTRY_ADDRESS"%string.

Lemma prepared_endpoint args up tx nvar nenv : prepare_transaction var args up = Ok tx → same_registry args nvar →
  Environment_new nvar = Ok nenv →
  ∃ address, registry_endpoint nvar nenv = Ok (tx_rpc_url tx, address) ∧ parse_h160 address = Some (tx_contract tx).
Proof using.
  unfold prepare_transaction, same_registry, registry_endpoint. intros (env & Henv & H)%bind_Ok Hsame Hnenv.
  apply bind_Ok in H as ([] & _ & H). apply bind_Ok in H as (wallet & _ & H). apply bind_Ok in H as (addr & Haddr & H).
  apply bind_Ok in H as (ma & _ & H). apply bind_Ok in H as (kp & _ & H). apply bind_Ok in H as (sk & _ & H).
  apply bind_Ok in H as (pem & _ & [= <-]). cbn [tx_rpc_url tx_contract].
  destruct (parse_h160 _) as [h|] eqn:Hp in Haddr; [|done]. injection Haddr as ->.
  destruct (default false (reg_test args)).
  - rewrite Hsame. by exists ANVIL_REGISTRY.
  - destruct Hsame as (-> & -> & Heq). cbn [unwrap mbind outcome_bind]. eexists. split; [reflexivity|].
    rewrite (env_registry_address _ _ Hnenv). rewrite (env_registry_address _ _ Henv) in Hp.
    unfold get_var_or_err in *. by rewrite Heq.
Qed.

(** Whoever reads the entry's list, reads the entry. *)
Lemma read_back args up c c' tx nvar nenv peers voting_power l : prepare_transaction var args up = Ok tx →
  send tx c = (c', Receipt (Some 1)) → same_registry args nvar → Environment_new nvar = Ok nenv →
  get_peers nvar nenv provider_from parse_h160 (peers_at c') = Ok peers →
  fetch_provers_v2 voting_power peers = Ok l → entry tx ∈ peers.
Proof using H_executed.
  intros Htx Hs Hsame Hnenv Hget Hl. destruct (prepared_endpoint _ _ _ _ _ Htx Hsame Hnenv) as (address & Hend & Hpa).
  unfold get_peers in Hget. rewrite Hend in Hget. cbn [mbind outcome_bind] in Hget.
  apply bind_Ok in Hget as ([] & _ & Hget). rewrite Hpa in Hget. cbn [unwrap mbind outcome_bind] in Hget.
  injection Hget as <-. destruct (peers_at c' _ _) as [ps|] eqn:Hps; [by eapply H_executed|].
  by vm_compute in Hl.
Qed.

Lemma prepared_entry args up tx : prepare_transaction var args up = Ok tx →
  ∃ kp sk wallet, node_keys kp sk ∧ wallet_from_str (reg_private_key args) = Some wallet ∧
    tx_sender tx = wallet_address wallet ∧ pc_update (tx_call tx) = up ∧ pc_rpc_addr (tx_call tx) = reg_rpcaddr args ∧
    pc_peer_id (tx_call tx) = keypair_peer_id kp ∧ pc_multiaddr (tx_call tx) = reg_multiaddr args ∧
    is_Some (parse_multiaddr (reg_multiaddr args)) ∧ pc_libp2p_pubkey (tx_call tx) = hex_encode (keypair_protobuf kp) ∧
    to_pkcs1_pem (rsa_public sk) = Some (pc_rsa_pubkey (tx_call tx)).
Proof using.
  unfold prepare_transaction. intros (env & Henv & H)%bind_Ok. apply bind_Ok in H as ([] & _ & H).
  apply bind_Ok in H as (wallet & Hw & H). apply bind_Ok in H as (addr & _ & H). apply bind_Ok in H as (ma & Hma & H).
  apply bind_Ok in H as (kp & Hkp & H). apply bind_Ok in H as (sk & Hsk & H). apply bind_Ok in H as (pem & Hpem & [= <-]).
  destruct (wallet_from_str _) as [wl|] eqn:Hwl; [|done]. injection Hw as ->.
  destruct (parse_multiaddr _) as [m|]; [|done]. destruct (to_pkcs1_pem _) as [s|] eqn:Hs; [|done]. injection Hpem as ->.
  exists kp, sk, wallet. split; [by exists env|]. cbn. split_and!; eauto.
Qed.

(** What a listed entry of this node reads as. *)
Lemma listed_entry args up tx peers voting_power l : prepare_transaction var args up = Ok tx →
  entry tx ∈ peers → fetch_provers_v2 voting_power peers = Ok l →
  ∃ kp sk wallet info i, node_keys kp sk ∧ wallet_from_str (reg_private_key args) = Some wallet ∧
    info ∈ l ∧ idx info = Z.of_nat i ∧ (i < length peers)%nat ∧ evm_address info = wallet_address wallet ∧
    peer_id info = keypair_id kp ∧ human_pub_key info = keypair_public kp ∧
    parse_multiaddr (reg_multiaddr args) = Some (address info) ∧ rpcaddr info = reg_rpcaddr args ∧
    from_pkcs1_pem (replace_cr (rsa_pub_key info)) = Ok (rsa_public sk).
Proof using H_id H_protobuf H_text H_pem.
  intros Htx [i Hi]%list_elem_of_lookup Hl.
  apply prepared_entry in Htx as (kp & sk & wallet & Hkeys & Hw & Hsender & _ & Hrpc & Hpid & Hma & [ma Hmulti] & Hpub & Hpem).
  destruct (H_protobuf kp) as [Hbytes Hdec].
  assert (∃ f, parse_prover_info i (entry tx) = Some f ∧ ∀ power, let info := f power in
    idx info = Z.of_nat i ∧ evm_address info = wallet_address wallet ∧ peer_id info = keypair_id kp ∧
    human_pub_key info = keypair_public kp ∧ address info = ma ∧ rpcaddr info = reg_rpcaddr args ∧
    rsa_pub_key info = pc_rsa_pubkey (tx_call tx)) as (f & Hf & Hfields).
  { unfold parse_prover_info, entry. cbn [pr_peer_id pr_multiaddr pr_libp2p_pubkey pr_rsa_pubkey pr_addr pr_rpc_addr].
    rewrite Hpid, H_id, Hma, Hmulti, Hpub, hex_decode_encode by done. cbn [mbind option_bind].
    rewrite Hdec, H_text. cbn. eexists. split; [reflexivity|]. intros power. cbn. by rewrite Hsender. }
  unfold fetch_provers_v2 in Hl. apply bind_Ok in Hl as (l' & Hl' & Hl). apply bind_Ok in Hl as ([] & _ & [= ->]).
  destruct (prover_infos_spec voting_power peers 0) as [(l0 & Hl0 & Hall)|[Hp _]]; [|congruence].
  assert (l0 = l) as -> by congruence.
  assert ((i, entry tx) ∈ valid_from 0 peers) as Hin.
  { rewrite valid_from_0. unfold valid_peers. apply list_elem_of_filter. split; [cbn [fst snd]; by rewrite Hf|].
    apply list_elem_of_lookup. exists i. by rewrite list_lookup_imap, Hi. }
  apply list_elem_of_lookup in Hin as [j Hj]. destruct (Forall2_lookup_l _ _ _ _ _ Hall Hj) as (info & Hinfo & g & power & Hg & _ & ->).
  cbn [fst snd] in Hg. assert (g = f) as -> by congruence. destruct (Hfields power) as (H1 & H2 & H3 & H4 & H5 & H6 & H7).
  exists kp, sk, wallet, (f power), i. split_and!; try done; [by eapply list_elem_of_lookup_2|by eapply lookup_lt_Some|by rewrite H5|].
  rewrite H7. destruct (H_pem _ _ Hpem) as [Hread Hno]. by rewrite replace_cr_id.
Qed.

(** C30: A node whose registration was executed is a prover the others can work with.  A run of
    the tool, for a registration or an update, ends without a panic exactly when the
    transaction could be prepared and a receipt came, whatever its status.  Suppose it did.
    If the transaction was executed, every list of provers that a node fetches from the registry, when the
    node's variables mean the registry the tool was pointed to (the anvil one in test mode,
    else the address of the environment on the L1 chain), has one with the sender's address, the peer id, the public key and the
    addresses of this node, at the position of its entry; and its RSA key reads, as the
    DKG engines read it, as the one whose private key the node starts with.  If the
    transaction was reverted the registries are as before, although the run ends like a
    successful one.  The address of the node's RPC server is whatever was given: a text that is no URL
    changes nothing else. *)
Theorem registered_prover_listed args up c c' :
  (register_or_update var send args up c = (c', Ok tt) ↔
   ∃ tx status, prepare_transaction var args up = Ok tx ∧ send tx c = (c', Receipt status)) ∧
  ∀ tx status, prepare_transaction var args up = Ok tx → send tx c = (c', Receipt status) →
  (status = Some 1 → ∀ nvar nenv peers voting_power l, same_registry args nvar → Environment_new nvar = Ok nenv →
    get_peers nvar nenv provider_from parse_h160 (peers_at c') = Ok peers →
    fetch_provers_v2 voting_power peers = Ok l →
    ∃ kp sk wallet info i, node_keys kp sk ∧ wallet_from_str (reg_private_key args) = Some wallet ∧
     info ∈ l ∧ idx info = Z.of_nat i ∧ (i < length peers)%nat ∧ evm_address info = wallet_address wallet ∧
     peer_id info = keypair_id kp ∧ human_pub_key info = keypair_public kp ∧
     parse_multiaddr (reg_multiaddr args) = Some (address info) ∧ rpcaddr info = reg_rpcaddr args ∧
     from_pkcs1_pem (replace_cr (rsa_pub_key info)) = Ok (rsa_public sk)) ∧
  (status = Some 0 → peers_at c' = peers_at c) ∧
  ∀ text, is_Ok (prepare_transaction var {| reg_rpc_url := reg_rpc_url args; reg_private_key := reg_private_key args;
                   reg_multiaddr := reg_multiaddr args; reg_rpcaddr := text; reg_test := reg_test args |} up).
Proof using H_executed H_reverted H_id H_protobuf H_text H_pem.
  split.
  - unfold register_or_update. split.
    + destruct (prepare_transaction var args up) as [tx| |] eqn:Htx; [|done..].
      destruct (send tx c) as [c1 []] eqn:Hs; cbn; [done..|]. intros [= ->]. eauto.
    + intros (tx & status & -> & ->). done.
  - intros tx status Htx Hs. split_and!.
    + intros -> nvar nenv peers voting_power l Hsame Hnenv Hget Hl. eapply listed_entry; [done| |done].
      by eapply read_back.
    + intros ->. by eapply H_reverted.
    + intros text. unfold prepare_transaction in Htx |- *. cbn [reg_rpc_url reg_private_key reg_multiaddr reg_rpcaddr reg_test].
      repeat (apply bind_Ok in Htx as (? & Hx & Htx); rewrite Hx; clear Hx; cbn [mbind outcome_bind]). done.
Qed.
End Listed.

(** ** A registry of two nodes *)
Module RegistryExamples.
Import DkgProtocol.
#[local] Existing Instance RequestExamples.toy_eth.
#[local] Existing Instance DkgProtocol.model_rsa.
Fixpoint letters (n : nat) : string := match n with O => EmptyString | S n => String "a" (letters n) end.
#[local] Instance texts : PeerTexts := {|
  parse_peer_id := λ s, Some (Z.of_nat (String.length s)); parse_multiaddr := Some; decode_public_key := Some;
  parse_rsa_key := Some |}.
#[local] Instance engine_texts : EngineTexts := {|
  show_error _ := ""; show_dkg _ := ""; from_pkcs1_pem s := Ok (Z.of_nat (String.length s) : RsaPublicKey) |}.
#[local] Instance registry_texts : RegistryTexts := @Build_RegistryTexts _ _
  (λ _, true) (λ _, Some [1; 2]) (λ a, Some (if bool_decide (a = ANVIL_REGISTRY) then [8] else [9])) (λ _, None) unit (λ _, Some tt) (λ _, [8; 1]) (λ _, "peer"%string)
  (λ _, Some 3) (λ k, if 0 <=? k then Some (letters (Z.to_nat k)) else None).
Definition zeros : string := "0000000000000000000000000000000000000000000000000000000000000000".
Definition var (name : string) : option string :=
  if bool_decide (name = "L1_CHAIN"%string ∨ name = "L2_CHAIN"%string) then Some "1"%string else Some zeros.
(** One chain, with the registry of the L1 chain at address 9 and that of the test chain at 8. *)
Definition Chain : Type := list Peer * list Peer.
Definition peers_at (c : Chain) (url : string) (a : Address) : option (list Peer) :=
  if bool_decide (a = [9]) then Some c.1 else if bool_decide (a = [8]) then Some c.2 else None.
(** A sender registers once: the second registration is reverted. *)
Definition insert_entry (tx : Transaction) (l : list Peer) : option (list Peer) :=
  if existsb (λ p, bool_decide (pr_addr p = tx_sender tx)) l && negb (pc_update (tx_call tx)) then None
  else Some (l ++ [entry tx]).
Definition send (tx : Transaction) (c : Chain) : Chain * SendResult :=
  if bool_decide (tx_contract tx = [9]) then
    match insert_entry tx c.1 with Some l => ((l, c.2), Receipt (Some 1)) | None => (c, Receipt (Some 0)) end
  else if bool_decide (tx_contract tx = [8]) then
    match insert_entry tx c.2 with Some l => ((c.1, l), Receipt (Some 1)) | None => (c, Receipt (Some 0)) end
  else (c, Receipt (Some 1)).
Definition args : RegisterArgs := {|
  reg_rpc_url := "url"; reg_private_key := "key"; reg_multiaddr := "/ip4/10.0.0.1/udp/9000/quic-v1";
  reg_rpcaddr := "not a url"; reg_test := None |}.
Definition before : Chain := ([StartupExamples.peer 1 "one"], []).
(** A node of the network. *)
Definition nvar (name : string) : option string :=
  if bool_decide (name = "ANVIL_RPC_FOR_PEER_REGISTRY"%string) then None
  else if bool_decide (name = "L1_RPC"%string) then Some "url"%string else var name.
Definition after : Chain := (register_or_update var send args false before).1.

Lemma letters_spec n : String.length (letters n) = n ∧ "\"%char ∉ list_ascii_of_string (letters n).
Proof. induction n as [|n [IH1 IH2]]; cbn; [split; [done|apply not_elem_of_nil]|]. rewrite IH1. split; [done|]. by apply not_elem_of_cons. Qed.

(** The first run registers the node; the second is reverted and ends the same way. *)
Lemma registered_prover_listed_witness : ∃ nenv peers l info,
  register_or_update var send args false before = (after, Ok tt) ∧ Environment_new nvar = Ok nenv ∧
  get_peers nvar nenv provider_from parse_h160 (peers_at after) = Ok peers ∧
  fetch_provers_v2 StartupExamples.power peers = Ok l ∧ info ∈ l ∧ rpcaddr info = "not a url"%string ∧
  evm_address info = [1; 2] ∧
  register_or_update var send args false after = (after, Ok tt).
Proof.
  destruct (prepare_transaction var args false) as [tx| |] eqn:Htx; [|by vm_compute in Htx..].
  assert (send tx before = (after, Receipt (Some 1)) ∧ send tx after = (after, Receipt (Some 0))) as [Hs Hs'].
  { vm_compute in Htx. injection Htx as <-. split; vm_compute; reflexivity. }
  destruct (Environment_new nvar) as [nenv| |] eqn:Hn; [|by vm_compute in Hn..].
  destruct (get_peers nvar nenv provider_from parse_h160 (peers_at after)) as [peers| |] eqn:Hp;
    [|vm_compute in Hn; injection Hn as <-; by vm_compute in Hp..].
  destruct (fetch_provers_v2 StartupExamples.power peers) as [l| |] eqn:Hl;
    [|vm_compute in Hn; injection Hn as <-; vm_compute in Hp; injection Hp as <-; by vm_compute in Hl..].
  destruct (registered_prover_listed var (λ _, [8; 1]) (λ _, 4) send peers_at) with (args := args) (up := false)
    (c := before) (c' := after) as [Hrun Hlist].
  - intros tx1 c c1 l1. unfold send, peers_at, insert_entry.
    repeat case_bool_decide; try destruct (existsb _ _ && _); intros [= <-] [= <-]; cbn; set_solver.
  - intros tx1 c c1. unfold send, insert_entry.
    repeat case_bool_decide; try destruct (existsb _ _ && _); by intros [= <-].
  - done.
  - intros []. split; [repeat constructor; unfold is_byte; lia|done].
  - done.
  - intros k s Hk. cbn in Hk. destruct (Z.leb_spec 0 k); [|done]. injection Hk as <-.
    destruct (letters_spec (Z.to_nat k)) as [Hlen Hno]. split; [|done]. cbn. rewrite Hlen. by rewrite Z2Nat.id.
  - destruct (Hlist tx (Some 1) Htx Hs) as [Hread _].
    destruct (Hread eq_refl nvar nenv peers StartupExamples.power l) as
      (kp & sk & wallet & info & i & _ & Hw & Hin & _ & _ & Haddr & _ & _ & _ & Hrpc & _); [|exact Hn|exact Hp|exact Hl|].
    + vm_compute. done.
    + exists nenv, peers, l, info. split_and!; [|reflexivity|exact Hp|exact Hl|exact Hin|exact Hrpc| |].
      * apply Hrun. exists tx, (Some 1). split; [exact Htx|exact Hs].
      * rewrite Haddr. by injection Hw as <-.
      * unfold register_or_update. by rewrite Htx, Hs'.
Defined.
End RegistryExamples.
