(* ===== verification/Observer.v ===== *)
(** * The observer (crates/observer/src)

    The service that checks a Clean Hands proof, stores it with the signed access contract
    as an observation, and has attestations issued for it on Sign Protocol and Verax (EVM)
    or a token minted on Sui.  Its handlers call other services; a handler is a program of
    such calls ([Prog]), so that one request runs against any answers and several requests
    interleave call by call. *)
From Stdlib Require Import ZArith Lia Ascii String.
From stdpp Require Import base list gmap sets strings pretty.
From coqutil Require Import Datatypes.RecordSettersUsingExistingGetters.
Import RecordSetNotations.
From S2P Require Import Prelude PrimeField Curve Schnorr Encryption Serialization ZkMask Request Signer Sdk.

(** custom_errors.rs. *)
Inductive ObserverError := CustomBadRequest (s : string).

(** ** Data *)

(** db.rs. *)
Record ObservationSchema := {
  ob_id : string; user_address : option string; user_sui_address : option string; ob_signature : string;
  access_contract : string; zkp_public_values : list string; ob_order_id : option string
}.
Record EVMRelayerResult := { tx_hash : option string; relay_error : option string }.
Record PostObservationEVMResp := { sign_protocol_result : EVMRelayerResult; verax_result : EVMRelayerResult }.
Record TxDigestSimple := { tx_digest : string }.
Inductive AddressType := EVM | Sui.
Record ParsedZKP := {
  pubkey1 : list Z * list Z; pubkey2 : list Z * list Z; pubkey3 : list Z * list Z;
  zkp_recipient : string; public_values_array : list (list Z); action_id : string;
  action_nullifier : string; expiry : Z
}.
Record GetObservationsQuery := { q_user_address : option string; q_user_sui_address : option string }.
Record ObservationRespItem := {
  it_zkp_public_values : list string; it_access_contract : string; it_signature : string;
  it_user_address : option string; it_user_sui_address : option string
}.
(** sign_protocol.rs. *)
Record EthSignAttestationIndexResponseData := { page : Z; rows : list Value }.
Record EthSignAttestationIndexResponse := {
  message : string; status_code : Z; success : bool; data : EthSignAttestationIndexResponseData
}.
(** [std::process::Output]. *)
Record Output := { stdout : list Z; stderr : list Z }.

(** constants.rs and circuits.rs. *)
Definition CLEAN_HANDS_CIRCUIT_ID : string := "0x2af184333d99b600000000000000000000000000000000000000000000000000".
Definition BABY_JUB_JUB_MODULUS : Z :=
  21888242871839275222246405745257275088548364400416034343698204186575808495617.
Definition HUMAN_PUBKEY : list Z * list Z :=
  ([24; 182; 202; 82; 8; 234; 40; 13; 243; 164; 125; 228; 75; 173; 167; 3; 157; 72; 107; 0; 178; 160; 103; 241;
    124; 31; 81; 105; 201; 239; 121; 27],
   [6; 125; 71; 71; 213; 123; 133; 202; 42; 28; 23; 10; 99; 40; 11; 47; 144; 149; 211; 19; 184; 62; 162; 115; 41;
    121; 251; 198; 66; 156; 28; 249]).
Definition inlabels : list string := ["encryptedTox"; "encryptedToy"; "expiry"; "recipient"; "actionId"].
Definition outlabels : list string :=
  ["actionNullifier"; "issuerAddress"; "pubkey1x"; "pubkey1y"; "ciphertext1x"; "ciphertext1y"; "pubkey2x";
   "pubkey2y"; "ciphertext2x"; "ciphertext2y"; "pubkey3x"; "pubkey3y"; "ciphertext3x"; "ciphertext3y"].
(** [orders::PAYMENT_SALT_STR]. *)
Definition PAYMENT_SALT : Z :=
  22557218514837509687577551223814030923306036243544724208542958861224904505416.

(** The proof system of volonym ([bincode::deserialize], [Verifier::verify] with the public
    values as their 32 bytes), hashes, the point with given coordinates, and texts. *)
Class ObserverLib (C : Curve) := {
  CommitAndProof : Type;
  deserialize_proof : list Z → option CommitAndProof;
  verify_proof : CommitAndProof → option (list (list Z) * list (list Z));
  sha512 : list Z → list Z;
  sha3_256 : list Z → list Z;
  observer_keccak256 : list Z → list Z;
  affine : Z → Z → Point;
  H160_from_str : string → option (list Z);
  (** The address that the EVM branch of [parse_recipient] computes from the recipient in the
      proof and the one of the request.  Its three lines (main.rs:147-149) do not type-check:
      they format the optional recipient as a number and parse the number as a text.  What
      they give is left open. *)
  evm_recipient : list Z → option string → option (list Z);
  U256_from_str : string → option Z;
  signature_to_json : SchnorrSig (C:=C) → option string;
  contract_to_json : list Z → option string;
  json_from_str : string → option Value;
  index_from_json : string → option EthSignAttestationIndexResponse;
  output_utf8 : list Z → option string;
  (** [DateTime::from_timestamp]: the seconds it can represent. *)
  timestamp_in_range : Z → bool
}.

(** ** Calls to other services *)

(** An answer over HTTP: [None] is a failed request, else the status and the body ([None]
    when it cannot be read). *)
Definition HttpReply : Type := option (Z * option string).
Inductive Call :=
  | OrderStatus (digest : string)
  | FulfillOrder (order_id : string)
  | QueryAttestations (attestor indexing_value : string)
  | Upsert (id : string) (doc : ObservationSchema)
  | Find (user_address user_sui_address : option string)
  | IssueSign (recipient action_id action_nullifier : string) (expiry : Z)
  | IssueVerax (recipient action_id : string) (expiry : Z)
  | MintSbt (user_sui_address circuit_id action_id action_nullifier : string) (expiry : Z).
Definition Reply (c : Call) : Type :=
  match c with
  | OrderStatus _ | FulfillOrder _ | QueryAttestations _ _ => HttpReply
  | Upsert _ _ => bool
  | Find _ _ => option (option (list ObservationSchema))
  | IssueSign _ _ _ _ | IssueVerax _ _ _ | MintSbt _ _ _ _ _ => option Output
  end.

Inductive Prog (A : Type) :=
  | Ret (a : A)
  | Act (c : Call) (k : Reply c → Prog A).
Arguments Ret {A} a.
Arguments Act {A} c k.
Fixpoint prog_bind {A B} (f : A → Prog B) (p : Prog A) : Prog B :=
  match p with
  | Ret a => f a
  | Act c k => Act c (λ r, prog_bind f (k r))
  end.

(** A handler: a program that ends in a result or a panic. *)
Definition Handler (A : Type) : Type := Prog (outcome ObserverError A).
#[export] Instance handler_bind : MBind Handler := λ A B f,
  prog_bind (λ o, match o with Ok a => f a | Err e => Ret (Err e) | Panic => Ret Panic end).
Definition lift {A} (o : outcome ObserverError A) : Handler A := Ret o.
Definition call (c : Call) : Handler (Reply c) := Act c (λ r, Ret (Ok r)).
Definition custom_bad_request {A} (s : string) : outcome ObserverError A := Err (CustomBadRequest s).
Definition or_bad {A} (o : option A) (s : string) : outcome ObserverError A := ok_or o (CustomBadRequest s).
Definition guard_ (b : bool) (s : string) : outcome ObserverError unit := if b then Ok tt else custom_bad_request s.

(** ** Pure parts of the handlers *)

(** [BigUint::to_str_radix(10)]. *)
Definition to_decimal (n : Z) : string := pretty n.
(** [trim_start_matches("0x")]: every leading occurrence. *)
Fixpoint trim_0x (s : list ascii) : list ascii :=
  match s with
  | c :: (d :: s') as s0 => if bool_decide (c = "0"%char) && bool_decide (d = "x"%char) then trim_0x s' else s
  | _ => s
  end.

(** [constants::ACCESS_CONDITION_CONTRACTS]. *)
Definition DEFAULT_CONTRACTS : string :=
  "0x69e3373c6165045c3c59a11645415eff8fd15cac,0x3a0d4A524Aa53A29959Aaef1Cff899F35Cc7F766,0xE6BaB4228Ad23D59A1F1D69f1Cb14C2Ba29D91e9".

Record ObserverEnv := {
  CLEAN_HANDS_ISSUER_ADDRESS : string; ACCESS_CONDITION_CONTRACTS : list Address;
  (** [Utc::now] in nanoseconds. *)
  utc_now : Z;
  wallet_address : Address
}.

Section Observer.
Context `{C : Curve} `{HH : Hashes} `{OL : !ObserverLib C}.
Implicit Types (env : ObserverEnv).

Record Observation := {
  commitment_and_proof : list Z;
  contract_and_sig : DecryptionContractSignature (C:=C);
  obs_recipient : option string
}.

Definition access_condition_contracts (var : option string) : outcome string (list Address) :=
  mapM (λ addr, unwrap (H160_from_str (trim addr))) (split "," (default DEFAULT_CONTRACTS var)).

Definition calculate_sui_recipient_commitment (recipient : list Z) : Z :=
  be_val (sha512 recipient) mod BABY_JUB_JUB_MODULUS.

(** [parse_recipient]; the computation of the EVM address is the parameter [evm_recipient]. *)
Definition parse_recipient (recipient_in_proof : list Z) (addr_type : AddressType) (recipient : option string)
    : outcome ObserverError string :=
  match addr_type with
  | EVM =>
      parsed ← or_bad (evm_recipient recipient_in_proof recipient) "Could not parse recipient into H160";
      Ok ("0x" +:+ hex_encode parsed)%string
  | Sui =>
      purported_recipient ← or_bad recipient "Recipient must be provided for Sui";
      if negb (String.length purported_recipient =? 66)%nat
      then custom_bad_request "Invalid Sui recipient address length" else
      bytes ← or_bad (hex_decode (string_of_list_ascii (trim_0x (list_ascii_of_string purported_recipient))))
                "Could not decode recipient hex string";
      if negb (length bytes =? 32)%nat then custom_bad_request "Recipient hex string is not 32 bytes long" else
      let expected_commitment := calculate_sui_recipient_commitment bytes in
      let actual_commitment := be_val recipient_in_proof in
      if negb (expected_commitment =? actual_commitment)
      then custom_bad_request "Recipient commitment in proof does not match the expected recipient commitment"
      else Ok purported_recipient
  end.

(** The public values under their labels; a missing value is an index out of range. *)
Definition label_value (values : list (list Z)) (m : gmap string (list Z)) (il : nat * string)
    : outcome ObserverError (gmap string (list Z)) :=
  v ← unwrap (values !! il.1); Ok (<[il.2 := v]> m).
Definition labelled (labels : list string) (values : list (list Z)) : outcome ObserverError (gmap string (list Z)) :=
  foldM (label_value values) ∅ (imap pair labels).

Definition validate_zkp env (commitment_and_proof : list Z) (addr_type : AddressType) (recipient : option string)
    : outcome ObserverError ParsedZKP :=
  cnp ← or_bad (deserialize_proof commitment_and_proof) "Could not deserialize commitment and proof";
  '(inputs, outputs) ← or_bad (verify_proof cnp) "Could not verify commitment and proof";
  public_inputs ← labelled inlabels inputs;
  public_outputs ← labelled outlabels outputs;
  let public_values_array := inputs ++ outputs in
  issuer_address ← or_bad (public_outputs !! "issuerAddress"%string) "Could not parse issuerAddress";
  _ ← guard_ (bool_decide (to_decimal (be_val issuer_address) = CLEAN_HANDS_ISSUER_ADDRESS env))
        "Issuer address does not match clean hands issuer";
  x ← or_bad (public_inputs !! "encryptedTox"%string) "Could not parse encryptedTox";
  y ← or_bad (public_inputs !! "encryptedToy"%string) "Could not parse encryptedToy";
  _ ← guard_ (bool_decide (x = HUMAN_PUBKEY.1) && bool_decide (y = HUMAN_PUBKEY.2))
        "Public key does not match expected public key";
  expiry ← or_bad (public_inputs !! "expiry"%string) "Could not parse expiry";
  let expiry := be_val expiry in
  _ ← guard_ (expiry <? 2 ^ 63) "Could not convert expiry into i64";
  _ ← guard_ (timestamp_in_range expiry) "Could not parse expiry";
  _ ← guard_ (negb (expiry * 10 ^ 9 <? utc_now env)) "Credentials have expired";
  recipient_in_proof ← or_bad (public_inputs !! "recipient"%string) "Could not parse recipient";
  recipient ← parse_recipient recipient_in_proof addr_type recipient;
  action_id ← or_bad (public_inputs !! "actionId"%string) "Could not parse actionId";
  p1x ← or_bad (public_outputs !! "pubkey1x"%string) "Could not parse pubkey1x";
  p1y ← or_bad (public_outputs !! "pubkey1y"%string) "Could not parse pubkey1y";
  p2x ← or_bad (public_outputs !! "pubkey2x"%string) "Could not parse pubkey2x";
  p2y ← or_bad (public_outputs !! "pubkey2y"%string) "Could not parse pubkey2y";
  p3x ← or_bad (public_outputs !! "pubkey3x"%string) "Could not parse pubkey3x";
  p3y ← or_bad (public_outputs !! "pubkey3y"%string) "Could not parse pubkey3y";
  _ ← guard_ (bool_decide ((p1x, p1y) = (p2x, p2y)) && bool_decide ((p2x, p2y) = (p3x, p3y)))
        "Each c1 must be the same as the rest";
  action_nullifier ← or_bad (public_outputs !! "actionNullifier"%string) "Could not parse actionId";
  Ok {| pubkey1 := (p1x, p1y); pubkey2 := (p2x, p2y); pubkey3 := (p3x, p3y); zkp_recipient := recipient;
        public_values_array := public_values_array; action_id := to_decimal (be_val action_id);
        action_nullifier := "0x" +:+ hex_encode action_nullifier; expiry := expiry |}.

Definition pubkey_point (pubkey1 : list Z * list Z) : Point := affine (be_val pubkey1.1) (be_val pubkey1.2).
Definition verify_access_contract_signature (pubkey1 : list Z * list Z) (body : Observation)
    : outcome ObserverError (SchnorrSig (C:=C)) :=
  let signature := sig (contract_and_sig body) in
  match verify (contract (contract_and_sig body)) (pubkey_point pubkey1) signature with
  | Ok _ => Ok signature
  | Err _ => custom_bad_request "Could not verify signature"
  | Panic => Panic
  end.

Definition get_observation_id (contract : list Z) (recipient action_nullifier : string) : outcome ObserverError string :=
  access_contract ← or_bad (contract_to_json contract) "Could not serialize access contract";
  Ok ("0x" +:+ hex_encode (sha3_256 (as_bytes (recipient +:+ action_nullifier +:+ access_contract))))%string.

Definition parse_relay_output (output : list Z) : option string :=
  output ← output_utf8 output; if bool_decide (output = EmptyString) then None else Some output.

(** ** Orders (orders.rs) *)
Definition u256_to_32bytes (u : Z) : list Z := be_bytes 32 u.
Definition as_u64 (v : Value) : option Z :=
  match v with VNumber n => if (0 <=? n) && (n <? 2 ^ 64) then Some n else None | _ => None end.
Definition order_digest (action_nullifier : Z) : string :=
  let preimage := (action_nullifier + PAYMENT_SALT) mod 2 ^ 256 in
  ("0x" +:+ hex_encode (observer_keccak256 (u256_to_32bytes preimage)))%string.
(** The checks on the body of the status. *)
Definition order_confirmed (order_status : Value) : bool :=
  negb (default 0 (get order_status "txReceipt" ≫= λ r, get r "confirmations" ≫= as_u64) =? 0).
Definition order_fulfilled (order_status : Value) : bool :=
  default false (get order_status "order" ≫= λ o, get o "fulfilled" ≫= as_bool).
Definition check_order_status (reply : HttpReply) : outcome ObserverError unit :=
  '(status, body) ← or_bad reply "Encountered error while trying to query attestation";
  _ ← guard_ (status =? 200) "Order status is not 200";
  body ← or_bad body "Could not parse order response into string";
  order_status ← or_bad (json_from_str body) "Failed to parse order as JSON";
  _ ← guard_ (order_confirmed order_status) "Order is not confirmed yet";
  guard_ (negb (order_fulfilled order_status)) "Order is already fulfilled".
Definition validate_order (action_nullifier : string) : Handler string :=
  n ← lift (or_bad (U256_from_str action_nullifier) "Failed to parse action nullifier into U256");
  let digest := order_digest n in
  reply ← call (OrderStatus digest);
  _ ← lift (check_order_status reply);
  lift (Ok digest).
Definition mark_order_fulfilled (order_id : string) : Handler unit :=
  reply ← call (FulfillOrder order_id);
  lift ('(status, _) ← or_bad reply "Encountered error while trying to query attestation";
        guard_ (status =? 200) "Failed to set order status to fulfilled").

(** ** Attestations (sign_protocol.rs, verax.rs, sui_relayer.rs) *)
Definition index_response (reply : HttpReply) : outcome ObserverError EthSignAttestationIndexResponse :=
  '(status, body) ← or_bad reply "Encountered error while trying to query attestation";
  _ ← guard_ (status =? 200) "Received non 200 HTTP status when querying for attestation";
  body ← or_bad body "Could not parse response to attestation query into string";
  or_bad (index_from_json body) "Could not parse response to attestation query into struct".
Definition get_attestations (attester_addr action_nullifier : string) : Handler EthSignAttestationIndexResponse :=
  reply ← call (QueryAttestations attester_addr action_nullifier);
  lift (index_response reply).
Definition sign_issue_attestation (recipient action_id action_nullifier : string) (expiry : Z) : Handler Output :=
  reply ← call (IssueSign recipient action_id action_nullifier expiry);
  lift (or_bad reply "Encountered an error while trying to issue attestation").
Definition verax_issue_attestation (recipient action_id : string) (expiry : Z) : Handler Output :=
  reply ← call (IssueVerax recipient action_id expiry);
  lift (or_bad reply "Encountered an error while trying to issue attestation").

(** What [mint_sui_sbt] makes of the command's output: [[1]] on a text without the marker
    is out of range. *)
Definition mint_digest (res : Output) : outcome ObserverError string :=
  output ← or_bad (output_utf8 (stdout res)) "Could not parse tx hash";
  _ ← (if bool_decide (stderr res = []) then Ok tt
       else _ ← unwrap (output_utf8 (stderr res));
            guard_ (negb (bool_decide (output = EmptyString))) "Could not mint SUI SBT");
  tail ← unwrap (split_text "Transaction Digest: " output !! 1%nat);
  line ← unwrap (head (split "010"%char tail));
  Ok (trim line).
Definition mint_sui_sbt (user_sui_address circuit_id action_id action_nullifier : string) (expiry : Z)
    : Handler string :=
  reply ← call (MintSbt user_sui_address circuit_id action_id action_nullifier expiry);
  lift (res ← or_bad reply "Could not mint SUI SBT"; mint_digest res).

(** ** Handlers *)
Definition relayer_result (output : Output) : EVMRelayerResult :=
  {| tx_hash := parse_relay_output (stdout output); relay_error := parse_relay_output (stderr output) |}.

(** The proof, the access contract and its signature, which both kinds of request check first. *)
Definition validate_observation env (addr_type : AddressType) (recipient : option string) (body : Observation)
    : outcome ObserverError (ParsedZKP * SchnorrSig (C:=C)) :=
  zkp ← validate_zkp env (commitment_and_proof body) addr_type recipient;
  _ ← guard_ (bool_decide (contract (contract_and_sig body) ∈ ACCESS_CONDITION_CONTRACTS env))
        "Access contract not allowed";
  signature ← verify_access_contract_signature (pubkey1 zkp) body;
  Ok (zkp, signature).

(** The document that is stored. *)
Definition observation_doc (id : string) (addr_type : AddressType) (zkp : ParsedZKP) (signature : SchnorrSig (C:=C))
    (body : Observation) (order_id : option string) : outcome ObserverError ObservationSchema :=
  signature ← or_bad (signature_to_json signature) "Could not serialize signature";
  let recipient := Some (to_lowercase (zkp_recipient zkp)) in
  Ok {| ob_id := id;
        user_address := match addr_type with EVM => recipient | Sui => None end;
        user_sui_address := match addr_type with EVM => None | Sui => recipient end;
        ob_signature := signature; access_contract := "0x" +:+ hex_encode (contract (contract_and_sig body));
        zkp_public_values := hex_encode <$> public_values_array zkp; ob_order_id := order_id |}.

Definition _post_observation env (body : Observation) (validate : bool) : Handler PostObservationEVMResp :=
  '(zkp, signature) ← lift (validate_observation env EVM None body);
  order_id ← (if validate then id ← validate_order (action_nullifier zkp); lift (Ok (Some id)) else lift (Ok None));
  id ← lift (get_observation_id (contract (contract_and_sig body)) (zkp_recipient zkp) (action_nullifier zkp));
  let attester_addr := ("0x" +:+ hex_encode (wallet_address env))%string in
  attestations_resp ← get_attestations attester_addr (action_nullifier zkp);
  _ ← lift (guard_ (negb (0 <? length (rows (data attestations_resp)))%nat)
              "User already has a Clean Hands attestation on Sign Protocol");
  doc ← lift (observation_doc id EVM zkp signature body order_id);
  ok ← call (Upsert id doc);
  _ ← lift (guard_ ok "Failed to insert observation into MongoDB");
  sign_output ← sign_issue_attestation (zkp_recipient zkp) (action_id zkp) (action_nullifier zkp) (expiry zkp);
  let sign_protocol_result := relayer_result sign_output in
  verax_output ← verax_issue_attestation (zkp_recipient zkp) (action_id zkp) (expiry zkp);
  let verax_result := relayer_result verax_output in
  _ ← match order_id, tx_hash sign_protocol_result with
      | Some order_id, Some _ => mark_order_fulfilled order_id
      | _, _ => lift (Ok tt)
      end;
  lift (Ok {| sign_protocol_result := sign_protocol_result; verax_result := verax_result |}).
Definition post_observation env (body : Observation) : Handler PostObservationEVMResp :=
  _post_observation env body false.
Definition post_observation_v2 env (body : Observation) : Handler PostObservationEVMResp :=
  _post_observation env body true.

Definition post_observation_sui env (body : Observation) : Handler TxDigestSimple :=
  '(zkp, signature) ← lift (validate_observation env Sui (obs_recipient body) body);
  id ← lift (get_observation_id (contract (contract_and_sig body)) (zkp_recipient zkp) (action_nullifier zkp));
  doc ← lift (observation_doc id Sui zkp signature body None);
  ok ← call (Upsert id doc);
  _ ← lift (guard_ ok "Failed to upsert observation into MongoDB");
  tx_digest ← mint_sui_sbt (zkp_recipient zkp) CLEAN_HANDS_CIRCUIT_ID (action_id zkp) (action_nullifier zkp) (expiry zkp);
  lift (Ok {| tx_digest := tx_digest |}).

(** Both addresses of a query must parse as an [Address] of twenty bytes. *)
Definition query_address (addr : option string) : outcome ObserverError (option string) :=
  match addr with
  | Some addr => _ ← or_bad (H160_from_str addr) "Invalid user address"; Ok (Some (to_lowercase addr))
  | None => Ok None
  end.
Definition resp_item (doc : ObservationSchema) : ObservationRespItem := {|
  it_zkp_public_values := zkp_public_values doc; it_access_contract := access_contract doc;
  it_signature := ob_signature doc; it_user_address := user_address doc;
  it_user_sui_address := user_sui_address doc |}.
Definition get_observations (query : GetObservationsQuery) : Handler (list ObservationRespItem) :=
  user_address ← lift (query_address (q_user_address query));
  user_sui_address ← lift (query_address (q_user_sui_address query));
  cursor ← call (Find user_address user_sui_address);
  cursor ← lift (or_bad cursor "Failed to query MongoDB");
  observations ← lift (or_bad cursor "Failed to collect observations");
  lift (Ok (resp_item <$> observations)).
End Observer.

(** ** The world of the observer *)

(** The collection, by id; the Sign Protocol attestations issued (recipient and nullifier,
    when the script reports a transaction); the orders marked. *)
Record ObserverWorld := {
  observations : gmap string ObservationSchema;
  issued : list (string * string);
  marked : list string
}.

Section World.
Context `{C : Curve} `{OL : !ObserverLib C}.
(** The answers of the services outside, given what happened so far. *)
Context (outside : ∀ c, ObserverWorld → Reply c).

(** [find] with both fields of the document: a missing address is null. *)
Definition matching (user sui : option string) (m : gmap string ObservationSchema) : list ObservationSchema :=
  filter (λ d, user_address d = user ∧ user_sui_address d = sui) (map_to_list m).*2.

Definition serve (c : Call) (w : ObserverWorld) : Reply c * ObserverWorld :=
  match c return Reply c → Reply c * ObserverWorld with
  | Upsert id doc => λ ok, (ok, if ok then w <| observations ::= <[id := doc]> |> else w)
  | Find user sui => λ r, (match r with
                           | Some (Some _) => Some (Some (matching user sui (observations w)))
                           | _ => r
                           end, w)
  | IssueSign recipient _ nullifier _ => λ r,
      (r, match r ≫= λ o, parse_relay_output (stdout o) with
          | Some _ => w <| issued ::= (λ l, l ++ [(recipient, nullifier)]) |>
          | None => w
          end)
  | FulfillOrder id => λ r,
      (r, match r with
          | Some (status, _) => if status =? 200 then w <| marked ::= (λ l, l ++ [id]) |> else w
          | None => w
          end)
  | _ => λ r, (r, w)
  end (outside c w).

(** One request after the other. *)
Fixpoint run_prog {A} (p : Prog A) (w : ObserverWorld) : A * ObserverWorld :=
  match p with
  | Ret a => (a, w)
  | Act c k => let '(r, w) := serve c w in run_prog (k r) w
  end.
Definition run_requests {A} (l : list (Prog A)) (w : ObserverWorld) : ObserverWorld :=
  foldl (λ w p, (run_prog p w).2) w l.

(** Several requests at once: a schedule says whose next call is served. *)
Definition step_at {A} (i : nat) (st : list (Prog A) * ObserverWorld) : list (Prog A) * ObserverWorld :=
  match st.1 !! i with
  | Some (Act c k) => let '(r, w) := serve c st.2 in (<[i := k r]> st.1, w)
  | _ => st
  end.
Definition run_schedule {A} (schedule : list nat) (st : list (Prog A) * ObserverWorld)
    : list (Prog A) * ObserverWorld := foldl (λ st i, step_at i st) st schedule.
End World.
