(* ===== verification/ObserverProofs.v ===== *)
(** * The observer: what an attestation stands for

    Traces of the handlers of [Observer]: every way the other services may answer.  An
    attestation is issued only for a proof, contract, payment and index that were checked;
    requests served one after the other never attest a nullifier twice; what is stored is
    found again by its EVM address and accepted by the network for decryption. *)
From Stdlib Require Import ZArith Lia Ascii String.
From stdpp Require Import base list gmap sets strings pretty.
From coqutil Require Import Datatypes.RecordSettersUsingExistingGetters.
Import RecordSetNotations.
From S2P Require Import Prelude PrimeField Curve ModelCurve Schnorr Encryption Serialization ZkMask Request Signer Sdk.
From S2P Require Import Observer.

(** ** Traces *)
Record Event := Ev { ev_call : Call; ev_reply : Reply ev_call }.
Fixpoint exec {A} (p : Prog A) (tr : list Event) (a : A) : Prop :=
  match p with
  | Ret x => tr = [] ∧ a = x
  | Act c k => ∃ r tr', tr = Ev c r :: tr' ∧ exec (k r) tr' a
  end.
Lemma exec_bind {A B} (f : A → Prog B) p tr b : exec (prog_bind f p) tr b ↔
  ∃ tr1 tr2 a, tr = tr1 ++ tr2 ∧ exec p tr1 a ∧ exec (f a) tr2 b.
Proof.
  revert tr. induction p as [a|c k IH]; intros tr; cbn.
  - split; [intros H; by exists [], tr, a|]. by intros (tr1 & tr2 & a' & -> & (-> & ->) & H).
  - split.
    + intros (r & tr' & -> & (tr1 & tr2 & a & -> & H1 & H2)%IH). exists (Ev c r :: tr1), tr2, a. naive_solver.
    + intros (tr1 & tr2 & a & -> & (r & tr' & -> & H1) & H2). exists r, (tr' ++ tr2). split; [done|]. apply IH. by exists tr', tr2, a.
Qed.

(** A step of a handler: it ends there, or goes on with a value. *)
Lemma exec_handler {A B} (m : Handler A) (f : A → Handler B) tr b : exec (m ≫= f) tr b →
  (∃ tr1 tr2 a, tr = tr1 ++ tr2 ∧ exec m tr1 (Ok a) ∧ exec (f a) tr2 b) ∨
  (exec m tr (match b with Ok _ => Panic | Err e => Err e | Panic => Panic end) ∧ is_Ok b = false).
Proof.
  intros (tr1 & tr2 & [a|e|] & -> & H1 & H2)%exec_bind; [left; by eauto 10|right..];
    destruct H2 as [-> ->]; by rewrite app_nil_r.
Qed.
Lemma exec_lift {A B} (o : outcome ObserverError A) (f : A → Handler B) tr b : exec (lift o ≫= f) tr b →
  (∃ a, o = Ok a ∧ exec (f a) tr b) ∨ (tr = [] ∧ is_Ok b = false).
Proof. destruct o; cbn; [eauto|right; naive_solver..]. Qed.
Lemma exec_call {B} c (f : Reply c → Handler B) tr b : exec (call c ≫= f) tr b →
  ∃ r tr', tr = Ev c r :: tr' ∧ exec (f r) tr' b.
Proof. cbn. naive_solver. Qed.
(** A call whose answer is checked. *)
Lemma exec_checked {A B} c (g : Reply c → outcome ObserverError A) (f : A → Handler B) tr b :
  exec ((r ← call c; lift (g r)) ≫= f) tr b →
  ∃ r tr', tr = Ev c r :: tr' ∧
    ((∃ a, g r = Ok a ∧ exec (f a) tr' b) ∨ (tr' = [] ∧ is_Ok b = false ∧ is_Ok (g r) = false)).
Proof.
  intros (r & tr' & -> & H). exists r, tr'. split; [done|]. change (exec (lift (g r) ≫= f) tr' b) in H.
  destruct (g r); [left; by eauto|right; destruct H as [-> ->]; by split_and!..].
Qed.

Lemma or_bad_Ok {A} (o : option A) s a : or_bad o s = Ok a ↔ o = Some a.
Proof. unfold or_bad, ok_or. destruct o; naive_solver. Qed.
Lemma guard_Ok b s u : guard_ b s = Ok u ↔ b = true.
Proof. destruct u, b; naive_solver. Qed.
(** Takes apart a successful sequence of checks. *)
Ltac checks H :=
  repeat match type of H with
  | (_ ≫= _) = Ok _ => let x := fresh "x" in let Hx := fresh "Hx" in
      apply bind_Ok in H as (x & Hx & H);
      first [apply or_bad_Ok in Hx | apply guard_Ok in Hx | idtac]
  end.

Section Facts.
Context `{C : Curve} `{HH : Hashes} `{OL : !ObserverLib C}.
Implicit Types (env : ObserverEnv) (body : Observation (C:=C)).

(** ** Public values by label *)
Lemma labelled_step values l labels n m :
  foldM (label_value values) m (imap (λ i l, ((n + i)%nat, l)) (l :: labels)) =
  (v ← unwrap (values !! n); foldM (label_value values) (<[l := v]> m) (imap (λ i l, ((S n + i)%nat, l)) labels)).
Proof.
  assert (imap ((λ i l, ((n + i)%nat, l)) ∘ S) labels = imap (λ i l, ((S n + i)%nat, l)) labels) as Heq
    by (apply imap_ext; intros; cbn; by rewrite Nat.add_succ_r).
  cbn [imap foldM]. rewrite Heq, Nat.add_0_r. unfold label_value at 2. cbn [fst snd]. destruct (values !! n); reflexivity.
Qed.
Lemma labelled_other values labels n m m' l : l ∉ labels →
  foldM (label_value values) m (imap (λ i l, ((n + i)%nat, l)) labels) = Ok m' → m' !! l = m !! l.
Proof.
  revert n m. induction labels as [|l0 labels IH]; intros n m Hl H; [by injection H as ->|].
  rewrite labelled_step in H. destruct (values !! n) as [v|]; [|done]. cbn [unwrap mbind outcome_bind] in H.
  rewrite (IH _ _ ltac:(set_solver) H). apply lookup_insert_ne. set_solver.
Qed.
Lemma labelled_fold values labels n m m' i l : NoDup labels → labels !! i = Some l →
  foldM (label_value values) m (imap (λ i l, ((n + i)%nat, l)) labels) = Ok m' → m' !! l = values !! (n + i)%nat.
Proof.
  intros Hnd. revert n m i. induction Hnd as [|l0 labels Hl0 Hnd IH]; intros n m i Hi H; [done|].
  rewrite labelled_step in H. destruct (values !! n) as [v|] eqn:Hv; [|done]. cbn [unwrap mbind outcome_bind] in H. destruct i as [|i]; cbn in Hi.
  - injection Hi as ->. by rewrite (labelled_other _ _ _ _ _ _ Hl0 H), lookup_insert_eq, Nat.add_0_r, Hv.
  - rewrite (IH _ _ _ Hi H). f_equal. lia.
Qed.
Lemma labelled_lookup labels values m i l : labelled labels values = Ok m → NoDup labels →
  labels !! i = Some l → m !! l = values !! i.
Proof. intros H Hnd Hi. by apply (labelled_fold values labels 0 ∅ m i l Hnd Hi). Qed.

(** What a proof that passes [validate_zkp] shows. *)
Record checked_proof env (proof : list Z) (zkp : ParsedZKP) (inputs outputs : list (list Z)) : Prop := {
  cp_verified : ∃ cnp, deserialize_proof proof = Some cnp ∧ verify_proof cnp = Some (inputs, outputs);
  cp_issuer : to_decimal ∘ be_val <$> outputs !! 1%nat = Some (CLEAN_HANDS_ISSUER_ADDRESS env);
  cp_human : inputs !! 0%nat = Some HUMAN_PUBKEY.1 ∧ inputs !! 1%nat = Some HUMAN_PUBKEY.2;
  cp_expiry : be_val <$> inputs !! 2%nat = Some (expiry zkp) ∧ expiry zkp < 2 ^ 63 ∧ utc_now env ≤ expiry zkp * 10 ^ 9;
  cp_action : to_decimal ∘ be_val <$> inputs !! 4%nat = Some (action_id zkp);
  cp_keys : ∀ i, i ∈ [2; 6; 10]%nat →
    outputs !! i = Some (pubkey1 zkp).1 ∧ outputs !! S i = Some (pubkey1 zkp).2;
  cp_nullifier : (λ n, "0x" +:+ hex_encode n)%string <$> outputs !! 0%nat = Some (action_nullifier zkp);
  cp_values : public_values_array zkp = inputs ++ outputs
}.
Lemma inlabels_NoDup : NoDup inlabels.
Proof. by apply (bool_decide_unpack _); vm_compute. Qed.
Lemma outlabels_NoDup : NoDup outlabels.
Proof. by apply (bool_decide_unpack _); vm_compute. Qed.

Lemma validate_zkp_Ok env proof t r zkp : validate_zkp env proof t r = Ok zkp →
  ∃ inputs outputs rp, checked_proof env proof zkp inputs outputs ∧ inputs !! 3%nat = Some rp ∧
    parse_recipient rp t r = Ok (zkp_recipient zkp).
Proof.
  unfold validate_zkp. intros H. apply bind_Ok in H as (cnp & Hd%or_bad_Ok & H).
  apply bind_Ok in H as ([inputs outputs] & Hv%or_bad_Ok & H).
  apply bind_Ok in H as (pi & Hi & H). apply bind_Ok in H as (po & Ho & H). checks H.
  injection H as <-. exists inputs, outputs.
  assert (∀ i l, inlabels !! i = Some l → pi !! l = inputs !! i) as Hin
    by (intros i l; by apply labelled_lookup, inlabels_NoDup).
  assert (∀ i l, outlabels !! i = Some l → po !! l = outputs !! i) as Hout
    by (intros i l; by apply labelled_lookup, outlabels_NoDup).
  rewrite (Hout 1%nat _ eq_refl) in Hx. rewrite (Hin 0%nat _ eq_refl) in Hx1. rewrite (Hin 1%nat _ eq_refl) in Hx2.
  rewrite (Hin 2%nat _ eq_refl) in Hx4. rewrite (Hin 3%nat _ eq_refl) in Hx8. rewrite (Hin 4%nat _ eq_refl) in Hx10.
  rewrite (Hout 2%nat _ eq_refl) in Hx11. rewrite (Hout 3%nat _ eq_refl) in Hx12. rewrite (Hout 6%nat _ eq_refl) in Hx13.
  rewrite (Hout 7%nat _ eq_refl) in Hx14. rewrite (Hout 10%nat _ eq_refl) in Hx15.
  rewrite (Hout 11%nat _ eq_refl) in Hx16. rewrite (Hout 0%nat _ eq_refl) in Hx18.
  apply andb_true_iff in Hx3 as [->%bool_decide_eq_true ->%bool_decide_eq_true].
  apply andb_true_iff in Hx17 as [[= -> ->]%bool_decide_eq_true [= -> ->]%bool_decide_eq_true].
  apply bool_decide_eq_true in Hx0. apply negb_true_iff, Z.ltb_ge in Hx7. apply Z.ltb_lt in Hx5.
  exists x8. split; [|done]. split; cbn -[HUMAN_PUBKEY].
  - by exists cnp.
  - by rewrite Hx; cbn; rewrite Hx0.
  - done.
  - by rewrite Hx4.
  - by rewrite Hx10.
  - intros i [-> |[-> |[-> |[]%elem_of_nil]%elem_of_cons]%elem_of_cons]%elem_of_cons; done.
  - by rewrite Hx18.
  - done.
Qed.
Lemma validate_observation_Ok env t r body zkp sg : validate_observation env t r body = Ok (zkp, sg) →
  validate_zkp env (commitment_and_proof body) t r = Ok zkp ∧
  contract (contract_and_sig body) ∈ ACCESS_CONDITION_CONTRACTS env ∧
  sg = sig (contract_and_sig body) ∧
  is_Ok (verify (contract (contract_and_sig body)) (pubkey_point (pubkey1 zkp)) sg) = true.
Proof.
  unfold validate_observation. intros H. apply bind_Ok in H as (z & Hz & H).
  apply bind_Ok in H as ([] & ->%guard_Ok%bool_decide_eq_true & H) || apply bind_Ok in H as ([] & Hc%guard_Ok%bool_decide_eq_true & H).
  apply bind_Ok in H as (s & Hs & H). injection H as <- <-. split; [done|]. split; [done|].
  unfold verify_access_contract_signature in Hs. cbn zeta in Hs. destruct (verify _ _ _) eqn:Hv; [|done..].
  injection Hs as <-. by rewrite Hv.
Qed.

(** ** The trace of a request *)

(** Calls that neither attest, mint nor mark. *)
Definition harmless (e : Event) : Prop :=
  match ev_call e with IssueSign _ _ _ _ | MintSbt _ _ _ _ _ | FulfillOrder _ => False | _ => True end.
Definition attester env : string := ("0x" +:+ hex_encode (wallet_address env))%string.

(** An answer that shows the order confirmed on chain and not used yet. *)
Definition order_paid (status : HttpReply) : Prop := ∃ text order, status = Some (200, Some text) ∧
  json_from_str text = Some order ∧ order_fulfilled order = false ∧
  ∃ receipt n, get order "txReceipt" = Some receipt ∧ get receipt "confirmations" = Some (VNumber n) ∧ 0 < n.
Lemma order_confirmed_spec order : order_confirmed order = true →
  ∃ receipt n, get order "txReceipt" = Some receipt ∧ get receipt "confirmations" = Some (VNumber n) ∧ 0 < n.
Proof.
  unfold order_confirmed. destruct (get order "txReceipt") as [receipt|]; [|done]. cbn.
  destruct (get receipt "confirmations") as [[| |n| | |]|] eqn:Hn; try done. cbn.
  destruct ((0 <=? n) && (n <? 2 ^ 64)) eqn:Hr; [|done]. cbn. intros H%negb_true_iff%Z.eqb_neq.
  exists receipt, n. split_and!; [done..|]. lia.
Qed.
Lemma check_order_status_Ok status : check_order_status status = Ok tt → order_paid status.
Proof.
  unfold check_order_status. intros H. apply bind_Ok in H as ([code body] & ->%or_bad_Ok & H).
  apply bind_Ok in H as ([] & ->%guard_Ok%Z.eqb_eq & H). apply bind_Ok in H as (text & ->%or_bad_Ok & H).
  apply bind_Ok in H as (order & Hj%or_bad_Ok & H). apply bind_Ok in H as ([] & Hc%guard_Ok & H).
  apply guard_Ok, negb_true_iff in H. exists text, order. split_and!; [done..|]. by apply order_confirmed_spec.
Qed.

(** What a request that reaches the attestation has done. *)
Record attesting env body (validate : bool) (zkp : ParsedZKP) (order_id : option string) (id : string)
    (doc : ObservationSchema) (tr0 : list Event) : Prop := {
  at_valid : validate_observation env EVM None body = Ok (zkp, sig (contract_and_sig body));
  at_id : get_observation_id (contract (contract_and_sig body)) (zkp_recipient zkp) (action_nullifier zkp) = Ok id;
  at_doc : observation_doc id EVM zkp (sig (contract_and_sig body)) body order_id = Ok doc;
  at_trace : ∃ paid query resp,
    tr0 = paid ++ [Ev (QueryAttestations (attester env) (action_nullifier zkp)) query; Ev (Upsert id doc) true] ∧
    index_response query = Ok resp ∧ rows (data resp) = [] ∧
    if validate then ∃ n status, U256_from_str (action_nullifier zkp) = Some n ∧ order_id = Some (order_digest n) ∧
                       paid = [Ev (OrderStatus (order_digest n)) status] ∧ order_paid status
    else paid = [] ∧ order_id = None
}.
(** What follows the attestation. *)
Definition afterwards (zkp : ParsedZKP) (order_id : option string) (sign : option Output)
    (a : outcome ObserverError PostObservationEVMResp) (rest : list Event) : Prop :=
  (sign = None ∧ rest = [] ∧ is_Ok a = false) ∨
  ∃ out verax later, sign = Some out ∧
    rest = Ev (IssueVerax (zkp_recipient zkp) (action_id zkp) (expiry zkp)) verax :: later ∧
    match verax, order_id, tx_hash (relayer_result out) with
    | None, _, _ => later = [] ∧ is_Ok a = false
    | Some _, Some o, Some _ => ∃ r, later = [Ev (FulfillOrder o) r]
    | Some _, _, _ => later = []
    end.
Lemma paid_trace validate nullifier tr o :
  exec (if validate : bool then id ← validate_order nullifier; lift (Ok (Some id)) else lift (Ok None)) tr o →
  match o with
  | Ok order_id =>
      if validate then ∃ n status, U256_from_str nullifier = Some n ∧ order_id = Some (order_digest n) ∧
                         tr = [Ev (OrderStatus (order_digest n)) status] ∧ order_paid status
      else tr = [] ∧ order_id = None
  | _ => Forall harmless tr
  end.
Proof.
  destruct validate; [|by intros [-> ->]]. unfold validate_order. destruct (U256_from_str nullifier) as [n|]; cbn;
    [|by intros [-> ->]].
  intros (status & tr' & -> & H). destruct (check_order_status status) as [[]|e|] eqn:Hs; cbn in H; destruct H as [-> ->];
    [by eauto 10 using check_order_status_Ok|by repeat constructor..].
Qed.
Lemma post_trace env body validate tr a : exec (_post_observation env body validate) tr a →
  (Forall harmless tr ∧ is_Ok a = false) ∨
  ∃ zkp order_id id doc tr0 sign rest, attesting env body validate zkp order_id id doc tr0 ∧
    tr = tr0 ++ Ev (IssueSign (zkp_recipient zkp) (action_id zkp) (action_nullifier zkp) (expiry zkp)) sign :: rest ∧
    afterwards zkp order_id sign a rest.
Proof.
  unfold _post_observation. intros [([zkp sg] & Hval & H)|[-> Ha]]%exec_lift; [|by left].
  pose proof (validate_observation_Ok _ _ _ _ _ _ Hval) as (_ & _ & -> & _).
  apply exec_handler in H as [(paid & tr1 & order_id & -> & Hpaid & H)|[Hpaid Ha]];
    apply paid_trace in Hpaid; [|left; split; [by destruct a|done]].
  assert (Forall harmless paid) as Hp
    by (destruct validate; [destruct Hpaid as (n & status & _ & _ & -> & _); by repeat constructor|by destruct Hpaid as [-> _]]).
  apply exec_lift in H as [(id & Hid & H)|[-> Ha]]; [|left; by rewrite app_nil_r].
  apply exec_checked in H as (query & tr2 & -> & [(resp & Hq & H)|(-> & Ha & _)]);
    [|left; split; [apply Forall_app; by repeat constructor|done]].
  apply exec_lift in H as [([] & Hrows%guard_Ok & H)|[-> Ha]];
    [|left; split; [apply Forall_app; by repeat constructor|done]].
  apply exec_lift in H as [(doc & Hdoc & H)|[-> Ha]];
    [|left; split; [apply Forall_app; by repeat constructor|done]].
  apply exec_call in H as (ok & tr3 & -> & H).
  apply exec_lift in H as [([] & ->%guard_Ok & H)|[-> Ha]];
    [|left; split; [apply Forall_app; by repeat constructor|done]].
  apply exec_checked in H as (sign & rest & -> & H).
  right. exists zkp, order_id, id, doc, (paid ++ [Ev (QueryAttestations (attester env) (action_nullifier zkp)) query;
    Ev (Upsert id doc) true]), sign, rest. split_and!.
  - split; [done..|]. exists paid, query, resp. split_and!; [done..| |done].
    by destruct (rows (data resp)).
  - by rewrite <- app_assoc.
  - destruct H as [(out & Hout%or_bad_Ok & H)|(-> & Ha & Hn)]; [|by left; destruct sign].
    right. apply exec_checked in H as (verax & later & -> & H). exists out, verax, later. split_and!; [done..|].
    destruct H as [(vout & ->%or_bad_Ok & H)|(-> & Ha & Hn)]; [|by destruct verax].
    destruct order_id as [o|], (tx_hash (relayer_result out)); cbn in H; destruct H as (r & H); try done.
    destruct H as (tr' & -> & H). exists r. f_equal. by destruct (or_bad r _ ≫= _); cbn in H; destruct H as [-> _].
Qed.

Lemma is_Ok_unit {E} (o : outcome E unit) : is_Ok o = true → o = Ok tt.
Proof. by destruct o as [[]| |]. Qed.

(** The network's own check accepts a ciphertext under the proof's key with the contract
    and the signature of the request. *)
Lemma signed_conditions_accepted env t r body zkp sg ct : validate_observation env t r body = Ok (zkp, sg) →
  ephemeral_dh_pubkey ct = pubkey_point (pubkey1 zkp) →
  get_contract_and_pubkey_if_valid {| ciphertext := ct; signed_conditions := contract_and_sig body |}
    = Ok (contract (contract_and_sig body), pubkey_point (pubkey1 zkp)).
Proof.
  intros (_ & _ & -> & Hv)%validate_observation_Ok Hct. unfold get_contract_and_pubkey_if_valid, _verify.
  cbn [ciphertext signed_conditions]. rewrite Hct. by rewrite (is_Ok_unit _ Hv).
Qed.

(** The calls that issue an attestation, and those that mark an order. *)
Definition issues (e : Event) : bool := match ev_call e with IssueSign _ _ _ _ => true | _ => false end.
Definition marks (e : Event) : option string := match ev_call e with FulfillOrder o => Some o | _ => None end.
Lemma harmless_none tr : Forall harmless tr → Forall (λ e, issues e = false ∧ marks e = None) tr.
Proof. intros H. eapply Forall_impl; [exact H|]. by intros [[] r]. Qed.
Lemma attesting_harmless env body validate zkp order_id id doc tr0 :
  attesting env body validate zkp order_id id doc tr0 → Forall harmless tr0.
Proof.
  intros [_ _ _ (paid & query & resp & -> & _ & _ & Hpaid)]. apply Forall_app. split; [|by repeat constructor].
  destruct validate; [destruct Hpaid as (n & st & _ & _ & -> & _); by repeat constructor|by destruct Hpaid as [-> _]].
Qed.
Lemma afterwards_calls zkp order_id sign a rest : afterwards zkp order_id sign a rest →
  Forall (λ e, issues e = false ∧
    ∀ o, marks e = Some o → order_id = Some o ∧ ∃ out, sign = Some out ∧ is_Some (tx_hash (relayer_result out))) rest.
Proof.
  intros [(_ & -> & _)|(out & verax & later & -> & -> & H)]; [done|]. constructor; [done|].
  destruct verax as [v|]; [|by destruct H as [-> _]].
  destruct order_id as [o|]; [|by subst]. destruct (tx_hash (relayer_result out)) as [h|] eqn:Hh; [|by subst].
  destruct H as [r ->]. constructor; [|done]. split; [done|]. intros o' [= <-]. split; [done|]. exists out. by rewrite Hh.
Qed.

(** C18: The observer attests only what it checked.  Whatever the services answer to a request for
    an EVM observation, an attestation on Sign Protocol is asked for at most once, and only if the
    proof verifies, names the issuer, is encrypted to the network's key, has not expired and has one
    ephemeral key in its three ciphertexts; the contract is an allowed one and is signed by that
    key, so that the network's own check accepts any ciphertext under it with this contract; the
    index answered that the nullifier has no attestation; the observation was stored before; and,
    on the paid endpoint, the order derived from the nullifier was confirmed and not
    fulfilled.  The attestation carries the proof's recipient, action, nullifier and expiry, and
    only an order that paid for a reported transaction is marked. *)
Theorem attestation_guarded env body validate tr a :
  exec (_post_observation env body validate) tr a →
  Exists (λ e, issues e = true ∨ is_Some (marks e)) tr →
  ∃ zkp inputs outputs order_id id doc tr0 sign rest,
    checked_proof env (commitment_and_proof body) zkp inputs outputs ∧
    contract (contract_and_sig body) ∈ ACCESS_CONDITION_CONTRACTS env ∧
    (∀ ct, ephemeral_dh_pubkey ct = pubkey_point (pubkey1 zkp) →
       get_contract_and_pubkey_if_valid {| ciphertext := ct; signed_conditions := contract_and_sig body |}
         = Ok (contract (contract_and_sig body), pubkey_point (pubkey1 zkp))) ∧
    attesting env body validate zkp order_id id doc tr0 ∧
    tr = tr0 ++ Ev (IssueSign (zkp_recipient zkp) (action_id zkp) (action_nullifier zkp) (expiry zkp)) sign :: rest ∧
    Forall (λ e, issues e = false) (tr0 ++ rest) ∧
    ∀ e o, e ∈ tr → marks e = Some o →
      order_id = Some o ∧ ∃ out, sign = Some out ∧ is_Some (tx_hash (relayer_result out)).
Proof.
  intros H Hex. destruct (post_trace _ _ _ _ _ H) as [[Hh _]|(zkp & order_id & id & doc & tr0 & sign & rest & Hat & -> & Haf)].
  { apply harmless_none in Hh. apply Exists_exists in Hex as (e & He & Hi). rewrite Forall_forall in Hh.
    destruct (Hh e He) as [H1 H2]. rewrite H1, H2 in Hi. by destruct Hi as [|[? ?]]. }
  pose proof (validate_observation_Ok _ _ _ _ _ _ (at_valid _ _ _ _ _ _ _ _ Hat)) as (Hz & Hc & _ & _).
  destruct (validate_zkp_Ok _ _ _ _ _ Hz) as (inputs & outputs & rp & Hcp & _ & _).
  pose proof (harmless_none _ (attesting_harmless _ _ _ _ _ _ _ _ Hat)) as H0. pose proof (afterwards_calls _ _ _ _ _ Haf) as H1.
  exists zkp, inputs, outputs, order_id, id, doc, tr0, sign, rest. split_and!; [done|done| |done|done| |].
  - intros ct. eapply signed_conditions_accepted, Hat.
  - apply Forall_app. split; eapply Forall_impl; [apply H0| |apply H1|]; by intros e [? _].
  - intros e o [He|[->|He]%elem_of_cons]%elem_of_app Hm; [|done|].
    + rewrite Forall_forall in H0. destruct (H0 e He). congruence.
    + rewrite Forall_forall in H1. by apply (H1 e He).
Qed.
End Facts.

(** ** Requests in the world *)
Section Run.
Context `{C : Curve} `{HH : Hashes} `{OL : !ObserverLib C}.
Context (outside : ∀ c, ObserverWorld → Reply c).
Implicit Types (env : ObserverEnv) (body : Observation (C:=C)) (w : ObserverWorld).

(** The trace that a run leaves. *)
Fixpoint served w (tr : list Event) w' : Prop :=
  match tr with
  | [] => w' = w
  | e :: tr => ev_reply e = (serve outside (ev_call e) w).1 ∧ served (serve outside (ev_call e) w).2 tr w'
  end.
Fixpoint trace {A} (p : Prog A) w : list Event :=
  match p with
  | Ret _ => []
  | Act c k => let '(r, w) := serve outside c w in Ev c r :: trace (k r) w
  end.
Lemma run_served {A} (p : Prog A) w :
  exec p (trace p w) (run_prog outside p w).1 ∧ served w (trace p w) (run_prog outside p w).2.
Proof.
  revert w. induction p as [a|c k IH]; intros w; [done|]. cbn.
  destruct (serve outside c w) as [r w1] eqn:Hs. destruct (IH r w1) as [H1 H2].
  split; [by eauto|]. cbn. by rewrite Hs.
Qed.
Lemma served_app w tr1 tr2 w' : served w (tr1 ++ tr2) w' ↔ ∃ w1, served w tr1 w1 ∧ served w1 tr2 w'.
Proof.
  revert w. induction tr1 as [|e tr1 IH]; intros w; cbn; [naive_solver|]. rewrite IH. naive_solver.
Qed.

(** Which calls change which part of the world. *)
Lemma serve_issued c w : (∀ r i n x, c ≠ IssueSign r i n x) → issued (serve outside c w).2 = issued w.
Proof.
  intros Hc. destruct c; try done; [..|by destruct (Hc _ _ _ _ eq_refl)]; unfold serve; cbn; repeat case_match; done.
Qed.
Lemma served_issued w tr w' : served w tr w' → Forall (λ e, issues e = false) tr → issued w' = issued w.
Proof.
  intros H Hf. revert w H. induction Hf as [|e tr He Hf IH]; intros w H; [by cbn in H; subst|].
  destruct H as [_ H]. rewrite (IH _ H). apply serve_issued. intros r i n x Hc. unfold issues in He. by rewrite Hc in He.
Qed.
Definition stores (e : Event) : bool := match ev_call e with Upsert _ _ => true | _ => false end.
Lemma served_observations w tr w' : served w tr w' → Forall (λ e, stores e = false) tr →
  observations w' = observations w.
Proof.
  intros H Hf. revert w H. induction Hf as [|e tr He Hf IH]; intros w H; [by cbn in H; subst|].
  destruct H as [_ H]. rewrite (IH _ H). destruct e as [[] r]; try done; unfold serve; cbn; repeat case_match; done.
Qed.

(** ** One attestation for a nullifier *)
Context (me : string).
(** The index of Sign Protocol reports the attestations that were issued. *)
Definition index_reports : Prop := ∀ w n resp,
  index_response (outside (QueryAttestations me n) w) = Ok resp → n ∈ (issued w).*2 → rows (data resp) ≠ [].

Lemma post_issued env body validate w : index_reports → attester env = me →
  let w' := (run_prog outside (_post_observation env body validate) w).2 in
  issued w' = issued w ∨
  ∃ zkp, validate_zkp env (commitment_and_proof body) EVM None = Ok zkp ∧
    issued w' = issued w ++ [(zkp_recipient zkp, action_nullifier zkp)] ∧ action_nullifier zkp ∉ (issued w).*2.
Proof.
  intros Hidx Hme w'. destruct (run_served (_post_observation env body validate) w) as [Hex Hs]. fold w' in Hs.
  set (tr := trace _ w) in *. clearbody tr.
  destruct (post_trace _ _ _ _ _ Hex) as [[Hh _]|(zkp & order_id & id & doc & tr0 & sign & rest & Hat & -> & Haf)].
  { left. eapply served_issued; [done|]. apply harmless_none in Hh. eapply Forall_impl; [apply Hh|]. by intros e [? _]. }
  pose proof (harmless_none _ (attesting_harmless _ _ _ _ _ _ _ _ Hat)) as H0. pose proof (afterwards_calls _ _ _ _ _ Haf) as H1.
  apply served_app in Hs as (w1 & Hs0 & Hsign & Hs1). cbn in Hs1.
  assert (issued w1 = issued w) as Hw1
    by (eapply served_issued; [done|]; eapply Forall_impl; [apply H0|]; by intros e [? _]).
  apply served_issued in Hs1; [|eapply Forall_impl; [apply H1|]; by intros e [? _]]. rewrite Hs1.
  destruct Hat as [Hval _ _ (paid & query & resp & -> & Hq & Hrows & _)].
  apply served_app in Hs0 as (w0 & Hp & Hqs & _). cbn in Hqs. rewrite Hme in Hqs.
  assert (issued w0 = issued w) as Hw0.
  { eapply served_issued; [done|]. apply Forall_app in H0 as [H0 _]. eapply Forall_impl; [apply H0|]. by intros e [? _]. }
  unfold serve. cbn. case_match; [|by left]. right. exists zkp.
  split; [by eapply validate_observation_Ok|]. cbn. rewrite Hw1. split; [done|].
  intros Hin. rewrite <- Hw0 in Hin. rewrite Hqs in Hq. by apply (Hidx w0 (action_nullifier zkp) resp).
Qed.

(** C19: One attestation for a nullifier.  While the index of Sign Protocol reports the attestations
    that were issued, requests served one after the other (on both EVM endpoints, with whatever
    answers of the other services, and failures at any call) never have two attestations issued for
    the same nullifier: the attestations issued are those before, then one for each of some of the
    requests, and their nullifiers stay distinct. *)
Theorem one_attestation (reqs : list (ObserverEnv * Observation (C:=C) * bool)) w :
  index_reports → Forall (λ q, attester q.1.1 = me) reqs → NoDup (issued w).*2 →
  let w' := run_requests outside ((λ q, _post_observation q.1.1 q.1.2 q.2) <$> reqs) w in
  NoDup (issued w').*2 ∧ ∃ served, issued w' = issued w ++ served.*2 ∧
    served.*1 `sublist_of` reqs ∧
    Forall (λ s, ∃ zkp, validate_zkp s.1.1.1 (commitment_and_proof s.1.1.2) EVM None = Ok zkp ∧
                        s.2 = (zkp_recipient zkp, action_nullifier zkp)) served.
Proof.
  intros Hidx. revert w. induction reqs as [|[[env body] validate] reqs IH]; intros w Hme Hnd.
  { split; [done|]. exists []. by rewrite app_nil_r. }
  apply Forall_cons in Hme as [Hm Hme]. cbn [fmap list_fmap run_requests foldl].
  pose proof (post_issued env body validate w Hidx Hm) as Hp. cbv zeta in Hp.
  set (w1 := (run_prog outside (_post_observation env body validate) w).2) in *.
  destruct (IH w1 Hme) as (H1 & served & H2 & H3 & H4).
  { destruct Hp as [->|(zkp & _ & -> & Hn)]; [done|]. rewrite fmap_app. apply NoDup_app. split_and!; [done| |by apply NoDup_singleton].
    intros x Hx [=->]%list_elem_of_singleton. done. }
  split; [exact H1|]. destruct Hp as [Hi|(zkp & Hz & Hi & _)].
  - exists served. rewrite <- Hi. split_and!; [done| |done]. by apply sublist_cons.
  - exists (((env, body, validate), (zkp_recipient zkp, action_nullifier zkp)) :: served).
    cbn. split_and!; [|by apply sublist_skip|constructor; [by exists zkp|done]].
    etransitivity; [exact H2|]. rewrite Hi. by rewrite <- app_assoc.
Qed.
End Run.

(** ** Storing and finding *)

(** [H160::from_str] on a text of hexadecimal digits after 0x: twenty bytes, no more and no less;
    and the address of an EVM recipient, which is an [H160], has twenty bytes. *)
Class H160Law {C : Curve} (OL : ObserverLib C) : Prop := {
  H160_hex s bytes : hex_decode s = Some bytes →
    H160_from_str ("0x" +:+ s) = if (length bytes =? 20)%nat then Some bytes else None;
  evm_recipient_bytes rp r bytes : evm_recipient rp r = Some bytes → length bytes = 20%nat ∧ Forall is_byte bytes
}.

Lemma hex_decode_list_length l bytes : hex_decode_list l = Some bytes → length l = (2 * length bytes)%nat.
Proof.
  revert bytes. induction l as [l IH] using (induction_ltof1 _ length). unfold ltof in IH.
  destruct l as [|a [|b l]]; intros bytes; cbn; [by intros [= <-]|done|].
  destruct (hex_value a); cbn; [|done]. destruct (hex_value b); cbn; [|done].
  destruct (hex_decode_list l) as [rest|] eqn:Hl; cbn; [|done]. intros [= <-].
  apply IH in Hl; [|cbn; lia]. cbn. lia.
Qed.
Lemma trim_0x_length l : (length (trim_0x l) ≤ length l)%nat.
Proof.
  induction l as [l IH] using (induction_ltof1 _ length). unfold ltof in IH.
  destruct l as [|a [|b l]]; [done..|]. cbn [trim_0x]. case_match; [|done].
  etransitivity; [apply IH; cbn; lia|cbn; lia].
Qed.
(** A text of 66 characters that leaves 64 was written with one 0x. *)
Lemma trim_0x_once l : length l = 66%nat → length (trim_0x l) = 64%nat → l = "0"%char :: "x"%char :: trim_0x l.
Proof.
  intros Hl Ht. destruct l as [|a [|b l]]; [done..|]. cbn [trim_0x] in *.
  destruct (bool_decide (a = "0"%char) && bool_decide (b = "x"%char)) eqn:Hab; [|cbn in *; lia].
  apply andb_true_iff in Hab as [->%bool_decide_eq_true ->%bool_decide_eq_true]. do 2 f_equal.
  destruct l as [|c [|d l]]; [done..|]. cbn [trim_0x] in *. case_match; [|done].
  pose proof (trim_0x_length l). cbn in Hl. lia.
Qed.

Lemma string_length_ascii s : String.length s = length (list_ascii_of_string s).
Proof. induction s; cbn; congruence. Qed.

Section Find.
Context `{C : Curve} `{HH : Hashes} `{OL : !ObserverLib C} {HL : H160Law OL}.
Context (outside : ∀ c, ObserverWorld → Reply c).
Implicit Types (env : ObserverEnv) (body : Observation (C:=C)) (w : ObserverWorld).

Lemma sui_recipient_not_H160 env proof r zkp : validate_zkp env proof Sui r = Ok zkp →
  H160_from_str (zkp_recipient zkp) = None.
Proof.
  intros (inputs & outputs & rp & _ & _ & H)%validate_zkp_Ok. unfold parse_recipient in H.
  apply bind_Ok in H as (text & Hr%or_bad_Ok & H). destruct (String.length text =? 66)%nat eqn:Hlen; [|done].
  cbn [negb] in H. apply bind_Ok in H as (bytes & Hb%or_bad_Ok & H). destruct (length bytes =? 32)%nat eqn:Hbl; [|done].
  cbn [negb] in H. destruct (_ =? _); [|done]. injection H as <-. apply Nat.eqb_eq in Hlen, Hbl.
  rewrite string_length_ascii in Hlen.
  pose proof Hb as Hb'. unfold hex_decode in Hb'. rewrite list_ascii_of_string_of_list_ascii in Hb'.
  apply hex_decode_list_length in Hb'. rewrite Hbl in Hb'.
  rewrite <- (string_of_list_ascii_of_string text), (trim_0x_once _ Hlen Hb').
  change (H160_from_str ("0x" +:+ string_of_list_ascii (trim_0x (list_ascii_of_string text))) = None).
  by rewrite (H160_hex _ _ Hb), Hbl.
Qed.
Lemma evm_recipient_H160 env proof r zkp : validate_zkp env proof EVM r = Ok zkp →
  is_Some (H160_from_str (zkp_recipient zkp)).
Proof.
  intros (inputs & outputs & rp & _ & _ & H)%validate_zkp_Ok. unfold parse_recipient in H.
  apply bind_Ok in H as (parsed & Hp%or_bad_Ok & H). injection H as <-. apply evm_recipient_bytes in Hp as [Hl Hb].
  rewrite (H160_hex _ parsed) by (by apply hex_decode_encode). by rewrite Hl.
Qed.

(** C32: What the observer stores is found again, for EVM addresses.  After a request for an EVM
    observation that succeeds, a query with the recipient of the attestation answers, and one of the
    observations it gives has the proof's public values, the signed contract, its signature and the
    recipient in lower case, whatever twenty bytes the recipient's address is computed as (that
    computation is a parameter).  A Sui observation cannot be queried: the recipient of a proof that
    passes the checks is never accepted as the query's [user_sui_address]. *)
Theorem observation_roundtrip :
  (∀ env body validate w resp w', run_prog outside (_post_observation env body validate) w = (Ok resp, w') →
     (∀ u s w, ∃ l, outside (Find u s) w = Some (Some l)) →
     ∃ zkp items item, validate_zkp env (commitment_and_proof body) EVM None = Ok zkp ∧
       run_prog outside (get_observations {| q_user_address := Some (zkp_recipient zkp); q_user_sui_address := None |}) w'
         = (Ok items, w') ∧
       item ∈ items ∧ it_user_address item = Some (to_lowercase (zkp_recipient zkp)) ∧
       it_zkp_public_values item = hex_encode <$> public_values_array zkp ∧
       it_access_contract item = ("0x" +:+ hex_encode (contract (contract_and_sig body)))%string ∧
       signature_to_json (sig (contract_and_sig body)) = Some (it_signature item)) ∧
  (∀ env proof r zkp u w, validate_zkp env proof Sui r = Ok zkp → is_Ok (query_address u) = true →
     run_prog outside (get_observations {| q_user_address := u; q_user_sui_address := Some (zkp_recipient zkp) |}) w
       = (Err (CustomBadRequest "Invalid user address"), w)).
Proof.
  split; cycle 1.
  { intros env proof r zkp u w Hz Hu. unfold get_observations. cbn [q_user_address q_user_sui_address].
    destruct (query_address u); [|done..]. cbn. by rewrite (sui_recipient_not_H160 _ _ _ _ Hz). }
  intros env body validate w resp w' Hrun Hfind.
  destruct (run_served outside (_post_observation env body validate) w) as [Hex Hs].
  set (tr := trace outside _ w) in *. clearbody tr. rewrite Hrun in Hex, Hs. cbn in Hex, Hs.
  destruct (post_trace _ _ _ _ _ Hex) as [[_ Ha]|(zkp & order_id & id & doc & tr0 & sign & rest & Hat & -> & Haf)]; [done|].
  destruct Hat as [Hval _ Hdoc (paid & query & iresp & -> & _)].
  apply validate_observation_Ok in Hval as (Hz & _). exists zkp.
  assert (observations w' !! id = Some doc) as Hstored.
  { rewrite <- app_assoc in Hs. apply served_app in Hs as (w0 & _ & _ & Hup & Hs).
    apply served_observations in Hs; [|destruct Haf as [(_ & -> & ?)|(out & verax & later & _ & -> & Hl)];
      [done|repeat constructor; destruct verax, order_id, (tx_hash (relayer_result out)); naive_solver]].
    clear Hex Hrun. rewrite Hs. cbn in Hup |- *. unfold serve. cbn. rewrite <- Hup. apply lookup_insert_eq. }
  destruct (evm_recipient_H160 _ _ _ _ Hz) as [bytes Hb].
  destruct (Hfind (Some (to_lowercase (zkp_recipient zkp))) None w') as [l Hl].
  eexists _, (resp_item doc). split; [done|]. split.
  { unfold get_observations. cbn. rewrite Hb. cbn. rewrite Hl. reflexivity. }
  unfold observation_doc in Hdoc. apply bind_Ok in Hdoc as (sj & Hsj%or_bad_Ok & [= Hd]).
  split; [|by rewrite <- Hd]. apply list_elem_of_fmap. exists doc. split; [done|].
  apply list_elem_of_filter. split; [by rewrite <- Hd|]. apply list_elem_of_fmap. exists (id, doc). split; [done|].
  by apply elem_of_map_to_list.
Qed.
End Find.

(** ** Examples *)
Module ObserverExamples.
Import ModelInstances.
Abbreviation mc := model_curve.

(** A proof is a byte, its nullifier; the key of its ciphertexts is five times the generator. *)
Definition inputs : list (list Z) :=
  [HUMAN_PUBKEY.1; HUMAN_PUBKEY.2; be_bytes 32 2000000000; be_bytes 32 48879; be_bytes 32 77].
Definition outputs (n : Z) : list (list Z) :=
  [be_bytes 32 n; be_bytes 32 12345; be_bytes 32 5; be_bytes 32 0; be_bytes 32 1; be_bytes 32 1; be_bytes 32 5;
   be_bytes 32 0; be_bytes 32 2; be_bytes 32 2; be_bytes 32 5; be_bytes 32 0; be_bytes 32 3; be_bytes 32 3].
Definition strip_0x (s : string) : string :=
  match s with String "0" (String "x" s') => s' | _ => s end.
Definition status (body : string) : Value :=
  VObject [("txReceipt"%string, VObject [("confirmations"%string, VNumber 12)]);
           ("order"%string, VObject [("fulfilled"%string, VBool (bool_decide (body = "fulfilled"%string)))])].
Definition index (n : nat) : EthSignAttestationIndexResponse :=
  {| message := "ok"; status_code := 200; success := true; data := {| page := 1; rows := replicate n VNull |} |}.
#[local] Instance lib : ObserverLib mc := {|
  CommitAndProof := Z;
  deserialize_proof := head;
  verify_proof n := Some (inputs, outputs n);
  sha512 := hash512; sha3_256 := hash256; observer_keccak256 := hash256;
  affine x _ := scalar_mul (Curve:=mc) G (f_of_Z x);
  H160_from_str s := b ← hex_decode (strip_0x s); if (length b =? 20)%nat then Some b else None;
  evm_recipient rp _ := Some (be_bytes 20 (be_val rp));
  U256_from_str s := be_val <$> hex_decode (strip_0x s);
  signature_to_json _ := Some "{}"%string;
  contract_to_json b := Some (hex_encode b);
  json_from_str s := Some (status s);
  index_from_json s := Some (index (String.length s));
  output_utf8 b := Some (hex_encode b);
  timestamp_in_range _ := true
|}.

#[local] Instance lib_law : H160Law lib.
Proof.
  split.
  - intros s bytes Hs. change (H160_from_str ("0x" +:+ s))
      with (b ← hex_decode s; if (length b =? 20)%nat then Some b else None). by rewrite Hs.
  - intros rp r bytes Hb. assert (bytes = be_bytes 20 (be_val rp)) as -> by (by injection Hb).
    split; [apply be_bytes_length|apply be_bytes_byte].
Qed.

Definition env : ObserverEnv := {|
  CLEAN_HANDS_ISSUER_ADDRESS := "12345"; ACCESS_CONDITION_CONTRACTS := [replicate 20 7]; utc_now := 1700000000 * 10 ^ 9;
  wallet_address := replicate 20 9 |}.
Definition body (n : Z) : Observation (C:=mc) := {|
  commitment_and_proof := [n];
  contract_and_sig := {| contract := replicate 20 7; sig := model_sig (replicate 20 7) |}; obs_recipient := None |}.
(** Services that all work; the index reports what was issued. *)
Definition outside (c : Call) (w : ObserverWorld) : Reply c :=
  match c with
  | OrderStatus _ => Some (200, Some "paid"%string)
  | FulfillOrder _ => Some (200, None)
  | QueryAttestations _ n =>
      Some (200, Some (if bool_decide (n ∈ (issued w).*2) then "*"%string else EmptyString))
  | Upsert _ _ => true
  | Find _ _ => Some (Some [])
  | IssueSign _ _ _ _ | IssueVerax _ _ _ | MintSbt _ _ _ _ _ => Some {| stdout := [171]; stderr := [] |}
  end.
Definition empty : ObserverWorld := {| observations := ∅; issued := []; marked := [] |}.
Definition paid := _post_observation env (body 5) true.

Lemma attestation_guarded_witness : ∃ zkp o,
  validate_zkp env [5] EVM None = Ok zkp ∧ action_nullifier zkp = ("0x" +:+ hex_encode (be_bytes 32 5))%string ∧
  Exists (λ e, marks e = Some o) (trace outside paid empty) ∧
  o = order_digest 5 ∧ ∃ out, is_Some (tx_hash (relayer_result out)).
Proof.
  destruct (attestation_guarded env (body 5) true (trace outside paid empty) (run_prog outside paid empty).1
              (proj1 (run_served outside paid empty))) as
    (zkp & i & o & order_id & id & doc & tr0 & sign & rest & _ & _ & _ & Hat & _ & _ & Hm).
  - vm_compute. do 3 right. left. by left.
  - destruct (validate_observation_Ok _ _ _ _ _ _ (at_valid _ _ _ _ _ _ _ _ Hat)) as [Hz _].
    assert (Exists (λ e, marks e = Some (order_digest 5)) (trace outside paid empty)) as He
      by (vm_compute; do 5 right; by left).
    exists zkp, (order_digest 5). split; [exact Hz|]. split; [vm_compute in Hz; by injection Hz as <-|].
    split; [exact He|]. split; [done|]. apply Exists_exists in He as (e & He & Hme).
    destruct (Hm _ _ He Hme) as (_ & out & _ & H). by exists out.
Defined.

Lemma outside_reports : index_reports outside (attester env).
Proof.
  intros w n resp H Hn. unfold outside in H. rewrite bool_decide_eq_true_2 in H by done.
  cbn in H. by injection H as <-.
Qed.
(** Three requests, the first two for one nullifier. *)
Definition reqs : list (ObserverEnv * Observation (C:=mc) * bool) :=
  [(env, body 5, true); (env, body 5, false); (env, body 6, false)].
Lemma one_attestation_witness :
  let w := run_requests outside ((λ q, _post_observation q.1.1 q.1.2 q.2) <$> reqs) empty in
  NoDup (issued w).*2 ∧ length (issued w) = 2%nat.
Proof.
  split; [|vm_compute; reflexivity].
  apply (one_attestation outside (attester env) reqs empty); [apply outside_reports|by repeat constructor|constructor].
Defined.
(** Requests at the same time: both read the index before either attests. *)
Lemma attestation_race :
  let p := _post_observation env (body 5) false in
  (issued (run_schedule outside [0; 1; 0; 1; 0; 1; 0; 1]%nat ([p; p], empty)).2).*2 =
    replicate 2 ("0x" +:+ hex_encode (be_bytes 32 5))%string.
Proof. vm_compute. reflexivity. Qed.

Lemma observation_roundtrip_witness : ∃ items item,
  (run_prog outside (get_observations {| q_user_address := Some "0x000000000000000000000000000000000000beef"%string;
     q_user_sui_address := None |}) (run_prog outside paid empty).2).1 = Ok items ∧ item ∈ items ∧
  it_user_address item = Some "0x000000000000000000000000000000000000beef"%string.
Proof.
  destruct (run_prog outside paid empty) as [[resp| |] w'] eqn:Hrun; [|exfalso; vm_compute in Hrun; discriminate Hrun..].
  unfold paid in Hrun.
  destruct (proj1 (observation_roundtrip (C:=mc) (OL:=lib) outside) env (body 5) true empty resp w' Hrun) as
    (zkp & items & item & Hz & Hget & Hin & Huser & _); [intros u s w; exists []; reflexivity|].
  vm_compute in Hz. injection Hz as <-. exists items, item. split; [exact (f_equal fst Hget)|]. split; [exact Hin|exact Huser].
Defined.
End ObserverExamples.
